(* ===== verification/_CoqProject ===== *)
-Q . S2P
Prelude.v
Varint.v
AddrCache.v
CodeTable.v
Semantics.v
Header.v
WindowEncoder.v
Source.v
Secondary.v
WindowDecoder.v
WindowRoundtrip.v
StreamRoundtrip.v
Kernels.v
HashTables.v
Matching.v
MatchingCorrect.v
Emit.v
Engine.v
Pipeline.v
Rayon.v
Delta.v
DeltaCorrect.v
Seams.v
DecoderSafety.v
StreamSafety.v
Staging.v
Files.v
FileIo.v
ByteSize.v
CliOptions.v
CliCommands.v
Recode.v
Adler.v
Iterator.v
Print.v
Listing.v
Run.v
Termination.v
Fuzz.v
Pieces.v
Portable.v
Size.v
HashingWriter.v
Total.v
Examples.v
Bench.v
FormatTests.v
HashTests.v
FrontTests.v
PropTests.v
