(* ===== verification/Prelude.v ===== *)
(** * Oxidelta: a verification development

    Oxidelta ([src/]) is a VCDIFF (RFC 3284) delta encoder and decoder.  A
    source and a target go through a string matcher ([src/src/hash/]) that
    covers the target by ADD, COPY and RUN instructions; an optimizer and a
    streaming front end ([src/src/compress/]) or a one-shot engine
    ([src/src/engine.rs]) hand them to the format layer ([src/src/vcdiff/]),
    which packs them into opcodes, addresses and literals, frames them as
    windows and writes the stream.  The decoders undo the framing and execute
    the instructions against the source.  Around them stand the file-level API
    ([src/src/io.rs]) and the command line ([src/src/cli.rs]), which also prints,
    recodes and merges deltas.  This library models all of it, from the
    comparison kernels to the files and pipes a process leaves behind, and
    proves that what is encoded is decoded to the target.

    ** How the code is modelled

    - Integers are [Z] with the width of their type written out: [wrap] for
      casts and wrapping operators, [add_w], [sub_w], [mul_w] for the plain
      ones, which panic in a checked build and wrap in a release build.  The
      profile is the class [Build]; [usize] has 64 bits.
    - A computation is a [result]: [Ok], [Err] with the source's error,
      [Panic] (a failed index, slice, assertion or overflow check; an access
      out of bounds in an [unsafe] block counts as one, so that a theorem that
      the code returns [Ok] covers memory safety), or [Diverge].  An
      allocation above [isize::MAX] bytes panics.
    - A reader is the list of bytes left in it, a writer the list of bytes
      written to it; neither has I/O errors of its own, only end of input.  An
      error of the streaming front ends comes with what the writer holds.
    - Files and standard streams are a [World]; a computation on it returns the
      world it leaves, with its error as well, so that a truncated or half
      written output is part of the model.  An open file is its path, and
      files are read when the code reads them, after an output of the same
      name was truncated.  A command is [Ok] for exit code 0 and [Err] for 1.
    - A loop that is not structural takes fuel and returns [Diverge] when it is
      spent.  The fuel is given by the definition that runs the loop, not by
      its caller: the length of the input it consumes plus one (varint bytes,
      opcodes, windows, target positions, chain length).  The theorems show
      [Ok], or that the outcome is not [Diverge], so the fuel is enough; where
      the loop does not end, the theorem shows [Diverge] for every fuel.

    ** Parameters

    Code outside the repository is a class, with its documented behaviour as
    a second class and an instance that satisfies both: [Adler32] (the SIMD
    Adler-32 crate) with [Adler32Laws] (its value fits in 32 bits; the scalar
    fallback of the source is an instance) and [Adler32Spec] (it is the Adler-32
    sum, where a theorem needs its value), [Codecs] (the LZMA and zlib crates) with
    [CodecLaws] (decompressing inverts compressing), [SourceProvider] with
    [SourceLaws] and [SourceData] with [SourceDataLaws] (the traits of the
    source; the implementations for byte slices are modelled and discharge
    the laws), [Os] (which paths open, how many bytes a [read] returns) with
    [OsLaws] (a count within the buffer, 0 at the end only) and [OsWorks] (no
    operation fails), [Rayon] with [RayonLaws] (a parallel map that collects its
    results in order and fails with the failure of some item; any scheduler that
    runs every closure once is an instance), [Write] with [WriteLaws] (a writer
    takes a prefix of what it is given), and [Sha256].  The clock of the benchmark
    is an argument.  Of the compression crates single theorems also assume that
    they return ([codecs_total]), or that what they decompress is a vector
    ([codecs_fit]) of bytes ([codecs_typed]).  [cpu] ranges over the instruction
    sets the kernels dispatch on; the intrinsics are given their documented
    meaning.

    ** The files

    - [Prelude]: results, machine integers, slices, tactics, hints.
    - [Varint] ([vcdiff/varint.rs]), [AddrCache] ([vcdiff/address_cache.rs]),
      [CodeTable] ([vcdiff/code_table.rs]), [Header] ([vcdiff/header.rs]).
    - [Semantics]: the meaning of operations as RFC 3284 defines it
      ([exec_ops]), the reference against which encoder and decoder are
      proved; [valid_insts] says that instructions reproduce a target.
    - [WindowEncoder] ([vcdiff/encoder.rs]), [Source] and [WindowDecoder]
      ([vcdiff/decoder.rs]), [Secondary] ([compress/secondary.rs]).
    - [WindowRoundtrip], [StreamRoundtrip], [DecoderSafety],
      [StreamSafety], [Iterator]: theorems on the format layer.
    - [Kernels] (the comparison kernels of [hash/rolling.rs]), [HashTables]
      (the checksums of [hash/rolling.rs] and [hash/table.rs]), [Matching]
      ([hash/config.rs], [hash/matching.rs]), [MatchingCorrect].
    - [Emit] (the [emit_instructions] of both front ends), [Engine]
      ([engine.rs]), [Pipeline] ([compress/pipeline.rs]), [Rayon] (the parallel
      map), [Delta] ([compress/encoder.rs], [compress/decoder.rs]),
      [DeltaCorrect], [Seams], [Staging].
    - [Adler] (the fallback [compute_adler32] of [vcdiff/decoder.rs] and what the
      checksum detects), [Pieces], [Portable], [Size], [Total]: theorems on the
      front ends.
    - [Files] (the world), [FileIo] and [HashingWriter] ([io.rs]).
    - [cli.rs]: [ByteSize] ([parse_byte_size]), [CliOptions] (arguments,
      [resolve_options], [build_compress_options]), [CliCommands]
      ([cmd_encode], [cmd_decode], [cmd_merge], [cmd_config]), [Recode]
      ([cmd_recode]), [Print] and [Listing] ([cmd_print]), [Run] ([run]),
      [Termination].
    - [Fuzz], [Total]: three targets of [src/fuzz/fuzz_targets].
    - [src/examples]: [Examples] (the programs that show the interfaces),
      [Bench] (the benchmark's runner and analysis, the tracing tools).
    - The crate's tests: [FormatTests] (the modules of [src/src/vcdiff]),
      [HashTests] (the matcher's parts and the optimizer) and
      [FrontTests] (the search, the engine, the streaming front ends, secondary
      compression, files), [PropTests] (the random round trip of [src/tests]).

    ** What is proved

    - End to end: the one-shot engine round-trips every input with a window
      size the decoder accepts ([engine_roundtrip]).  The streaming encoder,
      [encode_all] and [encode_all_parallel] round-trip when the merges of the
      optimizer are safe ([delta_roundtrip], [encode_all_roundtrip],
      [parallel_roundtrip]; [safe_merges] is an executable condition), and
      always at level 0 ([store_roundtrip]).  They are safe for every search
      when the data has no seam, two adjacent runs or the source's end followed
      by the window's start, so a scan of the data without any search decides a
      condition for the round trip ([seamless_roundtrip],
      [seamless_one_shot]).  The condition is exact: encoding always returns a
      delta, [meant] says what each of its windows means, [verdict] what the
      decoder makes of them, and the target comes back if and only if the merges
      are safe ([merges_exact]).  Otherwise decoding fails or gives a target of
      the right length and, with checksums, windows of the right Adler-32
      ([wrong_deltas_detected]), which are never windows of the target changed in
      one byte, or in two less than 65521 apart ([near_miss_rejected]).
    - The delta is a function of the input: it does not depend on how the target
      is cut in calls ([pieces_irrelevant], over the encoder's states,
      [encoder_states]) or on the instruction set of the machine
      ([deltas_portable]).  Its size is bounded ([delta_size]).
    - Through files and pipes: [encode_file] and [decode_file] restore the
      target and agree on their statistics ([file_roundtrip]); damage behind
      the good windows of a delta file does not reach back, and decoding it
      ends with a result or an error when its lengths are tame
      ([decode_file_prefix]); [encode_file] onto its own target destroys it
      ([encode_over_target]); the digest of a decoded file is of the bytes written
      ([hash_of_output]).  Any [decode] process given what an [encode]
      process wrote writes the target ([cli_roundtrip]).
    - The other commands: [recode] gives a delta with the same meaning
      ([recode_preserves], a simulation of the decoder on both), [merge] the
      composition of its patches ([merge_composes]), [headers] and [delta]
      print what was encoded ([print_lists], over [iterator_lists]); no file
      makes a command that reads a delta loop ([readers_end]); sizes are parsed
      exactly ([parse_byte_size_exact]).  Two options do not do what they say
      ([check_only_truncates], [merge_stdout_when_quiet]).
    - The optimizer's result is valid exactly under that condition
      ([optimize_correct]), and it can fail: adjacent RUNs of
      different bytes are merged, as a concrete target shows
      ([adjacent_runs_corrupted]), and COPYs that meet at the end of the source
      are merged and rejected by the decoder, whenever the search of the first
      window finds them ([boundary_copies_rejected]).
    - The format layer refines [exec_ops]: whatever windows of operations are
      encoded, the decoder returns what the semantics assigns to them
      ([stream_roundtrip]), by way of the round trips of integers, addresses,
      headers, opcodes and compressed sections.
    - The decoder on hostile input: a delta is [tame] when its application
      header stays below 2^63 bytes and, in every window a decoder can meet, the
      sections and the fields of the copy window stay below 2^61, the
      instructions take at most 2^28 bytes decompressed and the other two
      sections less than 2^62.  Decoding any tame delta below 64 GiB returns an
      error, or windows that account for every byte of it, each of the announced
      length and checksum ([decode_safe]).  On such input [decode_all], which appends to one vector,
      and [DeltaDecoder], which stages each window in a buffer, end the same way,
      with the same output or the same error, and on an error the writer holds
      the windows before it ([decoders_agree]).  Lengths near the top of their type panic
      ([header_lengths_panic], [copy_window_offset_panics],
      [decode_fuzz_panics]).
    - The matcher terminates without a panic or an access out of bounds and
      its instructions reproduce the target, none shorter than [MIN_MATCH] for a
      COPY and [MIN_RUN] for a RUN ([find_matches_correct]), for
      every kernel the CPU may select ([match_kernels_correct],
      [run_kernels_correct]) and over the hash tables' contracts
      ([small_table_correct], [large_table_correct], [large_checksum_rolls]).
    - Programs around the library: two fuzz targets pass, on inputs of at most
      16 MiB ([roundtrip_fuzz_passes]) and below 2 EiB
      ([encoder_decoder_fuzz_passes]); the examples run
      ([examples_run], [pipeline_restores]), one of them printing a note that does
      not hold ([xor_backend_unused]); the tools list and compare deltas exactly
      ([delta_analyzed], [comparison_exact], [bench_rust_reports]) and rebuild the
      matcher's index ([earliest_position_wins]).
    - The crate's tests pass: those of the format and of the matcher's parts by
      running them ([format_tests_pass], [hash_tests_pass]), those that search and
      encode by the theorems above, for every CPU, checksum and codec with the
      laws ([matching_tests_pass], [engine_tests_pass], [encoder_tests_pass],
      [decoder_tests_pass], [secondary_tests_pass], [io_tests_pass]).  The round trip the random tests
      state holds without seams ([prop_roundtrip_holds]), not in general
      ([prop_roundtrip_fails]).
    - Smaller contracts: minimality of integers and addresses, exactness of
      the readers, a zero window size that never ends, a window count that
      is one short for an empty target.

    Bounds: sources and targets stay below 2^62 bytes and a window below
    [HARD_MAX_WINSIZE] (the decoder's limit), so that sums of positions stay in
    64 bits.

    ** What is not modelled

    The parsing of the argument vector by [clap]; messages and statistics on
    standard error; errors of writing, flushing and reading metadata; links
    between paths; error messages and [Display]; the prefetch hints (they have
    no value).  Of [src/examples]: the calls of the C library, time, and the
    reports that are only printed; [src/benches] is criterion's harness around
    calls modelled here.  The fuzz target [parser_fuzz] only runs [clap].  Of the
    tests: those that run [clap], the C library or the binary; those that compare
    the size of a delta or of compressed data with the data's (sizes the laws of
    the codecs do not bound; the search's own bound is [delta_size]); those on
    more than 4 KiB of data and on generated data, too large to be evaluated in
    the kernel; the test that decodes window by window; and of [src/tests] all
    but the random round trip, most of them round trips of given inputs like
    those of the unit tests. *)

From stdpp Require Import base numbers list option.
From Stdlib Require Import ZArith Lia.

Local Open Scope Z_scope.

(** ** Build profile

    [Cargo.toml] leaves [overflow-checks] and [debug-assertions] at their
    defaults: on in the dev and test profiles, off in the release profiles.
    Every definition whose behaviour differs takes the profile as a class
    argument, so the theorems below hold in both. *)

Class Build := { debug_build : bool }.

(** ** Outcomes of a Rust computation *)

Inductive result (E A : Type) : Type :=
  | Ok (a : A)          (* the value, or [Result::Ok] *)
  | Err (e : E)         (* [Result::Err] *)
  | Panic               (* an index, a slice or an overflow check failed *)
  | Diverge.            (* a loop was still running when its fuel was spent *)

Arguments Ok {E A} a.
Arguments Err {E A} e.
Arguments Panic {E A}.
Arguments Diverge {E A}.

Definition bind {E A B} (m : result E A) (k : A -> result E B) : result E B :=
  match m with
  | Ok a => k a
  | Err e => Err e
  | Panic => Panic
  | Diverge => Diverge
  end.

(** [Result::map_err]. *)
Definition map_err {E F A} (f : E -> F) (m : result E A) : result F A :=
  match m with
  | Ok a => Ok a
  | Err e => Err (f e)
  | Panic => Panic
  | Diverge => Diverge
  end.

(** [Option::unwrap_or]. *)
Definition unwrap_or {A} (o : option A) (d : A) : A :=
  match o with Some a => a | None => d end.

Declare Scope rust_scope.
Delimit Scope rust_scope with rust.

Notation "'let*' x ':=' m 'in' k" := (bind m (fun x => k))
  (at level 10, x pattern, m at level 100, k at level 200) : rust_scope.

Local Open Scope rust_scope.

(** ** Machine integers

    A [w]-bit unsigned integer is a [Z] in [0, 2^w).  [usize] is 64 bits wide
    on every target the crate is released for. *)

Definition in_range (w z : Z) : Prop := 0 <= z < 2 ^ w.

Abbreviation is_u8 := (in_range 8).
Abbreviation is_u32 := (in_range 32).
Abbreviation is_u64 := (in_range 64).

Definition in_rangeb (w z : Z) : bool := (0 <=? z) && (z <? 2 ^ w).

(** [x as uw]: keep the low [w] bits. *)
Definition wrap (w z : Z) : Z := z mod 2 ^ w.

Section Arith.
Context {B : Build} {E : Type}.

(** The result of a built-in arithmetic operator on [uw]. *)
Definition narrow (w z : Z) : result E Z :=
  if in_rangeb w z then Ok z
  else if debug_build then Panic else Ok (wrap w z).

Definition add_w (w a b : Z) : result E Z := narrow w (a + b).
Definition sub_w (w a b : Z) : result E Z := narrow w (a - b).
Definition mul_w (w a b : Z) : result E Z := narrow w (a * b).

(** [debug_assert!]. *)
Definition debug_assert (b : bool) : result E unit :=
  if debug_build && negb b then Panic else Ok tt.
End Arith.

(** ** Byte strings *)

Abbreviation bytes := (list Z).

Definition wf_bytes (l : bytes) : Prop := Forall is_u8 l.

Definition lenZ {A} (l : list A) : Z := Z.of_nat (length l).

Section Slices.
Context {E A : Type}.

(** [l[i]]: panics out of range. *)
Definition index (l : list A) (i : Z) : result E A :=
  if i <? 0 then Panic
  else match l !! Z.to_nat i with Some x => Ok x | None => Panic end.

(** [l[i] = x]: panics out of range. *)
Definition store (l : list A) (i : Z) (x : A) : result E (list A) :=
  if (0 <=? i) && (i <? lenZ l) then Ok (<[Z.to_nat i := x]> l) else Panic.

(** [&l[a..b]]: panics unless [a <= b <= l.len()]. *)
Definition slice (l : list A) (a b : Z) : result E (list A) :=
  if (0 <=? a) && (a <=? b) && (b <=? lenZ l)
  then Ok (take (Z.to_nat (b - a)) (drop (Z.to_nat a) l))
  else Panic.

(** [&l[a..]]. *)
Definition slice_from (l : list A) (a : Z) : result E (list A) :=
  slice l a (lenZ l).
End Slices.

(** [for x in l { body }], threading the loop's state. *)
Fixpoint for_in {E A S} (l : list A) (body : A -> S -> result E S) (s : S) : result E S :=
  match l with
  | [] => Ok s
  | x :: l => let* s := body x s in for_in l body s
  end.

Lemma for_in_app {E A S} (l k : list A) (body : A -> S -> result E S) s :
  for_in (l ++ k) body s = let* s := for_in l body s in for_in k body s.
Proof. revert s. induction l as [|x l IH]; intros s; simpl; [done|]. destruct (body x s); simpl; auto. Qed.

(** The range [a..b]. *)
Definition range (a b : Z) : list Z := seqZ a (b - a).

(** [Vec::resize]. *)
Definition resize {A} (l : list A) (n : Z) (x : A) : list A :=
  take (Z.to_nat n) l ++ replicate (Z.to_nat n - length l) x.

(** ** Tactics *)

(** Arithmetic with quotients and remainders by constants. *)
Ltac dlia := Z.to_euclidean_division_equations; lia.

(** Split on the boolean tests of the goal and hypotheses, as propositions. *)
Ltac case_bool :=
  match goal with
  | |- context [Z.eqb ?a ?b] => destruct (Z.eqb_spec a b)
  | |- context [Z.ltb ?a ?b] => destruct (Z.ltb_spec a b)
  | |- context [Z.leb ?a ?b] => destruct (Z.leb_spec a b)
  | H : context [Z.eqb ?a ?b] |- _ => destruct (Z.eqb_spec a b)
  | H : context [Z.ltb ?a ?b] |- _ => destruct (Z.ltb_spec a b)
  | H : context [Z.leb ?a ?b] |- _ => destruct (Z.leb_spec a b)
  end.

(** Two values that agree by arithmetic. *)
Ltac ok_lia :=
  match goal with |- Ok _ = Ok _ => apply (f_equal Ok); lia end.

(** ** Lemmas on outcomes *)

Lemma bind_ok {E A B} (a : A) (k : A -> result E B) : bind (Ok a) k = k a.
Proof. reflexivity. Qed.

Lemma bind_ok_inv {E A B} (m : result E A) (k : A -> result E B) b :
  bind m k = Ok b -> exists a, m = Ok a /\ k a = Ok b.
Proof. destruct m; simpl; try discriminate. eauto. Qed.

(** [Option::is_some]. *)
Definition is_some {A} (o : option A) : bool := match o with Some _ => true | None => false end.

(** Whether a computation returns, to be decided by running it. *)
Definition returns {E A} (m : result E A) : bool := match m with Ok _ => true | _ => false end.

Lemma returns_ok {E A} (m : result E A) : returns m = true -> exists a, m = Ok a.
Proof. destruct m; try discriminate. eauto. Qed.

(** Step through the [let*]s of a hypothesis [H : ... = Ok _]. *)
Ltac inv_bind H :=
  repeat match type of H with
  | bind _ _ = Ok _ =>
      let a := fresh "a" in let Ha := fresh "Ha" in
      apply bind_ok_inv in H; destruct H as (a & Ha & H)
  end.

(** ** Lemmas on machine integers *)

Lemma in_rangeb_spec w z : in_rangeb w z = true <-> in_range w z.
Proof. unfold in_rangeb, in_range. lia. Qed.

Lemma wrap_small w z : in_range w z -> wrap w z = z.
Proof. unfold in_range, wrap. apply Z.mod_small. Qed.

Lemma wrap_range w z : 0 <= w -> in_range w (wrap w z).
Proof.
  intros. unfold in_range, wrap. apply Z.mod_pos_bound.
  apply Z.pow_pos_nonneg; lia.
Qed.

Lemma in_range_weaken v w z : 0 <= v <= w -> in_range v z -> in_range w z.
Proof.
  unfold in_range. intros Hvw [? ?]. split; [lia|].
  apply Z.lt_le_trans with (2 ^ v); [lia|]. apply Z.pow_le_mono_r; lia.
Qed.

Lemma in_range_0 w : 0 <= w -> in_range w 0.
Proof. intros. split; [lia|]. apply Z.pow_pos_nonneg; lia. Qed.

Lemma zero_u64 : is_u64 0.
Proof. by apply in_range_0. Qed.

Lemma zero_u32 : is_u32 0.
Proof. by apply in_range_0. Qed.

Lemma narrow_ok {B : Build} {E} w z : in_range w z -> narrow (E:=E) w z = Ok z.
Proof.
  intros H. unfold narrow. by rewrite (proj2 (in_rangeb_spec w z) H).
Qed.

Lemma add_w_ok {B : Build} {E} w a b :
  in_range w (a + b) -> add_w (E:=E) w a b = Ok (a + b).
Proof. apply narrow_ok. Qed.

Lemma sub_w_ok {B : Build} {E} w a b :
  in_range w (a - b) -> sub_w (E:=E) w a b = Ok (a - b).
Proof. apply narrow_ok. Qed.

Lemma mul_w_ok {B : Build} {E} w a b :
  in_range w (a * b) -> mul_w (E:=E) w a b = Ok (a * b).
Proof. apply narrow_ok. Qed.

Lemma add_w_overflow {B : Build} {E} w a b :
  2 ^ w <= a + b ->
  add_w (E:=E) w a b = if debug_build then Panic else Ok (wrap w (a + b)).
Proof.
  intros H. unfold add_w, narrow, in_rangeb. by rewrite (proj2 (Z.ltb_ge _ _)), andb_false_r by lia.
Qed.

Lemma debug_assert_ok {B : Build} {E} b : b = true -> debug_assert (E:=E) b = Ok tt.
Proof. intros ->. unfold debug_assert. by rewrite andb_false_r. Qed.

(** ** Bit operations as arithmetic *)

Lemma land_low (x n : Z) : 0 <= n -> Z.land x (2 ^ n - 1) = x mod 2 ^ n.
Proof.
  intros. rewrite <- Z.land_ones by lia. f_equal.
  rewrite Z.ones_equiv. lia.
Qed.

Lemma testbit_high (b n i : Z) : 0 <= n <= i -> in_range n b -> Z.testbit b i = false.
Proof.
  intros Hn Hb. rewrite <- (wrap_small n b Hb). unfold wrap.
  by apply Z.mod_pow2_bits_high.
Qed.

Lemma lor_add (a b : Z) : Z.land a b = 0 -> Z.lor a b = a + b.
Proof. intros H. by rewrite Z.add_nocarry_lxor, Z.lxor_lor. Qed.

Lemma lor_shiftl_add (a b n : Z) :
  0 <= n -> in_range n b -> Z.lor (Z.shiftl a n) b = a * 2 ^ n + b.
Proof.
  intros Hn Hb. rewrite lor_add; [by rewrite Z.shiftl_mul_pow2 by lia|].
  apply Z.bits_inj'. intros i Hi. rewrite Z.land_spec, Z.bits_0.
  destruct (Z.lt_ge_cases i n).
  - by rewrite Z.shiftl_spec_low.
  - rewrite (testbit_high b n i) by (done || lia). apply andb_false_r.
Qed.

(** Masking the bits [k .. w) of a [w]-bit integer. *)
Lemma land_high_mask (w k v : Z) :
  0 <= k <= w -> in_range w v -> Z.land v (2 ^ w - 2 ^ k) = (v / 2 ^ k) * 2 ^ k.
Proof.
  intros Hk Hv.
  assert (2 ^ w - 2 ^ k = Z.shiftl (Z.ones (w - k)) k) as ->.
  { rewrite Z.ones_equiv, Z.shiftl_mul_pow2 by lia.
    rewrite <- (Z.sub_add k w) at 1. rewrite Z.pow_add_r by lia. unfold Z.pred. ring. }
  rewrite <- Z.shiftr_div_pow2, <- Z.shiftl_mul_pow2 by lia.
  apply Z.bits_inj'. intros i Hi. rewrite Z.land_spec.
  destruct (Z.lt_ge_cases i k).
  - rewrite !Z.shiftl_spec_low by lia. apply andb_false_r.
  - rewrite !Z.shiftl_spec_high, Z.shiftr_spec by lia.
    replace (i - k + k) with i by lia. destruct (Z.lt_ge_cases i w).
    + rewrite Z.ones_spec_low by lia. apply andb_true_r.
    + by rewrite (testbit_high v w i) by (done || lia).
Qed.

Lemma high_mask_zero (w k v : Z) :
  0 <= k <= w -> in_range w v -> (Z.land v (2 ^ w - 2 ^ k) =? 0) = (v <? 2 ^ k).
Proof.
  intros Hk Hv. rewrite land_high_mask by done. unfold in_range in Hv.
  assert (0 < 2 ^ k) by (apply Z.pow_pos_nonneg; lia).
  destruct (Z.ltb_spec v (2 ^ k)).
  - rewrite Z.div_small by lia. done.
  - apply Z.eqb_neq. assert (1 <= v / 2 ^ k) by (apply Z.div_le_lower_bound; lia). nia.
Qed.

(** Testing one flag of an indicator byte. *)
Lemma land_flag (x n : Z) :
  0 <= n -> negb (Z.land x (2 ^ n) =? 0) = Z.testbit x n.
Proof.
  intros Hn. destruct (Z.testbit x n) eqn:Hb.
  - apply negb_true_iff, Z.eqb_neq. intros H0.
    apply (f_equal (fun z => Z.testbit z n)) in H0.
    rewrite Z.land_spec, Hb, Z.pow2_bits_true, Z.bits_0 in H0 by lia. done.
  - apply negb_false_iff, Z.eqb_eq, Z.bits_inj'. intros i Hi.
    rewrite Z.land_spec, Z.bits_0. destruct (decide (i = n)) as [->|].
    + by rewrite Hb.
    + rewrite Z.pow2_bits_false by done. apply andb_false_r.
Qed.

(** ** Lemmas on byte strings *)

Lemma lenZ_nonneg {A} (l : list A) : 0 <= lenZ l.
Proof. unfold lenZ. lia. Qed.

Lemma lenZ_app {A} (l k : list A) : lenZ (l ++ k) = lenZ l + lenZ k.
Proof. unfold lenZ. rewrite length_app. lia. Qed.

Lemma lenZ_cons {A} (x : A) (l : list A) : lenZ (x :: l) = 1 + lenZ l.
Proof. unfold lenZ. simpl. lia. Qed.

Lemma lenZ_nil {A} : lenZ (@nil A) = 0.
Proof. done. Qed.

Lemma lenZ_replicate {A} n (x : A) : lenZ (replicate n x) = Z.of_nat n.
Proof. unfold lenZ. by rewrite length_replicate. Qed.

Lemma lenZ_to_nat {A} (l : list A) : Z.to_nat (lenZ l) = length l.
Proof. unfold lenZ. lia. Qed.

Lemma slice_from_app {E A} (l k : list A) :
  slice_from (E:=E) (l ++ k) (lenZ l) = Ok k.
Proof.
  unfold slice_from, slice. rewrite lenZ_app.
  pose proof (lenZ_nonneg l). pose proof (lenZ_nonneg k).
  rewrite !(proj2 (Z.leb_le _ _)) by lia. cbn [andb]. f_equal.
  rewrite lenZ_to_nat, drop_app_length. apply take_ge. unfold lenZ. lia.
Qed.

Lemma slice_app {E A} (l m k : list A) :
  slice (E:=E) (l ++ m ++ k) (lenZ l) (lenZ l + lenZ m) = Ok m.
Proof.
  unfold slice. rewrite !lenZ_app.
  pose proof (lenZ_nonneg l). pose proof (lenZ_nonneg m). pose proof (lenZ_nonneg k).
  rewrite !(proj2 (Z.leb_le _ _)) by lia. cbn [andb]. f_equal.
  rewrite lenZ_to_nat, drop_app_length.
  replace (lenZ l + lenZ m - lenZ l) with (lenZ m) by lia.
  rewrite lenZ_to_nat. apply take_app_length.
Qed.

Lemma index_app {E A} (l k : list A) x :
  index (E:=E) (l ++ x :: k) (lenZ l) = Ok x.
Proof.
  unfold index. pose proof (lenZ_nonneg l).
  rewrite (proj2 (Z.ltb_ge _ _)) by lia.
  by rewrite lenZ_to_nat, list_lookup_middle.
Qed.

Lemma index_lookup {E A} (l : list A) (i : Z) x :
  0 <= i -> l !! Z.to_nat i = Some x -> index (E:=E) l i = Ok x.
Proof. intros ? H. unfold index. by rewrite (proj2 (Z.ltb_ge _ _)), H by lia. Qed.

Lemma index_ok {E A} (l : list A) (i : Z) :
  0 <= i < lenZ l -> exists x, l !! Z.to_nat i = Some x /\ index (E:=E) l i = Ok x.
Proof.
  intros [? Hi]. destruct (lookup_lt_is_Some_2 l (Z.to_nat i)) as [x Hx].
  - unfold lenZ in Hi. lia.
  - exists x. split; [done|]. by apply index_lookup.
Qed.

Lemma index_inv {E A} (l : list A) (i : Z) x :
  index (E:=E) l i = Ok x -> 0 <= i < lenZ l /\ l !! Z.to_nat i = Some x.
Proof.
  unfold index, lenZ. case_bool; [done|].
  destruct (l !! Z.to_nat i) eqn:H'; [|done]. intros [= ->].
  pose proof (lookup_lt_Some _ _ _ H'). split; [lia|done].
Qed.

Lemma store_ok {E A} (l : list A) (i : Z) x :
  0 <= i < lenZ l -> store (E:=E) l i x = Ok (<[Z.to_nat i := x]> l).
Proof.
  intros. unfold store. by rewrite (proj2 (Z.leb_le _ _)), (proj2 (Z.ltb_lt _ _)) by lia.
Qed.

Lemma lenZ_insert {A} (l : list A) i x : lenZ (<[i := x]> l) = lenZ l.
Proof. unfold lenZ. by rewrite length_insert. Qed.

Lemma slice_from_ok {E A} (l : list A) (a : Z) :
  0 <= a <= lenZ l -> slice_from (E:=E) l a = Ok (drop (Z.to_nat a) l).
Proof.
  intros Ha. unfold slice_from, slice. rewrite !(proj2 (Z.leb_le _ _)) by lia. cbn [andb]. f_equal.
  apply take_ge. rewrite length_drop. unfold lenZ in *. lia.
Qed.

Lemma lenZ_drop {A} (l : list A) (a : Z) :
  0 <= a <= lenZ l -> lenZ (drop (Z.to_nat a) l) = lenZ l - a.
Proof. intros. unfold lenZ in *. rewrite length_drop. lia. Qed.

Lemma slice_prefix {E A} (l k : list A) : slice (E:=E) (l ++ k) 0 (lenZ l) = Ok l.
Proof. exact (slice_app [] l k). Qed.

(** A property of the integers of a range, by evaluation. *)
Lemma range_forall (P : Z -> bool) a b :
  forallb P (range a b) = true -> forall i, a <= i < b -> P i = true.
Proof.
  intros H i Hi. rewrite forallb_forall in H. apply H.
  apply list_elem_of_In, elem_of_seqZ. lia.
Qed.

Lemma wf_bytes_nil : wf_bytes [].
Proof. constructor. Qed.

Lemma wf_bytes_cons b l : wf_bytes (b :: l) <-> is_u8 b /\ wf_bytes l.
Proof. apply Forall_cons_iff. Qed.

Lemma wf_bytes_app l k : wf_bytes (l ++ k) <-> wf_bytes l /\ wf_bytes k.
Proof. apply Forall_app. Qed.

(** The bounds of a concrete list, by evaluation. *)
Lemma in_range_list w l : forallb (in_rangeb w) l = true -> Forall (in_range w) l.
Proof.
  rewrite forallb_forall, Forall_forall. intros H x Hx. by apply in_rangeb_spec, H.
Qed.

(** ** Hint databases *)

Create Rewrite HintDb lenz.
#[export] Hint Rewrite @lenZ_app @lenZ_cons @lenZ_nil @lenZ_replicate @lenZ_insert : lenz.
#[export] Hint Rewrite <- @app_assoc : lenz.

Create HintDb oxidelta.
#[export] Hint Resolve lenZ_nonneg wrap_range zero_u64 zero_u32 : oxidelta.

