(* ===== verification/Varint.v ===== *)
(** * Variable-length integers ([src/src/vcdiff/varint.rs])

    The base-128, big-endian integers of RFC 3284, section 2: the buffer
    encoder, the slice and stream decoders and the size function, with
    - the value a byte string denotes ([varint_value]) as the specification,
    - an exact characterisation of what the decoders accept and reject,
    - the round trip and the minimality of what the encoder emits. *)

From stdpp Require Import base numbers list option.
From Stdlib Require Import ZArith Lia.
From S2P Require Import Prelude.

Local Open Scope Z_scope.
Local Open Scope rust_scope.

(** ** Definitions *)

Definition MAX_VARINT_LEN : Z := 10.
Definition U32_OVERFLOW_MASK : Z := 0xFE000000.
Definition U64_OVERFLOW_MASK : Z := 0xFE00000000000000.

Inductive VarIntError := Underflow | Overflow.

(** The error kinds of [std::io::Error] the crate produces or inspects. *)
Inductive io_kind := UnexpectedEof | InvalidData | Unsupported | OtherIo.

(** The loop of [encode_u64].  [i] is the source's [i] before the decrement:
    at 0 the decrement underflows or, wrapped, the store is out of range, so
    the loop panics in both build profiles. *)
Fixpoint encode_loop {E} (i : nat) (num : Z) (buf : bytes) : result E (nat * bytes) :=
  match i with
  | O => Panic
  | S i =>
      let* buf := store buf (Z.of_nat i) (Z.lor (Z.land (wrap 8 num) 0x7F) 0x80) in
      let num := Z.shiftr num 7 in
      if num =? 0 then Ok (i, buf) else encode_loop i num buf
  end.

(** Returns the number of bytes written and the buffer, filled from its end. *)
Definition encode_u64 {E} (num : Z) (buf : bytes) : result E (Z * bytes) :=
  let* (i, buf) := encode_loop (Z.to_nat MAX_VARINT_LEN) num buf in
  let* last := index buf (MAX_VARINT_LEN - 1) in
  let* buf := store buf (MAX_VARINT_LEN - 1) (Z.land last 0x7F) in
  Ok (MAX_VARINT_LEN - Z.of_nat i, buf).

Definition encode_u32 {E} (num : Z) (buf : bytes) : result E (Z * bytes) :=
  encode_u64 num buf.

(** A [Vec<u8>] sink: [write_all] appends and does not fail. *)
Definition write_u64 {E} (w : bytes) (num : Z) : result E bytes :=
  let* (len, buf) := encode_u64 num (replicate (Z.to_nat MAX_VARINT_LEN) 0) in
  let* s := slice_from buf (MAX_VARINT_LEN - len) in
  Ok (w ++ s).

Definition write_usize {E} (w : bytes) (num : Z) : result E bytes :=
  let* (len, buf) := encode_u64 num (replicate (Z.to_nat MAX_VARINT_LEN) 0) in
  let* s := slice_from buf (MAX_VARINT_LEN - len) in
  Ok (w ++ s).

Definition write_u32 {E} (w : bytes) (num : Z) : result E bytes := write_u64 w num.

(** The loop of [read_u64] and [read_u32]: [w] is the accumulator's width,
    [mask] its overflow guard, [i] the index of the enumeration. *)
Fixpoint read_loop (w mask val i : Z) (data : bytes) : result VarIntError (Z * Z) :=
  match data with
  | [] => Err Underflow
  | byte :: data =>
      if negb (Z.land val mask =? 0) then Err Overflow
      else
        let val := Z.lor (wrap w (Z.shiftl val 7)) (Z.land byte 0x7F) in
        if Z.land byte 0x80 =? 0 then Ok (val, i + 1)
        else read_loop w mask val (i + 1) data
  end.

Definition read_u64 (data : bytes) : result VarIntError (Z * Z) :=
  read_loop 64 U64_OVERFLOW_MASK 0 0 data.

Definition read_u32 (data : bytes) : result VarIntError (Z * Z) :=
  read_loop 32 U32_OVERFLOW_MASK 0 0 data.

(** [usize::try_from] succeeds on a 64-bit target exactly on [u64] values. *)
Definition read_usize (data : bytes) : result VarIntError (Z * Z) :=
  let* (val, len) := read_u64 data in
  if in_rangeb 64 val then Ok (val, len) else Err Overflow.

(** A reader is the list of its remaining bytes. *)
Definition read_exact (n : Z) (r : bytes) : result io_kind (bytes * bytes) :=
  if n <=? lenZ r then Ok (take (Z.to_nat n) r, drop (Z.to_nat n) r)
  else Err UnexpectedEof.

Definition read_byte (r : bytes) : result io_kind (Z * bytes) :=
  match r with
  | [] => Err UnexpectedEof
  | b :: r => Ok (b, r)
  end.

(** The loop of [stream_read_u64] and [stream_read_u32]; it consumes a byte
    per turn, so it recurses on the reader. *)
Fixpoint stream_read_loop (w mask val : Z) (r : bytes) : result io_kind (Z * bytes) :=
  match r with
  | [] => Err UnexpectedEof
  | byte :: r =>
      if negb (Z.land val mask =? 0) then Err InvalidData
      else
        let val := Z.lor (wrap w (Z.shiftl val 7)) (Z.land byte 0x7F) in
        if Z.land byte 0x80 =? 0 then Ok (val, r)
        else stream_read_loop w mask val r
  end.

Definition stream_read_u64 (r : bytes) : result io_kind (Z * bytes) :=
  stream_read_loop 64 U64_OVERFLOW_MASK 0 r.

Definition stream_read_u32 (r : bytes) : result io_kind (Z * bytes) :=
  stream_read_loop 32 U32_OVERFLOW_MASK 0 r.

Definition stream_read_usize (r : bytes) : result io_kind (Z * bytes) :=
  let* (val, r) := stream_read_u64 r in
  if in_rangeb 64 val then Ok (val, r) else Err InvalidData.

(** [uN::leading_zeros]. *)
Definition leading_zeros (w num : Z) : Z :=
  if num =? 0 then w else w - 1 - Z.log2 num.

(** [uN::div_ceil]. *)
Definition div_ceil (a b : Z) : Z := (a + b - 1) / b.

Definition sizeof_u64 (num : Z) : Z :=
  let bits := 64 - leading_zeros 64 num in
  Z.min (div_ceil (Z.max bits 1) 7) 10.

Definition sizeof_u32 (num : Z) : Z :=
  let bits := 32 - leading_zeros 32 num in
  Z.min (div_ceil (Z.max bits 1) 7) 5.

Definition sizeof_usize (num : Z) : Z := sizeof_u64 num.

(** [From<VarIntError> for io::Error]. *)
Definition io_of_varint (e : VarIntError) : io_kind := InvalidData.

(** ** Specification *)

(** What a string of 7-bit groups denotes, on top of [v]. *)
Definition varint_value (v : Z) (bs : bytes) : Z :=
  fold_left (fun v b => v * 128 + b mod 128) bs v.

(** Every byte but the last has its continuation bit. *)
Fixpoint terminated (bs : bytes) : Prop :=
  match bs with
  | [] => False
  | [b] => 0 <= b < 128
  | b :: bs => 128 <= b < 256 /\ terminated bs
  end.

(** The groups above the last one, most significant first. *)
Fixpoint groups (k : nat) (n : Z) : bytes :=
  match k with
  | O => []
  | S k => if n =? 0 then [] else groups k (n / 128) ++ [128 + n mod 128]
  end.

(** The canonical encoding of a 64-bit integer. *)
Definition varint (n : Z) : bytes := groups 9 (n / 128) ++ [n mod 128].

(** ** The decoders *)

Lemma byte_cont b : is_u8 b -> (Z.land b 0x80 =? 0) = (b <? 128).
Proof. intros H. exact (high_mask_zero 8 7 b ltac:(lia) H). Qed.

Lemma byte_group b : Z.land b 0x7F = b mod 128.
Proof. exact (land_low b 7 ltac:(lia)). Qed.

(** The two accumulator widths: width and overflow guard. *)
Definition acc_ok (w mask : Z) : Prop := 7 <= w /\ mask = 2 ^ w - 2 ^ (w - 7).

Lemma acc_u64 : acc_ok 64 U64_OVERFLOW_MASK.
Proof. split; [lia|reflexivity]. Qed.

Lemma acc_u32 : acc_ok 32 U32_OVERFLOW_MASK.
Proof. split; [lia|reflexivity]. Qed.

#[export] Hint Resolve acc_u64 acc_u32 : oxidelta.

Section Decoder.
Context (w mask : Z) (Hacc : acc_ok w mask).

Lemma acc_guard val : in_range w val ->
  negb (Z.land val mask =? 0) = negb (val <? 2 ^ (w - 7)).
Proof. destruct Hacc as [? ->]. intros. by rewrite high_mask_zero by (done || lia). Qed.

Lemma acc_pow : 2 ^ w = 2 ^ (w - 7) * 128.
Proof.
  destruct Hacc as [? _]. rewrite <- (Z.sub_add 7 w) at 1.
  by rewrite Z.pow_add_r by lia.
Qed.

(** One group: the accumulator moves to [val * 128 + byte mod 128]. *)
Lemma acc_step val byte : 0 <= val < 2 ^ (w - 7) ->
  Z.lor (wrap w (Z.shiftl val 7)) (Z.land byte 0x7F) = val * 128 + byte mod 128.
Proof.
  intros Hv. rewrite wrap_small.
  - rewrite byte_group, lor_shiftl_add; [done|lia|].
    unfold in_range. pose proof (Z.mod_pos_bound byte 128). lia.
  - rewrite Z.shiftl_mul_pow2 by lia. unfold in_range. rewrite acc_pow. lia.
Qed.

Lemma acc_range val byte : 0 <= val ->
  in_range w (val * 128 + byte mod 128) <-> val < 2 ^ (w - 7).
Proof.
  intros. unfold in_range. rewrite acc_pow.
  pose proof (Z.mod_pos_bound byte 128). lia.
Qed.

Lemma varint_value_ge v bs : 0 <= v -> v <= varint_value v bs.
Proof.
  revert v. induction bs as [|b bs IH]; intros v Hv; simpl; [done|].
  unfold varint_value in *. simpl.
  pose proof (Z.mod_pos_bound b 128). specialize (IH (v * 128 + b mod 128)). lia.
Qed.

(** A terminated string is read back as its value when that fits ... *)
Lemma read_loop_ok bs rest val i :
  in_range w val -> terminated bs -> in_range w (varint_value val bs) ->
  read_loop w mask val i (bs ++ rest) = Ok (varint_value val bs, i + lenZ bs).
Proof.
  revert val i. induction bs as [|b bs IH]; intros val i Hv Ht Hval; [done|].
  assert (in_range w (val * 128 + b mod 128)) as Hv'.
  { unfold in_range in *. pose proof (Z.mod_pos_bound b 128).
    pose proof (varint_value_ge (val * 128 + b mod 128) bs).
    unfold varint_value in *. simpl in Hval. lia. }
  pose proof (proj1 (acc_range val b (proj1 Hv)) Hv') as Hlt.
  simpl. rewrite acc_guard, (proj2 (Z.ltb_lt _ _)) by done. simpl.
  rewrite acc_step by (unfold in_range in Hv; lia).
  destruct bs as [|b' bs]; simpl in Ht.
  - rewrite byte_cont, (proj2 (Z.ltb_lt _ _)) by (unfold in_range; lia).
    unfold lenZ. do 2 f_equal.
  - destruct Ht as [Hb Ht].
    rewrite byte_cont, (proj2 (Z.ltb_ge _ _)) by (unfold in_range; lia).
    change (varint_value val (b :: b' :: bs))
      with (varint_value (val * 128 + b mod 128) (b' :: bs)) in *.
    rewrite (lenZ_cons b), Z.add_assoc. by apply IH.
Qed.

(** ... and refused with [Overflow] when it does not, whatever follows. *)
Lemma read_loop_overflow bs rest val i :
  in_range w val -> terminated bs -> 2 ^ w <= varint_value val bs ->
  read_loop w mask val i (bs ++ rest) = Err Overflow.
Proof.
  revert val i. induction bs as [|b bs IH]; intros val i Hv Ht Hval; [done|].
  simpl. rewrite acc_guard by done.
  destruct (Z.ltb_spec val (2 ^ (w - 7))) as [Hlt|]; [|done]. simpl.
  pose proof (proj2 (acc_range val b (proj1 Hv)) Hlt) as Hv'.
  rewrite acc_step by (unfold in_range in Hv; lia).
  destruct bs as [|b' bs]; simpl in Ht.
  - unfold varint_value in Hval. simpl in Hval. unfold in_range in Hv'. lia.
  - destruct Ht as [Hb Ht].
    rewrite byte_cont, (proj2 (Z.ltb_ge _ _)) by (unfold in_range; lia).
    by apply IH.
Qed.

(** Conversely, a success consumed a terminated string of that value. *)
Lemma read_loop_sound data val i v n :
  wf_bytes data -> in_range w val ->
  read_loop w mask val i data = Ok (v, n) ->
  exists bs rest, data = bs ++ rest /\ terminated bs /\
    v = varint_value val bs /\ n = i + lenZ bs /\ in_range w v.
Proof.
  revert val i. induction data as [|b data IH]; intros val i Hd Hv H; [done|].
  apply wf_bytes_cons in Hd as [Hb Hd].
  simpl in H. rewrite acc_guard in H by done.
  destruct (Z.ltb_spec val (2 ^ (w - 7))) as [Hlt|]; [|done]. simpl in H.
  pose proof (proj2 (acc_range val b (proj1 Hv)) Hlt) as Hv'.
  rewrite acc_step in H by (unfold in_range in Hv; lia).
  rewrite byte_cont in H by done. destruct (Z.ltb_spec b 128).
  - injection H as <- <-. exists [b], data. unfold in_range in Hb, Hv'. simpl.
    repeat split; try done; lia.
  - destruct (IH _ _ Hd Hv' H) as (bs & rest & -> & Ht & -> & -> & ?).
    exists (b :: bs), rest. rewrite lenZ_cons. unfold in_range in Hb.
    split_and!; [done| |done|lia|done]. simpl. destruct bs; [done|]. split; [lia|done].
Qed.

(** The streaming decoder is the slice decoder, with the rest of the input. *)
Lemma stream_read_loop_eq r val i :
  stream_read_loop w mask val r =
  match read_loop w mask val i r with
  | Ok (v, n) => Ok (v, drop (Z.to_nat (n - i)) r)
  | Err Underflow => Err UnexpectedEof
  | Err Overflow => Err InvalidData
  | Panic => Panic
  | Diverge => Diverge
  end.
Proof.
  assert (forall r val i v n, read_loop w mask val i r = Ok (v, n) -> i < n) as Hmono.
  { clear. induction r as [|b r IH]; intros val i v n H; [done|]. simpl in H.
    destruct (negb _); [done|]. destruct (_ =? 0); [|apply IH in H; lia].
    injection H. lia. }
  revert val i. induction r as [|b r IH]; intros val i; [done|]. simpl.
  destruct (negb _); [done|]. destruct (Z.land b _ =? 0).
  - by replace (i + 1 - i) with 1 by lia.
  - rewrite (IH _ (i + 1)).
    destruct (read_loop _ _ _ (i + 1) r) as [[v n]| | |] eqn:H; try done.
    apply Hmono in H. do 2 f_equal.
    replace (Z.to_nat (n - i)) with (S (Z.to_nat (n - (i + 1)))) by lia. done.
Qed.
End Decoder.

(** ** The encoder *)

Lemma groups_0 k : groups k 0 = [].
Proof. by destruct k. Qed.

Lemma varint_value_app v l k :
  varint_value v (l ++ k) = varint_value (varint_value v l) k.
Proof. apply fold_left_app. Qed.

Lemma groups_cont k n : Forall (fun b => 128 <= b < 256) (groups k n).
Proof.
  revert n. induction k as [|k IH]; intros n; simpl; [constructor|].
  case_bool; [constructor|]. apply Forall_app. split; [apply IH|].
  pose proof (Z.mod_pos_bound n 128). repeat constructor; lia.
Qed.

Lemma groups_value k n : 0 <= n < 128 ^ Z.of_nat k -> varint_value 0 (groups k n) = n.
Proof.
  revert n. induction k as [|k IH]; intros n Hn; simpl.
  - unfold varint_value. simpl in *. lia.
  - case_bool; [by subst|]. rewrite varint_value_app, IH.
    + unfold varint_value. simpl. rewrite Z.add_mod, Z.mod_same, Z.add_0_l by lia.
      rewrite !Z.mod_mod by lia. rewrite (Z.div_mod n 128) at 3 by lia. lia.
    + rewrite Nat2Z.inj_succ, Z.pow_succ_r in Hn by lia.
      split; [apply Z.div_pos; lia|]. apply Z.div_lt_upper_bound; lia.
Qed.

Lemma terminated_snoc l b :
  Forall (fun b => 128 <= b < 256) l -> 0 <= b < 128 -> terminated (l ++ [b]).
Proof.
  induction 1 as [|x l Hx Hl IH]; intros Hb; [done|].
  simpl. destruct (l ++ [b]) eqn:E; [by destruct l|]. split; [done|]. by apply IH.
Qed.

Lemma varint_terminated n : terminated (varint n).
Proof.
  apply terminated_snoc; [apply groups_cont|]. apply Z.mod_pos_bound. lia.
Qed.

Lemma u64_div_128 n : is_u64 n -> 0 <= n / 128 < 128 ^ Z.of_nat 9.
Proof.
  unfold in_range. intros. split; [apply Z.div_pos; lia|].
  apply Z.div_lt_upper_bound; lia.
Qed.

Lemma varint_value_varint n : is_u64 n -> varint_value 0 (varint n) = n.
Proof.
  intros Hn. unfold varint. rewrite varint_value_app, groups_value by by apply u64_div_128.
  unfold varint_value. simpl. rewrite Z.mod_mod by lia.
  rewrite (Z.div_mod n 128) at 3 by lia. lia.
Qed.

Lemma terminated_wf bs : terminated bs -> wf_bytes bs.
Proof.
  induction bs as [|b bs IH]; [done|]. intros Ht. apply wf_bytes_cons.
  destruct bs; simpl in Ht; unfold in_range.
  - split; [lia|constructor].
  - destruct Ht. split; [lia|]. by apply IH.
Qed.

Lemma varint_wf n : wf_bytes (varint n).
Proof. apply terminated_wf, varint_terminated. Qed.

Lemma varint_nonempty n : 0 < lenZ (varint n).
Proof. unfold varint. autorewrite with lenz. pose proof (lenZ_nonneg (groups 9 (n / 128))). lia. Qed.

#[export] Hint Resolve varint_terminated varint_wf : oxidelta.

(** The group the encoder stores for the low seven bits. *)
Lemma enc_group num : Z.lor (Z.land (wrap 8 num) 0x7F) 0x80 = 128 + num mod 128.
Proof.
  unfold wrap. rewrite byte_group, Z.lor_comm.
  assert (Z.lor 128 ((num mod 2 ^ 8) mod 128) = 128 + (num mod 2 ^ 8) mod 128) as ->.
  { apply (lor_shiftl_add 1 _ 7); [lia|]. apply Z.mod_pos_bound. lia. }
  dlia.
Qed.

Lemma store_app {E A} (l : list A) x y k :
  store (E:=E) (l ++ x :: k) (lenZ l) y = Ok (l ++ y :: k).
Proof.
  unfold store. autorewrite with lenz.
  pose proof (lenZ_nonneg l). pose proof (lenZ_nonneg k).
  rewrite (proj2 (Z.leb_le _ _)), (proj2 (Z.ltb_lt _ _)) by lia. simpl.
  by rewrite lenZ_to_nat, insert_app_r_alt, Nat.sub_diag by lia.
Qed.

Lemma encode_loop_S {E} i num buf :
  encode_loop (E:=E) (S i) num buf =
  let* buf := store buf (Z.of_nat i) (128 + num mod 128) in
  if num / 128 =? 0 then Ok (i, buf) else encode_loop i (num / 128) buf.
Proof. rewrite <- enc_group. cbn [encode_loop]. by rewrite Z.shiftr_div_pow2 by lia. Qed.

(** The loop fills the buffer's prefix from its end with the groups of [num]. *)
Lemma encode_loop_ok {E} i num pre post :
  length pre = S i -> 0 <= num < 128 ^ Z.of_nat (S i) ->
  let v := groups i (num / 128) ++ [128 + num mod 128] in
  (length v <= S i)%nat /\
  encode_loop (E:=E) (S i) num (pre ++ post) =
    Ok ((S i - length v)%nat, take (S i - length v) pre ++ v ++ post).
Proof.
  revert num pre post. induction i as [|i IH]; intros num pre post Hpre Hnum v.
  all: destruct pre as [|x pre _] using rev_ind; [done|];
       rewrite length_app, Nat.add_1_r in Hpre; injection Hpre as Hpre.
  all: rewrite encode_loop_S, <- app_assoc; cbn [app];
       replace (Z.of_nat _) with (lenZ pre) by (unfold lenZ; lia);
       rewrite store_app; cbn [bind].
  - subst v. destruct pre; [|done]. rewrite Z.div_small by (simpl in Hnum; lia). done.
  - destruct (Z.eqb_spec (num / 128) 0) as [Hz|Hz].
    + subst v. rewrite Hz, groups_0. split; [simpl; lia|]. simpl.
      by rewrite take_app_le, take_ge by lia.
    + specialize (IH (num / 128) pre ([128 + num mod 128] ++ post) Hpre) as [Hlen IH].
      { rewrite Nat2Z.inj_succ, Z.pow_succ_r in Hnum by lia.
        split; [apply Z.div_pos; lia|]. apply Z.div_lt_upper_bound; lia. }
      assert (v = (groups i (num / 128 / 128) ++ [128 + (num / 128) mod 128])
                  ++ [128 + num mod 128]) as Hv.
      { subst v. cbn [groups]. by rewrite (proj2 (Z.eqb_neq _ _)). }
      cbn [app] in IH. rewrite Hv, IH.
      set (u := groups i (num / 128 / 128) ++ _) in *.
      rewrite (length_app u). cbn [length].
      split; [lia|]. f_equal. f_equal; [lia|].
      rewrite <- !app_assoc, take_app_le by lia. do 2 f_equal. lia.
Qed.

(** What the 10-byte buffer holds: the encoding, at its end. *)
Lemma encode_u64_ok {E} num buf :
  is_u64 num -> length buf = 10%nat ->
  exists pre, length pre = (10 - length (varint num))%nat /\
    (length (varint num) <= 10)%nat /\
    encode_u64 (E:=E) num buf = Ok (lenZ (varint num), pre ++ varint num).
Proof.
  intros Hn Hb. unfold encode_u64.
  destruct (encode_loop_ok (E:=E) 9 num buf [] Hb) as [Hlen Hloop].
  { unfold in_range in Hn. split; [lia|]. change (128 ^ Z.of_nat 10) with (2 ^ 70). lia. }
  rewrite app_nil_r in Hloop. change (Z.to_nat MAX_VARINT_LEN) with 10%nat.
  set (g := groups 9 (num / 128)) in *.
  assert (length (varint num) = length (g ++ [128 + num mod 128])) as Hl.
  { unfold varint. fold g. by rewrite !length_app. }
  rewrite <- Hl in Hlen, Hloop. rewrite Hloop. cbn [bind].
  set (pre := take (10 - length (varint num)) buf).
  assert (length pre = (10 - length (varint num))%nat) as Hpre.
  { subst pre. rewrite length_take. lia. }
  exists pre. split; [done|]. split; [done|].
  rewrite app_nil_r, !app_assoc.
  replace (MAX_VARINT_LEN - 1) with (lenZ (pre ++ g)).
  2: { rewrite lenZ_app. unfold lenZ. rewrite length_app in Hl. simpl in Hl.
       rewrite Hpre. unfold MAX_VARINT_LEN. lia. }
  rewrite index_app. cbn [bind]. rewrite store_app. cbn [bind].
  f_equal. f_equal; [unfold MAX_VARINT_LEN, lenZ; lia|].
  unfold varint. fold g. rewrite <- app_assoc. do 3 f_equal.
  rewrite byte_group. change 128 with (1 * 128) at 1.
  rewrite Z.add_comm, Z.mod_add, Z.mod_mod by lia. done.
Qed.

Lemma write_u64_ok {E} w num :
  is_u64 num -> write_u64 (E:=E) w num = Ok (w ++ varint num).
Proof.
  intros Hn. unfold write_u64.
  destruct (encode_u64_ok (E:=E) num (replicate 10 0) Hn eq_refl) as (pre & Hpre & Hl & Heq).
  change (Z.to_nat MAX_VARINT_LEN) with 10%nat. rewrite Heq. cbn [bind].
  replace (MAX_VARINT_LEN - lenZ (varint num)) with (lenZ pre)
    by (unfold lenZ, MAX_VARINT_LEN; lia).
  by rewrite slice_from_app.
Qed.

Lemma write_u32_ok {E} w num :
  is_u32 num -> write_u32 (E:=E) w num = Ok (w ++ varint num).
Proof. intros. apply write_u64_ok. apply (in_range_weaken 32); [lia|done]. Qed.

Lemma write_usize_ok {E} w num :
  is_u64 num -> write_usize (E:=E) w num = Ok (w ++ varint num).
Proof. exact (write_u64_ok w num). Qed.

(** ** Reading back what was written *)

Lemma read_u64_varint n rest :
  is_u64 n -> read_u64 (varint n ++ rest) = Ok (n, lenZ (varint n)).
Proof.
  intros Hn. unfold read_u64. rewrite read_loop_ok by
    (rewrite ?varint_value_varint; auto with oxidelta; unfold in_range; lia).
  by rewrite varint_value_varint.
Qed.

Lemma read_u32_varint n rest :
  is_u32 n -> read_u32 (varint n ++ rest) = Ok (n, lenZ (varint n)).
Proof.
  intros Hn. assert (is_u64 n) by (apply (in_range_weaken 32); [lia|done]).
  unfold read_u32. rewrite read_loop_ok by
    (rewrite ?varint_value_varint; auto with oxidelta; unfold in_range; lia).
  by rewrite varint_value_varint.
Qed.

Lemma stream_read_u64_varint n rest :
  is_u64 n -> stream_read_u64 (varint n ++ rest) = Ok (n, rest).
Proof.
  intros Hn. unfold stream_read_u64. rewrite (stream_read_loop_eq _ _ _ _ 0).
  fold (read_u64 (varint n ++ rest)). rewrite read_u64_varint by done.
  by rewrite Z.sub_0_r, lenZ_to_nat, drop_app_length.
Qed.

Lemma stream_read_usize_varint n rest :
  is_u64 n -> stream_read_usize (varint n ++ rest) = Ok (n, rest).
Proof.
  intros Hn. unfold stream_read_usize. rewrite stream_read_u64_varint by done.
  cbn [bind]. by rewrite (proj2 (in_rangeb_spec _ _) Hn).
Qed.

Lemma stream_read_u32_varint n rest :
  is_u32 n -> stream_read_u32 (varint n ++ rest) = Ok (n, rest).
Proof.
  intros Hn. unfold stream_read_u32. rewrite (stream_read_loop_eq _ _ _ _ 0).
  fold (read_u32 (varint n ++ rest)). rewrite read_u32_varint by done.
  by rewrite Z.sub_0_r, lenZ_to_nat, drop_app_length.
Qed.

Lemma read_usize_varint n rest :
  is_u64 n -> read_usize (varint n ++ rest) = Ok (n, lenZ (varint n)).
Proof.
  intros Hn. unfold read_usize. rewrite read_u64_varint by done.
  cbn [bind]. by rewrite (proj2 (in_rangeb_spec _ _) Hn).
Qed.

(** ** The size function *)

Lemma log2_div_128 n : 0 < n -> Z.log2 (n / 128) = Z.max 0 (Z.log2 n - 7).
Proof.
  intros. change 128 with (2 ^ 7). rewrite <- Z.shiftr_div_pow2 by lia.
  apply Z.log2_shiftr. lia.
Qed.

Lemma length_groups k n : 0 < n < 128 ^ Z.of_nat k -> lenZ (groups k n) = Z.log2 n / 7 + 1.
Proof.
  revert n. induction k as [|k IH]; intros n Hn; simpl; [simpl in Hn; lia|].
  rewrite (proj2 (Z.eqb_neq _ _)) by lia. autorewrite with lenz.
  destruct (Z.eq_dec (n / 128) 0) as [Hz|Hz].
  - rewrite Hz, groups_0. assert (Z.log2 n < 7).
    { apply Z.log2_lt_pow2; dlia. }
    rewrite Z.div_small by (pose proof (Z.log2_nonneg n); lia). done.
  - assert (7 <= Z.log2 n) by (apply Z.log2_le_pow2; dlia).
    rewrite IH.
    + rewrite log2_div_128 by lia. dlia.
    + rewrite Nat2Z.inj_succ, Z.pow_succ_r in Hn by lia. split; [dlia|].
      apply Z.div_lt_upper_bound; lia.
Qed.

Lemma sizeof_u64_varint n : is_u64 n -> sizeof_u64 n = lenZ (varint n).
Proof.
  intros Hn. pose proof (u64_div_128 n Hn). unfold in_range in Hn.
  unfold sizeof_u64, leading_zeros, div_ceil, varint. autorewrite with lenz.
  destruct (Z.eqb_spec n 0) as [->|Hz]; [done|].
  assert (Z.log2 n < 64) by (apply Z.log2_lt_pow2; lia).
  pose proof (Z.log2_nonneg n).
  destruct (Z.eq_dec (n / 128) 0) as [Hd|Hd].
  - rewrite Hd, groups_0, lenZ_nil.
    assert (Z.log2 n < 7) by (apply Z.log2_lt_pow2; dlia). dlia.
  - rewrite length_groups by lia.
    assert (7 <= Z.log2 n) by (apply Z.log2_le_pow2; dlia).
    rewrite log2_div_128 by lia. dlia.
Qed.

(** The 32-bit size function agrees with the 64-bit one where both apply. *)
Lemma sizeof_u32_varint n : is_u32 n -> sizeof_u32 n = lenZ (varint n).
Proof.
  intros Hn. assert (is_u64 n) as Hn' by (apply (in_range_weaken 32); [lia|done]).
  rewrite <- sizeof_u64_varint by done. unfold sizeof_u32, sizeof_u64, leading_zeros, div_ceil, in_range in *.
  destruct (Z.eqb_spec n 0) as [->|Hz]; [done|].
  assert (Z.log2 n < 32) by (apply Z.log2_lt_pow2; lia).
  pose proof (Z.log2_nonneg n). dlia.
Qed.

Lemma varint_length_le n : is_u64 n -> 1 <= lenZ (varint n) <= 10.
Proof.
  intros Hn. pose proof (varint_nonempty n). rewrite <- sizeof_u64_varint by done.
  rewrite <- sizeof_u64_varint in * by done. unfold sizeof_u64 in *. lia.
Qed.

Lemma varint_value_lt bs : varint_value 0 bs < 128 ^ lenZ bs.
Proof.
  induction bs as [|b bs IH] using rev_ind; [done|].
  rewrite varint_value_app, lenZ_app, Z.pow_add_r by apply lenZ_nonneg.
  unfold varint_value at 1. simpl. pose proof (Z.mod_pos_bound b 128).
  change (128 ^ lenZ [b]) with 128. lia.
Qed.

Lemma varint_shortest n bs :
  is_u64 n -> terminated bs -> varint_value 0 bs = n -> lenZ (varint n) <= lenZ bs.
Proof.
  intros Hn Ht Hv. rewrite <- sizeof_u64_varint by done.
  assert (1 <= lenZ bs).
  { destruct bs; [done|]. rewrite lenZ_cons. pose proof (lenZ_nonneg bs). lia. }
  pose proof (varint_value_lt bs) as Hlt. rewrite Hv in Hlt.
  unfold sizeof_u64, leading_zeros, div_ceil, in_range in *.
  destruct (Z.eqb_spec n 0); [dlia|].
  assert (Z.log2 n < 7 * lenZ bs).
  { apply Z.log2_lt_pow2; [lia|]. by rewrite Z.pow_mul_r by lia. }
  pose proof (Z.log2_nonneg n). dlia.
Qed.

(** ** Properties *)

(** [write_u64] never fails on a [u64]: it appends a terminated string of
    7-bit groups that denotes the number, of the length [sizeof_u64] announces,
    and no string denoting that number is shorter. *)
Theorem write_u64_shortest {E} (w : bytes) (n : Z) :
  is_u64 n ->
  exists bs, write_u64 (E:=E) w n = Ok (w ++ bs) /\
    terminated bs /\ varint_value 0 bs = n /\ lenZ bs = sizeof_u64 n /\
    forall bs', terminated bs' -> varint_value 0 bs' = n -> lenZ bs <= lenZ bs'.
Proof.
  intros Hn. exists (varint n). split_and!;
    auto using write_u64_ok, varint_value_varint, varint_shortest with oxidelta.
  by rewrite sizeof_u64_varint.
Qed.

Lemma write_u64_shortest_witness :
  is_u64 300 /\ exists bs, write_u64 (E:=io_kind) [7] 300 = Ok ([7] ++ bs) /\
    terminated bs /\ varint_value 0 bs = 300 /\ lenZ bs = sizeof_u64 300 /\
    forall bs', terminated bs' -> varint_value 0 bs' = 300 -> lenZ bs <= lenZ bs'.
Proof.
  split; [split; [lia|reflexivity]|].
  apply (write_u64_shortest [7] 300). split; [lia|reflexivity].
Defined.

(** [read_u64] accepts exactly the inputs that start with a terminated
    string whose value fits in 64 bits; it returns that value and the number of
    bytes consumed.  Encodings longer than necessary are accepted. *)
Theorem read_u64_exact (data : bytes) (v n : Z) :
  wf_bytes data ->
  read_u64 data = Ok (v, n) <->
  exists bs rest, data = bs ++ rest /\ terminated bs /\
    varint_value 0 bs = v /\ lenZ bs = n /\ is_u64 v.
Proof.
  intros Hd. split.
  - intros H. apply read_loop_sound in H as (bs & rest & -> & Ht & -> & -> & ?);
      eauto with oxidelta.
    exists bs, rest. auto.
  - intros (bs & rest & -> & Ht & <- & <- & Hr). unfold read_u64.
    rewrite read_loop_ok; auto with oxidelta.
Qed.

Lemma read_u64_exact_witness :
  wf_bytes [0x80; 0x82; 0x2C; 9] /\ read_u64 [0x80; 0x82; 0x2C; 9] = Ok (300, 3).
Proof.
  assert (wf_bytes [0x80; 0x82; 0x2C; 9]) as Hw
    by (repeat constructor; unfold in_range; lia).
  split; [exact Hw|]. apply (read_u64_exact _ _ _ Hw).
  exists [0x80; 0x82; 0x2C], [9]. unfold in_range. simpl. repeat split; lia.
Defined.

(** A terminated string whose value does not fit is refused with
    [Overflow] by the slice readers, with [InvalidData] by the stream readers,
    at both widths; no value is ever truncated. *)
Theorem read_overflow (bs rest : bytes) :
  terminated bs ->
  (2 ^ 64 <= varint_value 0 bs ->
     read_u64 (bs ++ rest) = Err Overflow /\
     stream_read_u64 (bs ++ rest) = Err InvalidData) /\
  (2 ^ 32 <= varint_value 0 bs ->
     read_u32 (bs ++ rest) = Err Overflow /\
     stream_read_u32 (bs ++ rest) = Err InvalidData).
Proof.
  intros Ht. unfold read_u64, read_u32, stream_read_u64, stream_read_u32.
  split; intros Hv; rewrite (stream_read_loop_eq _ _ _ _ 0), read_loop_overflow;
    auto with oxidelta.
Qed.

Lemma read_overflow_witness :
  terminated [0x90; 0x80; 0x80; 0x80; 0] /\
  read_u32 ([0x90; 0x80; 0x80; 0x80; 0] ++ []) = Err Overflow.
Proof.
  assert (terminated [0x90; 0x80; 0x80; 0x80; 0]) as Ht by (simpl; lia).
  split; [exact Ht|].
  apply (read_overflow _ [] Ht). vm_compute. discriminate.
Defined.

(** C34: what a writer appends is read back, with the rest of the input left
    untouched, by every reader of that width, and has the length the size
    function of that width announces: [write_u64], [read_u64], [stream_read_u64]
    and [sizeof_u64], and their [usize] versions, on every 64-bit number, and the
    32-bit ones on every 32-bit number, with the same bytes. *)
Theorem varint_roundtrip {E} (w rest : bytes) (n : Z) :
  is_u64 n ->
  exists bs, lenZ bs = sizeof_u64 n /\ lenZ bs = sizeof_usize n /\
    write_u64 (E:=E) w n = Ok (w ++ bs) /\ write_usize (E:=E) w n = Ok (w ++ bs) /\
    read_u64 (bs ++ rest) = Ok (n, lenZ bs) /\ read_usize (bs ++ rest) = Ok (n, lenZ bs) /\
    stream_read_u64 (bs ++ rest) = Ok (n, rest) /\ stream_read_usize (bs ++ rest) = Ok (n, rest) /\
    (is_u32 n -> lenZ bs = sizeof_u32 n /\ write_u32 (E:=E) w n = Ok (w ++ bs) /\
                 read_u32 (bs ++ rest) = Ok (n, lenZ bs) /\ stream_read_u32 (bs ++ rest) = Ok (n, rest)).
Proof.
  intros Hn. exists (varint n). unfold sizeof_usize. rewrite sizeof_u64_varint by done.
  split_and!; auto using write_u64_ok, write_usize_ok, read_u64_varint, read_usize_varint,
    stream_read_u64_varint, stream_read_usize_varint.
  intros Hn'. rewrite sizeof_u32_varint by done.
  split_and!; auto using write_u32_ok, read_u32_varint, stream_read_u32_varint.
Qed.

Lemma varint_roundtrip_witness :
  is_u64 (2 ^ 32 - 1) /\ is_u32 (2 ^ 32 - 1) /\
  exists bs, lenZ bs = sizeof_u64 (2 ^ 32 - 1) /\
    write_u64 (E:=io_kind) [7] (2 ^ 32 - 1) = Ok ([7] ++ bs) /\
    read_usize (bs ++ [1; 2]) = Ok (2 ^ 32 - 1, lenZ bs) /\
    stream_read_u64 (bs ++ [1; 2]) = Ok (2 ^ 32 - 1, [1; 2]) /\
    lenZ bs = sizeof_u32 (2 ^ 32 - 1) /\ stream_read_u32 (bs ++ [1; 2]) = Ok (2 ^ 32 - 1, [1; 2]).
Proof.
  assert (is_u64 (2 ^ 32 - 1)) as Hn by (unfold in_range; lia).
  assert (is_u32 (2 ^ 32 - 1)) as Hn' by (unfold in_range; lia).
  split; [exact Hn|split; [exact Hn'|]].
  destruct (varint_roundtrip (E:=io_kind) [7] [1; 2] _ Hn)
    as (bs & Hs & _ & Hw & _ & _ & Hr & Ht & _ & H32).
  destruct (H32 Hn') as (Hs' & _ & _ & Ht').
  exists bs. exact (conj Hs (conj Hw (conj Hr (conj Ht (conj Hs' Ht'))))).
Defined.
