(* ===== verification/AddrCache.v ===== *)
(** * The address cache ([src/src/vcdiff/address_cache.rs])

    The NEAR/SAME caches that compress COPY addresses (RFC 3284, section 5.3):
    the cache's state and its update, the encoder's choice of a mode and the
    decoder.  The theorems: every operation keeps the cache well formed, the
    decoder inverts the encoder and leaves the same cache behind, no mode would
    have been shorter, and a decoded address is below [here]. *)

From stdpp Require Import base numbers list option.
From Stdlib Require Import ZArith Lia.
From S2P Require Import Prelude Varint.

Local Open Scope Z_scope.
Local Open Scope rust_scope.

Definition VCD_SELF : Z := 0.
Definition VCD_HERE : Z := 1.

(** [EncodedAddr::VarInt { bytes, len }] and [EncodedAddr::SameByte]. *)
Inductive EncodedAddr :=
  | VarIntAddr (bs : bytes) (len : Z)
  | SameByte (b : Z).

Inductive AddressCacheError := AddrUnderflow | InvalidAddr.

Module EncodedAddr.
Definition as_bytes {E} (a : EncodedAddr) : result E bytes :=
  match a with
  | VarIntAddr bs len => slice bs 0 len
  | SameByte b => Ok [b]
  end.

Definition write_to {E} (a : EncodedAddr) (w : bytes) : result E bytes :=
  match a with
  | VarIntAddr bs len => let* s := slice bs 0 len in Ok (w ++ s)
  | SameByte b => Ok (w ++ [b])
  end.

Definition len (a : EncodedAddr) : Z :=
  match a with
  | VarIntAddr _ len => len
  | SameByte _ => 1
  end.

Definition is_empty (a : EncodedAddr) : bool := len a =? 0.
End EncodedAddr.

Module AddressCache.
Record t := mk {
  s_near : Z;
  s_same : Z;
  near : list Z;
  same : list Z;
  next_slot : Z
}.

Definition with_sizes (s_near s_same : Z) : t :=
{| s_near := s_near;
   s_same := s_same;
   near := replicate (Z.to_nat s_near) 0;
   same := replicate (Z.to_nat (s_same * 256)) 0;
   next_slot := 0 |}.

(** RFC 3284's default: four NEAR slots, three SAME groups. *)
Definition new : t := with_sizes 4 3.

Definition init (c : t) : t :=
{| s_near := s_near c;
   s_same := s_same c;
   near := replicate (length (near c)) 0;
   same := replicate (length (same c)) 0;
   next_slot := 0 |}.

Definition mode_count (c : t) : Z := 2 + s_near c + s_same c.

Definition same_start (c : t) : Z := 2 + s_near c.

Section Ops.
Context {B : Build} {E : Type}.

Definition update (c : t) (addr : Z) : result E t :=
  let* c :=
    if 0 <? s_near c then
      let* near := store (near c) (next_slot c) addr in
      Ok {| s_near := s_near c; s_same := s_same c; near := near;
            same := same c; next_slot := (next_slot c + 1) mod s_near c |}
    else Ok c in
  if 0 <? s_same c then
  let idx := addr mod (s_same c * 256) in
  let* same := store (same c) idx addr in
  Ok {| s_near := s_near c; s_same := s_same c; near := near c;
        same := same; next_slot := next_slot c |}
  else Ok c.

(** The encoding of [val] moved to the front of a 10-byte array. *)
Definition emit_non_same (val mode : Z) : result E (Z * EncodedAddr) :=
  let* (len, buf) := encode_u64 val (replicate 10 0) in
  let* s := slice_from buf (10 - len) in
  Ok (mode, VarIntAddr (s ++ drop (Z.to_nat len) (replicate 10 0)) len).

(** The NEAR loop of [encode] over slots [i .. i + n).  The boolean says
    that [smallest_int!] returned from inside the loop. *)
Fixpoint scan_near (c : t) (n : nat) (i addr best_d best_m : Z)
  : result E (bool * Z * Z) :=
  match n with
  | O => Ok (false, best_d, best_m)
  | S n =>
    let* slot := index (near c) i in
    if slot <=? addr then
      let d := addr - slot in
      if d <? best_d then
        let* best_m := add_w 8 (wrap 8 i) 2 in
        if d <=? 127 then Ok (true, d, best_m)
        else scan_near c n (i + 1) addr d best_m
      else scan_near c n (i + 1) addr best_d best_m
    else scan_near c n (i + 1) addr best_d best_m
  end.

(** [emit_non_same] followed by [update], the tail of every varint exit. *)
Definition emit_and_update (c : t) (addr d m : Z) : result E (Z * EncodedAddr * t) :=
  let* (mode, enc) := emit_non_same d m in
  let* c := update c addr in
  Ok (mode, enc, c).

Definition encode (c : t) (addr here : Z) : result E (Z * EncodedAddr * t) :=
  let* _ := debug_assert (addr <? here) in
  let best_d := addr in
  let best_m := VCD_SELF in
  if best_d <=? 127 then emit_and_update c addr best_d best_m
  else
    (* VCD_HERE *)
    let* d := sub_w 64 here addr in
    let '(best_d, best_m, hit) :=
      if d <? best_d then (d, VCD_HERE, d <=? 127) else (best_d, best_m, false) in
    if hit : bool then emit_and_update c addr best_d best_m
  else
    (* NEAR modes *)
    let* (hit, best_d, best_m) :=
      scan_near c (Z.to_nat (s_near c)) 0 addr best_d best_m in
    if hit : bool then emit_and_update c addr best_d best_m
    else
      (* SAME mode *)
      let d_idx := addr mod (s_same c * 256) in
      let* same_hit :=
        if 0 <? s_same c then
          let* v := index (same c) d_idx in Ok (v =? addr)
        else Ok false in
      if same_hit : bool then
        let byte_val := wrap 8 (d_idx mod 256) in
        let mode := wrap 8 (same_start c + d_idx / 256) in
        let* c := update c addr in
        Ok (mode, SameByte byte_val, c)
      else emit_and_update c addr best_d best_m.
End Ops.

(** The address a mode below [same_start] and a varint denote. *)
Definition raw_addr (c : t) (mode raw here : Z) : result AddressCacheError Z :=
  if mode =? 0 then Ok raw
  else if mode =? 1 then
    if raw <=? here then Ok (here - raw) else Err InvalidAddr
  else
    let* n := index (near c) (mode - 2) in
    if in_rangeb 64 (n + raw) then Ok (n + raw) else Err InvalidAddr.

Definition decode (c : t) (mode : Z) (addr_data : bytes) (here : Z)
    : result AddressCacheError (Z * Z * t) :=
  let* (addr, consumed) :=
    if mode <? same_start c then
      let* (raw, consumed) := map_err (fun _ => AddrUnderflow) (read_u64 addr_data) in
      let* addr := raw_addr c mode raw here in
      Ok (addr, consumed)
    else
      match addr_data with
      | [] => Err AddrUnderflow
      | byte :: _ =>
          let slot := mode - same_start c in
          let* addr := index (same c) (slot * 256 + byte) in
          Ok (addr, 1)
      end in
  if here <=? addr then Err InvalidAddr
  else
    let* c := update c addr in
    Ok (addr, consumed, c).
End AddressCache.

(** ** Well-formed caches *)

Import AddressCache.

Record cache_wf (c : t) : Prop := {
  wf_sizes : 0 <= s_near c /\ 0 <= s_same c /\ mode_count c <= 256;
  wf_near : lenZ (near c) = s_near c;
  wf_same : lenZ (same c) = s_same c * 256;
  wf_slot : 0 <= next_slot c < Z.max 1 (s_near c);
  wf_near_u64 : Forall is_u64 (near c);
  wf_same_u64 : Forall is_u64 (same c);
  (* a SAME slot is empty or holds an address that hashes to it *)
  wf_same_slot : forall i v, same c !! i = Some v ->
    v = 0 \/ v mod (s_same c * 256) = Z.of_nat i
}.

(** [update] as a total function. *)
Definition upd (c : t) (addr : Z) : t :=
  {| s_near := s_near c;
     s_same := s_same c;
     near := if 0 <? s_near c then <[Z.to_nat (next_slot c) := addr]> (near c) else near c;
     same := if 0 <? s_same c
             then <[Z.to_nat (addr mod (s_same c * 256)) := addr]> (same c) else same c;
     next_slot := if 0 <? s_near c then (next_slot c + 1) mod s_near c else next_slot c |}.

Lemma update_ok {E} c addr : cache_wf c -> update (E:=E) c addr = Ok (upd c addr).
Proof.
  intros [(? & ? & ?) Hn Hs Hsl _ _ _]. unfold update, upd. destruct c; simpl in *.
  destruct (Z.ltb_spec 0 s_near0); simpl.
  - rewrite store_ok by lia. simpl. destruct (Z.ltb_spec 0 s_same0); simpl; [|done].
    rewrite store_ok; [done|]. rewrite Hs. apply Z.mod_pos_bound. lia.
  - destruct (Z.ltb_spec 0 s_same0); simpl; [|done].
    rewrite store_ok; [done|]. rewrite Hs. apply Z.mod_pos_bound. lia.
Qed.

Lemma upd_wf c addr : is_u64 addr -> cache_wf c -> cache_wf (upd c addr).
Proof.
  intros Ha [(? & ? & ?) Hn Hs Hsl Hnu Hsu Hss]. unfold upd.
  constructor; simpl; auto.
  - destruct (_ <? _); by rewrite ?lenZ_insert.
  - destruct (_ <? _); by rewrite ?lenZ_insert.
  - destruct (Z.ltb_spec 0 (s_near c)); [|done].
    pose proof (Z.mod_pos_bound (next_slot c + 1) (s_near c)). lia.
  - destruct (_ <? _); [by apply Forall_insert|done].
  - destruct (_ <? _); [by apply Forall_insert|done].
  - intros i v. destruct (Z.ltb_spec 0 (s_same c)); [|apply Hss].
    pose proof (Z.mod_pos_bound addr (s_same c * 256)).
    rewrite list_lookup_insert_Some. intros [(<- & -> & _)|[_ Hl]]; [right; lia|auto].
Qed.

Lemma with_sizes_wf sn ss :
  0 <= sn -> 0 <= ss -> 2 + sn + ss <= 256 -> cache_wf (with_sizes sn ss).
Proof.
  intros. constructor; simpl; try (unfold mode_count; simpl; lia).
  - rewrite lenZ_replicate. lia.
  - rewrite lenZ_replicate. lia.
  - apply Forall_replicate, zero_u64.
  - apply Forall_replicate, zero_u64.
  - intros i v [-> _]%lookup_replicate. auto.
Qed.

Lemma new_wf : cache_wf new.
Proof. apply with_sizes_wf; lia. Qed.

Lemma init_wf c : cache_wf c -> cache_wf (init c).
Proof.
  intros [? Hn Hs ? _ _ _]. constructor; simpl; auto; try lia.
  - by rewrite lenZ_replicate.
  - by rewrite lenZ_replicate.
  - apply Forall_replicate, zero_u64.
  - apply Forall_replicate, zero_u64.
  - intros i v [-> _]%lookup_replicate. auto.
Qed.

(** [init] forgets everything but the sizes. *)
Lemma init_eq c : cache_wf c -> init c = with_sizes (s_near c) (s_same c).
Proof.
  intros [? Hn Hs ? _ _ _]. unfold init, with_sizes.
  by rewrite <- Hn, <- Hs, !lenZ_to_nat.
Qed.

#[export] Hint Resolve new_wf init_wf upd_wf : oxidelta.

(** ** Candidate encodings *)

(** Mode [m] with offset [d] denotes [addr]. *)
Definition candidate (c : t) (here addr d m : Z) : Prop :=
  (m = 0 /\ d = addr) \/ (m = 1 /\ d = here - addr) \/
  (2 <= m < same_start c /\ near c !! Z.to_nat (m - 2) = Some (addr - d)).

(** The SAME slot of [addr] holds it. *)
Definition same_hit (c : t) (addr : Z) : Prop :=
  0 < s_same c /\ same c !! Z.to_nat (addr mod (s_same c * 256)) = Some addr.

(** [d] is a varint no longer than that of any candidate offset, and is one
    byte long when a SAME mode would do. *)
Definition best (c : t) (here addr d : Z) : Prop :=
  d <= 127 \/
  ((forall d' m', candidate c here addr d' m' -> 0 <= d' -> d <= d') /\ ~ same_hit c addr).

Lemma candidate_u64 c here addr d m :
  cache_wf c -> 0 <= addr < here -> is_u64 here -> 0 <= d ->
  candidate c here addr d m -> is_u64 d.
Proof.
  intros Hc Ha Hh Hd H. unfold in_range in *.
  destruct H as [(-> & ->)|[(-> & ->)|(Hm & Hn)]]; [lia|lia|].
  pose proof (Forall_lookup_1 _ _ _ _ (wf_near_u64 c Hc) Hn) as Hr. unfold in_range in Hr. lia.
Qed.

Lemma candidate_decode c here addr d m rest :
  cache_wf c -> 0 <= addr < here -> is_u64 here -> 0 <= d ->
  candidate c here addr d m ->
  decode c m (varint d ++ rest) here = Ok (addr, lenZ (varint d), upd c addr).
Proof.
  intros Hc Ha Hh Hd H. pose proof (candidate_u64 _ _ _ _ _ Hc Ha Hh Hd H) as Hdu.
  destruct (wf_sizes c Hc) as (? & ? & ?). unfold decode.
  assert (m < same_start c /\ raw_addr c m d here = Ok addr) as [Hm Hraw].
  { unfold raw_addr, candidate, same_start in *.
    destruct H as [(-> & ->)|[(-> & ->)|(Hm & Hn)]].
    - split; [lia|done].
    - split; [lia|]. simpl. rewrite (proj2 (Z.leb_le _ _)) by lia. f_equal. lia.
    - split; [lia|]. rewrite !(proj2 (Z.eqb_neq _ _)) by lia.
      rewrite (index_lookup _ (m - 2) (addr - d)) by (done || lia). cbn [bind].
      replace (addr - d + d) with addr by lia.
      by rewrite (proj2 (in_rangeb_spec 64 addr)) by (unfold in_range in *; lia). }
  rewrite (proj2 (Z.ltb_lt _ _) Hm), read_u64_varint by done. cbn [map_err bind].
  rewrite Hraw. cbn [bind]. rewrite (proj2 (Z.leb_gt _ _)) by lia.
  by rewrite update_ok.
Qed.

(** ** The encoder's choice *)

(** [d] is minimal among the candidates of mode below [k]. *)
Definition best_below (c : t) (here addr k d : Z) : Prop :=
  forall d' m', candidate c here addr d' m' -> m' < k -> 0 <= d' -> d <= d'.

Lemma best_below_extend c here addr i d0 d :
  0 <= i < s_near c -> d <= d0 -> best_below c here addr (i + 2) d0 ->
  (forall slot, near c !! Z.to_nat i = Some slot -> 0 <= addr - slot -> d <= addr - slot) ->
  best_below c here addr (i + 1 + 2) d.
Proof.
  intros Hi Hle Hb Hslot d' m' Hc Hm Hd. destruct (Z.lt_ge_cases m' (i + 2)).
  - etrans; [exact Hle|]. by apply (Hb d' m').
  - assert (m' = i + 2) as -> by lia.
    destruct Hc as [[? _]|[[? _]|[_ Hn]]]; [lia|lia|].
    replace (i + 2 - 2) with i in Hn by lia. pose proof (Hslot _ Hn). lia.
Qed.

Section Encode.
Context {B : Build} {E : Type}.

Lemma scan_near_spec c here addr n i d0 m0 :
  cache_wf c -> 0 <= i -> i + Z.of_nat n = s_near c ->
  0 <= d0 -> candidate c here addr d0 m0 -> best_below c here addr (i + 2) d0 ->
  exists (hit : bool) d m, scan_near (E:=E) c n i addr d0 m0 = Ok (hit, d, m) /\
    0 <= d /\ candidate c here addr d m /\
    (if hit then d <= 127 else best_below c here addr (same_start c) d).
Proof.
  intros Hwf. destruct (wf_sizes c Hwf) as (? & ? & Hmc). unfold mode_count in Hmc.
  revert i d0 m0. induction n as [|n IH]; intros i d0 m0 Hi Hn Hd Hc Hb; simpl.
  - exists false, d0, m0. split_and!; auto.
    unfold same_start. by replace (2 + s_near c) with (i + 2) by lia.
  - destruct (index_ok (E:=E) (near c) i) as (slot & Hslot & ->);
      [rewrite (wf_near c Hwf); lia|]. cbn [bind].
    assert (i + 1 + Z.of_nat n = s_near c) as Hn' by lia.
    destruct (Z.leb_spec slot addr).
    2: { apply IH; auto; [lia|]. apply (best_below_extend _ _ _ _ d0); auto; [lia|lia|].
         intros ? Heq ?. rewrite Hslot in Heq. injection Heq as <-. lia. }
    destruct (Z.ltb_spec (addr - slot) d0).
    2: { apply IH; auto; [lia|]. apply (best_below_extend _ _ _ _ d0); auto; [lia|lia|].
         intros ? Heq ?. rewrite Hslot in Heq. injection Heq as <-. lia. }
    rewrite wrap_small, add_w_ok by (unfold in_range; lia). cbn [bind].
    assert (candidate c here addr (addr - slot) (i + 2)).
    { right. right. unfold same_start. split; [lia|].
      replace (i + 2 - 2) with i by lia. rewrite Hslot. f_equal. lia. }
    destruct (Z.leb_spec (addr - slot) 127).
    + exists true, (addr - slot), (i + 2). split_and!; auto. lia.
    + apply IH; auto; [lia|lia|]. apply (best_below_extend _ _ _ _ d0); auto; [lia|lia|].
      intros ? Heq ?. rewrite Hslot in Heq. injection Heq as <-. lia.
Qed.

Lemma emit_and_update_ok c addr d m :
  cache_wf c -> is_u64 d ->
  exists pad, emit_and_update (E:=E) c addr d m =
    Ok (m, VarIntAddr (varint d ++ pad) (lenZ (varint d)), upd c addr).
Proof.
  intros Hc Hd. unfold emit_and_update, emit_non_same.
  destruct (encode_u64_ok (E:=E) d (replicate 10 0) Hd eq_refl) as (pre & Hpre & Hl & ->).
  cbn [bind]. replace (10 - lenZ (varint d)) with (lenZ pre) by (unfold lenZ; lia).
  rewrite slice_from_app. cbn [bind]. rewrite update_ok by done. eexists. reflexivity.
Qed.

(** What [encode] returns: a mode and an offset that denote [addr] and are
    best, or the SAME slot that holds [addr]. *)
Lemma encode_spec c addr here :
  cache_wf c -> is_u64 here -> 0 <= addr < here ->
  (exists d m pad,
     encode (E:=E) c addr here =
       Ok (m, VarIntAddr (varint d ++ pad) (lenZ (varint d)), upd c addr) /\
     0 <= d /\ candidate c here addr d m /\ best c here addr d) \/
  (exists idx, 0 < s_same c /\ idx = addr mod (s_same c * 256) /\
     same c !! Z.to_nat idx = Some addr /\
     encode (E:=E) c addr here =
       Ok (same_start c + idx / 256, SameByte (idx mod 256), upd c addr)).
Proof.
  intros Hc Hh Ha. pose proof (wf_sizes c Hc) as (? & ? & Hmc).
  assert (forall d m, 0 <= d -> candidate c here addr d m -> best c here addr d ->
    exists d' m' pad, emit_and_update (E:=E) c addr d m =
       Ok (m', VarIntAddr (varint d' ++ pad) (lenZ (varint d')), upd c addr) /\
       0 <= d' /\ candidate c here addr d' m' /\ best c here addr d') as Hexit.
  { intros d m Hd Hcand Hbest.
    destruct (emit_and_update_ok c addr d m Hc) as [pad ->].
    - by apply (candidate_u64 c here addr d m).
    - exists d, m, pad. auto. }
  assert (candidate c here addr addr 0) as Hself by (left; auto).
  assert (candidate c here addr (here - addr) 1) as Hhere by (right; left; auto).
  unfold encode. rewrite debug_assert_ok by lia. cbn [bind].
  destruct (Z.leb_spec addr 127); [left; apply Hexit; auto; [lia|by left]|].
  rewrite sub_w_ok by (unfold in_range in *; lia). cbn [bind].
  set (r := if here - addr <? addr then _ else _).
  assert (exists d0 m0, r = (d0, m0, d0 <=? 127) /\ 0 <= d0 /\
            candidate c here addr d0 m0 /\ best_below c here addr (0 + 2) d0)
    as (d0 & m0 & -> & Hd0 & Hc0 & Hb0).
  { subst r. destruct (Z.ltb_spec (here - addr) addr).
    - exists (here - addr), 1. split_and!; auto; [lia|].
      intros d' m' [[-> ->]|[[-> ->]|[? _]]]; lia.
    - exists addr, 0. rewrite (proj2 (Z.leb_gt _ _)) by lia. split_and!; auto; [lia|].
      intros d' m' [[-> ->]|[[-> ->]|[? _]]]; lia. }
  destruct (Z.leb_spec d0 127); [left; apply Hexit; auto; by left|].
  destruct (scan_near_spec c here addr (Z.to_nat (s_near c)) 0 d0 m0)
    as (hit & d & m & -> & Hd & Hcd & Hb); auto; [lia|lia|]. cbn [bind].
  destruct hit; [left; apply Hexit; auto; by left|].
  assert (~ same_hit c addr -> best c here addr d) as Hbest.
  { intros Hsame. right. split; [|done]. intros d' m' Hc' Hd'.
    apply (Hb d' m'); auto. unfold same_start.
    destruct Hc' as [[-> _]|[[-> _]|[? _]]]; unfold same_start in *; lia. }
  destruct (Z.ltb_spec 0 (s_same c)); cbn [bind].
  2: { left. apply Hexit; auto. apply Hbest. intros [? _]. lia. }
  pose proof (Z.mod_pos_bound addr (s_same c * 256)) as Hidx.
  destruct (index_ok (E:=E) (same c) (addr mod (s_same c * 256))) as (v & Hv & ->);
    [rewrite (wf_same c Hc); lia|]. cbn [bind].
  destruct (Z.eqb_spec v addr) as [->|].
  2: { left. apply Hexit; auto. apply Hbest. intros [_ Hs]. rewrite Hv in Hs. congruence. }
  right. exists (addr mod (s_same c * 256)). split_and!; auto.
  rewrite update_ok by done. cbn [bind].
  unfold mode_count, same_start in *.
  rewrite !wrap_small; [done| |]; unfold in_range; dlia.
Qed.
End Encode.

(** ** The decoder *)

Lemma raw_addr_candidate c mode raw here addr :
  cache_wf c -> 0 <= mode < same_start c -> raw_addr c mode raw here = Ok addr ->
  candidate c here addr raw mode.
Proof.
  intros Hc Hm H. unfold raw_addr in H. unfold candidate.
  destruct (Z.eqb_spec mode 0) as [->|]; [injection H as <-; auto|].
  destruct (Z.eqb_spec mode 1) as [->|].
  - destruct (raw <=? here); [|done]. injection H as <-. right. left. lia.
  - apply bind_ok_inv in H as (slot & Hn & H). apply index_inv in Hn as [? Hn].
    destruct (in_rangeb _ _); [|done]. injection H as <-. right. right.
    split; [lia|]. rewrite Hn. f_equal. lia.
Qed.

(** A successful [decode] returns an address below [here] and moves the cache
    by that address. *)
Lemma decode_inv c mode data here addr n c' :
  cache_wf c -> decode c mode data here = Ok (addr, n, c') ->
  addr < here /\ c' = upd c addr.
Proof.
  intros Hc H. unfold decode in H. apply bind_ok_inv in H as ([a k] & _ & H).
  destruct (Z.leb_spec here a); [done|]. rewrite update_ok in H by done.
  cbn [bind] in H. injection H as <- <- <-. auto.
Qed.

Lemma decode_addr_u64 c mode data here addr n c' :
  cache_wf c -> wf_bytes data -> is_u64 here -> 0 <= mode < mode_count c ->
  decode c mode data here = Ok (addr, n, c') -> 0 <= addr < here /\ 0 < n <= lenZ data.
Proof.
  intros Hc Hd Hh Hm H. pose proof (decode_inv _ _ _ _ _ _ _ Hc H) as [Hlt _].
  unfold decode in H. apply bind_ok_inv in H as ([a k] & Ha & H).
  destruct (here <=? a); [done|]. rewrite update_ok in H by done.
  cbn [bind] in H. injection H as ? ? _. subst a k.
  destruct (Z.ltb_spec mode (same_start c)).
  - destruct (read_u64 data) as [[raw j]| | |] eqn:Hr; try done. cbn [map_err bind] in Ha.
    apply read_loop_sound in Hr as (bs & rest & -> & Ht & -> & -> & Hraw);
      auto with oxidelta.
    set (v := varint_value 0 bs) in *.
    apply bind_ok_inv in Ha as (a & Hadd & Ha). injection Ha as ? ?. subst a n.
    assert (0 < lenZ bs) by (destruct bs; [done|]; rewrite lenZ_cons;
                             pose proof (lenZ_nonneg bs); lia).
    split; [|rewrite lenZ_app; pose proof (lenZ_nonneg rest); lia].
    unfold raw_addr, in_range in *.
    destruct (mode =? 0); [injection Hadd as ->; lia|].
    destruct (mode =? 1).
    + destruct (Z.leb_spec v here); [|done]. injection Hadd as <-. lia.
    + apply bind_ok_inv in Hadd as (m & Hi & Hadd). apply index_inv in Hi as [_ Hi].
      pose proof (Forall_lookup_1 _ _ _ _ (wf_near_u64 c Hc) Hi) as Hmr.
      unfold in_range in Hmr. destruct (in_rangeb _ _); [|done]. injection Hadd as <-. lia.
  - destruct data as [|b data]; [done|]. apply bind_ok_inv in Ha as (a & Hi & Ha).
    injection Ha as ? ?. subst a n. apply index_inv in Hi as [_ Hi].
    pose proof (Forall_lookup_1 _ _ _ _ (wf_same_u64 c Hc) Hi) as Hr.
    unfold in_range in Hr. rewrite lenZ_cons. pose proof (lenZ_nonneg data). lia.
Qed.

(** [decode] does not panic on a mode of the cache. *)
Lemma decode_no_panic c mode data here :
  cache_wf c -> wf_bytes data -> 0 <= mode < mode_count c ->
  (exists r, decode c mode data here = Ok r) \/ (exists e, decode c mode data here = Err e).
Proof.
  intros Hc Hd Hm. unfold decode, mode_count, same_start in *.
  pose proof (wf_sizes c Hc) as (? & ? & ?).
  set (m := if _ <? _ then _ else _).
  assert ((exists r, m = Ok r) \/ exists e, m = Err e) as [[[a k] ->]|[e ->]].
  { subst m. destruct (Z.ltb_spec mode (2 + s_near c)).
    - destruct (read_u64 data) as [[raw j]| | |] eqn:Hr; cbn [map_err bind]; eauto.
      2-3: exfalso; revert Hr; unfold read_u64; generalize 0 at 1 as v; generalize 0 as i;
           clear; induction data as [|b data IH]; intros i v; simpl; try done;
           destruct (negb _); try done; destruct (_ =? 0); [done|apply IH].
      unfold raw_addr. destruct (Z.eqb_spec mode 0); [cbn; eauto|].
      destruct (Z.eqb_spec mode 1); [destruct (_ <=? _); cbn; eauto|].
      destruct (index_ok (E:=AddressCacheError) (near c) (mode - 2)) as (x & _ & ->);
        [rewrite (wf_near c Hc); lia|].
      cbn [bind]. destruct (in_rangeb _ _); cbn; eauto.
    - destruct data as [|b data]; [eauto|]. apply wf_bytes_cons in Hd as [Hb _].
      destruct (index_ok (E:=AddressCacheError) (same c)
                  ((mode - (2 + s_near c)) * 256 + b)) as (x & _ & ->).
      + rewrite (wf_same c Hc). unfold in_range in Hb. lia.
      + cbn. eauto. }
  - cbn [bind]. destruct (here <=? a); [eauto|]. rewrite update_ok by done. cbn. eauto.
  - cbn. eauto.
Qed.

(** ** Encoding and decoding agree *)

Lemma candidate_mode c here addr d m :
  cache_wf c -> candidate c here addr d m -> 0 <= m < same_start c.
Proof.
  intros Hc. pose proof (wf_sizes c Hc). unfold candidate, same_start.
  intros [[-> _]|[[-> _]|[? _]]]; lia.
Qed.

Lemma decode_same c here addr idx rest :
  cache_wf c -> 0 <= addr < here -> 0 < s_same c ->
  0 <= idx < s_same c * 256 -> same c !! Z.to_nat idx = Some addr ->
  decode c (same_start c + idx / 256) (idx mod 256 :: rest) here = Ok (addr, 1, upd c addr).
Proof.
  intros Hc Ha Hs Hidx Hl. unfold decode.
  rewrite (proj2 (Z.ltb_ge _ _)) by dlia.
  replace (same_start c + idx / 256 - same_start c) with (idx / 256) by lia.
  replace (idx / 256 * 256 + idx mod 256) with idx by dlia.
  rewrite (index_lookup _ _ addr) by (done || lia). cbn [bind].
  rewrite (proj2 (Z.leb_gt _ _)) by lia. by rewrite update_ok.
Qed.

Lemma encode_decode {B : Build} {E} c addr here :
  cache_wf c -> is_u64 here -> 0 <= addr < here ->
  exists mode enc bs,
    encode (E:=E) c addr here = Ok (mode, enc, upd c addr) /\
    (forall E w, EncodedAddr.write_to (E:=E) enc w = Ok (w ++ bs)) /\
    EncodedAddr.len enc = lenZ bs /\ (wf_bytes bs /\ lenZ bs <= 10) /\ 0 <= mode < mode_count c /\
    forall rest, decode c mode (bs ++ rest) here = Ok (addr, lenZ bs, upd c addr).
Proof.
  intros Hc Hh Ha. pose proof (wf_sizes c Hc) as (? & ? & ?).
  destruct (encode_spec (E:=E) c addr here Hc Hh Ha)
    as [(d & m & pad & Heq & Hd & Hcand & _)|(idx & Hs & -> & Hl & Heq)].
  - exists m, (VarIntAddr (varint d ++ pad) (lenZ (varint d))), (varint d).
    pose proof (candidate_mode _ _ _ _ _ Hc Hcand). unfold mode_count, same_start in *.
    pose proof (varint_length_le d (candidate_u64 c here addr d m Hc Ha Hh Hd Hcand)). split_and!; auto with oxidelta; try lia.
    + intros. simpl. by rewrite slice_prefix.
    + intros. by apply candidate_decode.
  - pose proof (Z.mod_pos_bound addr (s_same c * 256)).
    eexists _, _, [_]. split; [exact Heq|]. unfold mode_count, same_start.
    split_and!; auto; try dlia.
    + apply wf_bytes_cons. split; [unfold in_range; dlia|constructor].
    + done.
    + intros. apply decode_same; auto. lia.
Qed.

Lemma varint_mono a b : 0 <= a <= b -> is_u64 b -> lenZ (varint a) <= lenZ (varint b).
Proof.
  intros Hab Hb. unfold in_range in Hb. rewrite <- !sizeof_u64_varint by (unfold in_range; lia).
  unfold sizeof_u64, leading_zeros, div_ceil.
  pose proof (Z.log2_nonneg a). pose proof (Z.log2_nonneg b).
  pose proof (Z.log2_le_mono a b). repeat case_bool; dlia.
Qed.

Lemma varint_small d : 0 <= d <= 127 -> lenZ (varint d) = 1.
Proof.
  intros. unfold varint. rewrite Z.div_small, groups_0 by lia. done.
Qed.

(** ** Properties *)

(** C25: for every address below [here], [encode] succeeds and, whatever
    follows in the address section, [decode] of the emitted bytes in the same
    cache returns the address, consumes exactly those bytes and leaves the
    same, well-formed, cache. *)
Theorem address_roundtrip {B : Build} {E} (c : t) (addr here : Z) (rest : bytes) :
  cache_wf c -> is_u64 here -> 0 <= addr < here ->
  exists mode enc bs c',
    encode (E:=E) c addr here = Ok (mode, enc, c') /\
    EncodedAddr.as_bytes (E:=E) enc = Ok bs /\ EncodedAddr.len enc = lenZ bs /\
    decode c mode (bs ++ rest) here = Ok (addr, lenZ bs, c') /\ cache_wf c'.
Proof.
  intros Hc Hh Ha.
  destruct (encode_decode (E:=E) c addr here Hc Hh Ha)
    as (mode & enc & bs & Heq & Hw & Hl & _ & _ & Hdec).
  exists mode, enc, bs, (upd c addr). split_and!; auto.
  - specialize (Hw E []). destruct enc; simpl in *; [|done].
    destruct (slice bs0 0 len) eqn:Hs; simpl in Hw; congruence.
  - apply upd_wf; [|done]. unfold in_range in *. lia.
Qed.

Lemma address_roundtrip_witness :
  cache_wf (upd new 500000) /\
  exists mode enc bs c',
    encode (B:={| debug_build := true |}) (E:=io_kind) (upd new 500000) 500005 1000000
      = Ok (mode, enc, c') /\
    EncodedAddr.as_bytes (E:=io_kind) enc = Ok bs /\ EncodedAddr.len enc = lenZ bs /\
    decode (upd new 500000) mode (bs ++ [1; 2]) 1000000 = Ok (500005, lenZ bs, c') /\
    cache_wf c'.
Proof.
  assert (cache_wf (upd new 500000)) as Hc
    by (apply upd_wf; [unfold in_range; lia|apply new_wf]).
  split; [exact Hc|].
  apply (address_roundtrip (B:={| debug_build := true |})); [exact Hc| |];
    unfold in_range; lia.
Defined.

(** The mode [encode] selects is a shortest one: any mode and bytes that
    decode to the same address are at least as long. *)
Theorem address_shortest {B : Build} {E} (c : t) (addr here mode : Z) enc c' :
  cache_wf c -> is_u64 here -> 0 <= addr < here ->
  encode (E:=E) c addr here = Ok (mode, enc, c') ->
  forall mode' bs' n c'', wf_bytes bs' -> 0 <= mode' < mode_count c ->
    decode c mode' bs' here = Ok (addr, n, c'') -> EncodedAddr.len enc <= n.
Proof.
  intros Hc Hh Ha Henc mode' bs' n c'' Hbs Hm' Hdec.
  pose proof (decode_addr_u64 _ _ _ _ _ _ _ Hc Hbs Hh Hm' Hdec) as [_ Hn].
  destruct (encode_spec (E:=E) c addr here Hc Hh Ha)
    as [(d & m & pad & Heq & Hd & Hcand & Hbest)|(idx & _ & _ & _ & Heq)];
    rewrite Heq in Henc; injection Henc as <- <- <-; simpl; [|lia].
  destruct Hbest as [Hle|[Hbest Hsame]]; [rewrite varint_small; lia|].
  unfold decode in Hdec. apply bind_ok_inv in Hdec as ([a k] & Hdec & Hend).
  destruct (here <=? a); [done|]. rewrite update_ok in Hend by done.
  cbn [bind] in Hend. injection Hend as ? ? _. subst a k.
  destruct (Z.ltb_spec mode' (same_start c)).
  - destruct (read_u64 bs') as [[raw j]| | |] eqn:Hr; try done. cbn [map_err bind] in Hdec.
    apply read_loop_sound in Hr as (ds & rest & -> & Ht & -> & -> & Hraw); auto with oxidelta.
    apply bind_ok_inv in Hdec as (a & Hadd & Hdec). injection Hdec as ? ?. subst a n.
    apply raw_addr_candidate in Hadd; [|done|lia].
    etrans; [|by apply (varint_shortest _ ds Hraw Ht)].
    unfold in_range in Hraw. apply varint_mono; [|done].
    split; [done|]. apply (Hbest _ mode'); [done|lia].
  - destruct bs' as [|b bs']; [done|]. apply bind_ok_inv in Hdec as (a & Hi & Hdec).
    injection Hdec as ? ?. subst a n. apply index_inv in Hi as [_ Hi].
    destruct (wf_same_slot c Hc _ _ Hi) as [->|Hslot].
    + pose proof (Hbest 0 0 ltac:(left; auto) ltac:(lia)).
      rewrite varint_small; lia.
    + destruct Hsame. pose proof (lookup_lt_Some _ _ _ Hi) as Hlen.
      pose proof (wf_same c Hc) as Hsl. unfold lenZ in Hsl. split; [lia|].
      by rewrite Hslot, Nat2Z.id.
Qed.

Lemma address_shortest_witness :
  exists mode enc c',
    encode (B:={| debug_build := true |}) (E:=io_kind) (upd new 500000) 500005 1000000
      = Ok (mode, enc, c') /\
    decode (upd new 500000) 0 (varint 500005) 1000000 = Ok (500005, 3, c') /\
    EncodedAddr.len enc <= 3.
Proof.
  assert (cache_wf (upd new 500000)) as Hc
    by (apply upd_wf; [unfold in_range; lia|apply new_wf]).
  eexists _, _, _. split; [vm_compute; reflexivity|]. split; [vm_compute; reflexivity|].
  eapply (address_shortest (B:={| debug_build := true |}) (E:=io_kind)
            (upd new 500000) 500005 1000000 2 _ _ Hc).
  - unfold in_range; lia.
  - lia.
  - vm_compute. reflexivity.
  - apply (varint_wf 500005).
  - instantiate (1 := 0). unfold mode_count. simpl. lia.
  - vm_compute. reflexivity.
Defined.

(** On any bytes and any mode of the cache, [decode] does not panic; a
    success consumed at least one byte and no more than there were, and the
    address lies below [here]. *)
Theorem address_decode_safe (c : t) (mode here : Z) (data : bytes) :
  cache_wf c -> wf_bytes data -> is_u64 here -> 0 <= mode < mode_count c ->
  (exists e, decode c mode data here = Err e) \/
  (exists addr n c', decode c mode data here = Ok (addr, n, c') /\
     0 <= addr < here /\ 0 < n <= lenZ data /\ cache_wf c').
Proof.
  intros Hc Hd Hh Hm.
  destruct (decode_no_panic c mode data here Hc Hd Hm) as [[[[addr n] c'] H]|]; [right|auto].
  pose proof (decode_inv _ _ _ _ _ _ _ Hc H) as [_ ->].
  pose proof (decode_addr_u64 _ _ _ _ _ _ _ Hc Hd Hh Hm H) as [? ?].
  exists addr, n, (upd c addr). split_and!; auto; try lia.
  apply upd_wf; [unfold in_range in *; lia|done].
Qed.

Lemma address_decode_safe_witness :
  (exists e, decode new 8 [255] 100 = Err e) \/
  (exists addr n c', decode new 8 [255] 100 = Ok (addr, n, c') /\
     0 <= addr < 100 /\ 0 < n <= lenZ [255] /\ cache_wf c').
Proof.
  apply (address_decode_safe new 8 100 [255] new_wf).
  - repeat constructor; unfold in_range; lia.
  - unfold in_range; lia.
  - unfold mode_count. simpl. lia.
Defined.

(** An address that was just coded costs one byte when it is coded again,
    wherever the target position has moved in between. *)
Theorem address_repeat_one_byte {B : Build} {E} (c : t) (addr here : Z) :
  cache_wf c -> 0 < s_near c -> is_u64 here -> 0 <= addr < here ->
  exists mode enc c', encode (E:=E) (upd c addr) addr here = Ok (mode, enc, c') /\
    EncodedAddr.len enc = 1.
Proof.
  intros Hc Hs Hh Ha.
  assert (cache_wf (upd c addr)) as Hc' by (apply upd_wf; [unfold in_range in *; lia|done]).
  pose proof (wf_slot c Hc) as Hslot. pose proof (wf_near c Hc) as Hnl.
  destruct (encode_spec (E:=E) (upd c addr) addr here Hc' Hh Ha)
    as [(d & m & pad & Heq & Hd & Hcand & Hbest)|(idx & _ & _ & _ & Heq)].
  - eexists _, _, _. split; [exact Heq|]. simpl. apply varint_small.
    destruct Hbest as [?|[Hbest _]]; [lia|].
    cut (d <= 0); [lia|]. apply (Hbest 0 (next_slot c + 2)); [|lia].
    right. right. unfold same_start. simpl. split; [lia|].
    rewrite (proj2 (Z.ltb_lt _ _)) by lia.
    replace (next_slot c + 2 - 2) with (next_slot c) by lia.
    rewrite list_lookup_insert_eq by (unfold lenZ in Hnl; lia). f_equal. lia.
  - eexists _, _, _. split; [exact Heq|]. done.
Qed.

Lemma address_repeat_one_byte_witness :
  exists mode enc c',
    encode (B:={| debug_build := false |}) (E:=io_kind) (upd new 123456) 123456 9999999
      = Ok (mode, enc, c') /\
    EncodedAddr.len enc = 1.
Proof.
  apply (address_repeat_one_byte (B:={| debug_build := false |}) new);
    [apply new_wf|reflexivity| |]; unfold in_range; lia.
Defined.
