(* ===== verification/CodeTable.v ===== *)
(** * The default code table ([src/src/vcdiff/code_table.rs])

    The 256-entry table of RFC 3284, section 5.6, as the source builds it, the
    encoder's choice of opcodes, and the theorems that tie the two together:
    the built table is the RFC's, and every opcode [choose_instruction] returns
    is the entry that denotes the instruction (or the pair) it was asked for. *)

From stdpp Require Import base numbers list option.
From Stdlib Require Import ZArith Lia.
From S2P Require Import Prelude.

Local Open Scope Z_scope.
Local Open Scope rust_scope.

Definition XD3_NOOP : Z := 0.
Definition XD3_ADD : Z := 1.
Definition XD3_RUN : Z := 2.
Definition XD3_CPY : Z := 3.
Definition MIN_MATCH : Z := 4.

Record CodeTableEntry := entry { type1 : Z; size1 : Z; type2 : Z; size2 : Z }.

#[export] Instance CodeTableEntry_eq_dec : EqDecision CodeTableEntry.
Proof. solve_decision. Defined.

Abbreviation CodeTable := (list CodeTableEntry).

(** The constants of xdelta3's [__rfc3284_code_table_desc]. *)
Definition ADD_SIZES : Z := 17.
Definition NEAR_MODES : Z := 4.
Definition SAME_MODES : Z := 3.
Definition CPY_SIZES : Z := 15.
Definition ADDCOPY_ADD_MAX : Z := 4.
Definition ADDCOPY_NEAR_CPY_MAX : Z := 6.
Definition ADDCOPY_SAME_CPY_MAX : Z := 4.
Definition COPYADD_ADD_MAX : Z := 1.
Definition COPYADD_NEAR_CPY_MAX : Z := 4.
Definition COPYADD_SAME_CPY_MAX : Z := 4.
Definition CPY_MODES : Z := 2 + NEAR_MODES + SAME_MODES.

(** [tbl[idx] = e; idx += 1] *)
Definition put {E} (e : CodeTableEntry) (st : CodeTable * Z) : result E (CodeTable * Z) :=
  let '(tbl, idx) := st in
  let* tbl := store tbl idx e in
  Ok (tbl, idx + 1).

Definition build_default_code_table {B : Build} {E} : result E CodeTable :=
  let st := (replicate 256 (entry 0 0 0 0), 0) in
  let* st := put (entry XD3_RUN 0 XD3_NOOP 0) st in
  let* st := put (entry XD3_ADD 0 XD3_NOOP 0) st in
  let* st := for_in (range 1 (ADD_SIZES + 1))
    (fun size1 => put (entry XD3_ADD size1 XD3_NOOP 0)) st in
  let* st := for_in (range 0 CPY_MODES) (fun mode st =>
    let* st := put (entry (XD3_CPY + mode) 0 XD3_NOOP 0) st in
    for_in (range MIN_MATCH (MIN_MATCH + CPY_SIZES))
      (fun size1 => put (entry (XD3_CPY + mode) size1 XD3_NOOP 0)) st) st in
  let* st := for_in (range 0 CPY_MODES) (fun mode st =>
    let near_limit := 2 + NEAR_MODES in
    let cpy_max := if mode <? near_limit then ADDCOPY_NEAR_CPY_MAX
                   else ADDCOPY_SAME_CPY_MAX in
    for_in (range 1 (ADDCOPY_ADD_MAX + 1)) (fun add_size st =>
      for_in (range MIN_MATCH (cpy_max + 1)) (fun cpy_size =>
        put (entry XD3_ADD add_size (XD3_CPY + mode) cpy_size)) st) st) st in
  let* (tbl, idx) := for_in (range 0 CPY_MODES) (fun mode st =>
    let near_limit := 2 + NEAR_MODES in
    let cpy_max := if mode <? near_limit then COPYADD_NEAR_CPY_MAX
                   else COPYADD_SAME_CPY_MAX in
    for_in (range MIN_MATCH (cpy_max + 1)) (fun cpy_size st =>
      for_in (range 1 (COPYADD_ADD_MAX + 1)) (fun add_size =>
        put (entry (XD3_CPY + mode) cpy_size XD3_ADD add_size)) st) st) st in
  let* _ := debug_assert (idx =? 256) in
  Ok tbl.

(** The table the [LazyLock] holds: see [default_code_table_built]. *)
Definition default_code_table : CodeTable :=
  Eval vm_compute in
    match build_default_code_table (B := {| debug_build := true |}) (E := unit) with
    | Ok tbl => tbl
    | _ => []
    end.

Record ChosenInstruction := chosen { code1 : Z; code2 : option Z }.
Record InstructionInfo := info { itype : Z; size : Z }.

#[export] Instance InstructionInfo_eq_dec : EqDecision InstructionInfo.
Proof. solve_decision. Defined.

Section Choose.
Context {B : Build} {E : Type}.

(** The double opcode for an ADD after [prev]: COPY(4, mode) + ADD(1). *)
Definition choose_copy_add (prev : option InstructionInfo) (inst : InstructionInfo)
    : result E (option Z) :=
  match prev with
  | Some prev =>
      if (size inst =? 1) && (size prev =? 4) && (XD3_CPY <=? itype prev) then
        let* m := sub_w 8 (itype prev) XD3_CPY in
        let* c := add_w 8 247 m in
        Ok (Some c)
      else Ok None
  | None => Ok None
  end.

(** The double opcode for a COPY of [mode] after [prev]. *)
Definition choose_add_copy (prev : option InstructionInfo) (inst : InstructionInfo)
    (mode : Z) : result E (option Z) :=
  match prev with
  | Some prev =>
      if (itype prev =? XD3_ADD) && (size prev <=? 4) then
        if (size inst <=? 6) && (mode <=? 5) then
          let* a := mul_w 8 mode 12 in
          let* s := sub_w 8 (wrap 8 (size prev)) 1 in
          let* b := mul_w 8 3 s in
          let* d := sub_w 8 (wrap 8 (size inst)) 4 in
          let* c := add_w 8 163 a in
          let* c := add_w 8 c b in
          let* c := add_w 8 c d in
          Ok (Some c)
        else if (size inst =? 4) && (6 <=? mode) then
          let* m := sub_w 8 mode 6 in
          let* a := mul_w 8 m 4 in
          let* c := add_w 8 235 a in
          let* s := sub_w 8 (wrap 8 (size prev)) 1 in
          let* c := add_w 8 c s in
          Ok (Some c)
        else Ok None
      else Ok None
  | None => Ok None
  end.

Definition choose_instruction (prev : option InstructionInfo) (inst : InstructionInfo)
    : result E ChosenInstruction :=
  if itype inst =? XD3_RUN then Ok (chosen 0 None)
  else if itype inst =? XD3_ADD then
    if size inst <=? 17 then
      let* code1 := add_w 8 1 (wrap 8 (size inst)) in
      let* code2 := choose_copy_add prev inst in
      Ok (chosen code1 code2)
    else Ok (chosen 1 None)
  else
    let* mode := sub_w 8 (itype inst) XD3_CPY in
    let* base := mul_w 8 16 mode in
    let* code1 := add_w 8 19 base in
    if (4 <=? size inst) && (size inst <=? 18) then
      let* off := sub_w 8 (wrap 8 (size inst)) 3 in
      let* code1 := add_w 8 code1 off in
      let* code2 := choose_add_copy prev inst mode in
      Ok (chosen code1 code2)
    else Ok (chosen code1 None).
End Choose.

(** A decoded instruction, as the public API shows it. *)
Inductive Instruction :=
  | Add (len : Z)
  | Copy (len addr mode : Z)
  | Run (len : Z).

#[export] Instance Instruction_eq_dec : EqDecision Instruction.
Proof. solve_decision. Defined.

(** ** The table is the RFC's *)

(** Entry [i] of the default table, from the columns of RFC 3284, section 5.6. *)
Definition rfc_entry (i : Z) : CodeTableEntry :=
  if i =? 0 then entry XD3_RUN 0 XD3_NOOP 0
  else if i <=? 18 then entry XD3_ADD (i - 1) XD3_NOOP 0
  else if i <=? 162 then
    let m := (i - 19) / 16 in let s := (i - 19) mod 16 in
    entry (XD3_CPY + m) (if s =? 0 then 0 else s + 3) XD3_NOOP 0
  else if i <=? 234 then
    let m := (i - 163) / 12 in let r := (i - 163) mod 12 in
    entry XD3_ADD (r / 3 + 1) (XD3_CPY + m) (r mod 3 + 4)
  else if i <=? 246 then
    let m := (i - 235) / 4 + 6 in
    entry XD3_ADD ((i - 235) mod 4 + 1) (XD3_CPY + m) 4
  else entry (XD3_CPY + (i - 247)) 4 XD3_ADD 1.

Lemma default_code_table_rfc : default_code_table = rfc_entry <$> range 0 256.
Proof. vm_compute. reflexivity. Qed.

Lemma table_lookup i : 0 <= i < 256 -> default_code_table !! Z.to_nat i = Some (rfc_entry i).
Proof.
  intros Hi. rewrite default_code_table_rfc, list_lookup_fmap. unfold range.
  rewrite lookup_seqZ_lt by lia. simpl. do 2 f_equal. lia.
Qed.

Lemma table_index {E} i :
  0 <= i < 256 -> index (E:=E) default_code_table i = Ok (rfc_entry i).
Proof. intros. apply index_lookup; [lia|]. by apply table_lookup. Qed.

(** ** Valid instructions *)

(** An instruction the window encoder can queue. *)
Definition info_ok (i : InstructionInfo) : Prop :=
  (itype i = XD3_ADD \/ itype i = XD3_RUN \/ XD3_CPY <= itype i < XD3_CPY + CPY_MODES) /\
  1 <= size i < 2 ^ 32.

(** Opcode [c] denotes [inst] alone, its size inline or following as a varint. *)
Definition single_code (c : Z) (inst : InstructionInfo) : Prop :=
  0 <= c < 256 /\
  exists s, rfc_entry c = entry (itype inst) s XD3_NOOP 0 /\ (s = 0 \/ s = size inst).

(** Opcode [c] denotes [prev] followed by [inst], both sizes inline. *)
Definition double_code (c : Z) (prev inst : InstructionInfo) : Prop :=
  0 <= c < 256 /\ rfc_entry c = entry (itype prev) (size prev) (itype inst) (size inst).

Lemma wrap8_small s : 0 <= s < 256 -> wrap 8 s = s.
Proof. intros. apply wrap_small. unfold in_range. lia. Qed.

(** Discharge a [u8] computation whose operands are in range. *)
Ltac u8_step :=
  repeat first
    [ rewrite wrap8_small by lia
    | rewrite add_w_ok by (unfold in_range; lia)
    | rewrite sub_w_ok by (unfold in_range; lia)
    | rewrite mul_w_ok by (unfold in_range; lia)
    | progress cbn [bind] ].

(** Evaluate [rfc_entry] at an index whose column is known. *)
Ltac rfc_column :=
  unfold rfc_entry;
  repeat match goal with
  | |- context [if ?a =? ?b then _ else _] =>
      first [ rewrite (proj2 (Z.eqb_neq a b)) by dlia
            | rewrite (proj2 (Z.eqb_eq a b)) by dlia ]; cbv iota
  | |- context [if ?a <=? ?b then _ else _] =>
      first [ rewrite (proj2 (Z.leb_gt a b)) by lia
            | rewrite (proj2 (Z.leb_le a b)) by lia ]; cbv iota
  end;
  cbv zeta; f_equal; unfold XD3_CPY; dlia.

Section ChooseSpec.
Context {B : Build} {E : Type}.

Lemma choose_copy_add_ok prev inst :
  (forall p, prev = Some p -> info_ok p) -> info_ok inst -> itype inst = XD3_ADD ->
  exists c2, choose_copy_add (E:=E) prev inst = Ok c2 /\
    forall c, c2 = Some c -> exists p, prev = Some p /\ double_code c p inst.
Proof.
  intros Hp Hi Ht. unfold choose_copy_add. destruct prev as [p|]; [|by eexists].
  destruct (Hp p eq_refl) as [Hpt Hps].
  destruct (Z.eqb_spec (size inst) 1) as [Hs|]; [|by eexists].
  destruct (Z.eqb_spec (size p) 4) as [Hps4|]; [|by eexists].
  destruct (Z.leb_spec XD3_CPY (itype p)) as [Hcp|]; [|by eexists]. cbn [andb].
  unfold XD3_CPY, XD3_ADD, XD3_RUN, CPY_MODES, NEAR_MODES, SAME_MODES in *.
  u8_step. eexists. split; [reflexivity|]. intros c [= <-]. exists p. split; [done|].
  split; [lia|]. rewrite Ht, Hs, Hps4. rfc_column.
Qed.

Lemma choose_add_copy_ok prev inst mode :
  (forall p, prev = Some p -> info_ok p) -> info_ok inst ->
  itype inst = XD3_CPY + mode -> 0 <= mode < CPY_MODES -> 4 <= size inst <= 18 ->
  exists c2, choose_add_copy (E:=E) prev inst mode = Ok c2 /\
    forall c, c2 = Some c -> exists p, prev = Some p /\ double_code c p inst.
Proof.
  intros Hp Hi Ht Hm Hs. unfold choose_add_copy. destruct prev as [p|]; [|by eexists].
  destruct (Hp p eq_refl) as [_ Hps].
  destruct (Z.eqb_spec (itype p) XD3_ADD) as [Hpt|]; [|by eexists].
  destruct (Z.leb_spec (size p) 4); [|by eexists]. cbn [andb].
  unfold CPY_MODES, NEAR_MODES, SAME_MODES in *.
  destruct (Z.leb_spec (size inst) 6), (Z.leb_spec mode 5); cbn [andb].
  1: { u8_step. eexists. split; [reflexivity|]. intros c [= <-]. exists p. split; [done|].
       split; [lia|]. rewrite Hpt, Ht. rfc_column. }
  all: destruct (Z.eqb_spec (size inst) 4) as [Hs4|]; [|by eexists].
  all: destruct (Z.leb_spec 6 mode); [|by eexists]; cbn [andb]; try lia.
  u8_step. eexists. split; [reflexivity|]. intros c [= <-]. exists p. split; [done|].
  split; [lia|]. rewrite Hpt, Ht, Hs4. rfc_column.
Qed.

(** The chosen opcodes are entries for what they are chosen for. *)
Lemma choose_instruction_ok prev inst :
  (forall p, prev = Some p -> info_ok p) -> info_ok inst ->
  exists c1 c2, choose_instruction (E:=E) prev inst = Ok (chosen c1 c2) /\
    single_code c1 inst /\
    forall c, c2 = Some c -> exists p, prev = Some p /\ double_code c p inst.
Proof.
  intros Hp Hi. pose proof Hi as [Ht Hs]. unfold choose_instruction.
  destruct (Z.eqb_spec (itype inst) XD3_RUN) as [HR|HR].
  { exists 0, None. split; [done|]. split; [|done]. split; [lia|].
    exists 0. rewrite HR. auto. }
  destruct (Z.eqb_spec (itype inst) XD3_ADD) as [HA|HA].
  - destruct (Z.leb_spec (size inst) 17).
    + destruct (choose_copy_add_ok prev inst Hp Hi HA) as (c2 & -> & H2).
      u8_step. eexists _, _. split; [reflexivity|]. split; [|done]. split; [lia|].
      exists (size inst). rewrite HA. split; [rfc_column|auto].
    + exists 1, None. split; [done|]. split; [|done]. split; [lia|].
      exists 0. rewrite HA. auto.
  - assert (XD3_CPY <= itype inst < XD3_CPY + CPY_MODES) as Hc by tauto.
    set (mode := itype inst - XD3_CPY).
    assert (itype inst = XD3_CPY + mode) as Hmode by (subst mode; lia).
    rewrite Hmode in *. clearbody mode.
    unfold XD3_CPY, CPY_MODES, NEAR_MODES, SAME_MODES in *.
    u8_step. replace (3 + mode - 3) with mode by lia. u8_step.
    destruct (Z.leb_spec 4 (size inst)), (Z.leb_spec (size inst) 18); cbn [andb].
    1: { destruct (choose_add_copy_ok prev inst mode Hp Hi) as (c2 & -> & H2); auto;
           [unfold CPY_MODES, NEAR_MODES, SAME_MODES; lia|].
         u8_step. eexists _, _. split; [reflexivity|]. split; [|done]. split; [lia|].
         exists (size inst). rewrite Hmode. split; [rfc_column|auto]. }
    all: eexists _, None; split; [reflexivity|]; split; [|done]; split; [lia|];
         exists 0; rewrite Hmode; split; [rfc_column|auto].
Qed.
End ChooseSpec.

(** ** Double opcodes are complete *)

(** Entry [c], asked for as a pair, is chosen as [c]. *)
Definition double_chosen (E : Type) (b : bool) (c : Z) : bool :=
  let e := rfc_entry c in
  match choose_instruction (B := {| debug_build := b |}) (E := E)
          (Some (info (type1 e) (size1 e))) (info (type2 e) (size2 e)) with
  | Ok (chosen _ (Some c')) => c' =? c
  | _ => false
  end.

Lemma double_chosen_all E b c : 163 <= c < 256 -> double_chosen E b c = true.
Proof. destruct b; revert c; apply range_forall; vm_compute; reflexivity. Qed.

Lemma rfc_single c : 0 <= c < 163 -> type2 (rfc_entry c) = XD3_NOOP.
Proof.
  intros Hc. unfold rfc_entry. repeat case_bool; try lia; done.
Qed.

Lemma choose_double_complete {B : Build} {E} c p i :
  0 <= c < 256 -> itype i <> XD3_NOOP ->
  rfc_entry c = entry (itype p) (size p) (itype i) (size i) ->
  exists c1, choose_instruction (E:=E) (Some p) i = Ok (chosen c1 (Some c)).
Proof.
  intros Hc Hi He. destruct (Z.lt_ge_cases c 163).
  { pose proof (rfc_single c) as Hs. rewrite He in Hs. simpl in Hs. destruct Hi. apply Hs. lia. }
  destruct B as [b]. pose proof (double_chosen_all E b c ltac:(lia)) as Hd.
  unfold double_chosen in Hd. rewrite He in Hd. destruct p, i. simpl in Hd.
  destruct (choose_instruction _ _) as [[c1 [c'|]]| | |] eqn:Hch; try done.
  apply Z.eqb_eq in Hd as ->. by exists c1.
Qed.

(** ** Properties *)

(** C29: in both build profiles the source's loops fill all 256 slots, and
    slot [i] holds the instruction pair RFC 3284, section 5.6, assigns to
    opcode [i]. *)
Theorem default_code_table_built {B : Build} {E} :
  build_default_code_table (E:=E) = Ok default_code_table /\
  length default_code_table = 256%nat /\
  forall i, 0 <= i < 256 -> index (E:=E) default_code_table i = Ok (rfc_entry i).
Proof.
  split_and!.
  - destruct B as [[]]; vm_compute; reflexivity.
  - reflexivity.
  - apply table_index.
Qed.

(** C28: for a queued instruction and its successor, [choose_instruction] does
    not overflow its [u8] arithmetic; [code1] is the entry of the instruction
    alone, its size inline or 0 for a varint to follow, and [code2] is present
    exactly when the table has an entry for the pair, and is that entry. *)
Theorem choose_instruction_correct {B : Build} {E} (prev inst : InstructionInfo) :
  info_ok prev -> info_ok inst ->
  exists c1 c2, choose_instruction (E:=E) (Some prev) inst = Ok (chosen c1 c2) /\
    (exists s, index (E:=E) default_code_table c1 = Ok (entry (itype inst) s XD3_NOOP 0) /\
               (s = 0 \/ s = size inst)) /\
    forall c, c2 = Some c <->
      index (E:=E) default_code_table c =
        Ok (entry (itype prev) (size prev) (itype inst) (size inst)).
Proof.
  intros Hp Hi.
  destruct (choose_instruction_ok (E:=E) (Some prev) inst) as (c1 & c2 & Heq & Hs & Hd);
    [by intros p [= <-]|done|].
  exists c1, c2. split; [done|]. destruct Hs as [Hc1 (s & He & Hs)].
  split; [exists s; by rewrite table_index, He by done|]. intros c. split.
  - intros Hc. destruct (Hd c Hc) as (p & [= <-] & Hr & He'). by rewrite table_index, He'.
  - intros Hc. pose proof (index_inv _ _ _ Hc) as [Hr _].
    change (lenZ default_code_table) with 256 in Hr.
    rewrite table_index in Hc by done. injection Hc as Hc.
    destruct (choose_double_complete (E:=E) c prev inst Hr) as [c1' Heq']; [|done|].
    + destruct Hi as [[->|[->|?]] _]; unfold XD3_NOOP, XD3_ADD, XD3_RUN, XD3_CPY in *; lia.
    + congruence.
Qed.

Lemma choose_instruction_correct_witness :
  exists c1 c2,
    choose_instruction (B:={| debug_build := true |}) (E:=unit)
      (Some (info XD3_ADD 2)) (info (XD3_CPY + 6) 4) = Ok (chosen c1 c2) /\
    (exists s, index (E:=unit) default_code_table c1 = Ok (entry (XD3_CPY + 6) s XD3_NOOP 0) /\
               (s = 0 \/ s = 4)) /\
    forall c, c2 = Some c <->
      index (E:=unit) default_code_table c = Ok (entry XD3_ADD 2 (XD3_CPY + 6) 4).
Proof.
  apply (choose_instruction_correct (B:={| debug_build := true |})
           (info XD3_ADD 2) (info (XD3_CPY + 6) 4));
    unfold info_ok, XD3_ADD, XD3_CPY, CPY_MODES, NEAR_MODES, SAME_MODES; simpl; lia.
Defined.
