(* ===== verification/Semantics.v ===== *)
(** * The meaning of a window's instructions (RFC 3284, section 3)

    The abstract specification the encoder and the decoder share.  An [op] is
    an instruction with its operands; [exec_ops] runs a sequence of them over
    a source window, byte by byte as the RFC describes a COPY whose source
    overlaps its destination.  [valid_insts] is the contract between whoever
    finds matches and the encoder: the instructions cover the target, and every
    COPY and RUN reproduces the target's bytes. *)

From stdpp Require Import base numbers list option.
From Stdlib Require Import ZArith Lia.
From S2P Require Import Prelude CodeTable.

Local Open Scope Z_scope.

Inductive op :=
  | OpAdd (data : bytes)
  | OpCopy (len addr : Z)
  | OpRun (len byte : Z).

Definition op_len (o : op) : Z :=
  match o with
  | OpAdd d => lenZ d
  | OpCopy len _ => len
  | OpRun len _ => len
  end.

Definition ops_len (ops : list op) : Z := foldr (fun o n => op_len o + n) 0 ops.

(** Append [n] bytes, each read [off] bytes into the output as it grows. *)
Fixpoint copy_within (n : nat) (off : nat) (out : bytes) : option bytes :=
  match n with
  | O => Some out
  | S n =>
      match out !! off with
      | Some b => copy_within n (S off) (out ++ [b])
      | None => None
      end
  end.

(** One operation after [out]; [None] when it has no meaning. *)
Definition exec_op (src out : bytes) (o : op) : option bytes :=
  match o with
  | OpAdd d => Some (out ++ d)
  | OpRun len b => Some (out ++ replicate (Z.to_nat len) b)
  | OpCopy len addr =>
      if addr <? 0 then None
      else if addr <? lenZ src then
        if addr + len <=? lenZ src
        then Some (out ++ take (Z.to_nat len) (drop (Z.to_nat addr) src))
        else None
      else copy_within (Z.to_nat len) (Z.to_nat (addr - lenZ src)) out
  end.

Fixpoint exec_ops (src out : bytes) (ops : list op) : option bytes :=
  match ops with
  | [] => Some out
  | o :: ops =>
      match exec_op src out o with
      | Some out => exec_ops src out ops
      | None => None
      end
  end.

(** An operation the encoder can write at position [pos] of the window. *)
Definition op_fits (srclen pos : Z) (o : op) : Prop :=
  1 <= op_len o < 2 ^ 32 /\
  match o with
  | OpAdd d => wf_bytes d
  | OpRun _ b => is_u8 b
  | OpCopy _ addr => 0 <= addr < srclen + pos
  end.

Fixpoint ops_fit (srclen pos : Z) (ops : list op) : Prop :=
  match ops with
  | [] => True
  | o :: ops => op_fits srclen pos o /\ ops_fit srclen (pos + op_len o) ops
  end.

(** An operation that also has a meaning there: no COPY crosses the end of the
    source. *)
Definition op_ok (srclen pos : Z) (o : op) : Prop :=
  1 <= op_len o < 2 ^ 32 /\
  match o with
  | OpAdd d => wf_bytes d
  | OpRun _ b => is_u8 b
  | OpCopy len addr =>
      0 <= addr < srclen + pos /\ (addr < srclen -> addr + len <= srclen)
  end.

Fixpoint ops_ok (srclen pos : Z) (ops : list op) : Prop :=
  match ops with
  | [] => True
  | o :: ops => op_ok srclen pos o /\ ops_ok srclen (pos + op_len o) ops
  end.

(** ** Instructions that reproduce a target *)

Definition inst_len (i : Instruction) : Z :=
  match i with
  | Add len => len
  | Copy len _ _ => len
  | Run len => len
  end.

Definition insts_len (l : list Instruction) : Z := foldr (fun i n => inst_len i + n) 0 l.

(** An instruction that can be written at [pos]: only a COPY's address matters. *)
Definition inst_fits (srclen pos : Z) (i : Instruction) : Prop :=
  1 <= inst_len i < 2 ^ 32 /\
  match i with
  | Copy _ addr _ => 0 <= addr < srclen + pos
  | _ => True
  end.

(** Instructions that can be written, from [pos] to [stop]. *)
Fixpoint insts_fit (srclen pos : Z) (l : list Instruction) (stop : Z) : Prop :=
  match l with
  | [] => pos = stop
  | i :: l => inst_fits srclen pos i /\ insts_fit srclen (pos + inst_len i) l stop
  end.

Definition valid_inst (src target : bytes) (pos : Z) (i : Instruction) : Prop :=
  1 <= inst_len i < 2 ^ 32 /\ pos + inst_len i <= lenZ target /\
  match i with
  | Add _ => True
  | Copy len addr _ =>
      0 <= addr < lenZ src + pos /\ (addr < lenZ src -> addr + len <= lenZ src) /\
      forall k, 0 <= k < len ->
        (src ++ target) !! Z.to_nat (addr + k) = target !! Z.to_nat (pos + k)
  | Run len =>
      forall k, 0 <= k < len -> target !! Z.to_nat (pos + k) = target !! Z.to_nat pos
  end.

(** The instructions reproduce [target] from [pos] to its end. *)
Fixpoint valid_insts (src target : bytes) (pos : Z) (l : list Instruction) : Prop :=
  match l with
  | [] => pos = lenZ target
  | i :: l => valid_inst src target pos i /\ valid_insts src target (pos + inst_len i) l
  end.

(** The operation an instruction stands for when it is emitted at [pos]. *)
Definition op_of (target : bytes) (pos : Z) (i : Instruction) : op :=
  match i with
  | Add len => OpAdd (take (Z.to_nat len) (drop (Z.to_nat pos) target))
  | Copy len addr _ => OpCopy len addr
  | Run len => OpRun len (default 0 (target !! Z.to_nat pos))
  end.

Fixpoint ops_of (target : bytes) (pos : Z) (l : list Instruction) : list op :=
  match l with
  | [] => []
  | i :: l => op_of target pos i :: ops_of target (pos + inst_len i) l
  end.

(** ** Lemmas *)

Lemma ops_len_app a b : ops_len (a ++ b) = ops_len a + ops_len b.
Proof. induction a as [|o a IH]; simpl; [done|]. unfold ops_len in *. simpl. lia. Qed.

Lemma ops_fit_app srclen pos a b :
  ops_fit srclen pos (a ++ b) <-> ops_fit srclen pos a /\ ops_fit srclen (pos + ops_len a) b.
Proof.
  revert pos. induction a as [|o a IH]; intros pos; simpl.
  - unfold ops_len. simpl. rewrite Z.add_0_r. tauto.
  - rewrite IH. unfold ops_len. simpl. rewrite Z.add_assoc. tauto.
Qed.

Lemma op_ok_fits srclen pos o : op_ok srclen pos o -> op_fits srclen pos o.
Proof. intros [? Ho]. split; [done|]. by destruct o; [|destruct Ho|]. Qed.

Lemma ops_ok_fit srclen pos ops : ops_ok srclen pos ops -> ops_fit srclen pos ops.
Proof.
  revert pos. induction ops as [|o ops IH]; intros pos; [done|].
  intros [? ?]. split; [by apply op_ok_fits|auto].
Qed.

(** Lengths are positive, so there are no more operations than bytes. *)
Lemma ops_fit_count srclen pos ops : ops_fit srclen pos ops -> 0 <= lenZ ops <= ops_len ops.
Proof.
  revert pos. induction ops as [|o ops IH]; intros pos; cbn [ops_fit]; [done|].
  intros [[? _] Hops%IH]. unfold ops_len in *. rewrite lenZ_cons. simpl. lia.
Qed.

Lemma ops_fit_nonneg srclen pos ops : ops_fit srclen pos ops -> 0 <= ops_len ops.
Proof. intros ?%ops_fit_count. lia. Qed.

Lemma ops_len_nonneg srclen pos ops : ops_ok srclen pos ops -> 0 <= ops_len ops.
Proof. intros ?%ops_ok_fit%ops_fit_nonneg. lia. Qed.

Lemma exec_ops_app src out a b :
  exec_ops src out (a ++ b) = match exec_ops src out a with
                              | Some out => exec_ops src out b | None => None end.
Proof.
  revert out. induction a as [|o a IH]; intros out; simpl; [done|].
  destruct (exec_op src out o); [apply IH|done].
Qed.

Lemma copy_within_ok n off out :
  (off < length out)%nat ->
  exists s, copy_within n off out = Some (out ++ s) /\ length s = n.
Proof.
  revert off out. induction n as [|n IH]; intros off out Hoff.
  - exists []. by rewrite app_nil_r.
  - destruct (lookup_lt_is_Some_2 out off Hoff) as [b Hb]. simpl. rewrite Hb.
    destruct (IH (S off) (out ++ [b])) as (s & -> & Hs); [rewrite length_app; simpl; lia|].
    exists (b :: s). rewrite <- app_assoc. simpl. auto.
Qed.

(** A copy that ends before the output does is a bulk copy. *)
Lemma copy_within_bulk n off out :
  (off + n <= length out)%nat ->
  copy_within n off out = Some (out ++ take n (drop off out)).
Proof.
  intros H.
  enough (forall s, copy_within n off (out ++ s) = Some ((out ++ s) ++ take n (drop off out)))
    as Hg by (specialize (Hg []); by rewrite !app_nil_r in Hg).
  revert off H. induction n as [|n IH]; intros off H s.
  - simpl. by rewrite app_nil_r.
  - destruct (lookup_lt_is_Some_2 out off) as [b Hb]; [lia|].
    simpl. rewrite lookup_app_l, Hb by lia. rewrite <- app_assoc, IH by lia.
    rewrite (drop_S out b off Hb). simpl. by rewrite <- !app_assoc.
Qed.

(** An expressible operation has a meaning, and lengthens the output by its size. *)
Lemma exec_op_ok src out o :
  op_ok (lenZ src) (lenZ out) o ->
  exists s, exec_op src out o = Some (out ++ s) /\ lenZ s = op_len o.
Proof.
  unfold op_ok. destruct o as [d|len addr|len b]; simpl; intros [Hl Ho].
  - by exists d.
  - destruct Ho as [Ha Hs]. rewrite (proj2 (Z.ltb_ge _ _)) by lia.
    destruct (Z.ltb_spec addr (lenZ src)).
    + rewrite (proj2 (Z.leb_le _ _)) by lia. eexists. split; [done|].
      unfold lenZ in *. rewrite length_take, length_drop. lia.
    + destruct (copy_within_ok (Z.to_nat len) (Z.to_nat (addr - lenZ src)) out)
        as (s & -> & Hls); [unfold lenZ in *; lia|].
      exists s. split; [done|]. unfold lenZ. lia.
  - eexists. split; [done|]. rewrite lenZ_replicate. lia.
Qed.

Lemma exec_ops_ok src out ops :
  ops_ok (lenZ src) (lenZ out) ops ->
  exists s, exec_ops src out ops = Some (out ++ s) /\ lenZ s = ops_len ops.
Proof.
  revert out. induction ops as [|o ops IH]; intros out; simpl.
  - intros _. exists []. by rewrite app_nil_r.
  - intros [Ho H]. destruct (exec_op_ok src out o Ho) as (s & -> & Hs).
    rewrite <- Hs, <- lenZ_app in H. destruct (IH _ H) as (s' & -> & Hs').
    exists (s ++ s'). rewrite app_assoc, lenZ_app, Hs, Hs'. done.
Qed.

(** What can be written and has a meaning is expressible. *)
Lemma exec_op_fits src out o out' :
  op_fits (lenZ src) (lenZ out) o -> exec_op src out o = Some out' -> op_ok (lenZ src) (lenZ out) o.
Proof.
  intros [Hl Ho] Heo. split; [done|]. destruct o as [d|len addr|len b]; [done| |done].
  split; [done|]. intros Ha. simpl in Heo. rewrite (proj2 (Z.ltb_ge _ _)), (proj2 (Z.ltb_lt _ _)) in Heo by lia.
  destruct (Z.leb_spec (addr + len) (lenZ src)); [lia|done].
Qed.

Lemma exec_ops_fit src out ops s :
  ops_fit (lenZ src) (lenZ out) ops -> exec_ops src out ops = Some s -> ops_ok (lenZ src) (lenZ out) ops.
Proof.
  revert out. induction ops as [|o ops IH]; intros out; [done|]. cbn [ops_fit ops_ok exec_ops].
  intros [Ho Hr] Hex. destruct (exec_op src out o) as [out'|] eqn:Heo; [|done].
  pose proof (exec_op_fits _ _ _ _ Ho Heo) as Hok.
  split; [done|]. destruct (exec_op_ok src out o Hok) as (x & Hx & Hxl). rewrite Hx in Heo.
  injection Heo as <-. rewrite <- Hxl, <- lenZ_app in *. by apply IH.
Qed.

(** Operations only append. *)
Lemma copy_within_extends n off out out' : copy_within n off out = Some out' -> out `prefix_of` out'.
Proof.
  revert off out. induction n as [|n IH]; intros off out; simpl; [by intros [= <-]|].
  destruct (out !! off); [|done]. intros Hc%IH. etransitivity; [by apply prefix_app_r|exact Hc].
Qed.

Lemma exec_op_extends src out o out' : exec_op src out o = Some out' -> out `prefix_of` out'.
Proof.
  destruct o as [d|len addr|len b]; simpl; [by intros [= <-]; apply prefix_app_r| |by intros [= <-]; apply prefix_app_r].
  repeat case_match; try done; [by intros [= <-]; apply prefix_app_r|apply copy_within_extends].
Qed.

Lemma exec_ops_extends src out ops out' : exec_ops src out ops = Some out' -> out `prefix_of` out'.
Proof.
  revert out. induction ops as [|o ops IH]; intros out; simpl; [by intros [= <-]|].
  destruct (exec_op src out o) as [out1|] eqn:Ho; [|done]. intros Hops%IH.
  etransitivity; [by eapply exec_op_extends|done].
Qed.

(** A COPY across the end of the source makes the sequence meaningless. *)
Lemma exec_ops_spans src out ops len addr :
  OpCopy len addr ∈ ops -> 0 <= addr < lenZ src -> lenZ src < addr + len -> exec_ops src out ops = None.
Proof.
  intros Hin Ha Hs. revert out. induction ops as [|o ops IH]; intros out; cbn [exec_ops]; [by apply not_elem_of_nil in Hin|].
  apply elem_of_cons in Hin as [<-|Hin].
  - cbn [exec_op]. by rewrite (proj2 (Z.ltb_ge _ _)), (proj2 (Z.ltb_lt _ _)), (proj2 (Z.leb_gt _ _)) by lia.
  - destruct (exec_op src out o); [by apply IH|done].
Qed.

(** *** Instructions that can be written *)

Lemma insts_fit_stop srclen pos l stop : insts_fit srclen pos l stop -> pos <= stop.
Proof.
  revert pos. induction l as [|i l IH]; intros pos; cbn [insts_fit]; [lia|].
  intros [[? _] ?%IH]. lia.
Qed.

Lemma insts_fit_app srclen pos l k mid stop :
  insts_fit srclen pos l mid -> insts_fit srclen mid k stop -> insts_fit srclen pos (l ++ k) stop.
Proof. revert pos. induction l as [|i l IH]; intros pos; simpl; [by intros ->|]. intros [? ?] ?. auto. Qed.

Lemma insts_fit_snoc_inv srclen pos l t stop :
  insts_fit srclen pos (l ++ [t]) stop ->
  exists q, insts_fit srclen pos l q /\ inst_fits srclen q t /\ q + inst_len t = stop.
Proof.
  revert pos. induction l as [|i l IH]; intros pos; simpl.
  - intros [Ht <-]. eauto.
  - intros [Hi Hc]. destruct (IH _ Hc) as (q & ? & ? & ?). eauto.
Qed.

Lemma valid_insts_fit src target pos l :
  valid_insts src target pos l -> insts_fit (lenZ src) pos l (lenZ target).
Proof.
  revert pos. induction l as [|i l IH]; intros pos; [done|]. intros [(? & _ & Hi) ?].
  split; [|auto]. split; [done|]. by destruct i; [|destruct Hi|].
Qed.

(** The COPYs of such instructions are among the operations. *)
Lemma fits_copy srclen pos l stop :
  insts_fit srclen pos l stop -> forall len a m, Copy len a m ∈ l ->
  0 <= a /\ forall target, OpCopy len a ∈ ops_of target pos l.
Proof.
  revert pos. induction l as [|i l IH]; intros pos Hf len a m Hin; [by apply not_elem_of_nil in Hin|].
  destruct Hf as [[_ Hi] Hl]. apply elem_of_cons in Hin as [<-|Hin].
  - split; [lia|]. intros target. by left.
  - destruct (IH _ Hl len a m Hin) as [? Hops]. split; [done|]. intros target. by right.
Qed.

Lemma fits_ops srclen target l : wf_bytes target -> forall pos, 0 <= pos ->
  insts_fit srclen pos l (lenZ target) ->
  ops_fit srclen pos (ops_of target pos l) /\ pos + ops_len (ops_of target pos l) = lenZ target.
Proof.
  intros Hw. induction l as [|i l IH]; intros pos Hp; cbn [insts_fit ops_of ops_fit].
  - intros ->. split; [done|]. unfold ops_len. simpl. lia.
  - intros [[Hi Ha] Hl]. pose proof (insts_fit_stop _ _ _ _ Hl).
    destruct (IH (pos + inst_len i)) as [Ho Hs]; [lia|done|].
    assert (op_len (op_of target pos i) = inst_len i) as Hlen.
    { destruct i; simpl in *; [|done..]. unfold lenZ in *. rewrite length_take, length_drop. lia. }
    unfold ops_len in *. simpl. rewrite Hlen. split; [|lia]. split; [|done]. split; [by rewrite Hlen|].
    destruct i as [len|len addr m|len]; simpl; [by apply Forall_take, Forall_drop|done|].
    destruct (target !! Z.to_nat pos) eqn:E; simpl; [|unfold in_range; lia].
    by eapply Forall_lookup_1 in E.
Qed.

(** *** Valid instructions *)

Lemma inst_op_len src target pos i :
  0 <= pos -> valid_inst src target pos i -> op_len (op_of target pos i) = inst_len i.
Proof.
  intros Hp (Hl & Hb & _). destruct i; simpl in *; [|done..].
  unfold lenZ in *. rewrite length_take, length_drop. lia.
Qed.

Lemma take_plus (l : bytes) (n k : nat) : take n l ++ take k (drop n l) = take (n + k) l.
Proof. by rewrite take_take_drop. Qed.

(** The self-copy loop reproduces a target that repeats. *)
Lemma copy_within_target (target : bytes) n off pos :
  (off < pos)%nat -> (pos + n <= length target)%nat ->
  (forall k, (k < n)%nat -> target !! (off + k)%nat = target !! (pos + k)%nat) ->
  copy_within n off (take pos target) = Some (take (pos + n) target).
Proof.
  revert off pos. induction n as [|n IH]; intros off pos Ho Hp Hk; simpl.
  - by rewrite Nat.add_0_r.
  - rewrite lookup_take_lt by lia. specialize (Hk 0%nat ltac:(lia)) as H0.
    rewrite !Nat.add_0_r in H0. destruct (lookup_lt_is_Some_2 target pos) as [b Hb]; [lia|].
    rewrite H0, Hb, <- take_S_r by done.
    replace (pos + S n)%nat with (S pos + n)%nat by lia. apply IH; [lia..|].
    intros k Hkn. specialize (Hk (S k) ltac:(lia)).
    by rewrite !Nat.add_succ_r in Hk.
Qed.

Lemma list_all_replicate (l : bytes) n b :
  length l = n -> (forall k, (k < n)%nat -> l !! k = Some b) -> l = replicate n b.
Proof.
  intros Hl Hk. apply list_eq_same_length with n; [by rewrite length_replicate|done|].
  intros i x y Hi Hx Hy. rewrite Hk in Hx by done.
  apply lookup_replicate in Hy as [-> _]. congruence.
Qed.

(** A valid instruction, run after the target's first [pos] bytes, gives the next ones. *)
Lemma exec_valid_inst src target pos i :
  0 <= pos -> valid_inst src target pos i ->
  exec_op src (take (Z.to_nat pos) target) (op_of target pos i)
  = Some (take (Z.to_nat (pos + inst_len i)) target).
Proof.
  intros Hp (Hl & Hb & Hi). rewrite Z2Nat.inj_add by lia.
  unfold lenZ in *. destruct i as [len|len addr mode|len]; simpl in *.
  - by rewrite take_plus.
  - destruct Hi as (Ha & Hs & Hk). rewrite (proj2 (Z.ltb_ge _ _)) by lia.
    unfold lenZ. destruct (Z.ltb_spec addr (Z.of_nat (length src))) as [Hlt|Hge].
    + rewrite (proj2 (Z.leb_le _ _)) by lia. rewrite <- take_plus. do 2 f_equal.
      apply list_eq. intros k. destruct (Nat.lt_ge_cases k (Z.to_nat len)) as [Hkl|Hkl].
      * rewrite !lookup_take_lt, !lookup_drop by lia. specialize (Hk (Z.of_nat k) ltac:(lia)).
        rewrite lookup_app_l in Hk by lia.
        by rewrite !Z2Nat.inj_add, Nat2Z.id in Hk by lia.
      * by rewrite !lookup_take_ge by lia.
    + apply copy_within_target; [lia..|]. intros k Hkl. specialize (Hk (Z.of_nat k) ltac:(lia)).
      rewrite lookup_app_r in Hk by lia. rewrite !Z2Nat.inj_add, Nat2Z.id in Hk by lia.
      rewrite <- Hk. f_equal. lia.
  - rewrite <- take_plus. do 2 f_equal. symmetry. apply list_all_replicate.
    + rewrite length_take, length_drop. lia.
    + destruct (lookup_lt_is_Some_2 target (Z.to_nat pos)) as [b Hpb]; [lia|].
      intros k Hkl. rewrite lookup_take_lt, lookup_drop by lia. specialize (Hi (Z.of_nat k) ltac:(lia)).
      rewrite Z2Nat.inj_add, Nat2Z.id, Hpb in Hi by lia. by rewrite Hpb.
Qed.

Lemma valid_insts_le src target pos l : valid_insts src target pos l -> pos <= lenZ target.
Proof. destruct l; simpl; [lia|]. intros [(? & ? & _) _]. lia. Qed.

Lemma exec_valid_insts src target pos l :
  0 <= pos -> valid_insts src target pos l ->
  exec_ops src (take (Z.to_nat pos) target) (ops_of target pos l) = Some target.
Proof.
  revert pos. induction l as [|i l IH]; intros pos Hp; simpl.
  - intros ->. by rewrite lenZ_to_nat, firstn_all.
  - intros [Hi Hl]. rewrite exec_valid_inst by done. apply IH; [|done].
    destruct Hi. lia.
Qed.

(** A copy within the output repeats it. *)
Lemma copy_within_repeats n off out out' k :
  copy_within n off out = Some out' -> (k < n)%nat ->
  out' !! (off + k)%nat = out' !! (length out + k)%nat.
Proof.
  revert off out k. induction n as [|n IH]; intros off out k; [lia|]. simpl.
  destruct (out !! off) as [b|] eqn:Hb; [|done]. intros Hc Hk.
  destruct k as [|k].
  - apply copy_within_extends in Hc as [s ->]. rewrite !Nat.add_0_r, <- app_assoc.
    rewrite lookup_app_l, Hb by (by apply lookup_lt_Some in Hb).
    by rewrite lookup_app_r, Nat.sub_diag by lia.
  - specialize (IH (S off) (out ++ [b]) k Hc ltac:(lia)). rewrite length_app in IH. simpl in IH.
    replace (off + S k)%nat with (S (off + k)) by lia. rewrite IH. f_equal. lia.
Qed.

(** An instruction that gives the target's next bytes is valid. *)
Lemma valid_of_exec src target pos i :
  0 <= pos -> inst_fits (lenZ src) pos i -> pos + inst_len i <= lenZ target ->
  exec_op src (take (Z.to_nat pos) target) (op_of target pos i)
  = Some (take (Z.to_nat (pos + inst_len i)) target) ->
  valid_inst src target pos i.
Proof.
  intros Hp [Hl Hf] Hle Hex. split; [done|]. split; [done|]. rewrite Z2Nat.inj_add in Hex by lia.
  assert (length (take (Z.to_nat pos) target) = Z.to_nat pos) as Hpl
    by (rewrite length_take; unfold lenZ in *; lia).
  destruct i as [len|len addr m|len]; simpl in *; [done| |].
  - rewrite (proj2 (Z.ltb_ge addr 0)) in Hex by lia. split; [done|].
    destruct (Z.ltb_spec addr (lenZ src)) as [Hlt|Hge].
    + destruct (Z.leb_spec (addr + len) (lenZ src)); [|done]. split; [done|]. intros k Hk.
      rewrite <- take_plus in Hex. injection Hex as Hex%app_inv_head. apply (f_equal (.!! Z.to_nat k)) in Hex.
      rewrite !lookup_take_lt, !lookup_drop, <- !Z2Nat.inj_add in Hex by lia.
      rewrite lookup_app_l by (unfold lenZ in *; lia). done.
    + split; [lia|]. intros k Hk.
      pose proof (copy_within_repeats _ _ _ _ (Z.to_nat k) Hex ltac:(lia)) as Hr. rewrite Hpl in Hr.
      rewrite !lookup_take_lt in Hr by lia. rewrite lookup_app_r by (unfold lenZ in *; lia).
      replace (Z.to_nat (pos + k)) with (Z.to_nat pos + Z.to_nat k)%nat by lia.
      rewrite <- Hr. f_equal. unfold lenZ in *. lia.
  - intros k Hk. rewrite <- take_plus in Hex. injection Hex as Hex%app_inv_head.
    apply (f_equal (.!! Z.to_nat k)) in Hex.
    rewrite lookup_replicate_2, lookup_take_lt, lookup_drop, <- Z2Nat.inj_add in Hex by lia.
    rewrite <- Hex. destruct (lookup_lt_is_Some_2 target (Z.to_nat pos)) as [b ->]; [|done].
    unfold lenZ in *. lia.
Qed.

(** Instructions that can be written and rebuild the target are valid. *)
Lemma valid_insts_of_exec src target l : wf_bytes target -> forall pos, 0 <= pos ->
  insts_fit (lenZ src) pos l (lenZ target) ->
  exec_ops src (take (Z.to_nat pos) target) (ops_of target pos l) = Some target ->
  valid_insts src target pos l.
Proof.
  intros Hw. induction l as [|i l IH]; intros pos Hp Hfit Hex; [done|].
  pose proof (proj1 (fits_ops _ _ _ Hw pos Hp Hfit)) as [Hop _].
  destruct Hfit as [Hi Hl]. pose proof (insts_fit_stop _ _ _ _ Hl) as Hle. pose proof Hi as [Hi1 _].
  cbn [ops_of exec_ops] in Hex.
  destruct (exec_op src _ (op_of target pos i)) as [out|] eqn:Ho; [|done].
  assert (lenZ (take (Z.to_nat pos) target) = pos) as Hpl
    by (unfold lenZ in *; rewrite length_take; lia).
  rewrite <- Hpl in Hop at 1. pose proof (exec_op_fits _ _ _ _ Hop Ho) as Hok.
  destruct (exec_op_ok _ _ _ Hok) as (s & Hs & Hsl). rewrite Ho in Hs. injection Hs as ->.
  assert (op_len (op_of target pos i) = inst_len i) as Hil
    by (destruct i; simpl in *; [|done..]; unfold lenZ in *; rewrite length_take, length_drop; lia).
  assert (take (Z.to_nat pos) target ++ s = take (Z.to_nat (pos + inst_len i)) target) as Hout.
  { apply exec_ops_extends in Hex as [rest Hrest]. rewrite Hrest at 2. symmetry. apply take_app_length'.
    rewrite length_app. unfold lenZ in *. lia. }
  rewrite Hout in *. split; [by apply valid_of_exec|]. by apply IH; [lia|..].
Qed.

Lemma valid_op_ok src target pos i :
  wf_bytes target -> 0 <= pos -> valid_inst src target pos i ->
  op_ok (lenZ src) pos (op_of target pos i).
Proof.
  intros Hw Hp Hv. split; [by rewrite (inst_op_len src) by done; apply Hv|].
  destruct Hv as (Hl & Hb & Hi), i as [len|len addr mode|len]; simpl in *.
  - by apply Forall_take, Forall_drop.
  - tauto.
  - destruct (target !! Z.to_nat pos) eqn:E; simpl; [|unfold in_range; lia].
    by eapply Forall_lookup_1 in E.
Qed.

Lemma valid_ops_ok src target pos l :
  wf_bytes target -> 0 <= pos -> valid_insts src target pos l ->
  ops_ok (lenZ src) pos (ops_of target pos l) /\ pos + ops_len (ops_of target pos l) = lenZ target.
Proof.
  intros Hw. revert pos. induction l as [|i l IH]; intros pos Hp; simpl.
  - intros ->. split; [done|]. unfold ops_len. simpl. lia.
  - intros [Hi Hl]. pose proof Hi as (? & _). destruct (IH (pos + inst_len i)) as [Ho Hs]; [lia|done|].
    unfold ops_len in *. simpl. rewrite (inst_op_len src) by done.
    split; [split; [by apply valid_op_ok|done]|lia].
Qed.

(** ** A test for validity *)

Definition valid_instb (src target : bytes) (pos : Z) (i : Instruction) : bool :=
  (1 <=? inst_len i) && (inst_len i <? 2 ^ 32) && (pos + inst_len i <=? lenZ target) &&
  match i with
  | Add _ => true
  | Copy len addr _ =>
      (0 <=? addr) && (addr <? lenZ src + pos) && ((lenZ src <=? addr) || (addr + len <=? lenZ src)) &&
      forallb (fun k => bool_decide ((src ++ target) !! Z.to_nat (addr + k) = target !! Z.to_nat (pos + k)))
        (range 0 len)
  | Run len =>
      forallb (fun k => bool_decide (target !! Z.to_nat (pos + k) = target !! Z.to_nat pos)) (range 0 len)
  end.

Fixpoint valid_instsb (src target : bytes) (pos : Z) (l : list Instruction) : bool :=
  match l with
  | [] => pos =? lenZ target
  | i :: l => valid_instb src target pos i && valid_instsb src target (pos + inst_len i) l
  end.

Lemma range_forall_iff (P : Z -> Prop) `{forall k, Decision (P k)} n :
  forallb (fun k => bool_decide (P k)) (range 0 n) = true <-> forall k, 0 <= k < n -> P k.
Proof.
  split.
  - intros Hf k Hk. by apply (range_forall _ _ _ Hf k), bool_decide_eq_true_1 in Hk.
  - intros Hf. apply forallb_forall. intros k Hk. apply bool_decide_eq_true_2, Hf.
    apply list_elem_of_In, elem_of_seqZ in Hk. lia.
Qed.

Lemma valid_instb_spec src target pos i :
  valid_instb src target pos i = true <-> valid_inst src target pos i.
Proof.
  unfold valid_instb, valid_inst. rewrite !andb_true_iff, !Z.leb_le, Z.ltb_lt.
  destruct i as [len|len addr mode|len].
  - tauto.
  - rewrite !andb_true_iff, range_forall_iff, orb_true_iff, !Z.leb_le, Z.ltb_lt.
    assert ((lenZ src <= addr \/ addr + len <= lenZ src) <->
            (addr < lenZ src -> addr + len <= lenZ src)) as -> by lia. tauto.
  - rewrite range_forall_iff. tauto.
Qed.

Lemma valid_instsb_spec src target pos l :
  valid_instsb src target pos l = true <-> valid_insts src target pos l.
Proof.
  revert pos. induction l as [|i l IH]; intros pos; simpl; [apply Z.eqb_eq|].
  by rewrite andb_true_iff, valid_instb_spec, IH.
Qed.
