(* ===== verification/Header.v ===== *)
(** * File and window headers ([src/src/vcdiff/header.rs])

    Emission and parsing of the VCDIFF file header and of the per-window
    header, with the indicator-byte checks, the window-size limit and the
    [enc_len] redundancy check.  The theorems: parsing inverts emission, what
    parsing accepts satisfies the header invariant, [enc_len] counts the bytes
    that follow it, and each malformed indicator is refused. *)

From stdpp Require Import base numbers list option.
From Stdlib Require Import ZArith Lia.
From S2P Require Import Prelude Varint.

Local Open Scope Z_scope.
Local Open Scope rust_scope.

Definition VCDIFF_MAGIC : bytes := [0xD6; 0xC3; 0xC4; 0x00].

Definition VCD_SECONDARY : Z := 1.
Definition VCD_CODETABLE : Z := 2.
Definition VCD_APPHEADER : Z := 4.
Definition VCD_INVHDR : Z := 0xF8.

Definition VCD_SOURCE : Z := 1.
Definition VCD_TARGET : Z := 2.
Definition VCD_ADLER32 : Z := 4.
Definition VCD_INVWIN : Z := 0xF8.

Definition VCD_DATACOMP : Z := 1.
Definition VCD_INSTCOMP : Z := 2.
Definition VCD_ADDRCOMP : Z := 4.
Definition VCD_INVDEL : Z := 0xF8.

Definition VCD_DJW_ID : Z := 1.
Definition VCD_LZMA_ID : Z := 2.
Definition VCD_FGK_ID : Z := 16.

Definition HARD_MAX_WINSIZE : Z := 2 ^ 24.

(** [ind & f != 0] *)
Definition has (ind f : Z) : bool := negb (Z.land ind f =? 0).

(** [vec![0u8; n]] and [Vec::resize(n, _)]: a request above [isize::MAX] bytes
    panics ("capacity overflow"); smaller requests are granted. *)
Definition alloc {E} (n : Z) : result E unit :=
  if n <=? 2 ^ 63 - 1 then Ok tt else Panic.

(** [u32::to_be_bytes] and [u32::from_be_bytes]. *)
Definition to_be_bytes (x : Z) : bytes :=
  [wrap 8 (Z.shiftr x 24); wrap 8 (Z.shiftr x 16); wrap 8 (Z.shiftr x 8); wrap 8 x].

Definition from_be_bytes (bs : bytes) : Z :=
  fold_left (fun v b => v * 256 + b) bs 0.

Module FileHeader.
Record t := mk {
  hdr_ind : Z;
  secondary_id : option Z;
  app_header : option bytes
}.

Definition default : t := mk 0 None None.

Definition encode {E} (h : t) (w : bytes) : result E bytes :=
  let w := w ++ VCDIFF_MAGIC in
  let w := w ++ [hdr_ind h] in
  let w := if has (hdr_ind h) VCD_SECONDARY
           then w ++ [unwrap_or (secondary_id h) 0] else w in
  if has (hdr_ind h) VCD_APPHEADER then
    match app_header h with
    | Some data =>
        let* w := write_usize w (lenZ data) in
        Ok (w ++ data)
    | None => write_usize w 0
    end
  else Ok w.

Definition decode (r : bytes) : result io_kind (t * bytes) :=
  let* (magic, r) := read_exact 4 r in
  if negb (bool_decide (take 3 magic = take 3 VCDIFF_MAGIC)) then Err InvalidData
  else if negb (unwrap_or (magic !! 3%nat) 0 =? 0x00) then Err InvalidData
  else
    let* (hdr_ind, r) := read_byte r in
    if has hdr_ind VCD_INVHDR then Err InvalidData
    else
      let* (secondary_id, r) :=
        if has hdr_ind VCD_SECONDARY
        then let* (b, r) := read_byte r in Ok (Some b, r)
        else Ok (None, r) in
      if has hdr_ind VCD_CODETABLE then Err Unsupported
      else
        let* (app_header, r) :=
          if has hdr_ind VCD_APPHEADER then
            let* (len, r) := stream_read_usize r in
            let* _ := alloc len in
            let* (data, r) := read_exact len r in
            Ok (Some data, r)
          else Ok (None, r) in
        Ok (mk hdr_ind secondary_id app_header, r).
End FileHeader.

Module WindowHeader.
Record t := mk {
  win_ind : Z;
  copy_window_len : Z;
  copy_window_offset : Z;
  enc_len : Z;
  target_window_len : Z;
  del_ind : Z;
  data_len : Z;
  inst_len : Z;
  addr_len : Z;
  adler32 : option Z
}.

Definition has_source (h : t) : bool := has (win_ind h) VCD_SOURCE.
Definition has_target (h : t) : bool := has (win_ind h) VCD_TARGET.
Definition has_checksum (h : t) : bool := has (win_ind h) VCD_ADLER32.

Definition encode {E} (h : t) (w : bytes) : result E bytes :=
  let w := w ++ [win_ind h] in
  let* w :=
    if has_source h || has_target h then
      let* w := write_u64 w (copy_window_len h) in
      write_u64 w (copy_window_offset h)
    else Ok w in
  let* w := write_u64 w (enc_len h) in
  let* w := write_u64 w (target_window_len h) in
  let w := w ++ [del_ind h] in
  let* w := write_u64 w (data_len h) in
  let* w := write_u64 w (inst_len h) in
  let* w := write_u64 w (addr_len h) in
  if has_checksum h then
    match adler32 h with
    | Some cksum => Ok (w ++ to_be_bytes cksum)
    | None => Ok w
    end
  else Ok w.

Definition compute_enc_len {B : Build} {E} (h : t) : result E Z :=
  let* len := add_w 64 0 (sizeof_u64 (target_window_len h)) in
  let* len := add_w 64 len 1 in
  let* len := add_w 64 len (sizeof_u64 (data_len h)) in
  let* len := add_w 64 len (sizeof_u64 (inst_len h)) in
  let* len := add_w 64 len (sizeof_u64 (addr_len h)) in
  let* len := add_w 64 len (data_len h) in
  let* len := add_w 64 len (inst_len h) in
  let* len := add_w 64 len (addr_len h) in
  if has_checksum h then add_w 64 len 4 else Ok len.

(** [None] on a clean end of input. *)
Definition decode {B : Build} (r : bytes) : result io_kind (option t * bytes) :=
  match read_byte r with
  | Err UnexpectedEof => Ok (None, r)
  | Err e => Err e
  | Panic => Panic
  | Diverge => Diverge
  | Ok (win_ind, r) =>
      if has win_ind VCD_INVWIN then Err InvalidData
      else if has win_ind VCD_SOURCE && has win_ind VCD_TARGET then Err InvalidData
      else
        let* (copy_window_len, copy_window_offset, r) :=
          if has win_ind (Z.lor VCD_SOURCE VCD_TARGET) then
            let* (len, r) := stream_read_u64 r in
            let* (off, r) := stream_read_u64 r in
            Ok (len, off, r)
          else Ok (0, 0, r) in
        let* (enc_len, r) := stream_read_u64 r in
        let* (target_window_len, r) := stream_read_u64 r in
        if HARD_MAX_WINSIZE <? target_window_len then Err InvalidData
        else
          let* (del_ind, r) := read_byte r in
          if has del_ind VCD_INVDEL then Err InvalidData
          else
            let* (data_len, r) := stream_read_u64 r in
            let* (inst_len, r) := stream_read_u64 r in
            let* (addr_len, r) := stream_read_u64 r in
            let* (adler32, r) :=
              if has win_ind VCD_ADLER32 then
                let* (cksum_buf, r) := read_exact 4 r in
                Ok (Some (from_be_bytes cksum_buf), r)
              else Ok (None, r) in
            let hdr := mk win_ind copy_window_len copy_window_offset enc_len
                          target_window_len del_ind data_len inst_len addr_len adler32 in
            let* expected := compute_enc_len hdr in
            if negb (enc_len =? expected) then Err InvalidData
            else Ok (Some hdr, r)
  end.
End WindowHeader.

(** ** Reading back bytes *)

Lemma read_exact_app n l r : lenZ l = n -> read_exact n (l ++ r) = Ok (l, r).
Proof.
  intros <-. unfold read_exact. rewrite lenZ_app.
  rewrite (proj2 (Z.leb_le _ _)) by (pose proof (lenZ_nonneg r); lia).
  by rewrite lenZ_to_nat, take_app_length, drop_app_length.
Qed.

Lemma read_exact_inv n r l r' :
  0 <= n -> read_exact n r = Ok (l, r') -> r = l ++ r' /\ lenZ l = n.
Proof.
  unfold read_exact. intros Hn. destruct (Z.leb_spec n (lenZ r)); [|done].
  intros [= <- <-]. rewrite take_drop. split; [done|].
  unfold lenZ in *. rewrite length_take. lia.
Qed.

Lemma read_byte_inv r b r' : read_byte r = Ok (b, r') -> r = b :: r'.
Proof. destruct r; simpl; congruence. Qed.

Lemma stream_read_u64_inv r v r' :
  wf_bytes r -> stream_read_u64 r = Ok (v, r') ->
  is_u64 v /\ exists bs, r = bs ++ r' /\ terminated bs /\ varint_value 0 bs = v.
Proof.
  intros Hr. unfold stream_read_u64. rewrite (stream_read_loop_eq _ _ _ _ 0).
  destruct (read_loop _ _ _ _ r) as [[v' n]|[]| |] eqn:H; try done. intros [= -> <-].
  apply read_loop_sound in H as (bs & rest & -> & Ht & -> & -> & Hv); auto with oxidelta.
  split; [done|]. exists bs. by rewrite Z.add_0_l, Z.sub_0_r, lenZ_to_nat, drop_app_length.
Qed.

Lemma be_bytes_roundtrip x : is_u32 x -> from_be_bytes (to_be_bytes x) = x.
Proof.
  unfold in_range. intros Hx. unfold from_be_bytes, to_be_bytes, wrap. simpl.
  rewrite !Z.shiftr_div_pow2 by lia. dlia.
Qed.

Lemma lenZ_to_be_bytes x : lenZ (to_be_bytes x) = 4.
Proof. done. Qed.

Lemma to_be_bytes_wf x : wf_bytes (to_be_bytes x).
Proof. repeat constructor; apply Z.mod_pos_bound; lia. Qed.

Lemma from_be_bytes_u32 bs : wf_bytes bs -> lenZ bs = 4 -> is_u32 (from_be_bytes bs).
Proof.
  intros Hw Hl. destruct bs as [|a [|b [|c [|d [|e bs]]]]]; try done.
  2: { rewrite !lenZ_cons in Hl. pose proof (lenZ_nonneg bs). lia. }
  repeat (apply wf_bytes_cons in Hw as [? Hw]). unfold in_range, from_be_bytes in *.
  simpl in *. lia.
Qed.

(** ** Indicator bytes *)

Lemma has_pow2 ind n : 0 <= n -> has ind (2 ^ n) = Z.testbit ind n.
Proof. apply land_flag. Qed.

Lemma has_invalid ind : is_u8 ind -> has ind 0xF8 = negb (ind <? 8).
Proof. intros H. unfold has. f_equal. exact (high_mask_zero 8 3 ind ltac:(lia) H). Qed.

Lemma has_either ind : has ind (Z.lor VCD_SOURCE VCD_TARGET) = has ind VCD_SOURCE || has ind VCD_TARGET.
Proof.
  unfold has. rewrite Z.land_lor_distr_r, <- negb_andb. f_equal.
  destruct (Z.eqb_spec (Z.land ind VCD_SOURCE) 0), (Z.eqb_spec (Z.land ind VCD_TARGET) 0);
    rewrite ?Z.eqb_eq, ?Z.eqb_neq, Z.lor_eq_0_iff; tauto.
Qed.

(** ** File headers *)

Import FileHeader.

(** The headers the decoder produces: known flags only, no custom code table,
    each optional field present exactly when its flag is set. *)
Record file_header_wf (h : FileHeader.t) : Prop := {
  fh_ind : 0 <= hdr_ind h < 8;
  fh_table : has (hdr_ind h) VCD_CODETABLE = false;
  fh_secondary : is_Some (secondary_id h) <-> has (hdr_ind h) VCD_SECONDARY = true;
  fh_secondary_u8 : forall b, secondary_id h = Some b -> is_u8 b;
  fh_app : is_Some (app_header h) <-> has (hdr_ind h) VCD_APPHEADER = true;
  fh_app_wf : forall d, app_header h = Some d -> wf_bytes d /\ lenZ d <= 2 ^ 63 - 1
}.

Definition file_header_bytes (h : FileHeader.t) : bytes :=
  VCDIFF_MAGIC ++ [hdr_ind h] ++
  match secondary_id h with Some b => [b] | None => [] end ++
  match app_header h with Some d => varint (lenZ d) ++ d | None => [] end.

Lemma is_Some_flag {A} (o : option A) (b : bool) :
  is_Some o <-> b = true -> (exists a, o = Some a /\ b = true) \/ (o = None /\ b = false).
Proof.
  intros [H1 H2]. destruct o as [a|].
  - left. exists a. split; [done|]. apply H1. eauto.
  - right. split; [done|]. destruct b; [|done]. by destruct (H2 eq_refl).
Qed.

Lemma file_header_encode_ok {E} h w :
  file_header_wf h -> FileHeader.encode (E:=E) h w = Ok (w ++ file_header_bytes h).
Proof.
  intros [_ _ Hs _ Ha Hd]. unfold FileHeader.encode, file_header_bytes.
  destruct (is_Some_flag _ _ Hs) as [(b & -> & ->)|[-> ->]];
    destruct (is_Some_flag _ _ Ha) as [(d & Hdd & ->)|[-> ->]].
  1,3: rewrite Hdd; destruct (Hd d Hdd); rewrite write_usize_ok
         by (unfold in_range; pose proof (lenZ_nonneg d); lia).
  all: cbn [bind unwrap_or]; f_equal; by rewrite ?app_nil_r, <- ?app_assoc.
Qed.

Lemma file_header_decode_ok h rest :
  file_header_wf h -> FileHeader.decode (file_header_bytes h ++ rest) = Ok (h, rest).
Proof.
  intros [Hi Ht Hs _ Ha Hd]. unfold FileHeader.decode, file_header_bytes.
  rewrite <- !app_assoc. rewrite read_exact_app by done. cbn [bind].
  rewrite bool_decide_eq_true_2 by done.
  change (unwrap_or (VCDIFF_MAGIC !! 3%nat) 0 =? 0x00) with true. cbn [negb].
  cbn [app read_byte bind]. rewrite has_invalid by (unfold in_range; lia).
  rewrite (proj2 (Z.ltb_lt _ _)) by lia. cbn [negb].
  destruct h as [ind sec hap]. simpl in *. rewrite Ht.
  destruct (is_Some_flag _ _ Hs) as [(b & -> & ->)|[-> ->]];
    destruct (is_Some_flag _ _ Ha) as [(d & -> & ->)|[-> ->]]; cbn [app read_byte bind].
  1,3: destruct (Hd d eq_refl) as [_ Hl]; pose proof (lenZ_nonneg d);
       rewrite <- app_assoc, stream_read_usize_varint by (unfold in_range; lia); cbn [bind];
       unfold alloc; rewrite (proj2 (Z.leb_le _ _)) by lia; cbn [bind];
       rewrite read_exact_app by done.
  all: done.
Qed.

Lemma file_header_decode_wf r h rest :
  wf_bytes r -> FileHeader.decode r = Ok (h, rest) -> file_header_wf h.
Proof.
  intros Hr H. unfold FileHeader.decode in H.
  apply bind_ok_inv in H as ([magic r1] & H1 & H).
  apply read_exact_inv in H1 as [-> _]; [|lia]. apply wf_bytes_app in Hr as [_ Hr].
  destruct (negb _); [done|]. destruct (negb _); [done|].
  apply bind_ok_inv in H as ([ind r2] & H1 & H). apply read_byte_inv in H1 as ->.
  apply wf_bytes_cons in Hr as [Hind Hr]. rewrite has_invalid in H by done.
  destruct (Z.ltb_spec ind 8); [|done]. cbn [negb] in H.
  apply bind_ok_inv in H as ([sec r3] & Hsec & H).
  destruct (has ind VCD_CODETABLE) eqn:Hct; [done|].
  apply bind_ok_inv in H as ([hap r4] & Happ & H). injection H as <- <-.
  assert (wf_bytes r3 /\ (is_Some sec <-> has ind VCD_SECONDARY = true) /\
          forall b, sec = Some b -> is_u8 b) as (Hr3 & Hs1 & Hs2).
  { destruct (has ind VCD_SECONDARY).
    - apply bind_ok_inv in Hsec as ([b r'] & Hb & Heq). injection Heq as <- <-.
      apply read_byte_inv in Hb as ->. apply wf_bytes_cons in Hr as [? ?].
      split_and!; [done| |by intros ? [= <-]]. split; eauto.
    - injection Hsec as <- <-. split_and!; [done| |done]. split; [by intros []|done]. }
  assert ((is_Some hap <-> has ind VCD_APPHEADER = true) /\
          forall d, hap = Some d -> wf_bytes d /\ lenZ d <= 2 ^ 63 - 1) as [Ha1 Ha2].
  { destruct (has ind VCD_APPHEADER).
    - apply bind_ok_inv in Happ as ([len r5] & Hlen & Happ). unfold stream_read_usize in Hlen.
      apply bind_ok_inv in Hlen as ([v r6] & Hv & Hlen).
      apply stream_read_u64_inv in Hv as [Hv (bs & -> & _)]; [|done].
      destruct (in_rangeb 64 v); [|done]. injection Hlen as -> ->.
      apply bind_ok_inv in Happ as (u & Hal & Happ). unfold alloc in Hal.
      destruct (Z.leb_spec len (2 ^ 63 - 1)); [|done].
      apply bind_ok_inv in Happ as ([d r7] & Hd & Happ). injection Happ as <- <-.
      unfold in_range in Hv. apply read_exact_inv in Hd as [-> Hd]; [|lia].
      apply wf_bytes_app in Hr3 as [_ Hr3]. apply wf_bytes_app in Hr3 as [? _].
      split; [split; eauto|]. intros d' [= <-]. split; [done|lia].
    - injection Happ as <- <-. split; [split; [by intros []|done]|done]. }
  unfold in_range in Hind. constructor; simpl; auto. lia.
Qed.

(** The parser consumes a prefix of its input. *)
Lemma file_header_decode_suffix r h rest :
  wf_bytes r -> FileHeader.decode r = Ok (h, rest) -> exists pre, r = pre ++ rest.
Proof.
  intros Hr H. unfold FileHeader.decode in H.
  apply bind_ok_inv in H as ([magic r1] & H1 & H).
  apply read_exact_inv in H1 as [-> _]; [|lia]. apply wf_bytes_app in Hr as [_ Hr].
  destruct (negb _); [done|]. destruct (negb _); [done|].
  apply bind_ok_inv in H as ([ind r2] & H1 & H). apply read_byte_inv in H1 as ->.
  apply wf_bytes_cons in Hr as [_ Hr]. destruct (has ind VCD_INVHDR); [done|].
  apply bind_ok_inv in H as ([sec r3] & Hsec & H).
  destruct (has ind VCD_CODETABLE); [done|].
  apply bind_ok_inv in H as ([hap r4] & Happ & H). injection H as <- <-.
  assert (exists p, r2 = p ++ r3) as [p ->].
  { destruct (has ind VCD_SECONDARY); [|injection Hsec as _ <-; by exists []].
    apply bind_ok_inv in Hsec as ([b r'] & Hb & Heq). injection Heq as <- <-.
    apply read_byte_inv in Hb as ->. by exists [b]. }
  apply wf_bytes_app in Hr as [_ Hr].
  assert (exists q, r3 = q ++ r4) as [q ->].
  { destruct (has ind VCD_APPHEADER); [|injection Happ as _ <-; by exists []].
    apply bind_ok_inv in Happ as ([len r5] & Hlen & Happ). unfold stream_read_usize in Hlen.
    apply bind_ok_inv in Hlen as ([v r6] & Hv & Hlen).
    apply stream_read_u64_inv in Hv as [Hv (bs & -> & _)]; [|done].
    destruct (in_rangeb 64 v); [|done]. injection Hlen as -> ->.
    apply bind_ok_inv in Happ as (u & _ & Happ).
    apply bind_ok_inv in Happ as ([d r7] & Hd & Happ). injection Happ as <- <-.
    unfold in_range in Hv. apply read_exact_inv in Hd as [-> Hd]; [|lia].
    exists (bs ++ d). by rewrite <- app_assoc. }
  exists (magic ++ ind :: p ++ q). by rewrite <- !app_assoc; simpl; rewrite <- app_assoc.
Qed.

(** ** Window headers *)

Import WindowHeader.

(** The part of the header that [enc_len] covers. *)
Definition window_header_tail (h : WindowHeader.t) : bytes :=
  varint (target_window_len h) ++ [del_ind h] ++
  varint (data_len h) ++ varint (inst_len h) ++ varint (addr_len h) ++
  match adler32 h with Some c => to_be_bytes c | None => [] end.

Definition window_header_bytes (h : WindowHeader.t) : bytes :=
  [win_ind h] ++
  (if has_source h || has_target h
   then varint (copy_window_len h) ++ varint (copy_window_offset h) else []) ++
  varint (enc_len h) ++ window_header_tail h.

(** What follows the [enc_len] field: the rest of the header and the sections. *)
Definition delta_length (h : WindowHeader.t) : Z :=
  lenZ (window_header_tail h) + data_len h + inst_len h + addr_len h.

(** Every field the header's flags announce, in its range. *)
Record window_fields_wf (h : WindowHeader.t) : Prop := {
  wh_ind : 0 <= win_ind h < 8;
  wh_excl : has_source h && has_target h = false;
  wh_copy_len : is_u64 (copy_window_len h);
  wh_copy_off : is_u64 (copy_window_offset h);
  wh_no_copy : has_source h || has_target h = false ->
    copy_window_len h = 0 /\ copy_window_offset h = 0;
  wh_target : 0 <= target_window_len h <= HARD_MAX_WINSIZE;
  wh_del : 0 <= del_ind h < 8;
  wh_data : is_u64 (data_len h);
  wh_inst : is_u64 (inst_len h);
  wh_addr : is_u64 (addr_len h);
  wh_adler : is_Some (adler32 h) <-> has_checksum h = true;
  wh_adler_u32 : forall c, adler32 h = Some c -> is_u32 c
}.

(** ... and the redundancy field in agreement with them. *)
Definition window_header_wf {B : Build} (h : WindowHeader.t) : Prop :=
  window_fields_wf h /\ is_u64 (enc_len h) /\
  compute_enc_len (E:=io_kind) h = Ok (enc_len h).

Lemma target_u64 h : window_fields_wf h -> is_u64 (target_window_len h).
Proof. intros H. pose proof (wh_target h H). unfold in_range, HARD_MAX_WINSIZE in *. lia. Qed.

#[export] Hint Resolve wh_copy_len wh_copy_off wh_data wh_inst wh_addr target_u64 : oxidelta.

(** Without overflow [compute_enc_len] is the length of what follows. *)
Lemma compute_enc_len_ok {B : Build} {E} h :
  window_fields_wf h -> delta_length h < 2 ^ 64 ->
  compute_enc_len (E:=E) h = Ok (delta_length h).
Proof.
  intros H. pose proof (wh_data h H). pose proof (wh_inst h H). pose proof (wh_addr h H).
  unfold compute_enc_len, delta_length, window_header_tail. autorewrite with lenz.
  rewrite !sizeof_u64_varint by auto with oxidelta.
  pose proof (varint_nonempty (target_window_len h)). pose proof (varint_nonempty (data_len h)).
  pose proof (varint_nonempty (inst_len h)). pose proof (varint_nonempty (addr_len h)).
  destruct (is_Some_flag _ _ (wh_adler h H)) as [(c & -> & ->)|[-> ->]];
    cbv iota; rewrite ?lenZ_to_be_bytes, ?(lenZ_nil (A:=Z)); unfold in_range in *; intros Hlt;
    repeat (rewrite add_w_ok by (unfold in_range; lia); cbn [bind]); ok_lia.
Qed.

Lemma delta_length_u64 h : window_fields_wf h -> delta_length h < 2 ^ 64 -> is_u64 (delta_length h).
Proof.
  intros H. pose proof (wh_data h H). pose proof (wh_inst h H). pose proof (wh_addr h H).
  unfold delta_length, in_range in *. pose proof (lenZ_nonneg (window_header_tail h)). lia.
Qed.

Lemma window_header_encode_ok {E} h w :
  window_fields_wf h -> is_u64 (enc_len h) ->
  WindowHeader.encode (E:=E) h w = Ok (w ++ window_header_bytes h).
Proof.
  intros H He. unfold WindowHeader.encode, window_header_bytes, window_header_tail.
  destruct (is_Some_flag _ _ (wh_adler h H)) as [(c & -> & ->)|[-> ->]];
    destruct (has_source h || has_target h);
    cbn [bind]; repeat (rewrite write_u64_ok by auto with oxidelta; cbn [bind]);
    cbv iota; by rewrite ?app_nil_r, <- ?app_assoc.
Qed.

Lemma window_header_decode_ok {B : Build} h rest :
  window_header_wf h ->
  WindowHeader.decode (window_header_bytes h ++ rest) = Ok (Some h, rest).
Proof.
  intros (H & He & Hc). unfold WindowHeader.decode, window_header_bytes, window_header_tail.
  rewrite <- !app_assoc. cbn [app read_byte].
  pose proof (wh_ind h H). pose proof (wh_excl h H) as Hx. pose proof (wh_no_copy h H) as Hnc.
  pose proof (wh_target h H). pose proof (wh_del h H).
  rewrite !has_invalid by (unfold in_range; lia).
  rewrite (proj2 (Z.ltb_lt (win_ind h) _)) by lia. cbn [negb].
  fold (has_source h) (has_target h) (has_checksum h). rewrite Hx, has_either.
  fold (has_source h) (has_target h).
  set (m := if has_source h || has_target h then _ else _).
  set (tl := varint (enc_len h) ++ _) in m.
  assert (m = Ok (copy_window_len h, copy_window_offset h, tl)) as ->.
  { subst m. destruct (has_source h || has_target h).
    - by rewrite <- app_assoc, stream_read_u64_varint by auto with oxidelta; cbn [bind];
        rewrite stream_read_u64_varint by auto with oxidelta.
    - by destruct (Hnc eq_refl) as [-> ->]. }
  subst tl. cbn [bind]. rewrite stream_read_u64_varint by done. cbn [bind].
  rewrite stream_read_u64_varint by auto with oxidelta. cbn [bind].
  rewrite (proj2 (Z.ltb_ge HARD_MAX_WINSIZE _)) by lia. cbn [app read_byte bind].
  rewrite has_invalid, (proj2 (Z.ltb_lt (del_ind h) _)) by (unfold in_range; lia). cbn [negb].
  do 3 (rewrite stream_read_u64_varint by auto with oxidelta; cbn [bind]).
  set (m := if has_checksum h then _ else _).
  assert (m = Ok (adler32 h, rest)) as ->.
  { subst m. pose proof (wh_adler_u32 h H) as Hu.
    destruct (is_Some_flag _ _ (wh_adler h H)) as [(c & Hcs & ->)|[-> ->]]; [|done].
    rewrite Hcs, read_exact_app by done. cbn [bind]. by rewrite be_bytes_roundtrip by auto. }
  cbn [bind]. destruct h. simpl in *. rewrite Hc. cbn [bind]. by rewrite Z.eqb_refl.
Qed.

(** What reading one varint field of a header leaves. *)
Lemma read_field_inv r v r' :
  wf_bytes r -> stream_read_u64 r = Ok (v, r') -> is_u64 v /\ wf_bytes r' /\ lenZ r' <= lenZ r.
Proof.
  intros Hr H. apply stream_read_u64_inv in H as [Hv (bs & -> & _)]; [|done].
  apply wf_bytes_app in Hr as [_ Hr]. autorewrite with lenz. pose proof (lenZ_nonneg bs).
  split_and!; [done|done|lia].
Qed.

Lemma copy_window_inv (present : bool) r clen coff r1 :
  wf_bytes r ->
  (if present
   then let* (len, r) := stream_read_u64 r in
        let* (off, r) := stream_read_u64 r in
        Ok (len, off, r)
   else Ok (0, 0, r)) = Ok (clen, coff, r1) ->
  wf_bytes r1 /\ lenZ r1 <= lenZ r /\ is_u64 clen /\ is_u64 coff /\
  (present = false -> clen = 0 /\ coff = 0).
Proof.
  intros Hr H. destruct present.
  - apply bind_ok_inv in H as ([a ra] & Ha & H).
    apply bind_ok_inv in H as ([b rb] & Hb & H). injection H as <- <- <-.
    apply read_field_inv in Ha as (? & ? & ?); [|done].
    apply read_field_inv in Hb as (? & ? & ?); [|done].
    split_and!; auto; (lia || done).
  - injection H as <- <- <-. split_and!; auto with oxidelta; lia.
Qed.

Lemma checksum_inv (present : bool) r ad r1 :
  wf_bytes r ->
  (if present
   then let* (cksum_buf, r) := read_exact 4 r in
        Ok (Some (from_be_bytes cksum_buf), r)
   else Ok (None, r)) = Ok (ad, r1) ->
  wf_bytes r1 /\ lenZ r1 <= lenZ r /\
  (is_Some ad <-> present = true) /\ (forall c, ad = Some c -> is_u32 c).
Proof.
  intros Hr H. destruct present.
  - apply bind_ok_inv in H as ([cb rc] & Hcb & H). injection H as <- <-.
    apply read_exact_inv in Hcb as [-> Hl4]; [|lia]. apply wf_bytes_app in Hr as [Hcb Hr].
    rewrite lenZ_app. split_and!; auto; [lia|split; eauto|].
    intros c [= <-]. by apply from_be_bytes_u32.
  - injection H as <- <-. split_and!; auto; [lia|split; [by intros []|done]|done].
Qed.

Lemma window_header_decode_wf {B : Build} r h rest :
  wf_bytes r -> WindowHeader.decode r = Ok (Some h, rest) ->
  window_header_wf h /\ wf_bytes rest /\ lenZ rest < lenZ r.
Proof.
  intros Hr H. unfold WindowHeader.decode in H. destruct r as [|ind r0]; [done|]. simpl in H.
  apply wf_bytes_cons in Hr as [Hind Hr].
  rewrite has_invalid in H by done. destruct (Z.ltb_spec ind 8); [|done]. cbn [negb] in H.
  destruct (has ind VCD_SOURCE && has ind VCD_TARGET) eqn:Hx; [done|].
  rewrite has_either in H.
  apply bind_ok_inv in H as ([[clen coff] r1] & Hcopy & H).
  apply copy_window_inv in Hcopy as (Hr1 & Hl1 & Hcl & Hco & Hnc); [|done].
  apply bind_ok_inv in H as ([elen r2] & He & H). apply read_field_inv in He as (Hel & Hr2 & ?); [|done].
  apply bind_ok_inv in H as ([tlen r3] & Ht & H). apply read_field_inv in Ht as (Htl & Hr3 & ?); [|done].
  destruct (Z.ltb_spec HARD_MAX_WINSIZE tlen); [done|].
  apply bind_ok_inv in H as ([del r4] & Hd & H). apply read_byte_inv in Hd as ->.
  apply wf_bytes_cons in Hr3 as [Hdel Hr4].
  rewrite has_invalid in H by done. destruct (Z.ltb_spec del 8); [|done]. cbn [negb] in H.
  apply bind_ok_inv in H as ([dl r5] & H5 & H). apply read_field_inv in H5 as (Hdl & Hr5 & ?); [|done].
  apply bind_ok_inv in H as ([il r6] & H6 & H). apply read_field_inv in H6 as (Hil & Hr6 & ?); [|done].
  apply bind_ok_inv in H as ([al r7] & H7 & H). apply read_field_inv in H7 as (Hal & Hr7 & ?); [|done].
  apply bind_ok_inv in H as ([ad r8] & Had & H).
  apply checksum_inv in Had as (Hr8 & Hl8 & Ha1 & Ha2); [|done].
  apply bind_ok_inv in H as (ex & Hex & H).
  destruct (Z.eqb_spec elen ex) as [->|]; [|done]. injection H as <- <-.
  split; [|split; [done|autorewrite with lenz in *; lia]].
  split; [|split; done]. unfold in_range in Hind, Htl, Hdel.
  constructor; unfold has_source, has_target, has_checksum; simpl; auto; lia.
Qed.

(** ** Theorems *)

(** File header round trip.  Emitting a well-formed file header appends
    to the writer, and parsing what was appended, whatever follows it, gives
    the header back and stops exactly where the header ends. *)
Theorem file_header_roundtrip (h : FileHeader.t) (w rest : bytes) :
  file_header_wf h ->
  exists bs, FileHeader.encode (E:=io_kind) h w = Ok (w ++ bs) /\
             FileHeader.decode (bs ++ rest) = Ok (h, rest).
Proof.
  intros H. exists (file_header_bytes h). split.
  - by apply file_header_encode_ok.
  - by apply file_header_decode_ok.
Qed.

Definition sample_file_header : FileHeader.t :=
  FileHeader.mk (VCD_SECONDARY + VCD_APPHEADER) (Some VCD_LZMA_ID) (Some [97; 98]).

Lemma sample_file_header_wf : file_header_wf sample_file_header.
Proof.
  constructor; simpl; try done.
  - intros b [= <-]. done.
  - intros d [= <-]. split; [|done]. repeat constructor; done.
Qed.

Lemma file_header_roundtrip_witness :
  exists bs, FileHeader.encode (E:=io_kind) sample_file_header [7] = Ok ([7] ++ bs) /\
             FileHeader.decode (bs ++ [1; 2]) = Ok (sample_file_header, [1; 2]).
Proof. apply (file_header_roundtrip sample_file_header [7] [1; 2] sample_file_header_wf). Defined.

(** C26: window header round trip.  A window header whose fields are in range
    and whose [enc_len] is the length of what follows it is emitted and parsed
    back exactly; [compute_enc_len] computes that length. *)
Theorem window_header_roundtrip {B : Build} (h : WindowHeader.t) (w rest : bytes) :
  window_fields_wf h -> delta_length h < 2 ^ 64 -> enc_len h = delta_length h ->
  compute_enc_len (E:=io_kind) h = Ok (enc_len h) /\
  exists bs, WindowHeader.encode (E:=io_kind) h w = Ok (w ++ bs) /\
             WindowHeader.decode (bs ++ rest) = Ok (Some h, rest).
Proof.
  intros H Hlt He. pose proof (compute_enc_len_ok (E:=io_kind) h H Hlt) as Hc.
  rewrite <- He in Hc. split; [done|].
  assert (is_u64 (enc_len h)) by (by rewrite He; apply delta_length_u64).
  exists (window_header_bytes h). split.
  - by apply window_header_encode_ok.
  - by apply window_header_decode_ok.
Qed.

Definition sample_window_header : WindowHeader.t :=
  WindowHeader.mk (VCD_SOURCE + VCD_ADLER32) 300 17 12 9 0 1 2 0 (Some 0xDEADBEEF).

Lemma sample_window_header_wf : window_fields_wf sample_window_header.
Proof. constructor; simpl; try done. intros c [= <-]. done. Qed.

Lemma window_header_roundtrip_witness :
  compute_enc_len (B:={| debug_build := true |}) (E:=io_kind) sample_window_header = Ok 12 /\
  exists bs, WindowHeader.encode (E:=io_kind) sample_window_header [5] = Ok ([5] ++ bs) /\
    WindowHeader.decode (B:={| debug_build := true |}) (bs ++ [1; 2; 3])
    = Ok (Some sample_window_header, [1; 2; 3]).
Proof.
  apply (window_header_roundtrip (B:={| debug_build := true |}) sample_window_header [5] [1; 2; 3]
           sample_window_header_wf); vm_compute; reflexivity.
Defined.

(** C27: what window-header parsing accepts.  An accepted header has only known
    indicator bits, never both copy-window flags, a target window of at most
    [HARD_MAX_WINSIZE], a checksum exactly when announced, an [enc_len] equal
    to [compute_enc_len], and parsing it consumed at least one byte; re-emitting
    it parses to the same header. *)
Theorem window_header_decode_sound {B : Build} (r rest : bytes) (h : WindowHeader.t) :
  wf_bytes r -> WindowHeader.decode r = Ok (Some h, rest) ->
  window_fields_wf h /\ lenZ rest < lenZ r /\
  compute_enc_len (E:=io_kind) h = Ok (enc_len h) /\
  forall rest', exists bs, WindowHeader.encode (E:=io_kind) h [] = Ok bs /\
                           WindowHeader.decode (bs ++ rest') = Ok (Some h, rest').
Proof.
  intros Hr H. apply window_header_decode_wf in H as ((Hf & He & Hc) & _ & Hl); [|done].
  split_and!; [done..|]. intros rest'. exists (window_header_bytes h). split.
  - rewrite window_header_encode_ok by done. done.
  - by apply window_header_decode_ok.
Qed.

Lemma window_header_decode_sound_witness :
  let r := [5; 130; 44; 17; 12; 9; 0; 1; 2; 0; 222; 173; 190; 239; 1] in
  window_fields_wf sample_window_header /\ lenZ [1] < lenZ r /\
  compute_enc_len (B:={| debug_build := false |}) (E:=io_kind) sample_window_header = Ok 12 /\
  forall rest', exists bs, WindowHeader.encode (E:=io_kind) sample_window_header [] = Ok bs /\
    WindowHeader.decode (B:={| debug_build := false |}) (bs ++ rest')
    = Ok (Some sample_window_header, rest').
Proof.
  apply (window_header_decode_sound (B:={| debug_build := false |}) _ [1] sample_window_header);
    [repeat constructor; done | vm_compute; reflexivity].
Defined.

Lemma sizeof_big n : 2 ^ 63 <= n < 2 ^ 64 -> sizeof_u64 n = 10.
Proof.
  intros Hn. unfold sizeof_u64, leading_zeros. rewrite (proj2 (Z.eqb_neq _ _)) by lia.
  rewrite (Z.log2_unique n 63) by lia. done.
Qed.

(** C39: lengths in untrusted headers can panic the parser.  For every [n] with
    2^63 <= n < 2^64 - 23: a file header that announces an application header
    of [n] bytes panics in the allocation, in both profiles, although the input
    ends right after the length; and a window header that announces DATA and
    INST sections of [n] bytes each panics under overflow checks, where
    [compute_enc_len] adds them up before the mismatch with [enc_len] is
    reported, and is an [InvalidData] error without the checks, where the sum
    wraps. *)
Theorem header_lengths_panic {B : Build} (n : Z) :
  2 ^ 63 <= n < 2 ^ 64 - 23 ->
  FileHeader.decode (VCDIFF_MAGIC ++ [VCD_APPHEADER] ++ varint n) = Panic /\
  WindowHeader.decode ([0; 0; 0; 0] ++ varint n ++ varint n ++ varint 0)
  = if debug_build then Panic else Err InvalidData.
Proof.
  intros Hn. assert (is_u64 n) by (unfold in_range; lia). split.
  - unfold FileHeader.decode. rewrite read_exact_app by done. cbn [bind].
    rewrite bool_decide_eq_true_2 by done.
    change (unwrap_or (VCDIFF_MAGIC !! 3%nat) 0 =? 0x00) with true.
    cbn [negb app read_byte bind].
    change (has VCD_APPHEADER VCD_INVHDR) with false.
    change (has VCD_APPHEADER VCD_SECONDARY) with false.
    change (has VCD_APPHEADER VCD_CODETABLE) with false.
    change (has VCD_APPHEADER VCD_APPHEADER) with true. cbn [bind].
    rewrite <- (app_nil_r (varint n)), stream_read_usize_varint by done.
    cbn [bind]. unfold alloc. by rewrite (proj2 (Z.leb_gt _ _)) by lia.
  - pose proof (sizeof_big n ltac:(lia)) as Hs.
    change ([0; 0; 0; 0] ++ varint n ++ varint n ++ varint 0)
      with (0 :: varint 0 ++ varint 0 ++ 0 :: varint n ++ varint n ++ varint 0).
    rewrite <- (app_nil_r (varint 0)) at 3. unfold WindowHeader.decode. cbn [read_byte].
    change (has 0 _) with false. cbn [andb bind].
    rewrite stream_read_u64_varint by auto with oxidelta. cbn [bind].
    rewrite stream_read_u64_varint by auto with oxidelta. cbn [bind].
    change (HARD_MAX_WINSIZE <? 0) with false. cbn [read_byte bind].
    change (has 0 VCD_INVDEL) with false. cbv iota.
    do 3 (rewrite stream_read_u64_varint by auto with oxidelta; cbn [bind]).
    unfold compute_enc_len. cbn [target_window_len data_len inst_len addr_len].
    unfold has_checksum. cbn [win_ind]. change (has 0 VCD_ADLER32) with false. cbv iota.
    rewrite Hs. change (sizeof_u64 0) with 1.
    repeat (rewrite add_w_ok by (unfold in_range; lia); cbn [bind]).
    rewrite add_w_overflow by lia. destruct debug_build; [done|]. cbn [bind].
    rewrite add_w_ok by (rewrite Z.add_0_r; by apply wrap_range). cbn [bind enc_len].
    unfold wrap. rewrite (proj2 (Z.eqb_neq _ _)) by dlia. done.
Qed.

Lemma header_lengths_panic_witness :
  let B := {| debug_build := true |} in
  FileHeader.decode (VCDIFF_MAGIC ++ [VCD_APPHEADER] ++ varint (2 ^ 63)) = Panic /\
  WindowHeader.decode ([0; 0; 0; 0] ++ varint (2 ^ 63) ++ varint (2 ^ 63) ++ varint 0) = Panic.
Proof. apply (header_lengths_panic (B:={| debug_build := true |}) (2 ^ 63)). lia. Defined.
