(* ===== verification/WindowEncoder.v ===== *)
(** * The window and stream encoders ([src/src/vcdiff/encoder.rs])

    The accumulation of ADD, COPY and RUN instructions into the DATA, INST and
    ADDR sections with double-opcode packing, the assembly of a window and the
    stream encoder.  The lemmas relate a window encoder's state to the sequence
    of operations it was given, in terms of the relations [packs] (opcodes to
    instructions) and [emits] (instructions and sections to operations), which
    the decoder's side uses in reverse. *)

From stdpp Require Import base numbers list option.
From Stdlib Require Import ZArith Lia.
From S2P Require Import Prelude Varint AddrCache CodeTable Semantics Header.

Local Open Scope Z_scope.
Local Open Scope rust_scope.

(** ** Checksums *)

(** The checksum of a window: the [simd_adler32] crate with the [adler32]
    feature, [adler32_simple] without it; the encoder and the decoder of one
    build use the same one. *)
Class Adler32 := { compute_adler32 : bytes -> Z }.

Class Adler32Laws `{Adler32} : Prop := {
  adler32_u32 : forall data, is_u32 (compute_adler32 data)
}.

Definition MOD_ADLER : Z := 65521.

(** One iteration of the fallback's loop; the sums stay below 2^17. *)
Definition adler_step (s : Z * Z) (byte : Z) : Z * Z :=
  let '(a, b) := s in
  let a := (a + byte) mod MOD_ADLER in
  let b := (b + a) mod MOD_ADLER in
  (a, b).

Definition adler32_simple (data : bytes) : Z :=
  let '(a, b) := fold_left adler_step data (1, 0) in
  Z.lor (wrap 32 (Z.shiftl b 16)) a.

(** ** The window encoder *)

Record SourceWindow := source_win { sw_len : Z; sw_offset : Z }.

Record PendingInst := pending_inst { pi_info : InstructionInfo; pi_code1 : Z }.

Module WindowSections.
Record t := mk {
  source_window : option SourceWindow;
  target_len : Z;
  checksum : option Z;
  data_section : bytes;
  inst_section : bytes;
  addr_section : bytes
}.

Definition assemble {B : Build} {E} (s : t) (del_ind : Z) : result E bytes :=
  let win_ind := 0 in
  let win_ind :=
    match source_window s with Some _ => Z.lor win_ind VCD_SOURCE | None => win_ind end in
  let win_ind :=
    match checksum s with Some _ => Z.lor win_ind VCD_ADLER32 | None => win_ind end in
  let wh (enc_len : Z) :=
    {| WindowHeader.win_ind := win_ind;
       WindowHeader.copy_window_len :=
         match source_window s with Some sw => sw_len sw | None => 0 end;
       WindowHeader.copy_window_offset :=
         match source_window s with Some sw => sw_offset sw | None => 0 end;
       WindowHeader.enc_len := enc_len;
       WindowHeader.target_window_len := target_len s;
       WindowHeader.del_ind := del_ind;
       WindowHeader.data_len := lenZ (data_section s);
       WindowHeader.inst_len := lenZ (inst_section s);
       WindowHeader.addr_len := lenZ (addr_section s);
       WindowHeader.adler32 := checksum s |} in
  let* enc_len := WindowHeader.compute_enc_len (wh 0) in
  let* out := WindowHeader.encode (wh enc_len) [] in
  let out := out ++ data_section s in
  let out := out ++ inst_section s in
  Ok (out ++ addr_section s).
End WindowSections.

Module WindowEncoder.
Record t := mk {
  data_section : bytes;
  inst_section : bytes;
  addr_section : bytes;
  acache : AddressCache.t;
  pending : option PendingInst;
  target_len : Z;
  source_window : option SourceWindow;
  emit_checksum : bool
}.

Definition new (source : option SourceWindow) (emit_checksum : bool) : t :=
{| data_section := [];
   inst_section := [];
   addr_section := [];
   acache := AddressCache.new;
   pending := None;
   target_len := 0;
   source_window := source;
   emit_checksum := emit_checksum |}.

(** Capacities are hints to the allocator: the state is that of [new]. *)
Definition with_capacity (source : option SourceWindow) (emit_checksum : bool)
  (data_cap inst_cap addr_cap : Z) : t :=
{| data_section := [];
   inst_section := [];
   addr_section := [];
   acache := AddressCache.new;
   pending := None;
   target_len := 0;
   source_window := source;
   emit_checksum := emit_checksum |}.

Definition set_inst (we : t) (inst : bytes) : t :=
  mk (data_section we) inst (addr_section we) (acache we) (pending we)
     (target_len we) (source_window we) (emit_checksum we).

Definition set_pending (we : t) (p : option PendingInst) : t :=
  mk (data_section we) (inst_section we) (addr_section we) (acache we) p
     (target_len we) (source_window we) (emit_checksum we).

Definition push_data (we : t) (d : bytes) : t :=
  mk (data_section we ++ d) (inst_section we) (addr_section we) (acache we) (pending we)
     (target_len we) (source_window we) (emit_checksum we).

Definition set_addr (we : t) (addr : bytes) (c : AddressCache.t) : t :=
  mk (data_section we) (inst_section we) addr c (pending we)
     (target_len we) (source_window we) (emit_checksum we).

Definition set_target_len (we : t) (n : Z) : t :=
  mk (data_section we) (inst_section we) (addr_section we) (acache we) (pending we)
     n (source_window we) (emit_checksum we).

Section Ops.
Context {B : Build} {E : Type}.

Definition here (we : t) : result E Z :=
  add_w 64 (match source_window we with Some s => sw_len s | None => 0 end) (target_len we).

Definition emit_opcode_single (we : t) (code : Z) (inst : InstructionInfo) : result E t :=
  let we := set_inst we (inst_section we ++ [code]) in
  let* e := index default_code_table code in
  if size1 e =? 0 then
  let* s := write_u32 (inst_section we) (size inst) in
  Ok (set_inst we s)
  else Ok we.

Definition emit_opcode_double (we : t) (code : Z) : t :=
  set_inst we (inst_section we ++ [code]).

Definition flush_pending (we : t) : result E t :=
  match pending we with
  | Some p => emit_opcode_single (set_pending we None) (pi_code1 p) (pi_info p)
  | None => Ok we
  end.

Definition emit_instruction (we : t) (inst : InstructionInfo) : result E t :=
  let* ch := choose_instruction (pi_info <$> pending we) inst in
  match code2 ch with
  | Some code2 =>
    match pending we with
    | Some _ => Ok (emit_opcode_double (set_pending we None) code2)
    | None => Panic
    end
  | None =>
    let* we := flush_pending we in
    Ok (set_pending we (Some (pending_inst inst (code1 ch))))
  end.

Definition add (we : t) (data : bytes) : result E t :=
  match data with
  | [] => Ok we
  | _ =>
    let we := push_data we data in
    let* we := emit_instruction we (info XD3_ADD (wrap 32 (lenZ data))) in
    let* n := add_w 64 (target_len we) (lenZ data) in
    Ok (set_target_len we n)
  end.

Definition copy (we : t) (len addr _mode : Z) : result E t :=
  if len =? 0 then Ok we
  else
    let* here := here we in
    let* (enc_mode, encoded_addr, c) := AddressCache.encode (acache we) addr here in
    let* s := EncodedAddr.write_to encoded_addr (addr_section we) in
    let we := set_addr we s c in
    let* itype := add_w 8 XD3_CPY enc_mode in
    let* we := emit_instruction we (info itype len) in
    let* n := add_w 64 (target_len we) len in
    Ok (set_target_len we n).

Definition copy_with_auto_mode (we : t) (len addr : Z) : result E t :=
  copy we len addr 0.

Definition run (we : t) (len byte : Z) : result E t :=
  if len =? 0 then Ok we
  else
    let we := push_data we [byte] in
    let* we := emit_instruction we (info XD3_RUN len) in
    let* n := add_w 64 (target_len we) len in
    Ok (set_target_len we n).

Definition finish_sections `{Adler32} (we : t) (target_data : option bytes)
  : result E WindowSections.t :=
  let* we := flush_pending we in
  let checksum :=
    if emit_checksum we then compute_adler32 <$> target_data else None in
  Ok {| WindowSections.source_window := source_window we;
      WindowSections.target_len := target_len we;
      WindowSections.checksum := checksum;
      WindowSections.data_section := data_section we;
      WindowSections.inst_section := inst_section we;
      WindowSections.addr_section := addr_section we |}.

Definition finish `{Adler32} (we : t) (target_data : option bytes) : result E bytes :=
  let* sections := finish_sections we target_data in
  WindowSections.assemble sections 0.
End Ops.
End WindowEncoder.

(** ** The stream encoder *)

Module StreamEncoder.
(** The writer is the bytes written so far. *)
Record t := mk {
  writer : bytes;
  header_written : bool;
  file_header : FileHeader.t;
  emit_checksum : bool
}.

Definition new (writer : bytes) (emit_checksum : bool) : t :=
  mk writer false FileHeader.default emit_checksum.

Definition set_app_header (s : t) (data : bytes) : t :=
  let h := file_header s in
  mk (writer s) (header_written s)
     (FileHeader.mk (Z.lor (FileHeader.hdr_ind h) VCD_APPHEADER)
        (FileHeader.secondary_id h) (Some data))
     (emit_checksum s).

Definition set_secondary_id (s : t) (id : Z) : t :=
  let h := file_header s in
  mk (writer s) (header_written s)
     (FileHeader.mk (Z.lor (FileHeader.hdr_ind h) VCD_SECONDARY)
        (Some id) (FileHeader.app_header h))
     (emit_checksum s).

Section Ops.
Context {B : Build} {E : Type}.

(** [if !self.header_written { ... }], shared by the two writers. *)
Definition ensure_header (s : t) : result E t :=
  if header_written s then Ok s
  else
    let* w := FileHeader.encode (file_header s) (writer s) in
    Ok (mk w true (file_header s) (emit_checksum s)).

Definition write_raw_window (s : t) (encoded : bytes) : result E t :=
  let* s := ensure_header s in
  Ok (mk (writer s ++ encoded) (header_written s) (file_header s) (emit_checksum s)).

Definition write_window `{Adler32} (s : t) (window : WindowEncoder.t)
  (target_data : option bytes) : result E t :=
  let* s := ensure_header s in
  let* encoded := WindowEncoder.finish window target_data in
  Ok (mk (writer s ++ encoded) (header_written s) (file_header s) (emit_checksum s)).

Definition finish (s : t) : result E bytes :=
  if header_written s then Ok (writer s)
  else FileHeader.encode (file_header s) (writer s).
End Ops.
End StreamEncoder.

(** ** The fallback checksum *)

Lemma adler_fold_range data a b :
  0 <= a < MOD_ADLER -> 0 <= b < MOD_ADLER ->
  let '(a', b') := fold_left adler_step data (a, b) in
  0 <= a' < MOD_ADLER /\ 0 <= b' < MOD_ADLER.
Proof.
  revert a b. induction data as [|x data IH]; intros a b Ha Hb; simpl; [done|].
  apply IH; apply Z.mod_pos_bound; done.
Qed.

(** [adler32_simple] keeps both sums below the modulus, so the checksum packs
    them without loss. *)
Lemma adler32_simple_value data :
  let '(a, b) := fold_left adler_step data (1, 0) in
  adler32_simple data = b * 2 ^ 16 + a /\ is_u32 (adler32_simple data).
Proof.
  pose proof (adler_fold_range data 1 0) as H.
  unfold adler32_simple. destruct (fold_left _ _ _) as [a b].
  destruct H as [Ha Hb]; [done..|]. unfold MOD_ADLER in *.
  assert (wrap 32 (Z.shiftl b 16) = Z.shiftl b 16) as ->.
  { apply wrap_small. unfold in_range. rewrite Z.shiftl_mul_pow2 by lia. lia. }
  rewrite lor_shiftl_add by (unfold in_range; lia). unfold in_range. lia.
Qed.

Definition adler32_fallback : Adler32 := {| compute_adler32 := adler32_simple |}.

Lemma adler32_fallback_laws : Adler32Laws (H:=adler32_fallback).
Proof.
  constructor. intros data. pose proof (adler32_simple_value data) as H. simpl.
  destruct (fold_left _ _ _). apply H.
Qed.

(** ** What the sections denote *)

(** The size field after opcode [c]. *)
Definition size_bytes (c : Z) (i : InstructionInfo) : bytes :=
  if size1 (rfc_entry c) =? 0 then varint (size i) else [].

(** The INST section [bs] is a packing of the instructions [l]. *)
Inductive packs : list InstructionInfo -> bytes -> Prop :=
  | packs_nil : packs [] []
  | packs_single i c l bs :
      info_ok i -> single_code c i -> packs l bs ->
      packs (i :: l) (c :: size_bytes c i ++ bs)
  | packs_double p i c l bs :
      info_ok p -> info_ok i -> double_code c p i -> packs l bs ->
      packs (p :: i :: l) (c :: bs).

(** From cache [c] at position [pos], the instructions [l] with the sections
    [data] and [addr] are the operations [ops], and leave the cache [c']. *)
Inductive emits (srclen : Z) :
    AddressCache.t -> Z -> list op -> list InstructionInfo -> bytes -> bytes ->
    AddressCache.t -> Prop :=
  | emits_nil c pos : emits srclen c pos [] [] [] [] c
  | emits_add c pos d ops l data addr c' :
      emits srclen c (pos + lenZ d) ops l data addr c' ->
      emits srclen c pos (OpAdd d :: ops) (info XD3_ADD (lenZ d) :: l) (d ++ data) addr c'
  | emits_run c pos len b ops l data addr c' :
      emits srclen c (pos + len) ops l data addr c' ->
      emits srclen c pos (OpRun len b :: ops) (info XD3_RUN len :: l) (b :: data) addr c'
  | emits_copy c pos len a mode bs ops l data addr c' :
      0 <= mode < CPY_MODES -> wf_bytes bs /\ lenZ bs <= 10 ->
      (forall rest, AddressCache.decode c mode (bs ++ rest) (srclen + pos)
                    = Ok (a, lenZ bs, upd c a)) ->
      emits srclen (upd c a) (pos + len) ops l data addr c' ->
      emits srclen c pos (OpCopy len a :: ops) (info (XD3_CPY + mode) len :: l)
        data (bs ++ addr) c'.

Lemma packs_app l1 b1 l2 b2 : packs l1 b1 -> packs l2 b2 -> packs (l1 ++ l2) (b1 ++ b2).
Proof.
  intros H1 H2. induction H1; simpl; [done| |by constructor].
  rewrite <- app_assoc. by constructor.
Qed.

Lemma emits_app srclen c pos ops1 l1 d1 a1 c1 ops2 l2 d2 a2 c2 :
  emits srclen c pos ops1 l1 d1 a1 c1 ->
  emits srclen c1 (pos + ops_len ops1) ops2 l2 d2 a2 c2 ->
  emits srclen c pos (ops1 ++ ops2) (l1 ++ l2) (d1 ++ d2) (a1 ++ a2) c2.
Proof.
  intros H1. revert ops2 l2 d2 a2 c2. unfold ops_len.
  induction H1 as [| | |]; intros ops2 l2 d2 a2 c2; simpl; rewrite ?Z.add_0_r, ?Z.add_assoc; intros Hnext.
  - done.
  - rewrite <- app_assoc. constructor. by apply IHemits.
  - constructor. by apply IHemits.
  - rewrite <- app_assoc. constructor; auto.
Qed.

Lemma emits_add_one srclen c pos d :
  emits srclen c pos [OpAdd d] [info XD3_ADD (lenZ d)] d [] c.
Proof.
  pose proof (emits_add srclen c pos d _ _ _ _ _ (emits_nil srclen c _)) as H.
  by rewrite app_nil_r in H.
Qed.

Lemma emits_copy_one srclen c pos len a mode bs :
  0 <= mode < CPY_MODES -> wf_bytes bs /\ lenZ bs <= 10 ->
  (forall rest, AddressCache.decode c mode (bs ++ rest) (srclen + pos)
                = Ok (a, lenZ bs, upd c a)) ->
  emits srclen c pos [OpCopy len a] [info (XD3_CPY + mode) len] [] bs (upd c a).
Proof.
  intros Hm Hb Hd.
  pose proof (emits_copy srclen c pos len a mode bs _ _ _ _ _ Hm Hb Hd (emits_nil srclen _ _)) as H.
  by rewrite app_nil_r in H.
Qed.

Lemma packs_wf l bs : packs l bs -> wf_bytes bs.
Proof.
  induction 1 as [|i c l bs Hi [Hc _] _ IH|p i c l bs _ _ [Hc _] _ IH].
  - constructor.
  - apply wf_bytes_cons. split; [done|]. apply wf_bytes_app. split; [|done].
    unfold size_bytes. case_bool; [apply varint_wf|constructor].
  - by apply wf_bytes_cons.
Qed.

Lemma emits_wf srclen c pos ops l data addr c' :
  emits srclen c pos ops l data addr c' -> ops_fit srclen pos ops ->
  wf_bytes data /\ wf_bytes addr.
Proof.
  induction 1 as [| | |]; simpl; [repeat constructor|..]; intros [[_ Ho] Hr].
  - destruct (IHemits Hr). split; [|done]. by apply wf_bytes_app.
  - destruct (IHemits Hr). split; [|done]. by apply wf_bytes_cons.
  - destruct (IHemits Hr). split; [done|]. apply wf_bytes_app; tauto.
Qed.

(** The sections are at most a constant factor longer than the output. *)
Lemma packs_length l bs : packs l bs -> lenZ bs <= 11 * lenZ l.
Proof.
  induction 1 as [|i c l bs Hi _ _ IH|p i c l bs _ _ _ _ IH]; autorewrite with lenz; [lia| |lia].
  assert (lenZ (size_bytes c i) <= 10); [|lia].
  unfold size_bytes. case_bool; [|by change (lenZ (@nil Z)) with 0].
  apply varint_length_le. destruct Hi as [_ ?]. unfold in_range. lia.
Qed.

Lemma emits_length srclen c pos ops l data addr c' :
  emits srclen c pos ops l data addr c' -> ops_fit srclen pos ops ->
  lenZ data <= ops_len ops /\ lenZ addr <= 10 * ops_len ops /\ lenZ l <= ops_len ops.
Proof.
  unfold ops_len. induction 1; simpl; [done|..]; intros [[Hl _] Hr]; simpl in Hl;
    specialize (IHemits Hr); autorewrite with lenz in *; lia.
Qed.

(** An instruction for each operation, with at most ten bytes of address. *)
Lemma emits_count srclen c pos ops l data addr c' :
  emits srclen c pos ops l data addr c' -> lenZ l = lenZ ops /\ lenZ addr <= 10 * lenZ ops.
Proof.
  induction 1 as [| | |]; [done|..]; autorewrite with lenz in *; lia.
Qed.

(** ** The window encoder's invariant *)

Definition win_len (sw : option SourceWindow) : Z :=
  match sw with Some s => sw_len s | None => 0 end.

(** [l] is packed in [inst], but for the pending instruction. *)
Definition pending_packs (inst : bytes) (p : option PendingInst)
    (l : list InstructionInfo) : Prop :=
  match p with
  | None => packs l inst
  | Some p => exists l0, l = l0 ++ [pi_info p] /\ packs l0 inst /\
                info_ok (pi_info p) /\ single_code (pi_code1 p) (pi_info p)
  end.

Definition default_sizes (c : AddressCache.t) : Prop :=
  AddressCache.s_near c = NEAR_MODES /\ AddressCache.s_same c = SAME_MODES.

(** The encoder has been given the operations [ops]. *)
Record encoded (we : WindowEncoder.t) (ops : list op) : Prop := {
  ed_emits : exists l,
    emits (win_len (WindowEncoder.source_window we)) AddressCache.new 0 ops l
      (WindowEncoder.data_section we) (WindowEncoder.addr_section we)
      (WindowEncoder.acache we) /\
    pending_packs (WindowEncoder.inst_section we) (WindowEncoder.pending we) l;
  ed_len : WindowEncoder.target_len we = ops_len ops;
  ed_ok : ops_fit (win_len (WindowEncoder.source_window we)) 0 ops;
  ed_cache : cache_wf (WindowEncoder.acache we) /\ default_sizes (WindowEncoder.acache we)
}.

Import WindowEncoder.

Lemma encoded_new sw ck : encoded (new sw ck) [].
Proof.
  constructor; simpl; try done.
  - exists []. split; constructor.
  - split; [apply new_wf|done].
Qed.

Section Emission.
Context {B : Build} {E : Type}.

(** Flushing completes the packing and touches nothing else. *)
Lemma flush_pending_ok we l :
  pending_packs (inst_section we) (pending we) l ->
  exists inst, flush_pending (E:=E) we = Ok (set_inst (set_pending we None) inst) /\
    packs l inst.
Proof.
  unfold flush_pending, pending_packs. destruct (pending we) as [p|] eqn:Hp.
  - intros (l0 & -> & Hl0 & Hi & Hs). unfold emit_opcode_single.
    rewrite table_index by apply Hs. cbn [bind].
    pose proof (packs_single _ _ _ _ Hi Hs packs_nil) as Hone. rewrite app_nil_r in Hone.
    unfold size_bytes in Hone. pose proof (packs_app _ _ _ _ Hl0 Hone) as Hall.
    destruct (size1 (rfc_entry (pi_code1 p)) =? 0).
    + rewrite write_u32_ok by (destruct Hi; unfold in_range; lia). cbn [bind].
      eexists. split; [done|]. simpl. by rewrite <- app_assoc.
    + eexists. split; [done|]. done.
  - intros Hl. exists (inst_section we). split; [|done]. destruct we; simpl in *. by subst.
Qed.

Lemma emit_instruction_ok we l i :
  pending_packs (inst_section we) (pending we) l -> info_ok i ->
  exists inst p, emit_instruction (E:=E) we i = Ok (set_pending (set_inst we inst) p) /\
    pending_packs inst p (l ++ [i]).
Proof.
  intros Hp Hi. unfold emit_instruction.
  destruct (choose_instruction_ok (E:=E) (pi_info <$> pending we) i)
    as (c1 & c2 & -> & Hs & Hd); [|done|].
  { intros p Hpi. unfold pending_packs in Hp. destruct (pending we); [|done].
    injection Hpi as <-. by destruct Hp as (? & _ & _ & ? & _). }
  cbn [bind code2 code1]. destruct c2 as [c|].
  - destruct (Hd c eq_refl) as (p & Hpi & Hc). unfold pending_packs in Hp.
    destruct (pending we) as [q|]; [|done]. injection Hpi as <-.
    destruct Hp as (l0 & -> & Hl0 & Hq & _).
    exists (inst_section we ++ [c]), None. split; [done|]. simpl. rewrite <- app_assoc.
    apply packs_app; [done|]. by apply packs_double; [..|constructor].
  - destruct (flush_pending_ok we l Hp) as (inst & -> & Hl). cbn [bind].
    exists inst, (Some (pending_inst i c1)). split; [done|]. simpl. eauto.
Qed.

(** The common end of the three operations: queue the instruction [i] of the
    operation [o], whose data and address are already in the sections. *)
Lemma emit_op_ok we we0 ops o i d a c :
  encoded we0 ops -> op_fits (win_len (source_window we0)) (ops_len ops) o ->
  win_len (source_window we0) + ops_len ops + op_len o < 2 ^ 64 ->
  0 <= win_len (source_window we0) ->
  emits (win_len (source_window we0)) (acache we0) (ops_len ops) [o] [i] d a c ->
  cache_wf c -> default_sizes c -> info_ok i ->
  we = mk (data_section we0 ++ d) (inst_section we0) (addr_section we0 ++ a) c
          (pending we0) (target_len we0) (source_window we0) (emit_checksum we0) ->
  exists we', (let* w := emit_instruction (E:=E) we i in
               let* n := add_w 64 (target_len w) (op_len o) in
               Ok (set_target_len w n)) = Ok we' /\
    encoded we' (ops ++ [o]) /\ source_window we' = source_window we0 /\
    emit_checksum we' = emit_checksum we0.
Proof.
  intros [(l & Hem & Hp) Hlen Hok Hc0] Ho Hlt Hw He Hc Hdef Hi ->.
  edestruct (emit_instruction_ok (mk (data_section we0 ++ d) (inst_section we0)
    (addr_section we0 ++ a) c (pending we0) (target_len we0) (source_window we0)
    (emit_checksum we0)) l i Hp Hi) as (inst & p & -> & Hp').
  pose proof (ops_fit_nonneg _ _ _ Hok). pose proof (proj1 Ho).
  cbn [bind]. simpl. rewrite Hlen, add_w_ok by (unfold in_range; lia). cbn [bind].
  eexists. split; [done|]. split; [|done]. constructor; simpl; auto.
  - exists (l ++ [i]). split; [|done]. by eapply emits_app.
  - rewrite ops_len_app. unfold ops_len at 3. simpl. lia.
  - apply ops_fit_app. simpl. by rewrite Z.add_0_l.
Qed.

(** An operation through the encoder's interface. *)
Definition step (we : t) (o : op) : result E t :=
  match o with
  | OpAdd d => add we d
  | OpCopy len addr => copy_with_auto_mode we len addr
  | OpRun len b => run we len b
  end.

Lemma step_ok we ops o :
  encoded we ops -> op_fits (win_len (source_window we)) (ops_len ops) o ->
  win_len (source_window we) + ops_len ops + op_len o < 2 ^ 64 ->
  0 <= win_len (source_window we) ->
  exists we', step we o = Ok we' /\ encoded we' (ops ++ [o]) /\
    source_window we' = source_window we /\ emit_checksum we' = emit_checksum we.
Proof.
  intros He Ho Hlt Hw. pose proof (ed_cache _ _ He) as [Hc Hd]. pose proof (ed_len _ _ He) as Hl.
  pose proof (ops_fit_nonneg _ _ _ (ed_ok _ _ He)) as Hn.
  destruct o as [d|len addr|len b]; simpl; destruct Ho as [Hlen Ho]; simpl in Hlen.
  - unfold add. destruct d as [|x d']; [rewrite lenZ_nil in Hlen; lia|].
    remember (x :: d') as d. rewrite wrap_small by (unfold in_range; lia).
    apply (emit_op_ok _ we ops (OpAdd d) _ d [] (acache we)); auto; [by split|..].
    + apply emits_add_one.
    + split; simpl; [auto|lia].
    + unfold push_data. by rewrite app_nil_r.
  - unfold copy_with_auto_mode, copy, here. rewrite (proj2 (Z.eqb_neq _ _)) by lia.
    fold (win_len (source_window we)). simpl in Hlt.
    rewrite Hl, add_w_ok by (unfold in_range; lia). cbn [bind].
    destruct (encode_decode (E:=E) (acache we) addr (win_len (source_window we) + ops_len ops))
      as (mode & enc & bs & -> & Hwr & _ & Hbs & Hm & Hdec); [done|unfold in_range; lia|lia|].
    cbn [bind]. rewrite Hwr. cbn [bind]. destruct Hd as [Hd1 Hd2].
    unfold AddressCache.mode_count in Hm. rewrite Hd1, Hd2 in Hm.
    unfold NEAR_MODES, SAME_MODES in Hm. rewrite add_w_ok by (unfold in_range, XD3_CPY; lia).
    cbn [bind].
    apply (emit_op_ok _ we ops (OpCopy len addr) _ [] bs (upd (acache we) addr)); auto.
    + by split.
    + apply emits_copy_one; [|done|done].
      unfold CPY_MODES, NEAR_MODES, SAME_MODES. lia.
    + apply upd_wf; [unfold in_range; lia|done].
    + by split.
    + split; simpl; [|lia]. unfold XD3_CPY, CPY_MODES, NEAR_MODES, SAME_MODES. lia.
    + unfold set_addr. by rewrite app_nil_r.
  - unfold run. rewrite (proj2 (Z.eqb_neq _ _)) by lia.
    apply (emit_op_ok _ we ops (OpRun len b) _ [b] [] (acache we)); auto; [by split|..].
    + constructor. constructor.
    + split; simpl; [auto|lia].
    + unfold push_data. by rewrite app_nil_r.
Qed.

Fixpoint steps (we : t) (ops : list op) : result E t :=
  match ops with
  | [] => Ok we
  | o :: ops => let* we := step we o in steps we ops
  end.

Lemma steps_ok we ops0 ops :
  encoded we ops0 -> ops_fit (win_len (source_window we)) (ops_len ops0) ops ->
  win_len (source_window we) + ops_len ops0 + ops_len ops < 2 ^ 64 ->
  0 <= win_len (source_window we) ->
  exists we', steps we ops = Ok we' /\ encoded we' (ops0 ++ ops) /\
    source_window we' = source_window we /\ emit_checksum we' = emit_checksum we.
Proof.
  revert we ops0. induction ops as [|o ops IH]; intros we ops0 He Ho Hlt Hw; simpl.
  - exists we. by rewrite app_nil_r.
  - destruct Ho as [Ho Hr]. pose proof (ops_fit_nonneg _ _ _ Hr).
    assert (ops_len (o :: ops) = op_len o + ops_len ops) as Hcons by done.
    destruct (step_ok we ops0 o He Ho) as (we1 & -> & He1 & Hs1 & Hc1); [lia..|]. cbn [bind].
    assert (ops_len (ops0 ++ [o]) = ops_len ops0 + op_len o) as Hsnoc
      by (rewrite ops_len_app; unfold ops_len at 2; simpl; lia).
    destruct (IH we1 (ops0 ++ [o])) as (we2 & -> & He2 & Hs2 & Hc2); rewrite ?Hs1, ?Hsnoc; auto;
      [lia|]. exists we2. rewrite <- app_assoc in He2. split_and!; auto; congruence.
Qed.

(** What a finished window holds. *)
Lemma finish_sections_ok `{Adler32} we ops td :
  encoded we ops ->
  exists l data inst addr c,
    finish_sections (E:=E) we td = Ok {|
      WindowSections.source_window := source_window we;
      WindowSections.target_len := ops_len ops;
      WindowSections.checksum := if emit_checksum we then compute_adler32 <$> td else None;
      WindowSections.data_section := data;
      WindowSections.inst_section := inst;
      WindowSections.addr_section := addr |} /\
    packs l inst /\
    emits (win_len (source_window we)) AddressCache.new 0 ops l data addr c.
Proof.
  intros He. destruct (ed_emits _ _ He) as (l & Hem & Hp). unfold finish_sections.
  destruct (flush_pending_ok we l Hp) as (inst & -> & Hl). cbn [bind]. simpl.
  rewrite (ed_len _ _ He). eexists l, _, inst, _, _. eauto.
Qed.
End Emission.

(** ** Assembly of a window *)

(** The header [assemble] computes. *)
Definition section_header (s : WindowSections.t) (del : Z) (elen : Z) : WindowHeader.t :=
  {| WindowHeader.win_ind :=
       (if WindowSections.source_window s is Some _ then VCD_SOURCE else 0) +
       (if WindowSections.checksum s is Some _ then VCD_ADLER32 else 0);
     WindowHeader.copy_window_len := win_len (WindowSections.source_window s);
     WindowHeader.copy_window_offset :=
       match WindowSections.source_window s with Some sw => sw_offset sw | None => 0 end;
     WindowHeader.enc_len := elen;
     WindowHeader.target_window_len := WindowSections.target_len s;
     WindowHeader.del_ind := del;
     WindowHeader.data_len := lenZ (WindowSections.data_section s);
     WindowHeader.inst_len := lenZ (WindowSections.inst_section s);
     WindowHeader.addr_len := lenZ (WindowSections.addr_section s);
     WindowHeader.adler32 := WindowSections.checksum s |}.

(** Sections a window can be made of. *)
Record sections_wf (s : WindowSections.t) (del : Z) : Prop := {
  sec_del : 0 <= del < 8;
  sec_source : forall sw, WindowSections.source_window s = Some sw ->
    is_u64 (sw_len sw) /\ is_u64 (sw_offset sw);
  sec_target : 0 <= WindowSections.target_len s <= HARD_MAX_WINSIZE;
  sec_checksum : forall c, WindowSections.checksum s = Some c -> is_u32 c;
  sec_len : lenZ (WindowSections.data_section s) + lenZ (WindowSections.inst_section s)
            + lenZ (WindowSections.addr_section s) < 2 ^ 63
}.

Lemma section_header_wf s del elen :
  sections_wf s del ->
  window_fields_wf (section_header s del elen) /\
  delta_length (section_header s del elen) < 2 ^ 64 /\
  WindowHeader.has_target (section_header s del elen) = false.
Proof.
  intros [Hd Hs Ht Hc Hl]. unfold HARD_MAX_WINSIZE in *.
  pose proof (lenZ_nonneg (WindowSections.data_section s)).
  pose proof (lenZ_nonneg (WindowSections.inst_section s)).
  pose proof (lenZ_nonneg (WindowSections.addr_section s)).
  split; [|split].
  - constructor; unfold WindowHeader.has_source, WindowHeader.has_target,
      WindowHeader.has_checksum, in_range; simpl; auto; try lia.
    + destruct (WindowSections.source_window s), (WindowSections.checksum s);
        unfold VCD_SOURCE, VCD_ADLER32; lia.
    + by destruct (WindowSections.source_window s), (WindowSections.checksum s).
    + destruct (WindowSections.source_window s) as [sw|]; simpl; [|lia].
      by destruct (Hs sw eq_refl) as [? _].
    + destruct (WindowSections.source_window s) as [sw|]; simpl; [|lia].
      by destruct (Hs sw eq_refl) as [_ ?].
    + by destruct (WindowSections.source_window s), (WindowSections.checksum s).
    + destruct (WindowSections.source_window s), (WindowSections.checksum s);
        (split; [try done; by intros []|try done; eauto]).
  - unfold delta_length, window_header_tail. simpl. autorewrite with lenz.
    pose proof (varint_length_le (WindowSections.target_len s)).
    pose proof (varint_length_le (lenZ (WindowSections.data_section s))).
    pose proof (varint_length_le (lenZ (WindowSections.inst_section s))).
    pose proof (varint_length_le (lenZ (WindowSections.addr_section s))).
    assert (lenZ match WindowSections.checksum s with Some c => to_be_bytes c | None => [] end <= 4)
      by (destruct (WindowSections.checksum s); done).
    unfold in_range in *. lia.
  - by destruct s as [[] ? []].
Qed.

(** A header has at most 76 bytes. *)
Lemma window_header_length h :
  window_fields_wf h -> is_u64 (WindowHeader.enc_len h) -> lenZ (window_header_bytes h) <= 76.
Proof.
  intros Hh He. unfold window_header_bytes, window_header_tail. autorewrite with lenz.
  assert (forall c : option Z, lenZ match c with Some c => to_be_bytes c | None => [] end <= 4)
    as Hc by (by intros []). specialize (Hc (WindowHeader.adler32 h)).
  assert (forall n, is_u64 n -> lenZ (varint n) <= 10) as Hv by (intros; by apply varint_length_le).
  pose proof (Hv _ (wh_copy_len _ Hh)). pose proof (Hv _ (wh_copy_off _ Hh)). pose proof (Hv _ He).
  pose proof (Hv _ (target_u64 _ Hh)). pose proof (Hv _ (wh_data _ Hh)). pose proof (Hv _ (wh_inst _ Hh)).
  pose proof (Hv _ (wh_addr _ Hh)). destruct (_ || _); autorewrite with lenz; lia.
Qed.

(** A window is its header, with [enc_len] filled in, and its sections. *)
Lemma assemble_ok {B : Build} {E} s del :
  sections_wf s del ->
  exists wh, wh = section_header s del (delta_length (section_header s del 0)) /\
    window_header_wf wh /\
    WindowSections.assemble (E:=E) s del
    = Ok (window_header_bytes wh ++ WindowSections.data_section s ++
          WindowSections.inst_section s ++ WindowSections.addr_section s).
Proof.
  intros Hs. eexists. split; [done|].
  set (n := delta_length (section_header s del 0)).
  destruct (section_header_wf s del 0 Hs) as (H0 & Hlt0 & _).
  destruct (section_header_wf s del n Hs) as (Hn & Hltn & _).
  assert (is_u64 n) by (by apply delta_length_u64).
  pose proof (fun E => compute_enc_len_ok (E:=E) _ Hn Hltn) as Hc.
  split; [split; [done|]; split; [done|apply Hc]|].
  unfold WindowSections.assemble.
  assert (forall n, WindowHeader.mk
    (match WindowSections.checksum s with
     | Some _ => Z.lor match WindowSections.source_window s with
                       | Some _ => Z.lor 0 VCD_SOURCE | None => 0 end VCD_ADLER32
     | None => match WindowSections.source_window s with
               | Some _ => Z.lor 0 VCD_SOURCE | None => 0 end end)
    (win_len (WindowSections.source_window s))
    match WindowSections.source_window s with Some sw => sw_offset sw | None => 0 end
    n (WindowSections.target_len s) del (lenZ (WindowSections.data_section s))
    (lenZ (WindowSections.inst_section s)) (lenZ (WindowSections.addr_section s))
    (WindowSections.checksum s) = section_header s del n) as Hwh.
  { intros k. unfold section_header. f_equal.
    by destruct (WindowSections.source_window s), (WindowSections.checksum s). }
  fold (win_len (WindowSections.source_window s)). rewrite !Hwh.
  rewrite compute_enc_len_ok by done. cbn [bind]. rewrite Hwh.
  rewrite window_header_encode_ok by done. cbn [bind]. by rewrite <- !app_assoc.
Qed.
