(* ===== verification/Source.v ===== *)
(** * Decoder errors and source providers ([src/src/vcdiff/decoder.rs], 24-122)

    The decoder's error type and its [SourceProvider] trait.  The trait is a
    class of operations; [SourceLaws] states what the decoder relies on, as a
    provider serves the bytes [contents].  The two implementations of the
    source, byte slices and [NoSource], are instances of both. *)

From stdpp Require Import base numbers list option.
From Stdlib Require Import ZArith Lia.
From S2P Require Import Prelude Varint.

Local Open Scope Z_scope.
Local Open Scope rust_scope.

(** The message of an [InvalidInput]; the numbers a message prints are left out. *)
Inductive invalid :=
  | BadInstructionSize
  | DataUnderflowRun
  | DataUnderflowAdd
  | AddressDecode
  | SpansBoundary
  | SourceUnderflow
  | TargetSizeMismatch
  | NoSourceProvided
  | NoCompressorId
  | DecompressionFailed.

Inductive DecodeError :=
  | Io (k : io_kind)
  | InvalidInput (m : invalid)
  | ChecksumMismatch (expected actual : Z)
  | UnsupportedFeature.

(** [read_source] returns the count, the caller's buffer and the provider. *)
Class SourceProvider (S : Type) := {
  read_source : S -> Z -> bytes -> result DecodeError (Z * bytes * S);
  source_len : S -> option Z;
  source_slice : S -> Z -> Z -> result DecodeError (option bytes)
}.

(** [l[off .. off + len]], for a range inside [l]. *)
Definition sub (l : bytes) (off len : Z) : bytes :=
  take (Z.to_nat len) (drop (Z.to_nat off) l).

Class SourceLaws (S : Type) `{SourceProvider S} (contents : S -> bytes) : Prop := {
  source_slice_spec s off len :
    0 <= off -> 0 <= len -> off + len < 2 ^ 64 ->
    exists o, source_slice s off len = Ok o /\
      forall l, o = Some l -> off + len <= lenZ (contents s) /\ l = sub (contents s) off len;
  read_source_spec s off buf :
    is_u64 off ->
    (exists e, read_source s off buf = Err e /\
       (lenZ buf = 0 \/ lenZ (contents s) < off + lenZ buf)) \/
    (exists n buf' s', read_source s off buf = Ok (n, buf', s') /\
       contents s' = contents s /\ lenZ buf' = lenZ buf /\
       n = Z.min (lenZ buf) (Z.max 0 (lenZ (contents s) - off)) /\
       take (Z.to_nat n) buf' = sub (contents s) off n)
}.

(** [impl SourceProvider for &[u8]]: [offset as usize] is the identity. *)
Section SliceSource.
Context {B : Build}.

Definition slice_read_source (self : bytes) (offset : Z) (buf : bytes)
    : result DecodeError (Z * bytes * bytes) :=
  if lenZ self <=? offset then Ok (0, buf, self)
  else
    let* available := slice_from self offset in
    let n := Z.min (lenZ buf) (lenZ available) in
    Ok (n, take (Z.to_nat n) available ++ drop (Z.to_nat n) buf, self).

Definition slice_source_len (self : bytes) : option Z := Some (lenZ self).

Definition slice_source_slice (self : bytes) (offset len : Z)
    : result DecodeError (option bytes) :=
  let* e := add_w 64 offset len in
  if e <=? lenZ self then
    let* s := slice self offset e in Ok (Some s)
  else Ok None.

#[export] Instance slice_source : SourceProvider bytes := {|
  read_source := slice_read_source;
  source_len := slice_source_len;
  source_slice := slice_source_slice
|}.
End SliceSource.

Inductive NoSource := no_source.

(** [source_slice] is the trait's default: never available. *)
#[export] Instance no_source_provider : SourceProvider NoSource := {|
  read_source _ _ _ := Err (InvalidInput NoSourceProvided);
  source_len _ := None;
  source_slice _ _ _ := Ok None
|}.

(** ** The instances satisfy the laws *)

Lemma sub_length l off len :
  0 <= off -> 0 <= len -> off + len <= lenZ l -> lenZ (sub l off len) = len.
Proof. unfold sub, lenZ. intros. rewrite length_take, length_drop. lia. Qed.

Lemma slice_ok {E} (l : bytes) a b :
  0 <= a <= b -> b <= lenZ l -> slice (E:=E) l a b = Ok (sub l a (b - a)).
Proof. intros. unfold slice, sub. by rewrite !(proj2 (Z.leb_le _ _)) by lia. Qed.

Lemma slice_source_laws {B : Build} : SourceLaws bytes (fun s => s).
Proof.
  constructor.
  - intros s off len Ho Hl Hs. simpl. unfold slice_source_slice.
    rewrite add_w_ok by (unfold in_range; lia). cbn [bind].
    destruct (Z.leb_spec (off + len) (lenZ s)).
    + rewrite slice_ok by lia. cbn [bind]. eexists. split; [done|]. intros l [= <-].
      split; [done|]. f_equal. lia.
    + eexists. by split.
  - intros s off buf Ho. right. simpl. unfold slice_read_source, in_range in *.
    pose proof (lenZ_nonneg buf). destruct (Z.leb_spec (lenZ s) off).
    + eexists 0, buf, s. split_and!; try done; lia.
    + unfold slice_from. rewrite slice_ok by lia. cbn [bind]. rewrite sub_length by lia.
      set (n := Z.min (lenZ buf) (lenZ s - off)). eexists n, _, s.
      assert (lenZ (take (Z.to_nat n) (sub s off (lenZ s - off))) = n) as Hn.
      { unfold lenZ. rewrite length_take. pose proof (sub_length s off (lenZ s - off)).
        unfold lenZ in *. lia. }
      split_and!; [done..| |lia|].
      * rewrite lenZ_app, Hn. unfold lenZ in *. rewrite length_drop. lia.
      * rewrite <- Hn at 1. rewrite lenZ_to_nat, take_app_length.
        unfold sub. rewrite take_take. f_equal. lia.
Qed.

Lemma no_source_laws : SourceLaws NoSource (fun _ => []).
Proof.
  constructor.
  - intros. exists None. by split.
  - intros s off buf Ho. left. eexists. split; [done|]. unfold in_range in Ho.
    pose proof (lenZ_nonneg buf). change (lenZ (@nil Z)) with 0. lia.
Qed.

#[export] Existing Instances slice_source_laws no_source_laws.
