(* ===== verification/Secondary.v ===== *)
(** * Secondary compression of sections ([src/src/compress/secondary.rs])

    The pluggable compressor of the DATA, INST and ADDR sections.  The [lzma_rs]
    and [flate2] crates are parameters ([Codecs]); [CodecLaws] states their
    documented behaviour, that decompression inverts compression.  The theorems:
    decompressing what [compress_sections] made gives the sections back under
    exactly the flags it set, no section grows, and which identifiers the decode
    side accepts. *)

From stdpp Require Import base numbers list option.
From Stdlib Require Import ZArith Lia.
From S2P Require Import Prelude Varint Header Source.

Local Open Scope Z_scope.
Local Open Scope rust_scope.

Definition VCD_ZLIB_ID : Z := 3.

Definition MIN_COMPRESS_SIZE : Z := 32.

(** ** Backends *)

(** [trait CompressBackend]. *)
Record CompressBackend := backend_ops {
  be_id : Z;
  be_compress : bytes -> result io_kind bytes;
  be_decompress : bytes -> result DecodeError bytes;
  be_should_compress : bytes -> bool
}.

(** The trait's default [should_compress]. *)
Definition default_should_compress (data : bytes) : bool := MIN_COMPRESS_SIZE <=? lenZ data.

(** The cargo features and the codecs of the external crates. *)
Class Codecs := {
  lzma_secondary : bool;
  zlib_secondary : bool;
  lzma_compress : bytes -> result io_kind bytes;
  lzma_decompress : bytes -> option bytes;
  zlib_compress : Z -> bytes -> result io_kind bytes;
  zlib_decompress : bytes -> option bytes
}.

Class CodecLaws `{Codecs} : Prop := {
  lzma_inverts d c : lzma_compress d = Ok c -> lzma_decompress c = Some d;
  zlib_inverts level d c : zlib_compress level d = Ok c -> zlib_decompress c = Some d
}.

Definition ok_or_failed (o : option bytes) : result DecodeError bytes :=
  match o with Some d => Ok d | None => Err (InvalidInput DecompressionFailed) end.

Definition LzmaBackend `{Codecs} : CompressBackend := {|
  be_id := VCD_LZMA_ID;
  be_compress := lzma_compress;
  be_decompress data := ok_or_failed (lzma_decompress data);
  be_should_compress := default_should_compress
|}.

Definition ZlibBackend `{Codecs} (level : Z) : CompressBackend := {|
  be_id := VCD_ZLIB_ID;
  be_compress := zlib_compress level;
  be_decompress data := ok_or_failed (zlib_decompress data);
  be_should_compress := default_should_compress
|}.

Definition ZlibBackend_default `{Codecs} : CompressBackend := ZlibBackend 6.

Definition NoCompression : CompressBackend := {|
  be_id := 0;
  be_compress data := Ok data;
  be_decompress data := Ok data;
  be_should_compress _ := false
|}.

(** ** Sections *)

Definition compress_section (backend : CompressBackend) (data : bytes) : result io_kind bytes :=
  if negb (be_should_compress backend data) then Ok data
  else
    let* compressed := be_compress backend data in
    if lenZ compressed <? lenZ data then Ok compressed else Ok data.

Definition decompress_section (backend : CompressBackend) (data : bytes)
    : result DecodeError bytes :=
  be_decompress backend data.

Definition compress_sections (backend : CompressBackend) (data inst addr : bytes)
    : result io_kind (bytes * bytes * bytes * Z) :=
  let del_ind := 0 in
  let* comp_data := compress_section backend data in
  let del_ind := if lenZ comp_data <? lenZ data then Z.lor del_ind VCD_DATACOMP else del_ind in
  let* comp_inst := compress_section backend inst in
  let del_ind := if lenZ comp_inst <? lenZ inst then Z.lor del_ind VCD_INSTCOMP else del_ind in
  let* comp_addr := compress_section backend addr in
  let del_ind := if lenZ comp_addr <? lenZ addr then Z.lor del_ind VCD_ADDRCOMP else del_ind in
  let final_data := if has del_ind VCD_DATACOMP then comp_data else data in
  let final_inst := if has del_ind VCD_INSTCOMP then comp_inst else inst in
  let final_addr := if has del_ind VCD_ADDRCOMP then comp_addr else addr in
  Ok (final_data, final_inst, final_addr, del_ind).

Definition backend_for_id `{Codecs} (secondary_id : option Z)
    : result DecodeError CompressBackend :=
  match secondary_id with
  | Some id =>
      if id =? VCD_LZMA_ID then
        if lzma_secondary then Ok LzmaBackend else Err UnsupportedFeature
      else if id =? VCD_ZLIB_ID then
        if zlib_secondary then Ok ZlibBackend_default else Err UnsupportedFeature
      else Err UnsupportedFeature
  | None => Err (InvalidInput NoCompressorId)
  end.

Definition decompress_sections `{Codecs} (data inst addr : bytes) (del_ind : Z)
    (secondary_id : option Z) : result DecodeError (bytes * bytes * bytes) :=
  if del_ind =? 0 then Ok (data, inst, addr)
  else
    let* backend := backend_for_id secondary_id in
    let* dec_data :=
      if has del_ind VCD_DATACOMP then decompress_section backend data else Ok data in
    let* dec_inst :=
      if has del_ind VCD_INSTCOMP then decompress_section backend inst else Ok inst in
    let* dec_addr :=
      if has del_ind VCD_ADDRCOMP then decompress_section backend addr else Ok addr in
    Ok (dec_data, dec_inst, dec_addr).

(** ** The encoder's choice *)

(** [Lzma] and [Zlib] exist when their features are on. *)
Inductive SecondaryCompression :=
  | NoSecondary
  | Lzma
  | Zlib (level : Z)
  | Custom (b : CompressBackend).

(** The wrapper of a shared backend forwards every method. *)
Definition ArcBackend (b : CompressBackend) : CompressBackend := {|
  be_id := be_id b;
  be_compress data := be_compress b data;
  be_decompress data := be_decompress b data;
  be_should_compress data := be_should_compress b data
|}.

Definition backend `{Codecs} (s : SecondaryCompression) : option CompressBackend :=
  match s with
  | NoSecondary => None
  | Lzma => Some LzmaBackend
  | Zlib level => Some (ZlibBackend level)
  | Custom b => Some (ArcBackend b)
  end.

Definition is_enabled (s : SecondaryCompression) : bool :=
  match s with NoSecondary => false | _ => true end.

(** ** Lemmas *)

(** [dec] inverts [enc]'s compression. *)
Definition inverts (enc dec : CompressBackend) : Prop :=
  forall d c, be_compress enc d = Ok c -> be_decompress dec c = Ok d.

(** Compression that never makes anything shorter is never used. *)
Definition never_shrinks (enc : CompressBackend) : Prop :=
  forall d c, be_compress enc d = Ok c -> lenZ d <= lenZ c.

(** The identifier [enc] writes to the header leads back to an inverse, or no
    section needs one. *)
Definition decodable `{Codecs} (enc : CompressBackend) : Prop :=
  (exists dec, backend_for_id (Some (be_id enc)) = Ok dec /\ inverts enc dec) \/ never_shrinks enc.

(** A compression choice the build's own decoder can undo. *)
Definition secondary_ok `{Codecs} (s : SecondaryCompression) : Prop :=
  match s with
  | NoSecondary => True
  | Lzma => lzma_secondary = true
  | Zlib _ => zlib_secondary = true
  | Custom b => is_u8 (be_id b) /\ decodable b
  end.

Lemma secondary_decodable `{CodecLaws} s b :
  secondary_ok s -> backend s = Some b -> is_u8 (be_id b) /\ decodable b.
Proof.
  destruct s as [| |level|b']; simpl; intros Hs [= <-]; [| |done].
  - split; [done|]. left. exists LzmaBackend. simpl. rewrite Hs. split; [done|].
    intros d c Hc. simpl in *. by rewrite (lzma_inverts d c Hc).
  - split; [done|]. left. exists ZlibBackend_default. simpl. rewrite Hs. split; [done|].
    intros d c Hc. simpl in *. by rewrite (zlib_inverts level d c Hc).
Qed.

(** A section shrinks by compression or is left alone. *)
Lemma compress_section_ok be d c :
  compress_section be d = Ok c ->
  (lenZ c < lenZ d /\ be_compress be d = Ok c) \/ c = d.
Proof.
  unfold compress_section. destruct (be_should_compress be d); simpl; [|by intros [= ->]; right].
  destruct (be_compress be d) as [c'| | |] eqn:Hc; try done. simpl.
  destruct (Z.ltb_spec (lenZ c') (lenZ d)); intros [= <-]; auto.
Qed.

(** The flags are the sections that shrank, and only those are replaced. *)
Lemma compress_sections_inv be data inst addr d i a del :
  compress_sections be data inst addr = Ok (d, i, a, del) ->
  0 <= del < 8 /\
  (has del VCD_DATACOMP = (lenZ d <? lenZ data) /\ compress_section be data = Ok d) /\
  (has del VCD_INSTCOMP = (lenZ i <? lenZ inst) /\ compress_section be inst = Ok i) /\
  (has del VCD_ADDRCOMP = (lenZ a <? lenZ addr) /\ compress_section be addr = Ok a).
Proof.
  unfold compress_sections. intros H.
  apply bind_ok_inv in H as (cd & Hd & H). apply bind_ok_inv in H as (ci & Hi & H).
  apply bind_ok_inv in H as (ca & Ha & H).
  pose proof (compress_section_ok _ _ _ Hd) as Hd'. pose proof (compress_section_ok _ _ _ Hi) as Hi'.
  pose proof (compress_section_ok _ _ _ Ha) as Ha'.
  destruct (Z.ltb_spec (lenZ cd) (lenZ data)), (Z.ltb_spec (lenZ ci) (lenZ inst)),
    (Z.ltb_spec (lenZ ca) (lenZ addr)); simpl in H; injection H as <- <- <- <-;
    repeat match goal with
    | H : lenZ ?c < lenZ ?d /\ _ \/ ?c = ?d, H' : lenZ ?d <= lenZ ?c |- _ =>
        destruct H as [[? ?]| ->]; [lia|]
    end;
    split_and!; try done; symmetry; rewrite ?Z.ltb_lt, ?Z.ltb_ge; lia.
Qed.

Lemma decompress_flag (enc dec : CompressBackend) (b : bool) d c :
  inverts enc dec -> compress_section enc d = Ok c -> b = (lenZ c <? lenZ d) ->
  (if b then decompress_section dec c else Ok c) = Ok d.
Proof.
  intros Hinv Hc ->. apply compress_section_ok in Hc as [[Hlt Hc]| ->].
  - rewrite (proj2 (Z.ltb_lt _ _)) by done. by apply Hinv.
  - by rewrite Z.ltb_irrefl.
Qed.

(** Such a backend leaves the sections and the flags alone. *)
Lemma never_compressed be data inst addr r :
  never_shrinks be -> compress_sections be data inst addr = Ok r -> r = (data, inst, addr, 0).
Proof.
  intros Hnever. assert (forall d c, compress_section be d = Ok c -> c = d) as Hkeep.
  { intros d c Hc. apply compress_section_ok in Hc as [[Hlt Hc]| ->]; [|done].
    specialize (Hnever d c Hc). lia. }
  unfold compress_sections. intros H.
  apply bind_ok_inv in H as (cd & Hd & H). apply bind_ok_inv in H as (ci & Hi & H).
  apply bind_ok_inv in H as (ca & Ha & H).
  apply Hkeep in Hd, Hi, Ha. subst. rewrite !Z.ltb_irrefl in H. by injection H as <-.
Qed.

Lemma decompress_compress `{Codecs} be data inst addr d i a del :
  decodable be -> compress_sections be data inst addr = Ok (d, i, a, del) ->
  decompress_sections d i a del (Some (be_id be)) = Ok (data, inst, addr).
Proof.
  intros [(dec & Hid & Hinv)|Hnever] H0; [|by apply (never_compressed be) in H0 as [= -> -> -> ->]].
  apply compress_sections_inv in H0
    as (Hdel & [Hd Hcd] & [Hi Hci] & [Ha Hca]).
  unfold decompress_sections. rewrite Hid. cbn [bind].
  rewrite (decompress_flag be dec _ data d Hinv Hcd Hd). cbn [bind].
  rewrite (decompress_flag be dec _ inst i Hinv Hci Hi). cbn [bind].
  rewrite (decompress_flag be dec _ addr a Hinv Hca Ha). cbn [bind].
  destruct (Z.eqb_spec del 0) as [->|]; [|done].
  apply compress_section_ok in Hcd as [[? _]| ->]; [by rewrite (proj2 (Z.ltb_lt _ _)) in Hd by done|].
  apply compress_section_ok in Hci as [[? _]| ->]; [by rewrite (proj2 (Z.ltb_lt _ _)) in Hi by done|].
  apply compress_section_ok in Hca as [[? _]| ->]; [by rewrite (proj2 (Z.ltb_lt _ _)) in Ha by done|].
  done.
Qed.

(** ** A concrete codec

    It replaces up to 255 leading zero bytes by their count; the laws hold of
    it, so they can be met. *)

Fixpoint strip_zeros (fuel : nat) (d : bytes) : Z * bytes :=
  match fuel, d with
  | S fuel, 0 :: d => let '(n, r) := strip_zeros fuel d in (n + 1, r)
  | _, _ => (0, d)
  end.

Definition zeros_compress (d : bytes) : result io_kind bytes :=
  let '(n, r) := strip_zeros 255 d in Ok (n :: r).

Definition zeros_decompress (c : bytes) : option bytes :=
  match c with
  | n :: r => Some (replicate (Z.to_nat n) 0 ++ r)
  | [] => None
  end.

Lemma strip_zeros_ok fuel d :
  let '(n, r) := strip_zeros fuel d in 0 <= n /\ replicate (Z.to_nat n) 0 ++ r = d.
Proof.
  revert d. induction fuel as [|fuel IH]; intros d; simpl; [done|].
  destruct d as [|[|p|p] d]; try done. specialize (IH d).
  destruct (strip_zeros fuel d) as [n r]. destruct IH as [Hn IH]. split; [lia|].
  rewrite Z2Nat.inj_add by lia. rewrite Nat.add_comm. simpl. by rewrite IH.
Qed.

Lemma zeros_inverts d c : zeros_compress d = Ok c -> zeros_decompress c = Some d.
Proof.
  unfold zeros_compress. pose proof (strip_zeros_ok 255 d) as H.
  destruct (strip_zeros 255 d) as [n r]. intros [= <-]. simpl. by destruct H as [_ ->].
Qed.

Definition zeros_codecs : Codecs := {|
  lzma_secondary := true;
  zlib_secondary := true;
  lzma_compress := zeros_compress;
  lzma_decompress := zeros_decompress;
  zlib_compress _ := zeros_compress;
  zlib_decompress := zeros_decompress
|}.

Lemma zeros_codec_laws : CodecLaws (H:=zeros_codecs).
Proof. constructor; [|intros level]; intros; by apply zeros_inverts. Qed.

(** ** Theorems *)

(** C30: secondary compression round trip.  For a compression choice whose
    features are compiled in (or a custom backend that the one its identifier
    selects inverts, or that never makes a section shorter), decompressing the
    sections [compress_sections] returned, with the flags it returned and the
    identifier the encoder writes to the file header, gives the original
    sections; no section grew, and a section's flag is set exactly when it
    shrank. *)
Theorem secondary_roundtrip `{CodecLaws} (s : SecondaryCompression) (be : CompressBackend)
    (data inst addr d i a : bytes) (del : Z) :
  secondary_ok s -> backend s = Some be ->
  compress_sections be data inst addr = Ok (d, i, a, del) ->
  decompress_sections d i a del (Some (be_id be)) = Ok (data, inst, addr) /\
  0 <= del < 8 /\
  lenZ d <= lenZ data /\ lenZ i <= lenZ inst /\ lenZ a <= lenZ addr /\
  has del VCD_DATACOMP = (lenZ d <? lenZ data) /\
  has del VCD_INSTCOMP = (lenZ i <? lenZ inst) /\
  has del VCD_ADDRCOMP = (lenZ a <? lenZ addr).
Proof.
  intros Hs Hb Hc. destruct (secondary_decodable s be Hs Hb) as [_ Hdec].
  split; [by eapply decompress_compress|].
  apply compress_sections_inv in Hc as (? & [? Hd] & [? Hi] & [? Ha]).
  apply compress_section_ok in Hd, Hi, Ha.
  assert (forall (x y : bytes), (lenZ x < lenZ y /\ be_compress be y = Ok x) \/ x = y ->
            lenZ x <= lenZ y) as Hle by (intros x y [[? _]| ->]; lia).
  split_and!; auto; lia.
Qed.

Lemma secondary_roundtrip_witness :
  decompress_sections (H:=zeros_codecs) [40; 7] [1; 2] [] 1 (Some VCD_LZMA_ID)
  = Ok (replicate 40 0 ++ [7], [1; 2], []) /\
  0 <= 1 < 8 /\ lenZ [40; 7] <= lenZ (replicate 40 0 ++ [7]) /\
  lenZ [1; 2] <= lenZ [1; 2] /\ lenZ (@nil Z) <= lenZ (@nil Z) /\
  has 1 VCD_DATACOMP = (lenZ [40; 7] <? lenZ (replicate 40 0 ++ [7])) /\
  has 1 VCD_INSTCOMP = (lenZ [1; 2] <? lenZ [1; 2]) /\
  has 1 VCD_ADDRCOMP = (lenZ (@nil Z) <? lenZ (@nil Z)).
Proof.
  apply (secondary_roundtrip (H:=zeros_codecs) (H0:=zeros_codec_laws) Lzma
           (LzmaBackend (H:=zeros_codecs))); vm_compute; reflexivity.
Defined.
