(* ===== verification/WindowDecoder.v ===== *)
(** * The window and stream decoders ([src/src/vcdiff/decoder.rs])

    Execution of a window's instructions over the DATA, INST and ADDR sections
    and a source provider, the stream decoder that reads headers and sections
    and loops over windows, and the instruction iterator used for inspection.
    An error drops the state the Rust code leaves behind its [&mut] arguments:
    every caller in the crate propagates it.  The opcode loop takes fuel, one
    unit per INST byte; each iteration consumes at least one byte. *)

From stdpp Require Import base numbers list option.
From Stdlib Require Import ZArith Lia.
From S2P Require Import Prelude Varint AddrCache CodeTable Semantics Header WindowEncoder.
From S2P Require Import Source Secondary.

Local Open Scope Z_scope.
Local Open Scope rust_scope.

(** The sections of a window, borrowed. *)
Record Sections := sections { sec_data : bytes; sec_inst : bytes; sec_addr : bytes }.

(** What the instruction loop mutates. *)
Record DecodeState (S : Type) := dstate {
  inst_pos : Z;
  data_pos : Z;
  addr_pos : Z;
  acache : AddressCache.t;
  target_pos : Z;
  output : bytes;
  source : S;
  copy_buf : bytes
}.

Arguments dstate {S}.
Arguments inst_pos {S}.
Arguments data_pos {S}.
Arguments addr_pos {S}.
Arguments acache {S}.
Arguments target_pos {S}.
Arguments output {S}.
Arguments source {S}.
Arguments copy_buf {S}.

Section Window.
Context {B : Build} {S : Type} `{SourceProvider S}.

(** The size of a half-instruction and the INST position after it. *)
Definition resolve_size (inst : bytes) (pos table_size : Z) : result DecodeError (Z * Z) :=
  if table_size =? 0 then
    let* rest := slice_from inst pos in
    let* (val, consumed) :=
      map_err (fun _ => InvalidInput BadInstructionSize) (read_u32 rest) in
    let* pos := add_w 64 pos consumed in
    Ok (val, pos)
  else Ok (table_size, pos).

Definition execute_run (data : bytes) (size : Z) (st : DecodeState S)
    : result DecodeError (DecodeState S) :=
  if lenZ data <=? data_pos st then Err (InvalidInput DataUnderflowRun)
  else
    let* byte := index data (data_pos st) in
    let* dp := add_w 64 (data_pos st) 1 in
    let* n := add_w 64 (lenZ (output st)) size in
    let* _ := alloc n in
    let out := resize (output st) n byte in
    let* tp := add_w 64 (target_pos st) size in
    Ok (dstate (inst_pos st) dp (addr_pos st) (acache st) tp out (source st) (copy_buf st)).

Definition execute_add (data : bytes) (size : Z) (st : DecodeState S)
    : result DecodeError (DecodeState S) :=
  let* e := add_w 64 (data_pos st) size in
  if lenZ data <? e then Err (InvalidInput DataUnderflowAdd)
  else
    let* s := slice data (data_pos st) e in
    let out := output st ++ s in
    let* dp := add_w 64 (data_pos st) size in
    let* tp := add_w 64 (target_pos st) size in
    Ok (dstate (inst_pos st) dp (addr_pos st) (acache st) tp out (source st) (copy_buf st)).

(** A COPY from the source: the zero-copy path, or the reusable buffer. *)
Definition copy_from_source (src_offset size : Z) (st : DecodeState S)
    : result DecodeError (bytes * S * bytes) :=
  let* o := source_slice (source st) src_offset size in
  match o with
  | Some s => Ok (output st ++ s, source st, copy_buf st)
  | None =>
      let buf := resize (copy_buf st) size 0 in
      let* (n, buf, src) := read_source (source st) src_offset buf in
      if n <? size then Err (InvalidInput SourceUnderflow)
      else
        let* s := slice buf 0 size in
        Ok (output st ++ s, src, buf)
  end.

(** A COPY from the target: bulk when the ranges do not overlap, byte by byte
    when they do. *)
Definition copy_from_target {E} (tgt_offset size : Z) (out : bytes) : result E bytes :=
  let* e := add_w 64 tgt_offset size in
  if e <=? lenZ out then
    let* s := slice out tgt_offset e in
    Ok (out ++ s)
  else
    for_in (range 0 size) (fun i out =>
      let* p := add_w 64 tgt_offset i in
      let* byte := index out p in
      Ok (out ++ [byte])) out.

Definition execute_copy (itype : Z) (addr_section : bytes)
    (copy_window_len copy_window_offset base_offset : Z) (size : Z) (st : DecodeState S)
    : result DecodeError (DecodeState S) :=
  let* mode := sub_w 8 itype XD3_CPY in
  let* here := add_w 64 copy_window_len (target_pos st) in
  let* rest := slice_from addr_section (addr_pos st) in
  let* (addr, consumed, c) :=
    map_err (fun _ => InvalidInput AddressDecode) (AddressCache.decode (acache st) mode rest here) in
  let* ap := add_w 64 (addr_pos st) consumed in
  let* spans :=
    if addr <? copy_window_len then
      let* e := add_w 64 addr size in Ok (copy_window_len <? e)
    else Ok false in
  if spans : bool then Err (InvalidInput SpansBoundary)
  else
    let* (out, src, buf) :=
      if addr <? copy_window_len then
        let* src_offset := add_w 64 copy_window_offset addr in
        copy_from_source src_offset size st
      else
        let* off := sub_w 64 addr copy_window_len in
        let* tgt_offset := add_w 64 base_offset off in
        let* out := copy_from_target tgt_offset size (output st) in
        Ok (out, source st, copy_buf st) in
    let* tp := add_w 64 (target_pos st) size in
    Ok (dstate (inst_pos st) (data_pos st) ap c tp out src buf).

(** The [match itype] of [execute_half_instruction]. *)
Definition execute_sized (itype : Z) (sec : Sections)
    (copy_window_len copy_window_offset base_offset : Z) (size : Z) (st : DecodeState S)
    : result DecodeError (DecodeState S) :=
  if itype =? XD3_RUN then execute_run (sec_data sec) size st
  else if itype =? XD3_ADD then execute_add (sec_data sec) size st
  else execute_copy itype (sec_addr sec) copy_window_len copy_window_offset base_offset size st.

Definition set_inst_pos (st : DecodeState S) (p : Z) : DecodeState S :=
  dstate p (data_pos st) (addr_pos st) (acache st) (target_pos st)
         (output st) (source st) (copy_buf st).

Definition execute_half_instruction (itype table_size : Z) (sec : Sections)
    (copy_window_len copy_window_offset base_offset : Z) (st : DecodeState S)
    : result DecodeError (DecodeState S) :=
  let* (size, pos) := resolve_size (sec_inst sec) (inst_pos st) table_size in
  execute_sized itype sec copy_window_len copy_window_offset base_offset size
    (set_inst_pos st pos).

(** [while inst_pos < inst_section.len()] *)
Fixpoint decode_loop (fuel : nat) (sec : Sections)
    (copy_window_len copy_window_offset base_offset : Z) (st : DecodeState S)
    : result DecodeError (DecodeState S) :=
  match fuel with
  | O => Diverge
  | Datatypes.S fuel =>
      if inst_pos st <? lenZ (sec_inst sec) then
        let* opcode := index (sec_inst sec) (inst_pos st) in
        let* p := add_w 64 (inst_pos st) 1 in
        let st := set_inst_pos st p in
        let* e := index default_code_table opcode in
        let* st :=
          if negb (type1 e =? XD3_NOOP) then
            execute_half_instruction (type1 e) (size1 e) sec
              copy_window_len copy_window_offset base_offset st
          else Ok st in
        let* st :=
          if negb (type2 e =? XD3_NOOP) then
            execute_half_instruction (type2 e) (size2 e) sec
              copy_window_len copy_window_offset base_offset st
          else Ok st in
        decode_loop fuel sec copy_window_len copy_window_offset base_offset st
      else Ok st
  end.

Context `{Adler32}.

(** Returns the output, the source provider, the copy buffer and the cache. *)
Definition decode_window_with_cache (header : WindowHeader.t) (sec : Sections)
    (src : S) (verify_checksum : bool) (buf out : bytes) (c : AddressCache.t)
    : result DecodeError (bytes * S * bytes * AddressCache.t) :=
  let target_len := WindowHeader.target_window_len header in
  let base_offset := lenZ out in
  let* n := add_w 64 (lenZ out) target_len in
  let* _ := alloc n in
  let c := AddressCache.init c in
  let* st := decode_loop (Datatypes.S (length (sec_inst sec))) sec
    (WindowHeader.copy_window_len header) (WindowHeader.copy_window_offset header)
    base_offset (dstate 0 0 0 c 0 out src buf) in
  let* written := sub_w 64 (lenZ (output st)) base_offset in
  if negb (written =? target_len) then Err (InvalidInput TargetSizeMismatch)
  else
    let* _ :=
      match WindowHeader.adler32 header with
      | Some expected =>
          if verify_checksum then
            let* w := slice_from (output st) base_offset in
            let actual := compute_adler32 w in
            if negb (actual =? expected)
            then Err (ChecksumMismatch expected actual) else Ok tt
          else Ok tt
      | None => Ok tt
      end in
    Ok (output st, source st, copy_buf st, acache st).

Definition decode_window_into (header : WindowHeader.t) (sec : Sections)
    (src : S) (verify_checksum : bool) (buf out : bytes)
    : result DecodeError (bytes * S * bytes) :=
  let* (out, src, buf, _) :=
    decode_window_with_cache header sec src verify_checksum buf out AddressCache.new in
  Ok (out, src, buf).

Definition decode_window (header : WindowHeader.t) (data inst addr : bytes)
    (src : S) (verify_checksum : bool) (buf : bytes)
    : result DecodeError (bytes * S * bytes) :=
  let* _ := alloc (WindowHeader.target_window_len header) in
  decode_window_into header (sections data inst addr) src verify_checksum buf [].
End Window.

(** ** The stream decoder *)

Module StreamDecoder.
(** The reader is the bytes not yet read. *)
Record t := mk {
  reader : bytes;
  file_header : option FileHeader.t;
  verify_checksum : bool;
  secondary_id : option Z;
  data_buf : bytes;
  inst_buf : bytes;
  addr_buf : bytes;
  copy_buf : bytes;
  acache : AddressCache.t
}.

Definition new (reader : bytes) (verify_checksum : bool) : t :=
  mk reader None verify_checksum None [] [] [] [] AddressCache.new.

Section Ops.
Context {B : Build} {S : Type} `{SourceProvider S} `{Adler32} `{Codecs}.

(** [if self.file_header.is_none()], shared by [read_header] and [decode_window]. *)
Definition ensure_header (d : t) : result DecodeError t :=
  match file_header d with
  | Some _ => Ok d
  | None =>
    let* (hdr, r) := map_err Io (FileHeader.decode (reader d)) in
    Ok (mk r (Some hdr) (verify_checksum d) (FileHeader.secondary_id hdr)
           (data_buf d) (inst_buf d) (addr_buf d) (copy_buf d) (acache d))
  end.

Definition read_header (d : t) : result DecodeError (FileHeader.t * t) :=
  let* d := ensure_header d in
  match file_header d with Some h => Ok (h, d) | None => Panic end.

(** [buf.resize(len, 0); reader.read_exact(&mut buf)] *)
Definition read_section (len : Z) (r : bytes) : result DecodeError (bytes * bytes) :=
  let* _ := alloc len in
  map_err Io (read_exact len r).

(** [false] when there are no more windows. *)
Definition decode_window (d : t) (src : S) (out : bytes)
  : result DecodeError (bool * t * S * bytes) :=
  let* d := ensure_header d in
  let* (owh, r) := map_err Io (WindowHeader.decode (reader d)) in
  match owh with
  | None =>
    Ok (false, mk r (file_header d) (verify_checksum d) (secondary_id d)
                  (data_buf d) (inst_buf d) (addr_buf d) (copy_buf d) (acache d), src, out)
  | Some wh =>
    if has (WindowHeader.win_ind wh) VCD_TARGET then Err UnsupportedFeature
    else
      let* (dbuf, r) := read_section (WindowHeader.data_len wh) r in
      let* (ibuf, r) := read_section (WindowHeader.inst_len wh) r in
      let* (abuf, r) := read_section (WindowHeader.addr_len wh) r in
      let* (data, inst, addr) :=
        if negb (WindowHeader.del_ind wh =? 0)
        then decompress_sections dbuf ibuf abuf (WindowHeader.del_ind wh) (secondary_id d)
        else Ok (dbuf, ibuf, abuf) in
      let* (out, src, buf, c) :=
        decode_window_with_cache wh (sections data inst addr) src (verify_checksum d)
          (copy_buf d) out (acache d) in
      Ok (true, mk r (file_header d) (verify_checksum d) (secondary_id d)
                   dbuf ibuf abuf buf c, src, out)
  end.

(** [while self.decode_window(source, output)? {}]: a window takes at least
    one byte of the reader. *)
Fixpoint decode_windows (fuel : nat) (d : t) (src : S) (out : bytes)
  : result DecodeError (t * S * bytes) :=
  match fuel with
  | O => Diverge
  | Datatypes.S fuel =>
    let* (more, d, src, out) := decode_window d src out in
    if more : bool then decode_windows fuel d src out else Ok (d, src, out)
  end.

Definition decode_all (d : t) (src : S) (out : bytes)
  : result DecodeError (t * S * bytes) :=
  decode_windows (Datatypes.S (length (reader d))) d src out.
End Ops.
End StreamDecoder.

Definition decode_memory {B : Build} `{Adler32} `{Codecs} (delta src : bytes)
    : result DecodeError bytes :=
  let decoder := StreamDecoder.new delta true in
  let* (_, _, out) := StreamDecoder.decode_all decoder src [] in
  Ok out.

(** ** The instruction iterator *)

Module InstructionIterator.
Record t := mk {
  inst_data : bytes;
  addr_data : bytes;
  it_inst_pos : Z;
  it_addr_pos : Z;
  it_acache : AddressCache.t;
  it_copy_window_len : Z;
  it_target_pos : Z;
  pending_second : option (Z * Z)
}.

Definition new (inst_section addr_section : bytes) (copy_window_len : Z) : t :=
  mk inst_section addr_section 0 0 AddressCache.new copy_window_len 0 None.

Section Ops.
Context {B : Build}.

Definition resolve_half (it : t) (itype table_size : Z)
  : result DecodeError (option Instruction * t) :=
  if itype =? XD3_NOOP then Ok (None, it)
  else
    let* (size, ip) := resolve_size (inst_data it) (it_inst_pos it) table_size in
    let* (inst, ap, c) :=
      if itype =? XD3_RUN then Ok (Run size, it_addr_pos it, it_acache it)
      else if itype =? XD3_ADD then Ok (Add size, it_addr_pos it, it_acache it)
      else
        let* mode := sub_w 8 itype XD3_CPY in
        let* here := add_w 64 (it_copy_window_len it) (it_target_pos it) in
        let* rest := slice_from (addr_data it) (it_addr_pos it) in
        let* (addr, consumed, c) :=
          map_err (fun _ => InvalidInput AddressDecode)
            (AddressCache.decode (it_acache it) mode rest here) in
        let* ap := add_w 64 (it_addr_pos it) consumed in
        Ok (Copy size addr mode, ap, c) in
    let* tp := add_w 64 (it_target_pos it) size in
    Ok (Some inst, mk (inst_data it) (addr_data it) ip ap c (it_copy_window_len it) tp
                      (pending_second it)).

Definition set_pending_second (it : t) (p : option (Z * Z)) : t :=
  mk (inst_data it) (addr_data it) (it_inst_pos it) (it_addr_pos it) (it_acache it)
   (it_copy_window_len it) (it_target_pos it) p.

(** [Iterator::next]; its calls to itself on a NOOP half take fuel. *)
Fixpoint next (fuel : nat) (it : t) : result DecodeError (option (Instruction * t)) :=
  match fuel with
  | O => Diverge
  | Datatypes.S fuel =>
    match pending_second it with
    | Some (type2, size2) =>
        let* (o, it) := resolve_half (set_pending_second it None) type2 size2 in
        match o with Some inst => Ok (Some (inst, it)) | None => next fuel it end
    | None =>
        if lenZ (inst_data it) <=? it_inst_pos it then Ok None
        else
          let* opcode := index (inst_data it) (it_inst_pos it) in
          let* p := add_w 64 (it_inst_pos it) 1 in
          let it := mk (inst_data it) (addr_data it) p (it_addr_pos it) (it_acache it)
                       (it_copy_window_len it) (it_target_pos it) (pending_second it) in
          let* e := index default_code_table opcode in
          let it := if negb (type2 e =? XD3_NOOP)
                    then set_pending_second it (Some (type2 e, size2 e)) else it in
          let* (o, it) := resolve_half it (type1 e) (size1 e) in
          match o with Some inst => Ok (Some (inst, it)) | None => next fuel it end
    end
  end.
End Ops.
End InstructionIterator.
