(* ===== verification/WindowRoundtrip.v ===== *)
(** * Decoding a window inverts encoding it

    The window decoder run on sections that denote a sequence of operations
    (in the sense of [packs] and [emits]) computes what [exec_ops] specifies,
    and reports [SpansBoundary] when it specifies nothing.
    Together with the encoder's lemmas this is the refinement of the abstract
    semantics by the two concrete components, for any lawful source provider. *)

From stdpp Require Import base numbers list option.
From Stdlib Require Import ZArith Lia.
From S2P Require Import Prelude Varint AddrCache CodeTable Semantics Header WindowEncoder.
From S2P Require Import Source Secondary WindowDecoder.

Local Open Scope Z_scope.
Local Open Scope rust_scope.

(** A [u64] addition that does not overflow. *)
Ltac u64_step := rewrite add_w_ok by (unfold in_range; lia); cbn [bind].

(** ** Target copies *)

Lemma resize_grow (l : bytes) n x :
  0 <= n -> resize l (lenZ l + n) x = l ++ replicate (Z.to_nat n) x.
Proof.
  intros Hn. unfold resize, lenZ. rewrite take_ge by lia. do 2 f_equal. lia.
Qed.

Lemma range_cons a b : a < b -> range a b = a :: range (a + 1) b.
Proof.
  intros. unfold range. rewrite seqZ_cons by lia. f_equal. f_equal; lia.
Qed.

Lemma range_nil a b : b <= a -> range a b = [].
Proof. intros. unfold range. apply seqZ_nil. lia. Qed.

Lemma copy_loop_ok {B : Build} {E} out0 (size i : Z) n off out out' :
  Z.of_nat n = size - i -> 0 <= i -> lenZ out0 + Z.of_nat off + size < 2 ^ 64 ->
  copy_within n (off + Z.to_nat i) out = Some out' ->
  for_in (E:=E) (range i size) (fun i out =>
    let* p := add_w 64 (lenZ out0 + Z.of_nat off) i in
    let* byte := index out p in
    Ok (out ++ [byte])) (out0 ++ out) = Ok (out0 ++ out').
Proof.
  revert i out. induction n as [|n IH]; intros i out Hn Hi Hb; simpl.
  - intros [= <-]. by rewrite range_nil by lia.
  - rewrite range_cons by lia. destruct (out !! _) as [b|] eqn:Hbyte; [|done]. intros Hc. simpl.
    pose proof (lenZ_nonneg out0). u64_step.
    rewrite (index_lookup _ _ b).
    + cbn [bind]. rewrite <- app_assoc. apply IH; [lia..|].
      rewrite <- Hc. f_equal. lia.
    + lia.
    + rewrite lookup_app_r by (unfold lenZ; lia). rewrite <- Hbyte. f_equal. unfold lenZ. lia.
Qed.

(** The decoder's two paths both copy as the semantics does. *)
Lemma copy_from_target_ok {B : Build} {E} out0 out off size out' :
  0 <= off < lenZ out -> 0 <= size -> lenZ out0 + lenZ out + size < 2 ^ 64 ->
  copy_within (Z.to_nat size) (Z.to_nat off) out = Some out' ->
  copy_from_target (E:=E) (lenZ out0 + off) size (out0 ++ out) = Ok (out0 ++ out').
Proof.
  intros Ho Hs Hb Hc. unfold copy_from_target. pose proof (lenZ_nonneg out0).
  u64_step. rewrite lenZ_app.
  destruct (Z.leb_spec (lenZ out0 + off + size) (lenZ out0 + lenZ out)).
  - rewrite copy_within_bulk in Hc by (unfold lenZ in *; lia). injection Hc as <-.
    rewrite slice_ok by (rewrite ?lenZ_app; lia). cbn [bind]. unfold sub.
    rewrite drop_app_ge by (unfold lenZ; lia). rewrite <- app_assoc.
    do 4 f_equal; unfold lenZ; [lia|f_equal; lia].
  - replace (lenZ out0 + off) with (lenZ out0 + Z.of_nat (Z.to_nat off)) by lia.
    apply (copy_loop_ok out0 size 0 (Z.to_nat size)); [lia..|].
    by rewrite Nat.add_0_r.
Qed.

(** ** One instruction *)

Section Simulation.
Context {B : Build} {S : Type} `{SourceProvider S} {contents : S -> bytes}
      `{!SourceLaws S contents}.

(** The sections, the output before this window, the whole source and the
    copy window in it. *)
Context (sec : Sections) (out0 src : bytes) (srclen off : Z).

Hypothesis window_ok : 0 <= srclen /\ 0 <= off /\
  (0 < srclen -> off + srclen <= lenZ src) /\ lenZ src < 2 ^ 64.
Hypothesis sections_u64 : lenZ (sec_data sec) < 2 ^ 64 /\ lenZ (sec_inst sec) < 2 ^ 64 /\
  lenZ (sec_addr sec) < 2 ^ 64.

Let window := sub src off srclen.

(** The decoder stands after [out], with [d] and [a] left in the sections. *)
Record at_point (st : DecodeState S) (c : AddressCache.t) (out d a : bytes) : Prop := {
  ap_cache : acache st = c;
  ap_target : target_pos st = lenZ out;
  ap_output : output st = out0 ++ out;
  ap_source : contents (source st) = src;
  ap_data : exists pre, sec_data sec = pre ++ d /\ data_pos st = lenZ pre;
  ap_addr : exists pre, sec_addr sec = pre ++ a /\ addr_pos st = lenZ pre
}.

(** The output still to come fits. *)
Definition room (out : bytes) (n : Z) : Prop :=
  lenZ out0 + lenZ out + n < 2 ^ 63 /\ srclen + lenZ out + n < 2 ^ 64.

Lemma window_length : lenZ window = srclen.
Proof.
  subst window. destruct window_ok as (? & ? & Hs & _).
  destruct (Z.eq_dec srclen 0) as [->|]; [done|]. apply sub_length; lia.
Qed.

Lemma advance_pre (l pre d rest : bytes) :
  l = pre ++ d ++ rest -> exists pre', l = pre' ++ rest /\ lenZ pre + lenZ d = lenZ pre'.
Proof. intros ->. exists (pre ++ d). by rewrite app_assoc, lenZ_app. Qed.

Lemma execute_add_ok st c out d data addr :
  at_point st c out (d ++ data) addr -> room out (lenZ d) ->
  exists st', execute_add (sec_data sec) (lenZ d) st = Ok st' /\
    inst_pos st' = inst_pos st /\ at_point st' c (out ++ d) data addr.
Proof.
  intros [Hc Ht Ho Hs (pre & Hd & Hdp) Ha] [Hr1 Hr2]. unfold execute_add.
  pose proof (lenZ_nonneg pre). pose proof (lenZ_nonneg d). pose proof (lenZ_nonneg data).
  pose proof (lenZ_nonneg out). pose proof (lenZ_nonneg out0).
  destruct sections_u64 as [Hu _]. rewrite Hd in *. rewrite !lenZ_app in *. rewrite Hdp, Ht.
  u64_step.
  rewrite (proj2 (Z.ltb_ge _ _)) by lia. rewrite slice_app. cbn [bind].
  u64_step.
  eexists. split; [done|]. split; [done|]. constructor; simpl; auto.
  - by rewrite lenZ_app.
  - by rewrite Ho, app_assoc.
  - by apply (advance_pre _ pre d data).
Qed.

Lemma execute_run_ok st c out len b data addr :
  at_point st c out (b :: data) addr -> room out len -> 0 <= len ->
  exists st', execute_run (sec_data sec) len st = Ok st' /\
    inst_pos st' = inst_pos st /\
    at_point st' c (out ++ replicate (Z.to_nat len) b) data addr.
Proof.
  intros [Hc Ht Ho Hs (pre & Hd & Hdp) Ha] [Hr1 Hr2] Hl. unfold execute_run.
  pose proof (lenZ_nonneg pre). pose proof (lenZ_nonneg data).
  pose proof (lenZ_nonneg out). pose proof (lenZ_nonneg out0).
  destruct sections_u64 as [Hu _]. rewrite Hd in *. rewrite !lenZ_app, lenZ_cons in *.
  rewrite Hdp, Ht, Ho. rewrite (proj2 (Z.leb_gt _ _)) by lia. rewrite index_app. cbn [bind].
  rewrite lenZ_app. u64_step. u64_step. unfold alloc. rewrite (proj2 (Z.leb_le _ _)) by lia. cbn [bind].
  u64_step.
  eexists. split; [done|]. split; [done|]. constructor; simpl; auto.
  - rewrite lenZ_app, lenZ_replicate. lia.
  - by rewrite <- lenZ_app, resize_grow, app_assoc by lia.
  - by apply (advance_pre _ pre [b] data).
Qed.

(** A source COPY gives the bytes of the copy window on either path. *)
Lemma copy_from_source_ok st out addr len :
  contents (source st) = src -> output st = out -> 0 <= addr -> 1 <= len ->
  addr + len <= srclen ->
  exists s' buf', copy_from_source (off + addr) len st
    = Ok (out ++ sub window addr len, s', buf') /\ contents s' = src.
Proof.
  intros Hs Ho Ha Hl Hle. destruct window_ok as (? & ? & Hsrc & Hu).
  assert (sub window addr len = sub src (off + addr) len) as ->.
  { subst window. unfold sub. rewrite skipn_firstn_comm, take_take, drop_drop.
    f_equal; [lia|f_equal; lia]. }
  unfold copy_from_source. rewrite Ho.
  destruct (source_slice_spec (source st) (off + addr) len) as (o & -> & Hsl); [lia..|].
  cbn [bind]. destruct o as [l|].
  - destruct (Hsl l eq_refl) as [_ ->]. rewrite Hs. eauto.
  - assert (lenZ (resize (copy_buf st) len 0) = len) as Hlen.
    { unfold resize, lenZ. rewrite length_app, length_take, length_replicate. lia. }
    destruct (read_source_spec (source st) (off + addr) (resize (copy_buf st) len 0))
      as [(e & _ & Hbad)|(n & buf' & s' & -> & Hs' & Hb & Hn & Htake)];
      [unfold in_range; lia|rewrite Hs, Hlen in Hbad; lia|].
    cbn [bind]. rewrite Hs, Hlen in *.
    assert (n = len) as -> by lia. rewrite Z.ltb_irrefl.
    rewrite slice_ok by lia. cbn [bind]. exists s', buf'. split; [|congruence].
    unfold sub at 1. by rewrite drop_0, Z.sub_0_r, Htake.
Qed.

Lemma execute_copy_ok st c out len a mode bs data addr out' :
  at_point st c out data (bs ++ addr) -> room out len ->
  op_ok srclen (lenZ out) (OpCopy len a) -> 0 <= mode < CPY_MODES ->
  (forall rest, AddressCache.decode c mode (bs ++ rest) (srclen + lenZ out)
                = Ok (a, lenZ bs, upd c a)) ->
  exec_op window out (OpCopy len a) = Some out' -> lenZ out' = lenZ out + len ->
  exists st', execute_copy (XD3_CPY + mode) (sec_addr sec) srclen off (lenZ out0) len st = Ok st' /\
    inst_pos st' = inst_pos st /\ at_point st' (upd c a) out' data addr.
Proof.
  intros [Hc Ht Ho Hs Hd (pre & Ha & Hap)] [Hr1 Hr2] [Hl [Hlt Hsp]] Hm Hdec Hex Hlen'.
  simpl in Hl. unfold execute_copy, CPY_MODES, NEAR_MODES, SAME_MODES, XD3_CPY in *.
  pose proof (lenZ_nonneg pre). pose proof (lenZ_nonneg addr). pose proof (lenZ_nonneg bs).
  pose proof (lenZ_nonneg out). pose proof (lenZ_nonneg out0).
  pose proof window_length as Hwl. pose proof window_ok as (? & ? & ? & ?).
  destruct sections_u64 as (_ & _ & Hu). rewrite Ha in *. rewrite !lenZ_app in *.
  rewrite sub_w_ok by (unfold in_range; lia). cbn [bind].
  replace (3 + mode - 3) with mode by lia. rewrite Ht, Hap, Hc.
  u64_step.
  rewrite slice_from_app. cbn [bind]. rewrite Hdec. cbn [map_err bind].
  u64_step.
  simpl in Hex. rewrite Hwl, (proj2 (Z.ltb_ge a 0)) in Hex by lia.
  destruct (Z.ltb_spec a srclen) as [Hsrc|Htgt].
  - u64_step.
    rewrite (proj2 (Z.ltb_ge srclen _)) by lia.
    rewrite (proj2 (Z.leb_le _ _)) in Hex by lia. injection Hex as <-.
    u64_step.
    destruct (copy_from_source_ok st _ a len Hs eq_refl) as (s' & buf' & -> & Hs'); [lia..|].
    cbn [bind]. u64_step.
    eexists. split; [done|]. split; [done|]. constructor; simpl; auto.
    + by rewrite Ho, <- app_assoc.
    + by apply (advance_pre _ pre bs addr).
  - cbn [bind]. rewrite sub_w_ok by (unfold in_range; lia). cbn [bind].
    u64_step. rewrite Ho.
    erewrite copy_from_target_ok; [|lia..|exact Hex]. cbn [bind].
    u64_step.
    eexists. split; [done|]. split; [done|]. constructor; simpl; auto.
    by apply (advance_pre _ pre bs addr).
Qed.

(** A COPY across the end of the copy window is refused. *)
Lemma execute_copy_spans st c out len a mode bs data addr :
  at_point st c out data (bs ++ addr) -> room out len ->
  op_fits srclen (lenZ out) (OpCopy len a) -> a < srclen < a + len -> 0 <= mode < CPY_MODES ->
  (forall rest, AddressCache.decode c mode (bs ++ rest) (srclen + lenZ out)
                = Ok (a, lenZ bs, upd c a)) ->
  execute_copy (XD3_CPY + mode) (sec_addr sec) srclen off (lenZ out0) len st
  = Err (InvalidInput SpansBoundary).
Proof.
  intros [Hc Ht Ho Hs Hd (pre & Ha & Hap)] [Hr1 Hr2] [Hl Hlt] Hsp Hm Hdec.
  simpl in Hl. unfold execute_copy, CPY_MODES, NEAR_MODES, SAME_MODES, XD3_CPY in *.
  pose proof (lenZ_nonneg pre). pose proof (lenZ_nonneg addr). pose proof (lenZ_nonneg bs).
  pose proof (lenZ_nonneg out). pose proof (lenZ_nonneg out0). pose proof window_ok as (? & ? & ? & ?).
  destruct sections_u64 as (_ & _ & Hu). rewrite Ha in *. rewrite !lenZ_app in *.
  rewrite sub_w_ok by (unfold in_range; lia). cbn [bind].
  replace (3 + mode - 3) with mode by lia. rewrite Ht, Hap, Hc. u64_step.
  rewrite slice_from_app. cbn [bind]. rewrite Hdec. cbn [map_err bind]. u64_step.
  rewrite (proj2 (Z.ltb_lt a _)) by lia. u64_step. by rewrite (proj2 (Z.ltb_lt _ _)) by lia.
Qed.

(** ** The instruction stream *)

(** What is left to decode: the operations [ops], packed as [l], [d] and [a]. *)
Record pending_ops (st : DecodeState S) (c c' : AddressCache.t) (out : bytes)
    (ops : list op) (l : list InstructionInfo) (d a : bytes) : Prop := {
  po_point : at_point st c out d a;
  po_emits : emits srclen c (lenZ out) ops l d a c';
  po_fits : ops_fit srclen (lenZ out) ops;
  po_room : room out (ops_len ops)
}.

Definition run_sized (i : InstructionInfo) (st : DecodeState S) :=
  execute_sized (itype i) sec srclen off (lenZ out0) (size i) st.

(** The instruction [i] has been executed, [l] is left; or [i] was refused and
    the operations have no meaning. *)
Definition stepped (i : InstructionInfo) (st : DecodeState S) (c' : AddressCache.t)
    (out : bytes) (ops : list op) (l : list InstructionInfo) : Prop :=
  (exists st' c1 out1 ops1 d1 a1,
    run_sized i st = Ok st' /\ inst_pos st' = inst_pos st /\
    pending_ops st' c1 c' out1 ops1 l d1 a1 /\
    lenZ out1 + ops_len ops1 = lenZ out + ops_len ops /\
    exec_ops window out ops = exec_ops window out1 ops1) \/
  (run_sized i st = Err (InvalidInput SpansBoundary) /\ exec_ops window out ops = None).

Lemma step_done st st' i c1 c' out s o ops l d a :
  run_sized i st = Ok st' -> inst_pos st' = inst_pos st ->
  at_point st' c1 (out ++ s) d a ->
  exec_op window out o = Some (out ++ s) -> lenZ s = op_len o ->
  emits srclen c1 (lenZ out + op_len o) ops l d a c' ->
  ops_fit srclen (lenZ out + op_len o) ops -> room out (op_len o + ops_len ops) ->
  stepped i st c' out (o :: ops) l.
Proof.
  intros Hrun Hi Hp Hex Hs He Hok [Hr1 Hr2].
  assert (lenZ (out ++ s) = lenZ out + op_len o) as Hl by (rewrite lenZ_app; lia).
  left. exists st', c1, (out ++ s), ops, d, a. split_and!; auto.
  - constructor; rewrite ?Hl; auto. split; rewrite Hl; lia.
  - rewrite Hl. unfold ops_len. simpl. lia.
  - simpl. by rewrite Hex.
Qed.

Lemma step_sized st c c' out ops i l d a :
  pending_ops st c c' out ops (i :: l) d a -> stepped i st c' out ops l.
Proof.
  intros [Hp He Hok [Hr1 Hr2]].
  inversion He as [|? ? dat ops' ? data ? ? He'|? ? len b ops' ? data ? ? He'
    |? ? len ad mode bs ops' ? ? addr ? Hm Hb Hdec He']; subst;
    simpl in Hok; destruct Hok as [Ho Hok];
    pose proof (ops_fit_nonneg _ _ _ Hok) as Hn; pose proof (proj1 Ho) as Hlen;
    unfold ops_len in Hr1, Hr2; simpl in Hlen, Hr1, Hr2;
    fold (ops_len ops') in Hr1, Hr2.
  - destruct (execute_add_ok st c out dat data a Hp) as (st' & Hrun & Hi & Hp');
      [split; lia|].
    by eapply step_done; [..|split; simpl; lia].
  - destruct (execute_run_ok st c out len b data a Hp) as (st' & Hrun & Hi & Hp');
      [split; lia|lia|].
    eapply step_done; try done; try (split; simpl; lia).
    simpl. rewrite lenZ_replicate. lia.
  - assert (forall r, execute_copy (XD3_CPY + mode) (sec_addr sec) srclen off (lenZ out0) len st = r ->
      run_sized (info (XD3_CPY + mode) len) st = r) as Hsized.
    { intros r <-. unfold run_sized, execute_sized. simpl. unfold XD3_RUN, XD3_ADD, XD3_CPY in *.
      by rewrite !(proj2 (Z.eqb_neq _ _)) by lia. }
    destruct (decide (ad < srclen < ad + len)) as [Hsp|Hns].
    + right. split.
      * apply Hsized. apply (execute_copy_spans st c out len ad mode bs d addr); (done || split; lia).
      * destruct Ho as [_ Ha]. cbn [exec_ops exec_op]. rewrite window_length.
        by rewrite (proj2 (Z.ltb_ge _ _)), (proj2 (Z.ltb_lt _ _)), (proj2 (Z.leb_gt _ _)) by lia.
    + assert (op_ok srclen (lenZ out) (OpCopy len ad)) as Hok'
        by (destruct Ho as [? ?]; split; [done|]; split; [done|lia]).
      rewrite <- window_length in Hok'.
      destruct (exec_op_ok _ _ _ Hok') as (s & Hex & Hs). rewrite window_length in Hok'.
      destruct (execute_copy_ok st c out len ad mode bs d addr (out ++ s) Hp)
        as (st' & Hrun & Hi & Hp'); [split; lia|done..|rewrite lenZ_app; simpl in Hs; lia|].
      eapply step_done; try done; try (split; simpl; lia). by apply Hsized.
Qed.

Lemma pending_ops_inst st c c' out ops l d a p :
  pending_ops st c c' out ops l d a -> pending_ops (set_inst_pos st p) c c' out ops l d a.
Proof. intros [[]]. constructor; [constructor|..]; done. Qed.

(** A half-instruction whose size is in the opcode, or follows as a varint. *)
Lemma half_inline st i :
  size i <> 0 ->
  execute_half_instruction (itype i) (size i) sec srclen off (lenZ out0) st
  = run_sized i (set_inst_pos st (inst_pos st)).
Proof.
  intros Hs. unfold execute_half_instruction, resolve_size.
  by rewrite (proj2 (Z.eqb_neq _ _)).
Qed.

Lemma half_varint st i pre rest :
  is_u32 (size i) -> sec_inst sec = pre ++ varint (size i) ++ rest -> inst_pos st = lenZ pre ->
  execute_half_instruction (itype i) 0 sec srclen off (lenZ out0) st
  = run_sized i (set_inst_pos st (lenZ (pre ++ varint (size i)))).
Proof.
  intros Hs Hi Hp. unfold execute_half_instruction, resolve_size. rewrite Z.eqb_refl.
  destruct sections_u64 as (_ & Hu & _). rewrite Hi, !lenZ_app in Hu.
  pose proof (lenZ_nonneg pre). pose proof (lenZ_nonneg (varint (size i))).
  pose proof (lenZ_nonneg rest).
  rewrite Hi, Hp, slice_from_app. cbn [bind]. rewrite read_u32_varint by done.
  cbn [map_err bind]. u64_step. by rewrite lenZ_app.
Qed.

Lemma info_not_noop i : info_ok i -> negb (itype i =? XD3_NOOP) = true.
Proof.
  intros [Ht _]. unfold XD3_NOOP, XD3_ADD, XD3_RUN, XD3_CPY in *.
  apply negb_true_iff, Z.eqb_neq. lia.
Qed.

(** The half-instruction of a single opcode [cd] at [pre], up to the bytes [bs]
    that follow its size. *)
Lemma half_single st i cd s bs pre :
  info_ok i -> rfc_entry cd = entry (itype i) s XD3_NOOP 0 -> s = 0 \/ s = size i ->
  sec_inst sec = pre ++ cd :: size_bytes cd i ++ bs ->
  exists pre', execute_half_instruction (itype i) s sec srclen off (lenZ out0)
      (set_inst_pos st (lenZ pre + 1)) = run_sized i (set_inst_pos st (lenZ pre')) /\
    sec_inst sec = pre' ++ bs.
Proof.
  intros [_ Hsz] He Hs Hsec.
  assert (lenZ pre + 1 = lenZ (pre ++ [cd])) as Hp1 by (rewrite lenZ_app; done).
  unfold size_bytes in Hsec. rewrite He in Hsec. simpl in Hsec.
  destruct (Z.eqb_spec s 0) as [->|Hne].
  - exists ((pre ++ [cd]) ++ varint (size i)). rewrite <- !app_assoc. split; [|done].
    rewrite (half_varint _ i (pre ++ [cd]) bs); rewrite <- ?app_assoc; try done.
    unfold in_range. lia.
  - destruct Hs as [->| ->]; [done|]. rewrite half_inline by lia.
    exists (pre ++ [cd]). rewrite <- app_assoc, <- Hp1. done.
Qed.

(** The loop has run over the operations, or was refused for lack of a meaning. *)
Definition looped (r : result DecodeError (DecodeState S)) (c' : AddressCache.t) (out : bytes)
    (ops : list op) : Prop :=
  match exec_ops window out ops with
  | Some out' => exists st', r = Ok st' /\ at_point st' c' out' [] [] /\ lenZ out' = lenZ out + ops_len ops
  | None => r = Err (InvalidInput SpansBoundary)
  end.

Lemma looped_step r c' out ops out1 ops1 :
  lenZ out1 + ops_len ops1 = lenZ out + ops_len ops ->
  exec_ops window out ops = exec_ops window out1 ops1 -> looped r c' out1 ops1 -> looped r c' out ops.
Proof. intros Hl Hex. unfold looped. by rewrite Hex, Hl. Qed.

Lemma decode_loop_ok l inst :
  packs l inst -> forall fuel st c c' out ops d a pre,
  (length inst < fuel)%nat -> sec_inst sec = pre ++ inst -> inst_pos st = lenZ pre ->
  pending_ops st c c' out ops l d a ->
  looped (decode_loop fuel sec srclen off (lenZ out0) st) c' out ops.
Proof.
  induction 1 as [|i cd l bs Hi [Hcd (s & He & Hs)] Hl IH|p i cd l bs Hp Hi [Hcd He] Hl IH];
    intros [|fuel] st c c' out ops d a pre Hf Hsec Hpos Hops; try (simpl in Hf; lia).
  - destruct Hops as [Hp He _ _]. simpl. rewrite Hpos, Hsec, app_nil_r, Z.ltb_irrefl.
    inversion He; subst. exists st. split_and!; auto. unfold ops_len. simpl. lia.
  - destruct sections_u64 as (_ & Hu & _).
    simpl. rewrite Hpos. rewrite Hsec in Hu |- *. rewrite !lenZ_app, lenZ_cons in *.
    pose proof (lenZ_nonneg pre). pose proof (lenZ_nonneg (size_bytes cd i ++ bs)).
    rewrite (proj2 (Z.ltb_lt _ _)) by lia. rewrite index_app. cbn [bind]. u64_step.
    rewrite table_index by done. cbn [bind]. rewrite He. cbn [type1 size1 type2 size2].
    rewrite info_not_noop by done. change (negb (XD3_NOOP =? XD3_NOOP)) with false.
    destruct (half_single st i cd s bs pre Hi He Hs Hsec) as (pre' & -> & Hpre').
    destruct (step_sized (set_inst_pos st (lenZ pre')) c c' out ops i l d a)
      as [(st1 & c1 & out1 & ops1 & d1 & a1 & -> & Hip & Hops1 & Hlen & Hex)|[-> Hnone]];
      [by apply pending_ops_inst| |unfold looped; by rewrite Hnone]. cbn [bind].
    eapply looped_step; [done|done|]. apply (IH fuel st1 c1 c' out1 ops1 d1 a1 pre'); auto.
    simpl in Hf. rewrite length_app in Hf. lia.
  - destruct sections_u64 as (_ & Hu & _).
    simpl. rewrite Hpos. rewrite Hsec in Hu |- *. rewrite !lenZ_app, lenZ_cons in *.
    pose proof (lenZ_nonneg pre). pose proof (lenZ_nonneg bs).
    rewrite (proj2 (Z.ltb_lt _ _)) by lia. rewrite index_app. cbn [bind]. u64_step.
    rewrite table_index by done. cbn [bind]. rewrite He. cbn [type1 size1 type2 size2].
    rewrite !info_not_noop by done. rewrite half_inline by (destruct Hp; lia).
    edestruct (step_sized (set_inst_pos (set_inst_pos st (lenZ pre + 1)) (lenZ pre + 1)) c c' out
      ops p (i :: l) d a) as [(st1 & c1 & out1 & ops1 & d1 & a1 & Hr1 & Hip & Hops1 & Hlen & Hex)|[Hr1 Hnone]];
      [by do 2 apply pending_ops_inst| |cbn [inst_pos set_inst_pos] in *; rewrite Hr1; unfold looped; by rewrite Hnone].
    cbn [inst_pos set_inst_pos] in *. rewrite Hr1. cbn [bind].
    eapply looped_step; [done|done|]. rewrite half_inline by (destruct Hi; lia).
    destruct (step_sized (set_inst_pos st1 (inst_pos st1)) c1 c' out1 ops1 i l d1 a1)
      as [(st2 & c2 & out2 & ops2 & d2 & a2 & -> & Hip2 & Hops2 & Hlen2 & Hex2)|[-> Hnone]];
      [by apply pending_ops_inst| |unfold looped; by rewrite Hnone]. cbn [bind].
    eapply looped_step; [done|done|]. apply (IH fuel st2 c2 c' out2 ops2 d2 a2 (pre ++ [cd])); auto.
    + simpl in Hf. lia.
    + by rewrite <- app_assoc.
    + rewrite Hip2. cbn [inst_pos set_inst_pos]. rewrite Hip, lenZ_app. done.
Qed.
End Simulation.

(** ** A whole window *)

(** A cache of the default sizes, in whatever state the last window left it. *)
Definition reusable (c : AddressCache.t) : Prop := cache_wf c /\ default_sizes c.

Lemma new_reusable : reusable AddressCache.new.
Proof. split; [apply new_wf|done]. Qed.

Lemma init_reusable c : reusable c -> AddressCache.init c = AddressCache.new.
Proof. intros [Hc [Hn Hs]]. rewrite init_eq, Hn, Hs by done. done. Qed.

Lemma emits_reusable srclen c pos ops l data addr c' :
  emits srclen c pos ops l data addr c' -> 0 <= srclen -> 0 <= pos ->
  ops_fit srclen pos ops -> srclen + pos + ops_len ops < 2 ^ 64 ->
  reusable c -> reusable c'.
Proof.
  intros He Hs. unfold ops_len.
  induction He as [|c pos d ops l data addr c' _ IH|c pos len b ops l data addr c' _ IH
    |c pos len a mode bs ops l data addr c' _ _ _ _ IH];
    simpl; [done|..]; intros Hp [[Hl Ho] Hok] Hlt Hc; simpl in Hl.
  - apply IH; auto; lia.
  - apply IH; auto; lia.
  - pose proof (ops_fit_nonneg _ _ _ Hok) as Hn. unfold ops_len in Hn.
    apply IH; auto; try lia. destruct Hc as [Hc [Hn1 Hs1]].
    split; [|done]. apply upd_wf; [unfold in_range; lia|done].
Qed.

Section WindowOk.
Context {B : Build} {S : Type} `{SourceProvider S} {contents : S -> bytes}
      `{!SourceLaws S contents} `{Adler32}.

(** The window of the source that [h] selects. *)
Definition copy_window (h : WindowHeader.t) (src : bytes) : bytes :=
  sub src (WindowHeader.copy_window_offset h) (WindowHeader.copy_window_len h).

Definition window_inside (h : WindowHeader.t) (src : bytes) : Prop :=
  0 <= WindowHeader.copy_window_len h /\ 0 <= WindowHeader.copy_window_offset h /\
  (0 < WindowHeader.copy_window_len h ->
   WindowHeader.copy_window_offset h + WindowHeader.copy_window_len h <= lenZ src) /\
  lenZ src < 2 ^ 64.

(** The error over [x] when the window's checksum is to be verified and is not
    that of [x]. *)
Definition checksum_error (h : WindowHeader.t) (verify : bool) (x : bytes) : option DecodeError :=
  match WindowHeader.adler32 h with
  | Some k =>
      if verify && negb (compute_adler32 x =? k) then Some (ChecksumMismatch k (compute_adler32 x)) else None
  | None => None
  end.

(** A window whose sections denote [ops] decodes to what [ops] mean; it is
    refused when they mean nothing, or not what the checksum is of. *)
Lemma decode_window_meaning h sec s verify buf out0 c ops l c' :
  window_inside h (contents s) ->
  lenZ (sec_data sec) < 2 ^ 64 -> lenZ (sec_inst sec) < 2 ^ 64 -> lenZ (sec_addr sec) < 2 ^ 64 ->
  reusable c -> packs l (sec_inst sec) ->
  emits (WindowHeader.copy_window_len h) AddressCache.new 0 ops l (sec_data sec) (sec_addr sec) c' ->
  ops_fit (WindowHeader.copy_window_len h) 0 ops ->
  lenZ out0 + ops_len ops < 2 ^ 63 -> WindowHeader.copy_window_len h + ops_len ops < 2 ^ 64 ->
  WindowHeader.target_window_len h = ops_len ops ->
  match exec_ops (copy_window h (contents s)) [] ops with
  | Some x =>
      match checksum_error h verify x with
      | Some e => decode_window_with_cache h sec s verify buf out0 c = Err e
      | None =>
          exists s' buf', decode_window_with_cache h sec s verify buf out0 c = Ok (out0 ++ x, s', buf', c') /\
            contents s' = contents s /\ reusable c'
      end
  | None => decode_window_with_cache h sec s verify buf out0 c = Err (InvalidInput SpansBoundary)
  end.
Proof.
  intros Hwin Hd Hi Ha Hc Hp He Hok Hlt Hlt2 Htl.
  pose proof (ops_fit_nonneg _ _ _ Hok). pose proof (lenZ_nonneg out0).
  assert (reusable c') as Hc' by (eapply emits_reusable; [exact He|apply Hwin|lia|done|lia|apply new_reusable]).
  assert (looped (contents:=contents) sec out0 (contents s) (WindowHeader.copy_window_len h) (WindowHeader.copy_window_offset h)
    (decode_loop (Datatypes.S (length (sec_inst sec))) sec (WindowHeader.copy_window_len h)
      (WindowHeader.copy_window_offset h) (lenZ out0) (dstate 0 0 0 AddressCache.new 0 out0 s buf)) c' [] ops) as Hloop.
  { apply (decode_loop_ok sec out0 (contents s) _ _ Hwin (conj Hd (conj Hi Ha)) l (sec_inst sec) Hp) with
      (c := AddressCache.new) (d := sec_data sec) (a := sec_addr sec) (pre := []); [lia|done|done|].
    constructor; auto.
    - constructor; simpl; auto; [by rewrite app_nil_r|by exists []|by exists []].
    - split; change (lenZ (@nil Z)) with 0; lia. }
  unfold looped in Hloop. change (lenZ (@nil Z)) with 0 in Hloop.
  unfold copy_window, decode_window_with_cache. rewrite Htl, init_reusable by done. u64_step.
  unfold alloc. rewrite (proj2 (Z.leb_le _ _)) by lia. cbn [bind].
  destruct (exec_ops _ [] ops) as [x|]; [|by rewrite Hloop].
  destruct Hloop as (st & -> & [Hac Ht Ho Hs _ _] & Hl'). cbn [bind].
  rewrite Ho, lenZ_app, sub_w_ok by (unfold in_range; lia). cbn [bind].
  rewrite (proj2 (Z.eqb_eq _ _)) by lia. cbn [negb]. rewrite slice_from_app.
  unfold checksum_error. subst c'.
  destruct (WindowHeader.adler32 h) as [k|]; [|by exists (source st), (copy_buf st)].
  destruct verify; [|by exists (source st), (copy_buf st)]. cbn [bind andb].
  destruct (compute_adler32 x =? k); cbn [negb bind]; [by exists (source st), (copy_buf st)|done].
Qed.

End WindowOk.
