(* ===== verification/StreamRoundtrip.v ===== *)
(** * Decoding a stream inverts encoding it

    Windows of bytes as the stream decoder sees them: what it means for the
    bytes of a window to decode to a piece of the target ([decodes_to]), that
    assembled windows do, with or without secondary compression, and that the
    decoder's loop over a file header and such windows returns their pieces. *)

From stdpp Require Import base numbers list option.
From Stdlib Require Import ZArith Lia.
From S2P Require Import Prelude Varint AddrCache CodeTable Semantics Header WindowEncoder.
From S2P Require Import Source Secondary WindowDecoder WindowRoundtrip.

Local Open Scope Z_scope.
Local Open Scope rust_scope.

Section Stream.
Context {B : Build} {S : Type} `{SourceProvider S} {contents : S -> bytes}
      `{!SourceLaws S contents} `{Adler32} `{Codecs}.

(** A decoder past its file header, at the bytes [r], with clean buffers. *)
Definition ready (d : StreamDecoder.t) (fh : FileHeader.t) (verify : bool) (r : bytes) : Prop :=
  StreamDecoder.file_header d = Some fh /\
  StreamDecoder.secondary_id d = FileHeader.secondary_id fh /\
  StreamDecoder.verify_checksum d = verify /\
  StreamDecoder.reader d = r /\
  reusable (StreamDecoder.acache d).

(** The bytes [w] are a window that decodes to [t] over the source [src]. *)
Definition decodes_to (fh : FileHeader.t) (verify : bool) (src w t : bytes) : Prop :=
  w <> [] /\ forall d s out rest,
    ready d fh verify (w ++ rest) -> contents s = src -> lenZ out + lenZ t < 2 ^ 63 ->
    exists d' s', StreamDecoder.decode_window d s out = Ok (true, d', s', out ++ t) /\
      ready d' fh verify rest /\ contents s' = src.

Lemma read_section_app l rest :
  lenZ l < 2 ^ 63 -> StreamDecoder.read_section (lenZ l) (l ++ rest) = Ok (l, rest).
Proof.
  intros Hl. unfold StreamDecoder.read_section, alloc.
  rewrite (proj2 (Z.leb_le _ _)) by lia. cbn [bind]. by rewrite read_exact_app.
Qed.

(** A decoder at a window reads its header and its sections, and decodes them. *)
Lemma window_reads fh verify wh d i a sec dec s out rest :
  window_header_wf wh -> WindowHeader.has_target wh = false ->
  WindowHeader.data_len wh = lenZ d -> WindowHeader.inst_len wh = lenZ i ->
  WindowHeader.addr_len wh = lenZ a ->
  lenZ d < 2 ^ 63 -> lenZ i < 2 ^ 63 -> lenZ a < 2 ^ 63 ->
  decompress_sections d i a (WindowHeader.del_ind wh) (FileHeader.secondary_id fh)
    = Ok (sec_data sec, sec_inst sec, sec_addr sec) ->
  ready dec fh verify ((window_header_bytes wh ++ d ++ i ++ a) ++ rest) ->
  exists next, StreamDecoder.decode_window dec s out
      = (let* (out', s', b, c) := decode_window_with_cache wh sec s verify (StreamDecoder.copy_buf dec) out
           (StreamDecoder.acache dec) in Ok (true, next b c, s', out')) /\
    forall b c, reusable c -> ready (next b c) fh verify rest.
Proof.
  intros Hwh Ht Hd Hi Ha Hld Hli Hla Hdec (Hfh & Hsid & Hv & Hr & Hc).
  unfold StreamDecoder.decode_window, StreamDecoder.ensure_header. rewrite Hfh. cbn [bind].
  rewrite Hr, <- !app_assoc, window_header_decode_ok by done. cbn [map_err bind].
  unfold WindowHeader.has_target in Ht. rewrite Ht, Hd, Hi, Ha.
  do 3 (rewrite read_section_app by done; cbn [bind]).
  assert ((if negb (WindowHeader.del_ind wh =? 0)
           then decompress_sections d i a (WindowHeader.del_ind wh) (StreamDecoder.secondary_id dec)
           else Ok (d, i, a)) = Ok (sec_data sec, sec_inst sec, sec_addr sec)) as ->.
  { rewrite Hsid. destruct (Z.eqb_spec (WindowHeader.del_ind wh) 0) as [E0|]; [|done].
    simpl. unfold decompress_sections in Hdec. by rewrite E0 in Hdec. }
  cbn [bind]. rewrite Hv, Hsid, Hfh. destruct sec as [sd si sa].
  eexists (fun b c => _). split; [reflexivity|]. intros b c Hcr. unfold ready. simpl. auto 10.
Qed.

(** A window that decodes with its checksum verified decodes without. *)
Lemma decode_with_cache_unverified h sec s buf out c x :
  decode_window_with_cache h sec s true buf out c = Ok x ->
  decode_window_with_cache h sec s false buf out c = Ok x.
Proof.
  unfold decode_window_with_cache. intros Hx.
  apply bind_ok_inv in Hx as (n & -> & Hx). cbn [bind].
  apply bind_ok_inv in Hx as (u & -> & Hx). cbn [bind].
  apply bind_ok_inv in Hx as (st & -> & Hx). cbn [bind].
  apply bind_ok_inv in Hx as (k & -> & Hx). cbn [bind].
  destruct (negb _); [done|]. apply bind_ok_inv in Hx as (v & _ & Hx).
  by destruct (WindowHeader.adler32 h).
Qed.

Lemma decodes_unverified fh src w t : decodes_to fh true src w t -> decodes_to fh false src w t.
Proof.
  intros [Hne Hw]. split; [done|]. intros [r fh' v sid db ib ab cb c] s out rest Hd Hs Hl.
  destruct Hd as (Hfh & Hsid & Hv & Hr & Hc). simpl in *. subst.
  destruct (Hw (StreamDecoder.mk (w ++ rest) (Some fh) true (FileHeader.secondary_id fh) db ib ab cb c)
    s out rest) as (d' & s' & Hdec & Hrd & Hs'); [done|done|done|].
  revert Hdec Hrd. unfold StreamDecoder.decode_window. simpl.
  destruct (map_err Io (WindowHeader.decode (w ++ rest))) as [[[wh|] r1]| | |]; try done. simpl.
  destruct (has _ VCD_TARGET); [done|]. intros Hdec Hrd.
  apply bind_ok_inv in Hdec as ([dbuf r2] & -> & Hdec). cbn [bind].
  apply bind_ok_inv in Hdec as ([ibuf r3] & -> & Hdec). cbn [bind].
  apply bind_ok_inv in Hdec as ([abuf r4] & -> & Hdec). cbn [bind].
  apply bind_ok_inv in Hdec as ([[data inst] addr] & -> & Hdec). cbn [bind].
  apply bind_ok_inv in Hdec as ([[[o s1] b1] c1] & Hcache & Hdec).
  apply decode_with_cache_unverified in Hcache. rewrite Hcache. cbn [bind].
  injection Hdec as <- -> ->. eexists _, s'. split; [done|]. split; [|done].
  destruct Hrd as (? & ? & _ & ? & ?). by split_and!.
Qed.

(** ** The loop over windows *)

Lemma decode_windows_ok fh verify src ws ts :
  Forall2 (decodes_to fh verify src) ws ts ->
  forall fuel d s out,
  (length ws < fuel)%nat -> ready d fh verify (concat ws) -> contents s = src ->
  lenZ out + lenZ (concat ts) < 2 ^ 63 ->
  exists d' s', StreamDecoder.decode_windows fuel d s out = Ok (d', s', out ++ concat ts) /\
    ready d' fh verify [] /\ contents s' = src.
Proof.
  induction 1 as [|w t ws ts [Hne Hw] Hws IH]; intros [|fuel] d s out Hf Hd Hs Hl;
    try (simpl in Hf; lia); simpl.
  - destruct d as [r fh' v sid db ib ab cb c]. destruct Hd as (Hfh & Hsid & Hv & Hr & Hc).
    simpl in *. subst. unfold StreamDecoder.decode_window. simpl.
    eexists _, s. rewrite app_nil_r. split; [done|]. unfold ready. simpl. auto 10.
  - simpl in Hl. rewrite lenZ_app in Hl. pose proof (lenZ_nonneg (concat ts)).
    destruct (Hw d s out (concat ws)) as (d1 & s1 & -> & Hd1 & Hs1); [done|done|lia|].
    cbn [bind]. destruct (IH fuel d1 s1 (out ++ t)) as (d2 & s2 & -> & Hd2 & Hs2); auto.
    + simpl in Hf. lia.
    + rewrite lenZ_app. lia.
    + exists d2, s2. by rewrite <- app_assoc.
Qed.

Lemma windows_count fh verify src ws ts :
  Forall2 (decodes_to fh verify src) ws ts -> (length ws <= length (concat ws))%nat.
Proof.
  induction 1 as [|w t ws ts [Hne _] _ IH]; simpl; [done|]. rewrite length_app.
  destruct w; [done|]. simpl. lia.
Qed.

Definition after_header (fh : FileHeader.t) (verify : bool) (r : bytes) : StreamDecoder.t :=
  StreamDecoder.mk r (Some fh) verify (FileHeader.secondary_id fh) [] [] [] [] AddressCache.new.

Lemma ready_after_header fh verify r : ready (after_header fh verify r) fh verify r.
Proof. unfold ready. split_and!; try done; apply new_reusable. Qed.

(** The first window reads the file header before its own. *)
Lemma decode_window_fresh fh verify r s out :
  file_header_wf fh ->
  StreamDecoder.decode_window (StreamDecoder.new (file_header_bytes fh ++ r) verify) s out
  = StreamDecoder.decode_window (after_header fh verify r) s out.
Proof.
  intros Hfh. unfold StreamDecoder.decode_window, StreamDecoder.ensure_header, StreamDecoder.new.
  cbn [StreamDecoder.file_header StreamDecoder.reader].
  by rewrite file_header_decode_ok.
Qed.

(** A file header followed by windows decodes to their pieces. *)
Lemma decode_all_ok fh verify src ws ts s :
  file_header_wf fh -> Forall2 (decodes_to fh verify src) ws ts -> contents s = src ->
  lenZ (concat ts) < 2 ^ 63 ->
  exists d' s', StreamDecoder.decode_all
      (StreamDecoder.new (file_header_bytes fh ++ concat ws) verify) s []
    = Ok (d', s', concat ts) /\ contents s' = src.
Proof.
  intros Hfh Hws Hs Hl. unfold StreamDecoder.decode_all.
  pose proof (windows_count _ _ _ _ _ Hws) as Hcount.
  destruct (decode_windows_ok fh verify src ws ts Hws
    (Datatypes.S (length (file_header_bytes fh ++ concat ws))) (after_header fh verify (concat ws)) s [])
    as (d' & s' & Heq & _ & Hs'); auto.
  - rewrite length_app. lia.
  - apply ready_after_header.
  - exists d', s'. split; [|done]. change (concat ts) with ([] ++ concat ts). rewrite <- Heq.
    cbn [StreamDecoder.decode_windows].
    by rewrite decode_window_fresh.
Qed.
(** ** Windows of the encoder *)

(** The copy window an encoder announces lies in the source. *)
Definition source_window_ok (sw : option SourceWindow) (src : bytes) : Prop :=
  lenZ src < 2 ^ 63 /\
  forall w, sw = Some w -> 0 <= sw_len w /\ 0 <= sw_offset w /\
                           sw_offset w + sw_len w <= lenZ src.

Definition selected (sw : option SourceWindow) (src : bytes) : bytes :=
  match sw with Some w => sub src (sw_offset w) (sw_len w) | None => [] end.

(** [ws] with its sections replaced, as secondary compression does. *)
Definition with_sections (ws : WindowSections.t) (d i a : bytes) : WindowSections.t :=
  WindowSections.mk (WindowSections.source_window ws) (WindowSections.target_len ws)
    (WindowSections.checksum ws) d i a.

(** Where the copy window starts. *)
Definition window_start (sw : option SourceWindow) : Z :=
  match sw with Some w => sw_offset w | None => 0 end.

(** What the header of a window over [sw] says, but for the lengths of the
    sections: [n] bytes, and with [ck] the checksum of [t]. *)
Record describes (wh : WindowHeader.t) (sw : option SourceWindow) (ck : bool) (n : Z) (t : bytes) : Prop := {
  ds_wf : window_header_wf wh;
  ds_source : WindowHeader.has_source wh = is_some sw;
  ds_target : WindowHeader.has_target wh = false;
  ds_copy_len : WindowHeader.copy_window_len wh = win_len sw;
  ds_copy_offset : WindowHeader.copy_window_offset wh = window_start sw;
  ds_window_len : WindowHeader.target_window_len wh = n;
  ds_checksum : WindowHeader.adler32 wh = if ck then Some (compute_adler32 t) else None
}.

(** The bytes [w] are a window whose sections, decompressed, are the operations
    [ops]. *)
Definition carries (fh : FileHeader.t) (sw : option SourceWindow) (ck : bool) (ops : list op)
    (t w : bytes) : Prop :=
  exists wh d i a sd si sa l c,
    w = window_header_bytes wh ++ d ++ i ++ a /\ describes wh sw ck (ops_len ops) t /\
    (WindowHeader.data_len wh = lenZ d /\ WindowHeader.inst_len wh = lenZ i /\
     WindowHeader.addr_len wh = lenZ a) /\
    lenZ d + lenZ i + lenZ a <= lenZ sd + lenZ si + lenZ sa /\
    decompress_sections d i a (WindowHeader.del_ind wh) (FileHeader.secondary_id fh) = Ok (sd, si, sa) /\
    packs l si /\ emits (win_len sw) AddressCache.new 0 ops l sd sa c /\ ops_fit (win_len sw) 0 ops.

(** The sections of [n] bytes of operations. *)
Lemma sections_length srclen ops l sd si sa c :
  packs l si -> emits srclen AddressCache.new 0 ops l sd sa c -> ops_fit srclen 0 ops ->
  ops_len ops <= HARD_MAX_WINSIZE ->
  lenZ sd + lenZ si + lenZ sa <= ops_len ops + 21 * lenZ ops /\ lenZ ops <= ops_len ops /\
  lenZ sd < 2 ^ 36 /\ lenZ si < 2 ^ 28 /\ lenZ sa < 2 ^ 36.
Proof.
  unfold HARD_MAX_WINSIZE. intros Hp Hem Hfit Hl. pose proof (packs_length _ _ Hp).
  pose proof (emits_length _ _ _ _ _ _ _ _ Hem Hfit) as (? & ? & ?).
  pose proof (emits_count _ _ _ _ _ _ _ _ Hem) as [? ?]. pose proof (ops_fit_count _ _ _ Hfit). lia.
Qed.

Lemma copy_window_selected wh sw ck n t src :
  describes wh sw ck n t -> copy_window wh src = selected sw src.
Proof.
  intros [_ _ _ Hl Ho _ _]. unfold copy_window, selected. rewrite Hl, Ho. by destruct sw.
Qed.

Lemma carries_fit fh sw ck ops t w : carries fh sw ck ops t w -> ops_fit (win_len sw) 0 ops.
Proof. by intros (? & ? & ? & ? & ? & ? & ? & ? & ? & _ & _ & _ & _ & _ & _ & _ & Hfit). Qed.

(** What operations mean has their length. *)
Lemma meaning_length src sw ops x :
  source_window_ok sw src -> ops_fit (win_len sw) 0 ops -> exec_ops (selected sw src) [] ops = Some x ->
  lenZ x = ops_len ops.
Proof.
  intros Hsw Hfit Hex. assert (lenZ (selected sw src) = win_len sw) as Hwin.
  { destruct sw as [w|]; simpl; [|done]. destruct (proj2 Hsw w eq_refl) as (? & ? & ?). by apply sub_length. }
  rewrite <- Hwin in Hfit. pose proof (exec_ops_fit _ [] _ _ Hfit Hex) as Hok.
  destruct (exec_ops_ok _ _ _ Hok) as (y & Hy & Hyl). rewrite Hex in Hy. by injection Hy as ->.
Qed.

(** What the decoder makes of such a window, whatever its operations mean. *)
Lemma carries_outcome fh verify src sw ck ops t w d s out rest :
  carries fh sw ck ops t w -> source_window_ok sw src -> ops_len ops <= HARD_MAX_WINSIZE ->
  ready d fh verify (w ++ rest) -> contents s = src -> lenZ out + ops_len ops < 2 ^ 63 ->
  match exec_ops (selected sw src) [] ops with
  | Some x =>
      if ck && verify && negb (compute_adler32 x =? compute_adler32 t)
      then StreamDecoder.decode_window d s out
           = Err (ChecksumMismatch (compute_adler32 t) (compute_adler32 x))
      else exists d' s', StreamDecoder.decode_window d s out = Ok (true, d', s', out ++ x) /\
             ready d' fh verify rest /\ contents s' = src
  | None => StreamDecoder.decode_window d s out = Err (InvalidInput SpansBoundary)
  end.
Proof.
  intros (wh & db & ib & ab & sd & si & sa & l & c & -> & Hds & (Hd & Hi & Ha) & Hle & Hdec & Hp & Hem & Hfit)
    [Hsrc Hsw] Hl Hrd <- Ho.
  pose proof (sections_length _ _ _ _ _ _ _ Hp Hem Hfit Hl) as (? & ? & ? & ? & ?).
  rewrite <- (copy_window_selected _ _ _ _ _ (contents s) Hds). pose proof Hds as [Hwf _ Ht Hcl Hco Hwl Hck].
  pose proof (lenZ_nonneg db). pose proof (lenZ_nonneg ib). pose proof (lenZ_nonneg ab).
  pose proof (lenZ_nonneg (contents s)). pose proof (ops_fit_nonneg _ _ _ Hfit). unfold HARD_MAX_WINSIZE in Hl.
  assert (0 <= win_len sw /\ 0 <= window_start sw /\ window_start sw + win_len sw <= lenZ (contents s))
    as (? & ? & ?).
  { destruct sw as [x|]; simpl; [|lia]. destruct (Hsw x eq_refl) as (? & ? & ?). lia. }
  pose proof Hrd as (_ & _ & _ & _ & Hc).
  destruct (window_reads fh verify wh db ib ab (sections sd si sa) d s out rest) as (next & -> & Hnext);
    try done; try lia.
  pose proof (decode_window_meaning (contents:=contents) wh (sections sd si sa) s verify
    (StreamDecoder.copy_buf d) out (StreamDecoder.acache d) ops l c) as Hm.
  rewrite Hcl in Hm. cbn [sec_data sec_inst sec_addr] in Hm.
  assert (window_inside wh (contents s)) as Hin by (unfold window_inside; rewrite Hcl, Hco; lia).
  specialize (Hm Hin ltac:(lia) ltac:(lia) ltac:(lia) Hc Hp Hem Hfit Ho ltac:(lia) Hwl).
  destruct (exec_ops _ [] ops) as [x|]; [|by rewrite Hm].
  unfold checksum_error in Hm. rewrite Hck in Hm.
  destruct ck, verify; cbn [andb] in *; try (destruct (negb _); [by rewrite Hm|]);
    destruct Hm as (s' & buf' & -> & Hs' & Hc'); cbn [bind]; eexists _, s'; (split; [done|]);
    (split; [by apply Hnext|done]).
Qed.

(** Such a window decodes to what its operations mean. *)
Lemma carries_decodes fh verify src sw ck ops t w :
  carries fh sw ck ops t w -> source_window_ok sw src -> ops_len ops <= HARD_MAX_WINSIZE ->
  exec_ops (selected sw src) [] ops = Some t ->
  decodes_to fh verify src w t.
Proof.
  intros Hc Hsw Hl Hex. pose proof Hc as (wh & d & i & a & sd & si & sa & l & c & -> & Hds & _ & _ & _ & _ & _ & Hfit).
  split; [done|]. intros dec s out rest Hrd Hs Ho.
  pose proof (meaning_length src sw ops t Hsw Hfit Hex) as Hlt.
  pose proof (carries_outcome fh verify src sw ck ops t _ dec s out rest Hc Hsw Hl Hrd Hs ltac:(lia)) as Hout.
  rewrite Hex, Z.eqb_refl, andb_false_r in Hout. exact Hout.
Qed.

(** What was given to a window encoder, finished and assembled, possibly with
    compressed sections [d], [i] and [a], is carried by the window. *)
Lemma encoded_window_carries {E} `{!Adler32Laws} fh src we ops t :
  encoded we ops -> source_window_ok (WindowEncoder.source_window we) src ->
  ops_len ops <= HARD_MAX_WINSIZE ->
  exists ws, WindowEncoder.finish_sections (E:=E) we (Some t) = Ok ws /\
    forall d i a del,
      0 <= del < 8 ->
      lenZ d + lenZ i + lenZ a <= lenZ (WindowSections.data_section ws)
        + lenZ (WindowSections.inst_section ws) + lenZ (WindowSections.addr_section ws) ->
      decompress_sections d i a del (FileHeader.secondary_id fh)
      = Ok (WindowSections.data_section ws, WindowSections.inst_section ws,
            WindowSections.addr_section ws) ->
      exists w, WindowSections.assemble (E:=E) (with_sections ws d i a) del = Ok w /\
        carries fh (WindowEncoder.source_window we) (WindowEncoder.emit_checksum we) ops t w.
Proof.
  intros He [Hsrc Hsw] Hlen.
  destruct (finish_sections_ok (E:=E) we ops (Some t) He)
    as (l & data & inst & addr & c & Hfin & Hp & Hem).
  pose proof (ed_ok _ _ He) as Hfit.
  pose proof (sections_length _ _ _ _ _ _ _ Hp Hem Hfit Hlen) as (? & ? & ? & ? & ?).
  pose proof (ops_fit_nonneg _ _ _ Hfit). pose proof (lenZ_nonneg src).
  eexists. split; [exact Hfin|]. simpl. intros d i a del Hdel Hl Hdec.
  set (ws := with_sections _ d i a).
  assert (sections_wf ws del) as Hws.
  { constructor; subst ws; simpl; auto.
    - intros sw Hs. destruct (Hsw sw Hs) as (? & ? & ?). unfold in_range. lia.
    - intros k. destruct (WindowEncoder.emit_checksum we); [|done]. intros [= <-].
      apply adler32_u32.
    - unfold HARD_MAX_WINSIZE in *. lia. }
  destruct (assemble_ok (E:=E) ws del Hws) as (wh & Hwhe & Hwh & Hasm).
  rewrite Hasm. eexists. split; [done|]. exists wh, d, i, a, data, inst, addr, l, c. subst wh.
  split_and!; try done.
  destruct (section_header_wf ws del (delta_length (section_header ws del 0)) Hws) as (_ & _ & ?).
  constructor; try done. unfold WindowHeader.has_source. simpl.
  by destruct (WindowEncoder.source_window we), (WindowEncoder.emit_checksum we).
Qed.

Lemma carries_length fh sw ck ops t w :
  carries fh sw ck ops t w -> ops_len ops <= HARD_MAX_WINSIZE ->
  lenZ w <= 76 + ops_len ops + 21 * lenZ ops.
Proof.
  intros (wh & d & i & a & sd & si & sa & l & c & -> & Hds & _ & Hle & _ & Hp & Hem & Hfit) Hl.
  pose proof (sections_length _ _ _ _ _ _ _ Hp Hem Hfit Hl) as (? & _).
  pose proof (window_header_length _ (proj1 (ds_wf _ _ _ _ _ Hds)) (proj1 (proj2 (ds_wf _ _ _ _ _ Hds)))).
  autorewrite with lenz. lia.
Qed.
End Stream.

(** ** The stream encoder *)

(** The encoder has written the windows [ws] after the header [fh]. *)
Definition wrote (st : StreamEncoder.t) (fh : FileHeader.t) (ws : list bytes) : Prop :=
  StreamEncoder.file_header st = fh /\ file_header_wf fh /\
  if StreamEncoder.header_written st
  then StreamEncoder.writer st = file_header_bytes fh ++ concat ws
  else ws = [] /\ StreamEncoder.writer st = [].

Lemma default_header_wf : file_header_wf FileHeader.default.
Proof. constructor; simpl; try done; split; by intros []. Qed.

Lemma secondary_header_wf id :
  is_u8 id -> file_header_wf (FileHeader.mk VCD_SECONDARY (Some id) None).
Proof.
  intros Hid. constructor; simpl; try done.
  - by intros b [= <-].
Qed.

Lemma wrote_new ck : wrote (StreamEncoder.new [] ck) FileHeader.default [].
Proof. split; [done|]. split; [apply default_header_wf|done]. Qed.

Section StreamOps.
Context {B : Build} {E : Type}.

Lemma ensure_header_ok st fh ws :
  wrote st fh ws ->
  exists st', StreamEncoder.ensure_header (E:=E) st = Ok st' /\
    StreamEncoder.header_written st' = true /\ wrote st' fh ws.
Proof.
  intros (Hf & Hwf & Hw). unfold StreamEncoder.ensure_header.
  destruct (StreamEncoder.header_written st) eqn:Hh.
  - exists st. split_and!; [done..|]. unfold wrote. by rewrite Hh.
  - destruct Hw as [-> Hw]. rewrite Hf, Hw, file_header_encode_ok by done. cbn [bind].
    eexists. split_and!; [done..|]. split_and!; [done..|]. simpl. by rewrite app_nil_r.
Qed.

Lemma write_raw_window_ok st fh ws w :
  wrote st fh ws ->
  exists st', StreamEncoder.write_raw_window (E:=E) st w = Ok st' /\ wrote st' fh (ws ++ [w]).
Proof.
  intros H. destruct (ensure_header_ok st fh ws H) as (st1 & Heq & Hh & Hf & Hwf & Hw).
  unfold StreamEncoder.write_raw_window. rewrite Heq. cbn [bind]. rewrite Hh in *.
  eexists. split; [done|]. split_and!; [done..|]. simpl.
  by rewrite Hw, concat_app, <- app_assoc; simpl; rewrite app_nil_r.
Qed.

Lemma write_window_raw `{Adler32} st fh ws we td w :
  wrote st fh ws -> WindowEncoder.finish (E:=E) we td = Ok w ->
  StreamEncoder.write_window (E:=E) st we td = StreamEncoder.write_raw_window st w.
Proof.
  intros Hst Hw. unfold StreamEncoder.write_window, StreamEncoder.write_raw_window.
  destruct (ensure_header_ok st fh ws Hst) as (st1 & -> & _). cbn [bind]. by rewrite Hw.
Qed.

Lemma stream_finish_ok st fh ws :
  wrote st fh ws -> StreamEncoder.finish (E:=E) st = Ok (file_header_bytes fh ++ concat ws).
Proof.
  intros (Hf & Hwf & Hw). unfold StreamEncoder.finish.
  destruct (StreamEncoder.header_written st); [by rewrite Hw|].
  destruct Hw as [-> Hw]. rewrite Hf, Hw, file_header_encode_ok by done. by rewrite app_nil_r.
Qed.
End StreamOps.

(** In memory, over a byte slice. *)
Lemma decode_memory_ok {B : Build} `{Adler32} `{Codecs} fh src ws ts :
  file_header_wf fh -> Forall2 (decodes_to (contents:=fun s : bytes => s) fh true src) ws ts -> lenZ (concat ts) < 2 ^ 63 ->
  decode_memory (file_header_bytes fh ++ concat ws) src = Ok (concat ts).
Proof.
  intros Hfh Hws Hl. unfold decode_memory.
  destruct (decode_all_ok fh true src ws ts src Hfh Hws eq_refl Hl) as (d' & s' & -> & _). done.
Qed.

(** ** Streams of explicit operations *)

(** A window as a client of the two encoders describes it. *)
Record job := {
  j_source : option SourceWindow;
  j_checksum : bool;
  j_ops : list op
}.

Section Jobs.
Context {B : Build} {E : Type} `{Adler32}.

Definition encode_job (st : StreamEncoder.t) (j : job) (target : bytes)
    : result E StreamEncoder.t :=
  let* we := steps (WindowEncoder.new (j_source j) (j_checksum j)) (j_ops j) in
  StreamEncoder.write_window st we (Some target).

Fixpoint encode_jobs (st : StreamEncoder.t) (js : list job) (ts : list bytes)
    : result E StreamEncoder.t :=
  match js, ts with
  | j :: js, t :: ts => let* st := encode_job st j t in encode_jobs st js ts
  | _, _ => Ok st
  end.

Definition encode_stream (js : list job) (ts : list bytes) : result E bytes :=
  let* st := encode_jobs (StreamEncoder.new [] true) js ts in
  StreamEncoder.finish st.
End Jobs.

(** The operations fit the format and mean [t]. *)
Definition job_ok (src : bytes) (j : job) (t : bytes) : Prop :=
  source_window_ok (j_source j) src /\
  ops_ok (win_len (j_source j)) 0 (j_ops j) /\
  ops_len (j_ops j) <= HARD_MAX_WINSIZE /\
  exec_ops (selected (j_source j) src) [] (j_ops j) = Some t.

Section JobsOk.
Context {B : Build} {E : Type} `{Adler32Laws} `{Codecs}.
Context {S : Type} `{SourceProvider S} {contents : S -> bytes} `{!SourceLaws S contents}.

(** A finished window without secondary compression. *)
Lemma finish_carries fh src we ops t :
  encoded we ops -> source_window_ok (WindowEncoder.source_window we) src ->
  ops_len ops <= HARD_MAX_WINSIZE ->
  exists w, WindowEncoder.finish (E:=E) we (Some t) = Ok w /\
    carries fh (WindowEncoder.source_window we) (WindowEncoder.emit_checksum we) ops t w.
Proof.
  intros He Hsw Hl.
  destruct (encoded_window_carries (E:=E) fh src we ops t He Hsw Hl) as (ws & Hfin & Hw).
  destruct (Hw (WindowSections.data_section ws) (WindowSections.inst_section ws)
    (WindowSections.addr_section ws) 0) as (w & Hasm & Hc); [lia|lia|done|].
  exists w. split; [|done]. unfold WindowEncoder.finish. rewrite Hfin. cbn [bind].
  rewrite <- Hasm. by destruct ws.
Qed.

Lemma finish_decodes fh verify src we ops target :
  encoded we ops -> source_window_ok (WindowEncoder.source_window we) src ->
  ops_len ops <= HARD_MAX_WINSIZE ->
  exec_ops (selected (WindowEncoder.source_window we) src) [] ops = Some target ->
  exists w, WindowEncoder.finish (E:=E) we (Some target) = Ok w /\
    decodes_to (contents:=contents) fh verify src w target.
Proof.
  intros He Hsw Hl Hex. destruct (finish_carries fh src we ops target He Hsw Hl) as (w & Hfin & Hc).
  exists w. split; [done|]. by eapply carries_decodes.
Qed.

Lemma encode_job_ok verify src st ws j t :
  wrote st FileHeader.default ws -> job_ok src j t ->
  exists st' w, encode_job (E:=E) st j t = Ok st' /\
    wrote st' FileHeader.default (ws ++ [w]) /\ decodes_to (contents:=contents) FileHeader.default verify src w t.
Proof.
  intros Hst (Hsw & Hok & Hl & Hex). unfold encode_job, HARD_MAX_WINSIZE in *.
  pose proof Hsw as [Hsrc Hin]. pose proof (ops_len_nonneg _ _ _ Hok).
  assert (0 <= win_len (j_source j) <= lenZ src).
  { destruct (j_source j) as [w|]; simpl; [destruct (Hin w eq_refl) as (? & ? & ?); lia|].
    pose proof (lenZ_nonneg src). lia. }
  destruct (steps_ok (E:=E) (WindowEncoder.new (j_source j) (j_checksum j)) [] (j_ops j))
    as (we & -> & He & Hs & _);
    [apply encoded_new|by apply ops_ok_fit|change (ops_len []) with 0; simpl; lia|simpl; lia|].
  cbn [bind]. simpl in He, Hs.
  destruct (finish_decodes FileHeader.default verify src we (j_ops j) t) as (w & Hfin & Hd); rewrite ?Hs; auto.
  rewrite (write_window_raw st FileHeader.default ws we _ w Hst Hfin).
  destruct (write_raw_window_ok (E:=E) st _ _ w Hst) as (st' & Hw & Hst'). eauto.
Qed.

Lemma encode_jobs_ok verify src js ts :
  Forall2 (job_ok src) js ts -> forall st ws,
  wrote st FileHeader.default ws ->
  exists st' ws', encode_jobs (E:=E) st js ts = Ok st' /\
    wrote st' FileHeader.default (ws ++ ws') /\
    Forall2 (decodes_to (contents:=contents) FileHeader.default verify src) ws' ts.
Proof.
  induction 1 as [|j t js ts Hj _ IH]; intros st ws Hst; simpl.
  - exists st, []. by rewrite app_nil_r.
  - destruct (encode_job_ok verify src st ws j t Hst Hj) as (st1 & w & -> & Hst1 & Hd). cbn [bind].
    destruct (IH st1 _ Hst1) as (st2 & ws' & -> & Hst2 & Hds).
    exists st2, (w :: ws'). rewrite <- app_assoc in Hst2. auto.
Qed.
End JobsOk.

(** ** Theorems *)

(** C8: format-level round trip.  Give the window encoder, for each window, any
    sequence of ADD, COPY and RUN operations the format can express over a copy
    window of the source, and write the windows with the stream encoder: the
    encoder succeeds, and the stream decoder, over any lawful source provider
    that serves the source, checksum verification on or off, returns exactly
    the bytes the RFC's semantics ([exec_ops]) assigns to the operations. *)
Theorem stream_roundtrip {B : Build} `{Adler32Laws} `{Codecs} {S : Type} `{SourceProvider S}
    {contents : S -> bytes} `{!SourceLaws S contents} (s : S) (verify : bool)
    (js : list job) (ts : list bytes) :
  Forall2 (job_ok (contents s)) js ts -> lenZ (concat ts) < 2 ^ 63 ->
  exists delta d' s', encode_stream (E:=DecodeError) js ts = Ok delta /\
    StreamDecoder.decode_all (StreamDecoder.new delta verify) s [] = Ok (d', s', concat ts) /\
    contents s' = contents s.
Proof.
  intros Hjs Hl.
  destruct (encode_jobs_ok (E:=DecodeError) verify (contents s) js ts Hjs _ _ (wrote_new true))
    as (st & ws & Henc & Hst & Hws).
  destruct (decode_all_ok FileHeader.default verify (contents s) ws ts s default_header_wf Hws
    eq_refl Hl) as (d' & s' & Hdec & Hs').
  exists (file_header_bytes FileHeader.default ++ concat ws), d', s'. split_and!; auto.
  unfold encode_stream. rewrite Henc. cbn [bind]. by apply stream_finish_ok.
Qed.

(** Two windows: a double opcode and an overlapping self-copy; a plain ADD. *)
Definition sample_jobs : list job :=
  [{| j_source := Some (source_win 6 2); j_checksum := true;
      j_ops := [OpAdd [1; 2]; OpCopy 4 1; OpRun 3 9; OpCopy 7 8] |};
   {| j_source := None; j_checksum := true; j_ops := [OpAdd [5; 5; 6]] |}].

Definition sample_source : bytes := [10; 11; 12; 13; 14; 15; 16; 17; 18].

Definition sample_targets : list bytes :=
  [[1; 2; 13; 14; 15; 16; 9; 9; 9; 13; 14; 15; 16; 9; 9; 9]; [5; 5; 6]].

Lemma sample_jobs_ok : Forall2 (job_ok sample_source) sample_jobs sample_targets.
Proof.
  assert (forall (sw : option SourceWindow) ops t, source_window_ok sw sample_source ->
    ops_ok (win_len sw) 0 ops -> ops_len ops <= 100 ->
    exec_ops (selected sw sample_source) [] ops = Some t ->
    job_ok sample_source {| j_source := sw; j_checksum := true; j_ops := ops |} t) as Hj.
  { intros sw ops t Hs Ho Hl Hx. split_and!; auto. unfold HARD_MAX_WINSIZE. simpl. lia. }
  constructor; [|constructor; [|constructor]]; apply Hj; try done.
  - split; [done|]. intros w [= <-]. done.
  - repeat split; try done; try lia. all: repeat constructor; done.
  - repeat split; try done; try lia. all: repeat constructor; done.
Qed.

Lemma stream_roundtrip_witness :
  let B := {| debug_build := true |} in
  exists delta d' s',
    encode_stream (H:=adler32_fallback) (E:=DecodeError) sample_jobs sample_targets = Ok delta /\
    StreamDecoder.decode_all (H:=slice_source) (H0:=adler32_fallback) (H1:=zeros_codecs)
      (StreamDecoder.new delta true) sample_source [] = Ok (d', s', concat sample_targets) /\
    s' = sample_source.
Proof.
  exact (stream_roundtrip (B:={| debug_build := true |}) (H:=adler32_fallback)
           (H0:=adler32_fallback_laws) (H1:=zeros_codecs) (S:=bytes) sample_source true
           sample_jobs sample_targets sample_jobs_ok eq_refl).
Defined.
