(* ===== verification/Kernels.v ===== *)
(** * Byte-comparison kernels ([src/src/hash/rolling.rs], 258-821)

    The forward-match, backward-match and run-length scanners: the portable
    versions that compare eight bytes at a time, and the SSE2, AVX2 and NEON
    versions behind the run-time dispatch.  Vector registers are lists of lanes
    and the intrinsics are their documented meaning; a load outside its slice,
    undefined behaviour in the source, is [Panic] here.  The theorems: within
    the bounds the callers guarantee every kernel is defined, and all of them
    compute the same reference function, so the dispatch cannot change results. *)

From stdpp Require Import base numbers list option.
From Stdlib Require Import ZArith Lia.
From S2P Require Import Prelude Varint Source.

Local Open Scope Z_scope.
Local Open Scope rust_scope.

(** ** Integer and vector primitives *)

Fixpoint pos_trailing_zeros (p : positive) : Z :=
  match p with
  | xO p => 1 + pos_trailing_zeros p
  | _ => 0
  end.

(** [uw::trailing_zeros]. *)
Definition trailing_zeros (w x : Z) : Z :=
  match x with
  | Zpos p => pos_trailing_zeros p
  | _ => w
  end.

(** [!x] on [uw]. *)
Definition not_w (w x : Z) : Z := 2 ^ w - 1 - x.

(** [uw::leading_ones]. *)
Definition leading_ones (w x : Z) : Z := leading_zeros w (not_w w x).

Definition le_value (l : bytes) : Z := foldr (fun b v => b + 256 * v) 0 l.

(** [read_unaligned] of a [u64] on a target of the given byte order. *)
Definition u64_value (little : bool) (l : bytes) : Z :=
  le_value (if little then l else reverse l).

(** A load of [w] bytes at [i]: defined inside the slice only. *)
Definition load {E} (s : bytes) (i w : Z) : result E bytes := slice s i (i + w).

(** [_mm_cmpeq_epi8] and [_mm256_cmpeq_epi8], a lane per boolean. *)
Definition cmpeq_epi8 (a b : bytes) : list bool := zip_with Z.eqb a b.

(** [_mm_movemask_epi8] and [_mm256_movemask_epi8]: lane [i] is bit [i]. *)
Definition movemask_epi8 (lanes : list bool) : Z :=
  foldr (fun b v => Z.b2z b + 2 * v) 0 lanes.

(** [vceqq_u8], [vminvq_u8] and [vmvnq_u8]. *)
Definition vceqq_u8 (a b : bytes) : bytes :=
  zip_with (fun x y => if x =? y then 255 else 0) a b.
Definition vminvq_u8 (v : bytes) : Z := foldr Z.min 255 v.
Definition vmvnq_u8 (v : bytes) : bytes := map (fun x => 255 - x) v.

(** [for j in 0..16 { if arr[j] != 0 { return .. } }] *)
Fixpoint first_nonzero (arr : bytes) : option Z :=
  match arr with
  | [] => None
  | x :: arr =>
      if negb (x =? 0) then Some 0
      else match first_nonzero arr with Some j => Some (j + 1) | None => None end
  end.

(** [for j in (0..16).rev() { if arr[j] != 0 { return 16 - j - 1 .. } }] *)
Definition last_nonzero (arr : bytes) : option Z := first_nonzero (reverse arr).

Section Kernels.
Context {E : Type}.

(** ** Loops *)

(** [while i + w <= n { if let Some(k) = probe(i) { return i + k } i += w }]:
    [inl] is an early return, [inr] the [i] the loop ends with. *)
Fixpoint chunks_up (fuel : nat) (w : Z) (probe : Z -> result E (option Z)) (i n : Z)
    : result E (Z + Z) :=
  match fuel with
  | O => Diverge
  | S fuel =>
      if i + w <=? n then
        let* o := probe i in
        match o with
        | Some k => Ok (inl (i + k))
        | None => chunks_up fuel w probe (i + w) n
        end
      else Ok (inr i)
  end.

(** [while i >= w { if let Some(k) = probe(i - w) { return n - i + k } i -= w }] *)
Fixpoint chunks_down (fuel : nat) (w : Z) (probe : Z -> result E (option Z)) (i n : Z)
    : result E (Z + Z) :=
  match fuel with
  | O => Diverge
  | S fuel =>
      if w <=? i then
        let* o := probe (i - w) in
        match o with
        | Some k => Ok (inl (n - i + k))
        | None => chunks_down fuel w probe (i - w) n
        end
      else Ok (inr i)
  end.

(** [while i < n && s1[i] == s2[i] { i += 1 }] *)
Fixpoint tail_up (fuel : nat) (eq_at : Z -> result E bool) (i n : Z) : result E Z :=
  match fuel with
  | O => Diverge
  | S fuel =>
      if i <? n then
        let* b := eq_at i in
        if b : bool then tail_up fuel eq_at (i + 1) n else Ok i
      else Ok i
  end.

(** [while i > 0 && s1[i - 1] == s2[i - 1] { i -= 1 }] *)
Fixpoint tail_down (fuel : nat) (eq_at : Z -> result E bool) (i : Z) : result E Z :=
  match fuel with
  | O => Diverge
  | S fuel =>
      if 0 <? i then
        let* b := eq_at (i - 1) in
        if b : bool then tail_down fuel eq_at (i - 1) else Ok i
      else Ok i
  end.

Definition eq_bytes (s1 s2 : bytes) (i : Z) : result E bool :=
  let* a := index s1 i in
  let* b := index s2 i in
  Ok (a =? b).

Definition eq_byte (data : bytes) (byte : Z) (i : Z) : result E bool :=
  let* a := index data i in
  Ok (a =? byte).

(** Fuel for a scan of [n] bytes: an iteration consumes at least one. *)
Definition scan_fuel (n : Z) : nat := S (Z.to_nat n).

(** ** Probes: one chunk compared *)

(** The [u64] XOR of the portable versions; the first mismatch from the front. *)
Definition u64_front (little : bool) (a b : bytes) : option Z :=
  let xor := Z.lxor (u64_value little a) (u64_value little b) in
  if negb (xor =? 0)
  then Some ((if little then trailing_zeros 64 xor else leading_zeros 64 xor) / 8)
  else None.

(** ... and from the back. *)
Definition u64_back (little : bool) (a b : bytes) : option Z :=
  let xor := Z.lxor (u64_value little a) (u64_value little b) in
  if negb (xor =? 0)
  then Some ((if little then leading_zeros 64 xor else trailing_zeros 64 xor) / 8)
  else None.

(** Compare, movemask and [(!mask).trailing_zeros()], on [w] lanes. *)
Definition mask_front (w : Z) (a b : bytes) : option Z :=
  let mask := movemask_epi8 (cmpeq_epi8 a b) in
  if negb (mask =? 2 ^ w - 1) then Some (trailing_zeros w (not_w w mask)) else None.

(** Compare, movemask and [mask.leading_ones()]. *)
Definition mask_back (w : Z) (a b : bytes) : option Z :=
  let mask := movemask_epi8 (cmpeq_epi8 a b) in
  if negb (mask =? 2 ^ w - 1) then Some (leading_ones w mask) else None.

(** The NEON scan of the stored comparison. *)
Definition neon_front (a b : bytes) : option Z :=
  let cmp := vceqq_u8 a b in
  if vminvq_u8 cmp =? 0 then first_nonzero (vmvnq_u8 cmp) else None.

Definition neon_back (a b : bytes) : option Z :=
  let cmp := vceqq_u8 a b in
  if vminvq_u8 cmp =? 0 then last_nonzero (vmvnq_u8 cmp) else None.

(** Load both sides at [i] and test them. *)
Definition probe2 (w : Z) (test : bytes -> bytes -> option Z) (s1 s2 : bytes) (i : Z)
    : result E (option Z) :=
  let* a := load s1 i w in
  let* b := load s2 i w in
  Ok (test a b).

(** Load one side and test it against a broadcast byte ([_mm_set1_epi8], [vdupq_n_u8]). *)
Definition probe1 (w : Z) (test : bytes -> bytes -> option Z) (data : bytes) (byte i : Z)
    : result E (option Z) :=
  let* a := load data i w in
  Ok (test a (replicate (Z.to_nat w) byte)).

(** ** Forward match *)

Definition forward_match_scalar (little : bool) (s1 s2 : bytes) (n : Z) : result E Z :=
  let* r := chunks_up (scan_fuel n) 8 (probe2 8 (u64_front little) s1 s2) 0 n in
  match r with
  | inl k => Ok k
  | inr i => tail_up (scan_fuel n) (eq_bytes s1 s2) i n
  end.

Definition forward_match_avx2 (s1 s2 : bytes) (n : Z) : result E Z :=
  let* r := chunks_up (scan_fuel n) 32 (probe2 32 (mask_front 32) s1 s2) 0 n in
  match r with
  | inl k => Ok k
  | inr i =>
      let* r :=
        if i + 16 <=? n then
          let* o := probe2 16 (mask_front 16) s1 s2 i in
          match o with Some k => Ok (inl (i + k)) | None => Ok (inr (i + 16)) end
        else Ok (inr i) in
      match r with
      | inl k => Ok k
      | inr i => tail_up (scan_fuel n) (eq_bytes s1 s2) i n
      end
  end.

Definition forward_match_sse2 (s1 s2 : bytes) (n : Z) : result E Z :=
  let* r := chunks_up (scan_fuel n) 16 (probe2 16 (mask_front 16) s1 s2) 0 n in
  match r with
  | inl k => Ok k
  | inr i => tail_up (scan_fuel n) (eq_bytes s1 s2) i n
  end.

Definition forward_match_neon (s1 s2 : bytes) (n : Z) : result E Z :=
  let* r := chunks_up (scan_fuel n) 16 (probe2 16 neon_front s1 s2) 0 n in
  match r with
  | inl k => Ok k
  | inr i => tail_up (scan_fuel n) (eq_bytes s1 s2) i n
  end.

(** ** Backward match *)

Definition backward_match_scalar (little : bool) (s1 s2 : bytes) (n : Z) : result E Z :=
  let* r := chunks_down (scan_fuel n) 8 (probe2 8 (u64_back little) s1 s2) n n in
  match r with
  | inl k => Ok k
  | inr i => let* i := tail_down (scan_fuel n) (eq_bytes s1 s2) i in Ok (n - i)
  end.

Definition backward_match_avx2 (s1 s2 : bytes) (n : Z) : result E Z :=
  let* r := chunks_down (scan_fuel n) 32 (probe2 32 (mask_back 32) s1 s2) n n in
  match r with
  | inl k => Ok k
  | inr i =>
      let* r :=
        if 16 <=? i then
          let* o := probe2 16 (mask_back 16) s1 s2 (i - 16) in
          match o with Some k => Ok (inl (n - i + k)) | None => Ok (inr (i - 16)) end
        else Ok (inr i) in
      match r with
      | inl k => Ok k
      | inr i => let* i := tail_down (scan_fuel n) (eq_bytes s1 s2) i in Ok (n - i)
      end
  end.

Definition backward_match_sse2 (s1 s2 : bytes) (n : Z) : result E Z :=
  let* r := chunks_down (scan_fuel n) 16 (probe2 16 (mask_back 16) s1 s2) n n in
  match r with
  | inl k => Ok k
  | inr i => let* i := tail_down (scan_fuel n) (eq_bytes s1 s2) i in Ok (n - i)
  end.

Definition backward_match_neon (s1 s2 : bytes) (n : Z) : result E Z :=
  let* r := chunks_down (scan_fuel n) 16 (probe2 16 neon_back s1 s2) n n in
  match r with
  | inl k => Ok k
  | inr i => let* i := tail_down (scan_fuel n) (eq_bytes s1 s2) i in Ok (n - i)
  end.

(** ** Run length *)

Definition find_run_length_scalar (data : bytes) (byte n : Z) : result E Z :=
  tail_up (scan_fuel n) (eq_byte data byte) 0 n.

Definition find_run_length_avx2 (data : bytes) (byte n : Z) : result E Z :=
  let* r := chunks_up (scan_fuel n) 32 (probe1 32 (mask_front 32) data byte) 0 n in
  match r with
  | inl k => Ok k
  | inr i =>
      let* r :=
        if i + 16 <=? n then
          let* o := probe1 16 (mask_front 16) data byte i in
          match o with Some k => Ok (inl (i + k)) | None => Ok (inr (i + 16)) end
        else Ok (inr i) in
      match r with
      | inl k => Ok k
      | inr i => tail_up (scan_fuel n) (eq_byte data byte) i n
      end
  end.

Definition find_run_length_sse2 (data : bytes) (byte n : Z) : result E Z :=
  let* r := chunks_up (scan_fuel n) 16 (probe1 16 (mask_front 16) data byte) 0 n in
  match r with
  | inl k => Ok k
  | inr i => tail_up (scan_fuel n) (eq_byte data byte) i n
  end.

Definition find_run_length_neon (data : bytes) (byte n : Z) : result E Z :=
  let* r := chunks_up (scan_fuel n) 16 (probe1 16 neon_front data byte) 0 n in
  match r with
  | inl k => Ok k
  | inr i => tail_up (scan_fuel n) (eq_byte data byte) i n
  end.

(** ** Dispatch *)

(** What [is_x86_feature_detected!] and the target architecture decide. *)
Inductive cpu :=
  | X86_avx2
  | X86_sse2
  | X86_scalar
  | Aarch64
  | Other (little : bool).

Definition forward_match_fn (c : cpu) : bytes -> bytes -> Z -> result E Z :=
  match c with
  | X86_avx2 => forward_match_avx2
  | X86_sse2 => forward_match_sse2
  | X86_scalar => forward_match_scalar true
  | Aarch64 => forward_match_neon
  | Other little => forward_match_scalar little
  end.

Definition backward_match_fn (c : cpu) : bytes -> bytes -> Z -> result E Z :=
  match c with
  | X86_avx2 => backward_match_avx2
  | X86_sse2 => backward_match_sse2
  | X86_scalar => backward_match_scalar true
  | Aarch64 => backward_match_neon
  | Other little => backward_match_scalar little
  end.

Definition run_length_fn (c : cpu) : bytes -> Z -> Z -> result E Z :=
  match c with
  | X86_avx2 => find_run_length_avx2
  | X86_sse2 => find_run_length_sse2
  | X86_scalar => find_run_length_scalar
  | Aarch64 => find_run_length_neon
  | Other _ => find_run_length_scalar
  end.

(** The checked entry points. *)
Definition forward_match (c : cpu) (s1 s2 : bytes) (n : Z) : result E Z :=
  forward_match_fn c s1 s2 (Z.min (Z.min n (lenZ s1)) (lenZ s2)).

Definition backward_match (c : cpu) (s1 s2 : bytes) (n : Z) : result E Z :=
  backward_match_fn c s1 s2 (Z.min (Z.min n (lenZ s1)) (lenZ s2)).

Definition find_run_length (c : cpu) (data : bytes) (byte max : Z) : result E Z :=
  run_length_fn c data byte (Z.min max (lenZ data)).

End Kernels.

(** ** The reference: leading equal lanes *)

Fixpoint leading (l : list bool) : Z :=
  match l with
  | true :: l => 1 + leading l
  | _ => 0
  end.

(** The comparison of the first [n] bytes, a boolean per position. *)
Definition same_bytes (s1 s2 : bytes) (n : Z) : list bool :=
  take (Z.to_nat n) (cmpeq_epi8 s1 s2).

Definition same_byte (data : bytes) (byte n : Z) : list bool :=
  map (fun x => x =? byte) (take (Z.to_nat n) data).

(** Length of the common prefix, of the common suffix of the first [n] bytes,
    and of the run of [byte]. *)
Definition match_forward (s1 s2 : bytes) (n : Z) : Z := leading (same_bytes s1 s2 n).
Definition match_backward (s1 s2 : bytes) (n : Z) : Z := leading (reverse (same_bytes s1 s2 n)).
Definition run_of (data : bytes) (byte n : Z) : Z := leading (same_byte data byte n).

(** ** Lemmas on leading lanes *)

Lemma leading_range l : 0 <= leading l <= lenZ l.
Proof. induction l as [|[] l IH]; simpl; autorewrite with lenz; lia. Qed.

Lemma leading_all l : leading l = lenZ l <-> Forall (fun b => b = true) l.
Proof.
  induction l as [|[] l IH]; autorewrite with lenz; simpl.
  - split; [constructor|done].
  - rewrite Forall_cons_iff, <- IH. lia.
  - rewrite Forall_cons_iff. pose proof (lenZ_nonneg l). split; [lia|]. by intros [? _].
Qed.

(** A block that matches entirely is passed over, another one decides. *)
Lemma leading_split l w :
  0 <= w <= lenZ l ->
  leading l = if leading (take (Z.to_nat w) l) =? w
              then w + leading (drop (Z.to_nat w) l) else leading (take (Z.to_nat w) l).
Proof.
  intros Hw. destruct (Z_of_nat_complete w) as [k ->]; [lia|]. rewrite Nat2Z.id. clear -Hw.
  revert l Hw. induction k as [|k IH]; intros l Hw; [done|].
  destruct l as [|[] l]; autorewrite with lenz in Hw; [pose proof (@lenZ_nil bool); lia| |done].
  assert (0 <= Z.of_nat k <= lenZ l) as Hk by lia. specialize (IH l Hk).
  cbn [leading take drop firstn skipn]. rewrite IH, Nat2Z.inj_succ. clear IH.
  destruct (Z.eqb_spec (leading (take k l)) (Z.of_nat k)),
    (Z.eqb_spec (1 + leading (take k l)) (Z.succ (Z.of_nat k))); lia.
Qed.

Lemma leading_stop l i :
  0 <= i < lenZ l -> l !! Z.to_nat i = Some false -> leading (drop (Z.to_nat i) l) = 0.
Proof. intros Hi Hl. by rewrite (drop_S _ _ _ Hl). Qed.

Lemma leading_go l i :
  0 <= i -> l !! Z.to_nat i = Some true ->
  leading (drop (Z.to_nat i) l) = 1 + leading (drop (Z.to_nat (i + 1)) l).
Proof.
  intros Hi Hl. rewrite (drop_S _ _ _ Hl). simpl. do 2 f_equal. f_equal. lia.
Qed.

(** ** The loops, on an abstract comparison *)

(** The outcome of comparing the block [l] of [w] lanes. *)
Definition decide_block (w : Z) (l : list bool) : option Z :=
  if leading l =? w then None else Some (leading l).

Definition block (l : list bool) (i w : Z) : list bool :=
  take (Z.to_nat w) (drop (Z.to_nat i) l).

(** The first [i] lanes match. *)
Definition passed (l : list bool) (i : Z) : Prop :=
  0 <= i <= lenZ l /\ leading l = i + leading (drop (Z.to_nat i) l).

Lemma passed_0 l : passed l 0.
Proof. split; [pose proof (lenZ_nonneg l); lia|]. done. Qed.

Lemma block_step l i w :
  0 < w -> passed l i -> i + w <= lenZ l ->
  match decide_block w (block l i w) with
  | Some k => leading l = i + k
  | None => passed l (i + w)
  end.
Proof.
  intros Hw [Hi Hp] Hl. unfold decide_block, block.
  assert (0 <= w <= lenZ (drop (Z.to_nat i) l)) as Hd
    by (unfold lenZ in *; rewrite length_drop; lia).
  pose proof (leading_split _ w Hd) as Hs. rewrite drop_drop in Hs.
  destruct (Z.eqb_spec (leading (take (Z.to_nat w) (drop (Z.to_nat i) l))) w); [|lia].
  split; [lia|]. rewrite Z2Nat.inj_add by lia. lia.
Qed.

Section Loops.
Context {E : Type}.

(** What [chunks_up] and the single extra block leave. *)
Definition up_done (l : list bool) (r : Z + Z) : Prop :=
  match r with inl k => k = leading l | inr i => passed l i end.

Lemma chunks_up_ok (l : list bool) w probe fuel i :
  0 < w -> (forall j, 0 <= j -> j + w <= lenZ l -> probe j = Ok (decide_block w (block l j w))) ->
  passed l i -> lenZ l - i < Z.of_nat fuel ->
  exists r, chunks_up (E:=E) fuel w probe i (lenZ l) = Ok r /\ up_done l r.
Proof.
  intros Hw Hprobe. revert i. induction fuel as [|fuel IH]; intros i Hp Hf; simpl.
  { destruct Hp. lia. }
  destruct (Z.leb_spec (i + w) (lenZ l)) as [Hle|]; [|by eexists].
  rewrite Hprobe by (destruct Hp; lia). cbn [bind].
  pose proof (block_step l i w Hw Hp Hle) as Hb.
  destruct (decide_block w (block l i w)) as [k|].
  - eexists. split; [done|]. simpl. lia.
  - apply IH; [done|lia].
Qed.

Lemma tail_up_ok (l : list bool) eq_at fuel i :
  (forall j b, 0 <= j -> l !! Z.to_nat j = Some b -> eq_at j = Ok b) ->
  passed l i -> lenZ l - i < Z.of_nat fuel ->
  tail_up (E:=E) fuel eq_at i (lenZ l) = Ok (leading l).
Proof.
  intros Heq. revert i. induction fuel as [|fuel IH]; intros i [Hi Hp] Hf; simpl; [lia|].
  destruct (Z.ltb_spec i (lenZ l)) as [Hlt|].
  - destruct (lookup_lt_is_Some_2 l (Z.to_nat i)) as [[] Hb]; [unfold lenZ in *; lia| |].
    + rewrite (Heq i true) by (done || lia). cbn [bind]. apply IH; [|lia].
      split; [lia|]. rewrite Hp, leading_go by (done || lia). lia.
    + rewrite (Heq i false) by (done || lia). cbn [bind].
      rewrite Hp, leading_stop by (done || lia). by rewrite Z.add_0_r.
  - rewrite Hp. rewrite drop_ge by (unfold lenZ in *; lia). simpl. ok_lia.
Qed.

(** A scan upwards: blocks, then bytes. *)
Lemma scan_up_ok (l : list bool) w probe eq_at :
  0 < w -> (forall j, 0 <= j -> j + w <= lenZ l -> probe j = Ok (decide_block w (block l j w))) ->
  (forall j b, 0 <= j -> l !! Z.to_nat j = Some b -> eq_at j = Ok b) ->
  (let* r := chunks_up (E:=E) (scan_fuel (lenZ l)) w probe 0 (lenZ l) in
   match r with
   | inl k => Ok k
   | inr i => tail_up (scan_fuel (lenZ l)) eq_at i (lenZ l)
   end) = Ok (leading l).
Proof.
  intros Hw Hprobe Heq. unfold scan_fuel.
  destruct (chunks_up_ok l w probe (S (Z.to_nat (lenZ l))) 0) as ([k|i] & -> & Hr); auto using passed_0.
  - lia.
  - cbn [bind]. simpl in Hr. by subst.
  - cbn [bind]. simpl in Hr. apply tail_up_ok; auto. destruct Hr. lia.
Qed.

(** A scan upwards with one more, narrower, block. *)
Lemma scan_up2_ok (l : list bool) w w' probe probe' eq_at :
  0 < w -> 0 < w' ->
  (forall j, 0 <= j -> j + w <= lenZ l -> probe j = Ok (decide_block w (block l j w))) ->
  (forall j, 0 <= j -> j + w' <= lenZ l -> probe' j = Ok (decide_block w' (block l j w'))) ->
  (forall j b, 0 <= j -> l !! Z.to_nat j = Some b -> eq_at j = Ok b) ->
  (let* r := chunks_up (E:=E) (scan_fuel (lenZ l)) w probe 0 (lenZ l) in
   match r with
   | inl k => Ok k
   | inr i =>
       let* r :=
         if i + w' <=? lenZ l then
           let* o := probe' i in
           match o with Some k => Ok (inl (i + k)) | None => Ok (inr (i + w')) end
         else Ok (inr i) in
       match r with
       | inl k => Ok k
       | inr i => tail_up (scan_fuel (lenZ l)) eq_at i (lenZ l)
       end
   end) = Ok (leading l).
Proof.
  intros Hw Hw' Hprobe Hprobe' Heq. unfold scan_fuel.
  destruct (chunks_up_ok l w probe (S (Z.to_nat (lenZ l))) 0) as ([k|i] & -> & Hr); auto using passed_0.
  - lia.
  - cbn [bind]. simpl in Hr. by subst.
  - cbn [bind]. simpl in Hr. destruct (Z.leb_spec (i + w') (lenZ l)) as [Hle|].
    + rewrite Hprobe' by (destruct Hr; lia). cbn [bind].
      pose proof (block_step l i w' Hw' Hr Hle) as Hb.
      destruct (decide_block w' (block l i w')) as [k|]; cbn [bind]; [ok_lia|].
      apply tail_up_ok; auto. destruct Hb. lia.
    + cbn [bind]. apply tail_up_ok; auto. destruct Hr. lia.
Qed.

(** Downwards, the same on the reversed comparison. *)
Lemma reverse_block (l : list bool) j w :
  0 <= j -> 0 <= w -> j + w <= lenZ l ->
  reverse (block l j w) = block (reverse l) (lenZ l - j - w) w.
Proof.
  intros Hj Hw Hl. unfold block, lenZ in *.
  rewrite drop_reverse, take_reverse, length_take, take_drop_commute.
  do 2 f_equal; [lia|]. f_equal. lia.
Qed.

Lemma reverse_lookup_Z (l : list bool) j b :
  0 <= j < lenZ l -> reverse l !! Z.to_nat j = Some b -> l !! Z.to_nat (lenZ l - 1 - j) = Some b.
Proof.
  intros Hj H. apply reverse_lookup_Some in H as [H _]. rewrite <- H. f_equal. unfold lenZ in *. lia.
Qed.

Lemma lenZ_reverse (l : list bool) : lenZ (reverse l) = lenZ l.
Proof. unfold lenZ. by rewrite length_reverse. Qed.

(** What [chunks_down] and the single extra block leave, [n - i] lanes from the end. *)
Definition down_done (l : list bool) (r : Z + Z) : Prop :=
  match r with inl k => k = leading (reverse l) | inr i => passed (reverse l) (lenZ l - i) end.

Lemma block_step_down l i w :
  0 < w <= i -> passed (reverse l) (lenZ l - i) ->
  match decide_block w (reverse (block l (i - w) w)) with
  | Some k => leading (reverse l) = lenZ l - i + k
  | None => passed (reverse l) (lenZ l - (i - w))
  end.
Proof.
  intros Hw Hp. pose proof Hp as [Hi _]. rewrite lenZ_reverse in Hi.
  rewrite reverse_block by lia. replace (lenZ l - (i - w) - w) with (lenZ l - i) by lia.
  replace (lenZ l - (i - w)) with (lenZ l - i + w) by lia.
  apply block_step; [lia|done|]. rewrite lenZ_reverse. lia.
Qed.

Lemma chunks_down_ok (l : list bool) w probe fuel i :
  0 < w ->
  (forall j, 0 <= j -> j + w <= lenZ l -> probe j = Ok (decide_block w (reverse (block l j w)))) ->
  passed (reverse l) (lenZ l - i) -> i < Z.of_nat fuel ->
  exists r, chunks_down (E:=E) fuel w probe i (lenZ l) = Ok r /\ down_done l r.
Proof.
  intros Hw Hprobe. revert i. induction fuel as [|fuel IH]; intros i Hp Hf;
    pose proof Hp as [Hi _]; rewrite lenZ_reverse in Hi; simpl; [lia|].
  destruct (Z.leb_spec w i) as [Hle|]; [|by eexists].
  rewrite Hprobe by lia. cbn [bind].
  pose proof (block_step_down l i w (conj Hw Hle) Hp) as Hb.
  destruct (decide_block w (reverse (block l (i - w) w))) as [k|].
  - eexists. split; [done|]. simpl. lia.
  - apply IH; [done|lia].
Qed.

Lemma tail_down_ok (l : list bool) eq_at fuel i :
  (forall j b, 0 <= j -> l !! Z.to_nat j = Some b -> eq_at j = Ok b) ->
  passed (reverse l) (lenZ l - i) -> i < Z.of_nat fuel ->
  exists i', tail_down (E:=E) fuel eq_at i = Ok i' /\ lenZ l - i' = leading (reverse l).
Proof.
  intros Heq. revert i. induction fuel as [|fuel IH]; intros i Hp Hf;
    pose proof Hp as [Hi Hl]; rewrite lenZ_reverse in Hi; simpl; [lia|].
  destruct (Z.ltb_spec 0 i) as [Hlt|].
  - destruct (lookup_lt_is_Some_2 (reverse l) (Z.to_nat (lenZ l - i))) as [b Hb];
      [rewrite length_reverse; unfold lenZ in *; lia|].
    rewrite (Heq (i - 1) b); [|lia|].
    2: { apply reverse_lookup_Z in Hb; [|lia]. rewrite <- Hb. do 2 f_equal. lia. }
    cbn [bind]. destruct b.
    + apply IH; [|lia]. replace (lenZ l - (i - 1)) with (lenZ l - i + 1) by lia.
      split; [rewrite lenZ_reverse; lia|]. rewrite Hl, leading_go by (done || lia). lia.
    + exists i. split; [done|]. rewrite Hl, leading_stop; [lia|rewrite lenZ_reverse; lia|done].
  - exists i. split; [done|]. rewrite Hl.
    rewrite drop_ge by (rewrite length_reverse; unfold lenZ in *; lia). simpl. lia.
Qed.

Lemma passed_down_0 (l : list bool) : passed (reverse l) (lenZ l - lenZ l).
Proof. rewrite Z.sub_diag. apply passed_0. Qed.

Lemma down_tail_ok (l : list bool) eq_at i :
  (forall j b, 0 <= j -> l !! Z.to_nat j = Some b -> eq_at j = Ok b) ->
  passed (reverse l) (lenZ l - i) ->
  (let* i := tail_down (E:=E) (scan_fuel (lenZ l)) eq_at i in Ok (lenZ l - i))
  = Ok (leading (reverse l)).
Proof.
  intros Heq Hp. destruct (tail_down_ok l eq_at (scan_fuel (lenZ l)) i Heq Hp) as (i' & -> & Hi').
  - destruct Hp as [Hi _]. rewrite lenZ_reverse in Hi. unfold scan_fuel. lia.
  - cbn [bind]. by rewrite Hi'.
Qed.

Lemma scan_down_ok (l : list bool) w probe eq_at :
  0 < w ->
  (forall j, 0 <= j -> j + w <= lenZ l -> probe j = Ok (decide_block w (reverse (block l j w)))) ->
  (forall j b, 0 <= j -> l !! Z.to_nat j = Some b -> eq_at j = Ok b) ->
  (let* r := chunks_down (E:=E) (scan_fuel (lenZ l)) w probe (lenZ l) (lenZ l) in
   match r with
   | inl k => Ok k
   | inr i => let* i := tail_down (scan_fuel (lenZ l)) eq_at i in Ok (lenZ l - i)
   end) = Ok (leading (reverse l)).
Proof.
  intros Hw Hprobe Heq.
  destruct (chunks_down_ok l w probe (scan_fuel (lenZ l)) (lenZ l)) as ([k|i] & -> & Hr);
    auto using passed_down_0; cbn [bind].
  - pose proof (lenZ_nonneg l). unfold scan_fuel. lia.
  - simpl in Hr. by subst.
  - by apply down_tail_ok.
Qed.

Lemma scan_down2_ok (l : list bool) w w' probe probe' eq_at :
  0 < w -> 0 < w' ->
  (forall j, 0 <= j -> j + w <= lenZ l -> probe j = Ok (decide_block w (reverse (block l j w)))) ->
  (forall j, 0 <= j -> j + w' <= lenZ l ->
     probe' j = Ok (decide_block w' (reverse (block l j w')))) ->
  (forall j b, 0 <= j -> l !! Z.to_nat j = Some b -> eq_at j = Ok b) ->
  (let* r := chunks_down (E:=E) (scan_fuel (lenZ l)) w probe (lenZ l) (lenZ l) in
   match r with
   | inl k => Ok k
   | inr i =>
       let* r :=
         if w' <=? i then
           let* o := probe' (i - w') in
           match o with Some k => Ok (inl (lenZ l - i + k)) | None => Ok (inr (i - w')) end
         else Ok (inr i) in
       match r with
       | inl k => Ok k
       | inr i => let* i := tail_down (scan_fuel (lenZ l)) eq_at i in Ok (lenZ l - i)
       end
   end) = Ok (leading (reverse l)).
Proof.
  intros Hw Hw' Hprobe Hprobe' Heq.
  destruct (chunks_down_ok l w probe (scan_fuel (lenZ l)) (lenZ l)) as ([k|i] & -> & Hr);
    auto using passed_down_0; cbn [bind].
  - pose proof (lenZ_nonneg l). unfold scan_fuel. lia.
  - simpl in Hr. by subst.
  - simpl in Hr. destruct (Z.leb_spec w' i) as [Hle|]; [|by apply down_tail_ok].
    pose proof Hr as [Hi _]. rewrite lenZ_reverse in Hi. rewrite Hprobe' by lia. cbn [bind].
    pose proof (block_step_down l i w' (conj Hw' Hle) Hr) as Hb.
    destruct (decide_block w' (reverse (block l (i - w') w'))) as [k|]; cbn [bind]; [ok_lia|].
    by apply down_tail_ok.
Qed.
End Loops.

(** ** Masks *)

Lemma pos_trailing_zeros_nonneg p : 0 <= pos_trailing_zeros p.
Proof. induction p as [p _|p IH|]; [done| |done]. cbn [pos_trailing_zeros]. lia. Qed.

Lemma trailing_zeros_double w x : 0 < x -> trailing_zeros w (2 * x) = 1 + trailing_zeros w x.
Proof. destruct x as [|p|p]; [lia|done|lia]. Qed.

Lemma trailing_zeros_shift w n x :
  0 <= n -> 0 < x -> trailing_zeros w (2 ^ n * x) = n + trailing_zeros w x.
Proof.
  intros Hn Hx. revert n Hn. apply natlike_ind; [by rewrite Z.mul_1_l|].
  intros n Hn IH. rewrite Z.pow_succ_r, <- Z.mul_assoc, trailing_zeros_double by nia. lia.
Qed.

Lemma trailing_zeros_odd w x : 0 < x -> Z.odd x = true -> trailing_zeros w x = 0.
Proof. destruct x as [|p|p]; [lia| |lia]. by destruct p. Qed.

(** The trailing zeros of a number whose low [n] bits are not all zero. *)
Lemma trailing_zeros_low w n c x :
  0 <= n -> 0 < c < 2 ^ n -> 0 <= x -> 0 <= trailing_zeros w (c + 2 ^ n * x) < n.
Proof.
  intros Hn. revert n Hn c. apply (natlike_ind (fun n => forall c, _ -> _ -> _)); [intros; lia|].
  intros n Hn IH c Hc Hx. rewrite Z.pow_succ_r in * by lia.
  assert (0 <= 2 ^ n * x) by (apply Z.mul_nonneg_nonneg; [apply Z.pow_nonneg|]; lia).
  destruct (Z.odd c) eqn:Ho.
  - rewrite trailing_zeros_odd; [lia|lia|].
    rewrite <- Z.mul_assoc, Z.odd_add_mul_2. done.
  - assert (exists d, c = 2 * d) as [d ->].
    { exists (c / 2). rewrite <- Z.negb_even in Ho. apply negb_false_iff, Z.even_spec in Ho as [k ->].
      dlia. }
    rewrite <- Z.mul_assoc, <- Z.mul_add_distr_l, trailing_zeros_double by lia.
    specialize (IH d ltac:(lia) Hx). lia.
Qed.

Lemma movemask_range l : 0 <= movemask_epi8 l < 2 ^ lenZ l.
Proof.
  induction l as [|b l IH]; [done|]. rewrite lenZ_cons. pose proof (lenZ_nonneg l).
  rewrite Z.pow_add_r by lia. simpl. destruct b; simpl; lia.
Qed.

Lemma movemask_not l : not_w (lenZ l) (movemask_epi8 l) = movemask_epi8 (map negb l).
Proof.
  unfold not_w. induction l as [|b l IH]; [done|]. rewrite lenZ_cons. pose proof (lenZ_nonneg l).
  rewrite Z.pow_add_r by lia. simpl in *. destruct b; simpl; lia.
Qed.

Lemma movemask_zero l : movemask_epi8 (map negb l) = 0 <-> leading l = lenZ l.
Proof.
  induction l as [|b l IH]; [done|]. rewrite lenZ_cons. pose proof (lenZ_nonneg l).
  pose proof (movemask_range (map negb l)). simpl. destruct b; simpl; lia.
Qed.

Lemma movemask_front w l :
  leading l <> lenZ l -> trailing_zeros w (movemask_epi8 (map negb l)) = leading l.
Proof.
  induction l as [|b l IH]; [done|]. rewrite lenZ_cons. pose proof (movemask_range (map negb l)).
  destruct b; cbn [leading map movemask_epi8 foldr negb Z.b2z]; intros Hne.
  - fold (movemask_epi8 (map negb l)). pose proof (proj1 (movemask_zero l)).
    rewrite Z.add_0_l, trailing_zeros_double by lia. rewrite IH by lia. done.
  - fold (movemask_epi8 (map negb l)). apply trailing_zeros_odd; [lia|].
    rewrite Z.odd_add_mul_2. done.
Qed.

Lemma movemask_app l b :
  movemask_epi8 (l ++ [b]) = movemask_epi8 l + Z.b2z b * 2 ^ lenZ l.
Proof.
  induction l as [|c l IH]; [simpl; change (lenZ []) with 0; lia|].
  rewrite lenZ_cons. pose proof (lenZ_nonneg l). rewrite Z.pow_add_r by lia. simpl in *. lia.
Qed.

Lemma leading_reverse_snoc l b :
  leading (reverse (l ++ [b])) = if b then 1 + leading (reverse l) else 0.
Proof. rewrite reverse_snoc. by destruct b. Qed.

Lemma leading_reverse_all l : leading (reverse l) = lenZ l <-> leading l = lenZ l.
Proof.
  assert (lenZ l = lenZ (reverse l)) as Hr by (by rewrite lenZ_reverse).
  rewrite Hr at 1. rewrite !leading_all. split; intros H.
  - rewrite <- (reverse_involutive l). by apply Forall_reverse.
  - by apply Forall_reverse.
Qed.

Lemma movemask_back l :
  leading (reverse l) <> lenZ l ->
  leading_zeros (lenZ l) (movemask_epi8 (map negb l)) = leading (reverse l).
Proof.
  induction l as [|b l IH] using rev_ind; [done|].
  rewrite map_app, leading_reverse_snoc, lenZ_app. simpl. rewrite movemask_app.
  change (lenZ [b]) with 1. pose proof (lenZ_nonneg l). pose proof (movemask_range (map negb l)) as Hr.
  assert (lenZ (map negb l) = lenZ l) as Hm by (unfold lenZ; by rewrite length_map).
  rewrite Hm in *. unfold leading_zeros in *. destruct b; simpl; intros Hne.
  - rewrite Z.add_0_r. assert (movemask_epi8 (map negb l) <> 0).
    { rewrite movemask_zero, <- leading_reverse_all. lia. }
    rewrite (proj2 (Z.eqb_neq _ 0)) in * by done. rewrite <- IH by lia. lia.
  - rewrite (proj2 (Z.eqb_neq _ 0)) by lia. rewrite (Z.log2_unique _ (lenZ l)); [lia|lia|].
    rewrite Z.pow_succ_r by lia. lia.
Qed.

(** A comparison of [w] lanes, from the front or from the back. *)
Definition front_test (w : Z) (test : bytes -> bytes -> option Z) : Prop :=
  forall a b, wf_bytes a -> wf_bytes b -> lenZ a = w -> lenZ b = w ->
    test a b = decide_block w (cmpeq_epi8 a b).

Definition back_test (w : Z) (test : bytes -> bytes -> option Z) : Prop :=
  forall a b, wf_bytes a -> wf_bytes b -> lenZ a = w -> lenZ b = w ->
    test a b = decide_block w (reverse (cmpeq_epi8 a b)).

Lemma cmpeq_length a b : lenZ a = lenZ b -> lenZ (cmpeq_epi8 a b) = lenZ a.
Proof. intros H. unfold cmpeq_epi8, lenZ in *. rewrite length_zip_with. lia. Qed.

Lemma mask_all l : (movemask_epi8 l =? 2 ^ lenZ l - 1) = (leading l =? lenZ l).
Proof.
  pose proof (movemask_not l) as Hn. unfold not_w in Hn. pose proof (movemask_zero l).
  destruct (Z.eqb_spec (movemask_epi8 l) (2 ^ lenZ l - 1)), (Z.eqb_spec (leading l) (lenZ l)); lia.
Qed.

Lemma mask_front_ok w : front_test w (mask_front w).
Proof.
  intros a b _ _ Ha Hb. unfold mask_front, decide_block.
  pose proof (cmpeq_length a b ltac:(lia)) as Hl. rewrite Ha in Hl. rewrite <- Hl, mask_all.
  destruct (Z.eqb_spec (leading (cmpeq_epi8 a b)) (lenZ (cmpeq_epi8 a b))); [done|]. simpl.
  rewrite movemask_not. f_equal. by apply movemask_front.
Qed.

Lemma mask_back_ok w : back_test w (mask_back w).
Proof.
  intros a b _ _ Ha Hb. unfold mask_back, decide_block, leading_ones.
  pose proof (cmpeq_length a b ltac:(lia)) as Hl. rewrite Ha in Hl. rewrite <- Hl, mask_all.
  pose proof (leading_reverse_all (cmpeq_epi8 a b)).
  destruct (Z.eqb_spec (leading (cmpeq_epi8 a b)) (lenZ (cmpeq_epi8 a b))),
    (Z.eqb_spec (leading (reverse (cmpeq_epi8 a b))) (lenZ (cmpeq_epi8 a b))); try done; try tauto.
  simpl. rewrite movemask_not. f_equal. by apply movemask_back.
Qed.

(** ** NEON comparisons *)

Definition lane_byte (b : bool) : Z := if b then 255 else 0.

Lemma vceqq_lanes a b : vceqq_u8 a b = map lane_byte (cmpeq_epi8 a b).
Proof.
  unfold vceqq_u8, cmpeq_epi8. revert b. induction a as [|x a IH]; intros [|y b]; simpl; try done.
  rewrite IH. by destruct (x =? y).
Qed.

Lemma vminvq_lanes l : vminvq_u8 (map lane_byte l) = if leading l =? lenZ l then 255 else 0.
Proof.
  induction l as [|b l IH]; [done|]. rewrite lenZ_cons. pose proof (leading_range l).
  unfold vminvq_u8 in *. destruct b; cbn [map foldr lane_byte leading]; rewrite IH.
  - destruct (Z.eqb_spec (leading l) (lenZ l)), (Z.eqb_spec (1 + leading l) (1 + lenZ l)); lia.
  - rewrite (proj2 (Z.eqb_neq 0 _)) by lia. by destruct (leading l =? lenZ l).
Qed.

Lemma first_nonzero_lanes l :
  first_nonzero (vmvnq_u8 (map lane_byte l)) = if leading l =? lenZ l then None else Some (leading l).
Proof.
  induction l as [|b l IH]; [done|]. rewrite lenZ_cons. pose proof (leading_range l).
  unfold vmvnq_u8 in *. destruct b; cbn [map lane_byte first_nonzero leading].
  - change (negb (255 - 255 =? 0)) with false. cbv iota. rewrite IH.
    destruct (Z.eqb_spec (leading l) (lenZ l)), (Z.eqb_spec (1 + leading l) (1 + lenZ l)); try lia;
      [done|]. f_equal. lia.
  - by rewrite (proj2 (Z.eqb_neq 0 _)) by lia.
Qed.

Lemma neon_front_ok : front_test 16 neon_front.
Proof.
  intros a b _ _ Ha Hb. unfold neon_front, decide_block.
  pose proof (cmpeq_length a b ltac:(lia)) as Hl.
  rewrite vceqq_lanes, vminvq_lanes, first_nonzero_lanes, Hl, Ha.
  by destruct (leading (cmpeq_epi8 a b) =? 16).
Qed.

Lemma map_reverse {A C} (f : A -> C) l : map f (reverse l) = reverse (map f l).
Proof. unfold reverse. rewrite <- !rev_alt. apply map_rev. Qed.

Lemma neon_back_ok : back_test 16 neon_back.
Proof.
  intros a b _ _ Ha Hb. unfold neon_back, decide_block, last_nonzero.
  pose proof (cmpeq_length a b ltac:(lia)) as Hl. rewrite Ha in Hl.
  rewrite vceqq_lanes, vminvq_lanes, Hl. unfold vmvnq_u8. rewrite <- !map_reverse.
  rewrite first_nonzero_lanes, lenZ_reverse, Hl.
  pose proof (leading_reverse_all (cmpeq_epi8 a b)) as Hr. rewrite Hl in Hr.
  destruct (Z.eqb_spec (leading (cmpeq_epi8 a b)) 16),
    (Z.eqb_spec (leading (reverse (cmpeq_epi8 a b))) 16); try done; tauto.
Qed.

(** ** Word comparisons *)

Lemma log2_in_range n a : 0 < n -> in_range n a -> Z.log2 a < n.
Proof.
  unfold in_range. intros Hn Ha. destruct (Z.eq_dec a 0) as [->|]; [done|].
  apply Z.log2_lt_pow2; lia.
Qed.

Lemma lxor_range n a b : 0 <= n -> in_range n a -> in_range n b -> in_range n (Z.lxor a b).
Proof.
  intros Hn Ha Hb. destruct (Z.eq_dec n 0) as [->|Hne].
  { unfold in_range in *. assert (a = 0 /\ b = 0) as [-> ->] by lia. done. }
  pose proof (log2_in_range n a ltac:(lia) Ha). pose proof (log2_in_range n b ltac:(lia) Hb).
  unfold in_range in *. assert (0 <= Z.lxor a b) by (apply Z.lxor_nonneg; lia). split; [done|].
  destruct (Z.eq_dec (Z.lxor a b) 0) as [->|]; [lia|].
  apply Z.log2_lt_pow2; [lia|]. pose proof (Z.log2_lxor a b ltac:(lia) ltac:(lia)). lia.
Qed.

Lemma lxor_u8 a b : is_u8 a -> is_u8 b -> is_u8 (Z.lxor a b) /\ (Z.lxor a b = 0 <-> a = b).
Proof. intros Ha Hb. split; [by apply lxor_range|apply Z.lxor_eq_0_iff]. Qed.

(** XOR works on the two parts of a split word separately. *)
Lemma lxor_split n a b u v :
  0 <= n -> in_range n a -> in_range n b ->
  Z.lxor (a + 2 ^ n * u) (b + 2 ^ n * v) = Z.lxor a b + 2 ^ n * Z.lxor u v.
Proof.
  intros Hn Ha Hb. pose proof (lxor_range n a b Hn Ha Hb) as Hx.
  assert (forall x y, in_range n x -> x + 2 ^ n * y = Z.lor (Z.shiftl y n) x) as Hlor.
  { intros x y Hxr. rewrite lor_shiftl_add by done. lia. }
  rewrite !Hlor by done. apply Z.bits_inj'. intros i Hi.
  rewrite Z.lxor_spec, !Z.lor_spec, Z.lxor_spec. destruct (Z.lt_ge_cases i n).
  - by rewrite !Z.shiftl_spec_low.
  - rewrite !Z.shiftl_spec, Z.lxor_spec by lia.
    rewrite (testbit_high a n i), (testbit_high b n i) by (done || lia).
    by rewrite !orb_false_r.
Qed.

Lemma le_value_range l : wf_bytes l -> in_range (8 * lenZ l) (le_value l).
Proof.
  unfold in_range. induction l as [|b l IH]; [done|]. intros [Hb Hl]%wf_bytes_cons.
  specialize (IH Hl). rewrite lenZ_cons. pose proof (lenZ_nonneg l). unfold in_range in Hb.
  replace (8 * (1 + lenZ l)) with (8 + 8 * lenZ l) by lia. rewrite Z.pow_add_r by lia.
  simpl in *. lia.
Qed.

Lemma le_value_snoc l b : le_value (l ++ [b]) = le_value l + 2 ^ (8 * lenZ l) * b.
Proof.
  induction l as [|a l IH]; [change (lenZ (@nil Z)) with 0; simpl; lia|]. rewrite lenZ_cons. pose proof (lenZ_nonneg l).
  replace (8 * (1 + lenZ l)) with (8 + 8 * lenZ l) by lia. rewrite Z.pow_add_r by lia.
  simpl in *. rewrite IH. lia.
Qed.

(** Of two byte strings of equal length, the XOR of their little-endian values
    is zero when they agree; otherwise its trailing zeros count the bytes equal
    from the front, and its leading zeros those equal from the back. *)
Lemma le_front w a b :
  length a = length b -> wf_bytes a -> wf_bytes b ->
  let x := Z.lxor (le_value a) (le_value b) in
  0 <= x /\ (x = 0 <-> leading (cmpeq_epi8 a b) = lenZ a) /\
  (x <> 0 -> trailing_zeros w x / 8 = leading (cmpeq_epi8 a b)).
Proof.
  revert b. induction a as [|p a IH]; intros [|q b] Hl Ha Hb; try done.
  apply wf_bytes_cons in Ha as [Hp Ha], Hb as [Hq Hb]. injection Hl as Hl.
  destruct (IH b Hl Ha Hb) as (Hx & Hz & Ht). clear IH.
  cbv zeta in *. set (x := Z.lxor (le_value a) (le_value b)) in *.
  assert (Z.lxor (le_value (p :: a)) (le_value (q :: b)) = Z.lxor p q + 2 ^ 8 * x) as ->.
  { subst x. rewrite <- lxor_split by (done || lia). done. }
  destruct (lxor_u8 p q Hp Hq) as [Hpq H0]. unfold in_range in Hpq. rewrite lenZ_cons.
  cbn [cmpeq_epi8 zip_with leading]. fold (cmpeq_epi8 a b). pose proof (lenZ_nonneg a).
  destruct (Z.eqb_spec p q) as [Heq|Hne]; cbn [leading].
  - rewrite (proj2 H0 Heq), Z.add_0_l. split; [lia|]. split; [lia|]. intros Hne.
    rewrite trailing_zeros_shift by lia. rewrite <- Ht by lia.
    replace (8 + trailing_zeros w x) with (trailing_zeros w x + 1 * 8) by lia.
    rewrite Z.div_add by lia. lia.
  - assert (Z.lxor p q <> 0) by tauto. split; [lia|]. split; [lia|]. intros _.
    pose proof (trailing_zeros_low w 8 (Z.lxor p q) x). apply Z.div_small. lia.
Qed.

Lemma cmpeq_snoc a b p q :
  length a = length b -> cmpeq_epi8 (a ++ [p]) (b ++ [q]) = cmpeq_epi8 a b ++ [p =? q].
Proof. intros Hl. unfold cmpeq_epi8. by rewrite zip_with_app. Qed.

Lemma le_back a b :
  length a = length b -> wf_bytes a -> wf_bytes b ->
  let x := Z.lxor (le_value a) (le_value b) in
  in_range (8 * lenZ a) x /\
  (x <> 0 -> leading_zeros (8 * lenZ a) x / 8 = leading (reverse (cmpeq_epi8 a b))).
Proof.
  revert b. induction a as [|p a IH] using rev_ind; intros b Hl Ha Hb.
  { destruct b; [|done]. split; [done|]. by intros. }
  rewrite length_app in Hl. simpl in Hl.
  destruct b as [|q b _] using rev_ind; [simpl in Hl; lia|].
  rewrite length_app in Hl. simpl in Hl.
  apply wf_bytes_app in Ha as [Ha Hp], Hb as [Hb Hq].
  apply wf_bytes_cons in Hp as [Hp _], Hq as [Hq _].
  assert (length a = length b) as Hab by lia.
  destruct (IH b Hab Ha Hb) as (Hx & Hlz). clear IH. cbv zeta in *.
  assert (lenZ a = lenZ b) as Hlz' by (unfold lenZ; lia).
  rewrite !le_value_snoc, cmpeq_snoc, leading_reverse_snoc, lenZ_app by done.
  pose proof (le_value_range a Ha) as Hra. pose proof (le_value_range b Hb) as Hrb.
  rewrite <- Hlz' in Hrb |- *. pose proof (lenZ_nonneg a).
  rewrite lxor_split by (done || lia). set (x := Z.lxor (le_value a) (le_value b)) in *.
  destruct (lxor_u8 p q Hp Hq) as [Hpq H0]. unfold in_range in Hpq, Hx |- *.
  change (lenZ [p]) with 1. replace (8 * (lenZ a + 1)) with (8 * lenZ a + 8) by lia.
  rewrite Z.pow_add_r by lia. unfold leading_zeros in *.
  assert (0 < 2 ^ (8 * lenZ a)) by (apply Z.pow_pos_nonneg; lia).
  split; [nia|]. destruct (Z.eqb_spec p q) as [Heq|Hne].
  - rewrite (proj2 H0 Heq), Z.mul_0_r, Z.add_0_r. intros Hne. specialize (Hlz Hne).
    rewrite (proj2 (Z.eqb_neq _ _)) in * by done. rewrite <- Hlz.
    replace (8 * lenZ a + 8 - 1 - Z.log2 x) with (8 * lenZ a - 1 - Z.log2 x + 1 * 8) by lia.
    rewrite Z.div_add by lia. lia.
  - assert (Z.lxor p q <> 0) by tauto. intros _. rewrite (proj2 (Z.eqb_neq _ _)) by nia.
    apply Z.div_small.
    assert (8 * lenZ a <= Z.log2 (x + 2 ^ (8 * lenZ a) * Z.lxor p q) < 8 * lenZ a + 8); [|lia].
    split.
    + apply Z.log2_le_pow2; nia.
    + apply Z.log2_lt_pow2; [nia|]. rewrite Z.pow_add_r by lia. nia.
Qed.

Lemma cmpeq_reverse a b :
  length a = length b -> cmpeq_epi8 (reverse a) (reverse b) = reverse (cmpeq_epi8 a b).
Proof.
  revert b. induction a as [|p a IH]; intros [|q b] Hl; try done. injection Hl as Hl.
  rewrite !reverse_cons, cmpeq_snoc by (by rewrite !length_reverse). rewrite IH by done.
  cbn [cmpeq_epi8 zip_with]. by rewrite reverse_cons.
Qed.

Lemma wf_reverse l : wf_bytes l -> wf_bytes (reverse l).
Proof. apply Forall_reverse. Qed.

Lemma lenZ_length {A C} (a : list A) (b : list C) w : lenZ a = w -> lenZ b = w -> length a = length b.
Proof. unfold lenZ. lia. Qed.

(** On either byte order the portable test finds the first mismatch. *)
Lemma u64_front_ok little : front_test 8 (u64_front little).
Proof.
  intros a b Ha Hb Hla Hlb. pose proof (lenZ_length _ _ _ Hla Hlb) as Hl.
  unfold u64_front, u64_value, decide_block. destruct little.
  - destruct (le_front 64 a b Hl Ha Hb) as (_ & Hz & Ht). cbv zeta in *. rewrite Hla in Hz.
    destruct (Z.eqb_spec (Z.lxor (le_value a) (le_value b)) 0),
      (Z.eqb_spec (leading (cmpeq_epi8 a b)) 8); try done; try tauto.
    simpl. by rewrite Ht.
  - assert (length (reverse a) = length (reverse b)) as Hlr by (by rewrite !length_reverse).
    destruct (le_front 64 _ _ Hlr (wf_reverse _ Ha) (wf_reverse _ Hb)) as (_ & Hz & _).
    destruct (le_back _ _ Hlr (wf_reverse _ Ha) (wf_reverse _ Hb)) as (_ & Ht).
    cbv zeta in *. rewrite cmpeq_reverse in Hz, Ht by done. rewrite reverse_involutive in Ht.
    assert (lenZ (reverse a) = 8) as H8 by (unfold lenZ in *; by rewrite length_reverse).
    rewrite H8 in *. pose proof (leading_reverse_all (cmpeq_epi8 a b)) as Hr.
    rewrite cmpeq_length in Hr by lia. rewrite Hla in Hr.
    destruct (Z.eqb_spec (Z.lxor (le_value (reverse a)) (le_value (reverse b))) 0),
      (Z.eqb_spec (leading (cmpeq_epi8 a b)) 8); try done; try tauto.
    simpl. by rewrite <- Ht.
Qed.

Lemma u64_back_ok little : back_test 8 (u64_back little).
Proof.
  intros a b Ha Hb Hla Hlb. pose proof (lenZ_length _ _ _ Hla Hlb) as Hl.
  pose proof (leading_reverse_all (cmpeq_epi8 a b)) as Hr.
  rewrite cmpeq_length in Hr by lia. rewrite Hla in Hr.
  unfold u64_back, u64_value, decide_block. destruct little.
  - destruct (le_front 64 a b Hl Ha Hb) as (_ & Hz & _).
    destruct (le_back a b Hl Ha Hb) as (_ & Ht). cbv zeta in *. rewrite Hla in *.
    destruct (Z.eqb_spec (Z.lxor (le_value a) (le_value b)) 0),
      (Z.eqb_spec (leading (reverse (cmpeq_epi8 a b))) 8); try done; try tauto.
    simpl. by rewrite <- Ht.
  - assert (length (reverse a) = length (reverse b)) as Hlr by (by rewrite !length_reverse).
    destruct (le_front 64 _ _ Hlr (wf_reverse _ Ha) (wf_reverse _ Hb)) as (_ & Hz & Ht).
    cbv zeta in *. rewrite cmpeq_reverse in Hz, Ht by done.
    assert (lenZ (reverse a) = 8) as H8 by (unfold lenZ in *; by rewrite length_reverse).
    rewrite H8 in *.
    destruct (Z.eqb_spec (Z.lxor (le_value (reverse a)) (le_value (reverse b))) 0),
      (Z.eqb_spec (leading (reverse (cmpeq_epi8 a b))) 8); try done; try tauto.
    simpl. by rewrite Ht.
Qed.

(** ** Every kernel computes the reference *)

Lemma cmpeq_take n a b : cmpeq_epi8 (take n a) (take n b) = take n (cmpeq_epi8 a b).
Proof.
  unfold cmpeq_epi8. revert a b. induction n as [|n IH]; intros [|x a] [|y b]; try done.
  simpl. by rewrite IH.
Qed.

Lemma cmpeq_drop n a b : cmpeq_epi8 (drop n a) (drop n b) = drop n (cmpeq_epi8 a b).
Proof.
  unfold cmpeq_epi8. revert a b. induction n as [|n IH]; intros [|x a] [|y b]; try done; simpl.
  - by destruct (drop n a).
  - apply IH.
Qed.

Lemma same_bytes_length s1 s2 n :
  0 <= n -> n <= lenZ s1 -> n <= lenZ s2 -> lenZ (same_bytes s1 s2 n) = n.
Proof.
  intros. unfold same_bytes, cmpeq_epi8, lenZ in *. rewrite length_take, length_zip_with. lia.
Qed.

Lemma same_byte_length data byte n : 0 <= n -> n <= lenZ data -> lenZ (same_byte data byte n) = n.
Proof. intros. unfold same_byte, lenZ in *. rewrite length_map, length_take. lia. Qed.

Lemma same_byte_bytes data byte n :
  0 <= n -> n <= lenZ data ->
  same_byte data byte n = same_bytes data (replicate (length data) byte) n.
Proof.
  intros Hn _. unfold same_byte, same_bytes. rewrite <- firstn_map. f_equal.
  unfold cmpeq_epi8. induction data as [|x data IH]; simpl; [done|]. by rewrite IH.
Qed.

Lemma sub_cmpeq s1 s2 n j w :
  0 <= j -> 0 <= w -> j + w <= n ->
  cmpeq_epi8 (sub s1 j w) (sub s2 j w) = block (same_bytes s1 s2 n) j w.
Proof.
  intros Hj Hw Hn. unfold sub, block, same_bytes.
  rewrite cmpeq_take, cmpeq_drop, skipn_firstn_comm, take_take. f_equal. lia.
Qed.

Lemma sub_wf l j w : wf_bytes l -> wf_bytes (sub l j w).
Proof. intros. by apply Forall_take, Forall_drop. Qed.

Section Equivalence.
Context {E : Type}.

Lemma load_ok s i w : 0 <= i -> 0 <= w -> i + w <= lenZ s -> load (E:=E) s i w = Ok (sub s i w).
Proof. intros. unfold load. rewrite slice_ok by lia. do 2 f_equal. lia. Qed.

Section Two.
Context (s1 s2 : bytes) (n : Z).
Hypothesis wf : wf_bytes s1 /\ wf_bytes s2.
Hypothesis inside : 0 <= n /\ n <= lenZ s1 /\ n <= lenZ s2.

Lemma probe2_front w test j :
  front_test w test -> 0 <= w -> 0 <= j -> j + w <= n ->
  probe2 (E:=E) w test s1 s2 j = Ok (decide_block w (block (same_bytes s1 s2 n) j w)).
Proof.
  intros Ht Hw Hj Hn. unfold probe2. rewrite !load_ok by lia. cbn [bind]. destruct wf as [Hw1 Hw2].
  rewrite Ht, (sub_cmpeq _ _ n); try done; try lia; try (by apply sub_wf); apply sub_length; lia.
Qed.

Lemma probe2_back w test j :
  back_test w test -> 0 <= w -> 0 <= j -> j + w <= n ->
  probe2 (E:=E) w test s1 s2 j = Ok (decide_block w (reverse (block (same_bytes s1 s2 n) j w))).
Proof.
  intros Ht Hw Hj Hn. unfold probe2. rewrite !load_ok by lia. cbn [bind]. destruct wf as [Hw1 Hw2].
  rewrite Ht, (sub_cmpeq _ _ n); try done; try lia; try (by apply sub_wf); apply sub_length; lia.
Qed.

Lemma eq_bytes_ok j b :
  0 <= j -> same_bytes s1 s2 n !! Z.to_nat j = Some b -> eq_bytes (E:=E) s1 s2 j = Ok b.
Proof.
  intros Hj Hb. unfold same_bytes, cmpeq_epi8 in Hb.
  assert (zip_with Z.eqb s1 s2 !! Z.to_nat j = Some b) as Hz.
  { destruct (Nat.lt_ge_cases (Z.to_nat j) (Z.to_nat n)).
  - by rewrite lookup_take_lt in Hb.
  - by rewrite lookup_take_ge in Hb. }
  apply lookup_zip_with_Some in Hz as (x & y & -> & Hx & Hy). unfold eq_bytes.
  by rewrite (index_lookup _ _ x), (index_lookup _ _ y) by done.
Qed.

Lemma forward_kernels c : forward_match_fn (E:=E) c s1 s2 n = Ok (match_forward s1 s2 n).
Proof.
  unfold match_forward. pose proof (same_bytes_length s1 s2 n) as Hl.
  rewrite <- Hl at 1 by lia. unfold forward_match_fn.
  assert (lenZ (same_bytes s1 s2 n) = n) as Hl' by (apply Hl; lia). clear Hl.
  destruct c as [| | | |little].
  1: apply (scan_up2_ok _ 32 16); try done; intros; try (by apply eq_bytes_ok);
   apply probe2_front; try apply mask_front_ok; lia.
  all: apply scan_up_ok; try done; intros; try (by apply eq_bytes_ok);
   apply probe2_front; try lia; auto using mask_front_ok, neon_front_ok, u64_front_ok.
Qed.

Lemma backward_kernels c : backward_match_fn (E:=E) c s1 s2 n = Ok (match_backward s1 s2 n).
Proof.
  unfold match_backward. pose proof (same_bytes_length s1 s2 n) as Hl.
  rewrite <- Hl at 1 by lia. unfold backward_match_fn.
  assert (lenZ (same_bytes s1 s2 n) = n) as Hl' by (apply Hl; lia). clear Hl.
  destruct c as [| | | |little].
  1: apply (scan_down2_ok _ 32 16); try done; intros; try (by apply eq_bytes_ok);
   apply probe2_back; try apply mask_back_ok; lia.
  all: apply scan_down_ok; try done; intros; try (by apply eq_bytes_ok);
   apply probe2_back; try lia; auto using mask_back_ok, neon_back_ok, u64_back_ok.
Qed.
End Two.

Lemma replicate_sub byte (data : bytes) j w :
  0 <= j -> 0 <= w -> j + w <= lenZ data ->
  sub (replicate (length data) byte) j w = replicate (Z.to_nat w) byte.
Proof. intros. unfold sub, lenZ in *. rewrite drop_replicate, take_replicate. f_equal. lia. Qed.

Lemma run_kernels c data byte n :
  wf_bytes data -> is_u8 byte -> 0 <= n <= lenZ data ->
  run_length_fn (E:=E) c data byte n = Ok (run_of data byte n).
Proof.
  intros Hd Hb Hn. unfold run_of. pose proof (same_byte_length data byte n) as Hl.
  rewrite <- Hl at 1 by lia. assert (lenZ (same_byte data byte n) = n) as Hl' by (apply Hl; lia).
  clear Hl.
  assert (forall j b, 0 <= j -> same_byte data byte n !! Z.to_nat j = Some b ->
            eq_byte (E:=E) data byte j = Ok b) as Heq.
  { intros j b Hj Hjb. unfold same_byte in Hjb. apply list_lookup_fmap_Some in Hjb as (x & -> & Hx).
    apply lookup_take_Some in Hx as [Hx _]. unfold eq_byte. by rewrite (index_lookup _ _ x). }
  assert (forall w test j, front_test w test -> 0 <= w -> 0 <= j -> j + w <= lenZ (same_byte data byte n) ->
            probe1 (E:=E) w test data byte j
            = Ok (decide_block w (block (same_byte data byte n) j w))) as Hprobe.
  { intros w test j Ht Hw Hj Hjn. rewrite Hl' in Hjn. unfold probe1. rewrite load_ok by lia.
    cbn [bind]. rewrite <- (replicate_sub byte data j w), same_byte_bytes by lia.
    rewrite Ht, (sub_cmpeq _ _ n); try done; try lia.
    - by apply sub_wf.
    - apply sub_wf. by apply Forall_replicate.
    - apply sub_length; lia.
    - apply sub_length; rewrite ?lenZ_replicate; unfold lenZ in *; lia. }
  destruct c as [| | | |little]; unfold run_length_fn.
  1: apply (scan_up2_ok _ 32 16); try done; intros; try (by apply Heq);
     apply Hprobe; try apply mask_front_ok; lia.
  1,3: apply scan_up_ok; try done; intros; try (by apply Heq);
     apply Hprobe; try lia; auto using mask_front_ok, neon_front_ok.
  all: apply tail_up_ok; auto using passed_0; unfold scan_fuel; lia.
Qed.
End Equivalence.

(** ** What the reference means *)

Lemma leading_true l k : 0 <= k < leading l -> l !! Z.to_nat k = Some true.
Proof.
  revert k. induction l as [|[] l IH]; cbn [leading]; intros k Hk; try lia.
  destruct (Z.eq_dec k 0) as [->|]; [done|].
  replace (Z.to_nat k) with (S (Z.to_nat (k - 1))) by lia. apply IH. lia.
Qed.

Lemma leading_false l : leading l < lenZ l -> l !! Z.to_nat (leading l) = Some false.
Proof.
  induction l as [|[] l IH]; cbn [leading]; rewrite ?lenZ_cons; intros H; [done| |done].
  pose proof (leading_range l).
  replace (Z.to_nat (1 + leading l)) with (S (Z.to_nat (leading l))) by lia. apply IH. lia.
Qed.

Lemma same_bytes_lookup s1 s2 n k b :
  0 <= k < n -> n <= lenZ s1 -> n <= lenZ s2 -> same_bytes s1 s2 n !! Z.to_nat k = Some b ->
  b = bool_decide (s1 !! Z.to_nat k = s2 !! Z.to_nat k).
Proof.
  intros Hk H1 H2 H. unfold same_bytes, cmpeq_epi8 in H. rewrite lookup_take_lt in H by lia.
  apply lookup_zip_with_Some in H as (x & y & -> & -> & ->).
  destruct (Z.eqb_spec x y) as [->|]; [by rewrite bool_decide_eq_true_2|].
  rewrite bool_decide_eq_false_2; congruence.
Qed.

Lemma match_forward_spec s1 s2 n :
  0 <= n -> n <= lenZ s1 -> n <= lenZ s2 ->
  0 <= match_forward s1 s2 n <= n /\
  (forall k, 0 <= k < match_forward s1 s2 n -> s1 !! Z.to_nat k = s2 !! Z.to_nat k) /\
  (match_forward s1 s2 n < n ->
   s1 !! Z.to_nat (match_forward s1 s2 n) <> s2 !! Z.to_nat (match_forward s1 s2 n)).
Proof.
  intros Hn H1 H2. unfold match_forward. pose proof (same_bytes_length s1 s2 n Hn H1 H2) as Hl.
  pose proof (leading_range (same_bytes s1 s2 n)). split; [lia|]. split.
  - intros k Hk. pose proof (leading_true _ k Hk) as Hb.
    apply same_bytes_lookup in Hb; [|lia..]. symmetry in Hb. by apply bool_decide_eq_true_1 in Hb.
  - intros Hlt. pose proof (leading_false (same_bytes s1 s2 n)) as Hb.
    rewrite Hl in Hb. specialize (Hb Hlt).
    apply same_bytes_lookup in Hb; [|lia..]. symmetry in Hb. by apply bool_decide_eq_false_1 in Hb.
Qed.

Lemma match_backward_spec s1 s2 n :
  0 <= n -> n <= lenZ s1 -> n <= lenZ s2 ->
  0 <= match_backward s1 s2 n <= n /\
  (forall k, 0 <= k < match_backward s1 s2 n ->
     s1 !! Z.to_nat (n - 1 - k) = s2 !! Z.to_nat (n - 1 - k)) /\
  (match_backward s1 s2 n < n ->
   s1 !! Z.to_nat (n - 1 - match_backward s1 s2 n) <> s2 !! Z.to_nat (n - 1 - match_backward s1 s2 n)).
Proof.
  intros Hn H1 H2. unfold match_backward. set (l := same_bytes s1 s2 n).
  pose proof (same_bytes_length s1 s2 n Hn H1 H2) as Hl. fold l in Hl.
  pose proof (leading_range (reverse l)). rewrite lenZ_reverse in *. split; [lia|]. split.
  - intros k Hk. pose proof (leading_true _ k Hk) as Hb.
    apply reverse_lookup_Z in Hb; [|lia]. rewrite Hl in Hb.
    apply same_bytes_lookup in Hb; [|lia..]. symmetry in Hb. by apply bool_decide_eq_true_1 in Hb.
  - intros Hlt. pose proof (leading_false (reverse l)) as Hb. rewrite lenZ_reverse, Hl in Hb.
    specialize (Hb Hlt). apply reverse_lookup_Z in Hb; [|lia]. rewrite Hl in Hb.
    apply same_bytes_lookup in Hb; [|lia..]. symmetry in Hb. by apply bool_decide_eq_false_1 in Hb.
Qed.

Lemma run_of_spec data byte n :
  0 <= n <= lenZ data ->
  0 <= run_of data byte n <= n /\
  (forall k, 0 <= k < run_of data byte n -> data !! Z.to_nat k = Some byte) /\
  (run_of data byte n < n -> data !! Z.to_nat (run_of data byte n) <> Some byte).
Proof.
  intros Hn. unfold run_of. rewrite same_byte_bytes by lia.
  assert (n <= lenZ (replicate (length data) byte)) as H2
    by (rewrite lenZ_replicate; unfold lenZ in *; lia).
  destruct (match_forward_spec data (replicate (length data) byte) n) as (Hr & Ht & Hf); [lia..|].
  unfold match_forward in *. set (r := leading _) in *.
  assert (forall k, 0 <= k < n -> replicate (length data) byte !! Z.to_nat k = Some byte) as Hrep.
  { intros k Hk. apply lookup_replicate. unfold lenZ in *. split; [done|lia]. }
  split; [done|]. split.
  - intros k Hk. rewrite Ht by done. apply Hrep. lia.
  - intros Hlt. specialize (Hf Hlt). by rewrite Hrep in Hf by lia.
Qed.

(** ** Theorems *)

(** C31: the match kernels are correct on every CPU.  Within the bounds their
    callers guarantee (the first [n] bytes of both slices exist), whichever of
    the AVX2, SSE2, NEON and portable kernels the dispatch picked reads only
    inside the slices, and returns the length of the longest common prefix
    (forward) or suffix (backward) of the first [n] bytes. *)
Theorem match_kernels_correct {E} (c : cpu) (s1 s2 : bytes) (n : Z) :
  wf_bytes s1 -> wf_bytes s2 -> 0 <= n -> n <= lenZ s1 -> n <= lenZ s2 ->
  (exists r, forward_match_fn (E:=E) c s1 s2 n = Ok r /\ 0 <= r <= n /\
     (forall k, 0 <= k < r -> s1 !! Z.to_nat k = s2 !! Z.to_nat k) /\
     (r < n -> s1 !! Z.to_nat r <> s2 !! Z.to_nat r)) /\
  (exists r, backward_match_fn (E:=E) c s1 s2 n = Ok r /\ 0 <= r <= n /\
     (forall k, 0 <= k < r -> s1 !! Z.to_nat (n - 1 - k) = s2 !! Z.to_nat (n - 1 - k)) /\
     (r < n -> s1 !! Z.to_nat (n - 1 - r) <> s2 !! Z.to_nat (n - 1 - r))).
Proof.
  intros H1 H2 Hn Hl1 Hl2. split.
  - exists (match_forward s1 s2 n). split; [by apply forward_kernels|].
    by apply match_forward_spec.
  - exists (match_backward s1 s2 n). split; [by apply backward_kernels|].
    by apply match_backward_spec.
Qed.

Lemma match_kernels_correct_witness :
  let s1 := replicate 40 7 ++ [1; 2] in
  let s2 := replicate 40 7 ++ [1; 3] in
  (exists r, forward_match_fn (E:=unit) X86_avx2 s1 s2 42 = Ok r /\ 0 <= r <= 42 /\
     (forall k, 0 <= k < r -> s1 !! Z.to_nat k = s2 !! Z.to_nat k) /\
     (r < 42 -> s1 !! Z.to_nat r <> s2 !! Z.to_nat r)) /\
  (exists r, backward_match_fn (E:=unit) X86_avx2 s1 s2 42 = Ok r /\ 0 <= r <= 42 /\
     (forall k, 0 <= k < r -> s1 !! Z.to_nat (42 - 1 - k) = s2 !! Z.to_nat (42 - 1 - k)) /\
     (r < 42 -> s1 !! Z.to_nat (42 - 1 - r) <> s2 !! Z.to_nat (42 - 1 - r))).
Proof.
  apply (match_kernels_correct X86_avx2 (replicate 40 7 ++ [1; 2]) (replicate 40 7 ++ [1; 3]) 42);
    try done; repeat constructor; done.
Defined.

(** C32: the run-length kernels are correct on every CPU: each returns the
    number of bytes, at most [n], that equal [byte] from the start. *)
Theorem run_kernels_correct {E} (c : cpu) (data : bytes) (byte n : Z) :
  wf_bytes data -> is_u8 byte -> 0 <= n <= lenZ data ->
  exists r, run_length_fn (E:=E) c data byte n = Ok r /\ 0 <= r <= n /\
    (forall k, 0 <= k < r -> data !! Z.to_nat k = Some byte) /\
    (r < n -> data !! Z.to_nat r <> Some byte).
Proof.
  intros Hd Hb Hn. exists (run_of data byte n). split; [by apply run_kernels|].
  by apply run_of_spec.
Qed.

Lemma run_kernels_correct_witness :
  exists r, run_length_fn (E:=unit) Aarch64 (replicate 20 5 ++ [6]) 5 21 = Ok r /\ 0 <= r <= 21 /\
    (forall k, 0 <= k < r -> (replicate 20 5 ++ [6]) !! Z.to_nat k = Some 5) /\
    (r < 21 -> (replicate 20 5 ++ [6]) !! Z.to_nat r <> Some 5).
Proof.
  apply (run_kernels_correct Aarch64 (replicate 20 5 ++ [6]) 5 21); try done.
  repeat constructor; done.
Defined.
