(* ===== verification/HashTables.v ===== *)
(** * Checksums and hash tables ([src/src/hash/rolling.rs], 17-256; [src/src/hash/table.rs])

    The two checksum families that index target and source positions, the
    bucket computation and the two hash tables.  [get_unchecked] outside its
    vector, undefined behaviour in the source, is [Panic] here.  The theorems:
    every unchecked access is inside its table, the rolling update of the large
    checksum equals the checksum of the shifted window, and what an insertion
    makes the lookups return. *)

From stdpp Require Import base numbers list option.
From Stdlib Require Import ZArith Lia.
From S2P Require Import Prelude Varint Source Kernels.

Local Open Scope Z_scope.
Local Open Scope rust_scope.

Definition HASH_MULT_32 : Z := 1597334677.
Definition HASH_CKOFFSET : Z := 1.

Definition SINGLE_HASH : list Z :=
  [
   0xbcd1; 0xbb65; 0x42c2; 0xdffe; 0x9666; 0x431b; 0x8504; 0xeb46; 0x6379; 0xd460; 0xcf14; 0x53cf;
   0xdb51; 0xdb08; 0x12c8; 0xf602; 0xe766; 0x2394; 0x250d; 0xdcbb; 0xa678; 0x02af; 0xa5c6; 0x7ea6;
   0xb645; 0xcb4d; 0xc44b; 0xe5dc; 0x9fe6; 0x5b5c; 0x35f5; 0x701a; 0x220f; 0x6c38; 0x1a56; 0x4ca3;
   0xffc6; 0xb152; 0x8d61; 0x7a58; 0x9025; 0x8b3d; 0xbf0f; 0x95a3; 0xe5f4; 0xc127; 0x3bed; 0x320b;
   0xb7f3; 0x6054; 0x333c; 0xd383; 0x8154; 0x5242; 0x4e0d; 0x0a94; 0x7028; 0x8689; 0x3a22; 0x0980;
   0x1847; 0xb0f1; 0x9b5c; 0x4176; 0xb858; 0xd542; 0x1f6c; 0x2497; 0x6a5a; 0x9fa9; 0x8c5a; 0x7743;
   0xa8a9; 0x9a02; 0x4918; 0x438c; 0xc388; 0x9e2b; 0x4cad; 0x01b6; 0xab19; 0xf777; 0x365f; 0x1eb2;
   0x091e; 0x7bf8; 0x7a8e; 0x5227; 0xeab1; 0x2074; 0x4523; 0xe781; 0x01a3; 0x163d; 0x3b2e; 0x287d;
   0x5e7f; 0xa063; 0xb134; 0x8fae; 0x5e8e; 0xb7b7; 0x4548; 0x1f5a; 0xfa56; 0x7a24; 0x900f; 0x42dc;
   0xcc69; 0x02a0; 0x0b22; 0xdb31; 0x71fe; 0x0c7d; 0x1732; 0x1159; 0xcb09; 0xe1d2; 0x1351; 0x52e9;
   0xf536; 0x5a4f; 0xc316; 0x6bf9; 0x8994; 0xb774; 0x5f3e; 0xf6d6; 0x3a61; 0xf82c; 0xcc22; 0x9d06;
   0x299c; 0x09e5; 0x1eec; 0x514f; 0x8d53; 0xa650; 0x5c6e; 0xc577; 0x7958; 0x71ac; 0x8916; 0x9b4f;
   0x2c09; 0x5211; 0xf6d8; 0xcaaa; 0xf7ef; 0x287f; 0x7a94; 0xab49; 0xfa2c; 0x7222; 0xe457; 0xd71a;
   0x00c3; 0x1a76; 0xe98c; 0xc037; 0x8208; 0x5c2d; 0xdfda; 0xe5f5; 0x0b45; 0x15ce; 0x8a7e; 0xfcad;
   0xaa2d; 0x4b5c; 0xd42e; 0xb251; 0x907e; 0x9a47; 0xc9a6; 0xd93f; 0x085e; 0x35ce; 0xa153; 0x7e7b;
   0x9f0b; 0x25aa; 0x5d9f; 0xc04d; 0x8a0e; 0x2875; 0x4a1c; 0x295f; 0x1393; 0xf760; 0x9178; 0x0f5b;
   0xfa7d; 0x83b4; 0x2082; 0x721d; 0x6462; 0x0368; 0x67e2; 0x8624; 0x194d; 0x22f6; 0x78fb; 0x6791;
   0xb238; 0xb332; 0x7276; 0xf272; 0x47ec; 0x4504; 0xa961; 0x9fc8; 0x3fdc; 0xb413; 0x007a; 0x0806;
   0x7458; 0x95c6; 0xccaa; 0x18d6; 0xe2ae; 0x1b06; 0xf3f6; 0x5050; 0xc8e8; 0xf4ac; 0xc04c; 0xf41c;
   0x992f; 0xae44; 0x5f1b; 0x1113; 0x1738; 0xd9a8; 0x19ea; 0x2d33; 0x9698; 0x2fe9; 0x323f; 0xcde2;
   0x6d71; 0xe37d; 0xb697; 0x2c4f; 0x4373; 0x9102; 0x075d; 0x8e25; 0x1672; 0xec28; 0x6acb; 0x86cc;
   0x186e; 0x9414; 0xd674; 0xd1a5].

(** ** The small checksum *)

Section SmallChecksum.
Context {B : Build} {E : Type}.

(** Four bytes as a native-endian [u32]; the read is unchecked. *)
Definition read_u32_ne (little : bool) (data : bytes) : result E Z :=
  let* _ := debug_assert (4 <=? lenZ data) in
  let* s := load data 0 4 in
  Ok (u64_value little s).

Definition small_cksum (little : bool) (base : bytes) : result E Z :=
  let* _ := debug_assert (4 <=? lenZ base) in
  let* val := read_u32_ne little base in
  Ok (wrap 32 (val * HASH_MULT_32)).

Definition small_cksum_update (little : bool) (base : bytes) : result E Z :=
  let* _ := debug_assert (5 <=? lenZ base) in
  let* s := slice_from base 1 in
  let* val := read_u32_ne little s in
  Ok (wrap 32 (val * HASH_MULT_32)).

(** The pointer is position [i] of [data]. *)
Definition small_cksum_at (little : bool) (data : bytes) (i : Z) : result E Z :=
  let* s := load data i 4 in
  Ok (wrap 32 (u64_value little s * HASH_MULT_32)).
End SmallChecksum.

(** ** The large checksum *)

Record LargeHash := large_hash { look : Z }.

(** [LargeHash::new]; [look_u32] is [look as u32]. *)
Definition LargeHash_new (look : Z) : LargeHash := large_hash look.

Definition look_u32 (h : LargeHash) : Z := wrap 32 (look h).

Section LargeChecksum.
Context {B : Build} {E : Type}.

Definition hash_of (b : Z) : result E Z := index SINGLE_HASH b.

Definition cksum_step (b : Z) (s : Z * Z) : result E (Z * Z) :=
  let '(low, high) := s in
  let* h := hash_of b in
  let low := wrap 32 (low + h) in
  let high := wrap 32 (high + low) in
  Ok (low, high).

Definition checksum (lh : LargeHash) (base : bytes) : result E Z :=
  let* _ := debug_assert (look lh <=? lenZ base) in
  let* s := slice base 0 (look lh) in
  let* (low, high) := for_in s cksum_step (0, 0) in
  Ok (Z.lor (wrap 32 (Z.shiftl (Z.land high 0xFFFF) 16)) (Z.land low 0xFFFF)).

(** The common body of [update] and [update_at]: drop [b0], append [b1]. *)
Definition roll (lh : LargeHash) (old b0 b1 : Z) : result E Z :=
  let cksum := wrap 32 old in
  let* old_c := hash_of b0 in
  let* new_c := hash_of b1 in
  let low := Z.land (wrap 32 (wrap 32 (cksum - old_c) + new_c)) 0xFFFF in
  let high := Z.land (wrap 32 (wrap 32 (Z.shiftr cksum 16 - wrap 32 (old_c * look_u32 lh)) + low))
                     0xFFFF in
  Ok (Z.lor (wrap 32 (Z.shiftl high 16)) low).

Definition update (lh : LargeHash) (old : Z) (base : bytes) : result E Z :=
  let* _ := debug_assert (look lh <? lenZ base) in
  let* b0 := index base 0 in
  let* b1 := index base (look lh) in
  roll lh old b0 b1.

(** The pointer is position [i] of [data]. *)
Definition update_at (lh : LargeHash) (old : Z) (data : bytes) (i : Z) : result E Z :=
  let* b0 := index data i in
  let* b1 := index data (i + look lh) in
  roll lh old b0 b1.
End LargeChecksum.

(** ** Buckets *)

Module HashCfg.
Record t := mk { size : Z; shift : Z; mask : Z }.

(** [for i in 3..=28 { if slots < (1 << i) { return i - 1 } } 28] *)
Fixpoint bits_from (ks : list Z) (slots : Z) : Z :=
  match ks with
  | [] => 28
  | i :: ks => if slots <? Z.shiftl 1 i then i - 1 else bits_from ks slots
  end.

Definition size_hashtable_bits (slots : Z) : Z := bits_from (range 3 29) slots.

Definition new (slots : Z) : t :=
  let bits := size_hashtable_bits slots in
  let size := Z.shiftl 1 bits in
  mk size (32 - bits) (size - 1).

Definition bucket (c : t) (cksum : Z) : Z :=
  let k := wrap 32 cksum in
  Z.lxor (Z.shiftr k (shift c)) (Z.land k (mask c)).
End HashCfg.

(** ** Run detection *)

(** The trailing run of the first [look] bytes. *)
Definition comprun {B : Build} {E} (seg : bytes) (look : Z) : result E (Z * Z) :=
  let* _ := debug_assert (look <=? lenZ seg) in
  for_in (take (Z.to_nat look) seg) (fun byte '(run_l, run_c) =>
    if byte =? run_c then let* l := add_w 64 run_l 1 in Ok (l, run_c)
    else Ok (1, byte)) (0, 0).

(** ** The small table *)

Module SmallTable.
Record t := mk {
  table : list Z;
  cfg : HashCfg.t;
  prev : option (list Z);
  prev_mask : Z
}.

(** [usize::is_power_of_two]. *)
Definition is_power_of_two (x : Z) : bool := (0 <? x) && (Z.land x (x - 1) =? 0).

Section Ops.
Context {B : Build} {E : Type}.

Definition new (slots sprevsz : Z) : result E t :=
  let cfg := HashCfg.new slots in
  let table := replicate (Z.to_nat (HashCfg.size cfg)) 0 in
  if 0 <? sprevsz then
  let* _ := debug_assert (is_power_of_two sprevsz) in
  Ok (mk table cfg (Some (replicate (Z.to_nat sprevsz) 0)) (sprevsz - 1))
  else Ok (mk table cfg None 0).

Definition reset (s : t) : t :=
  mk (replicate (length (table s)) 0) (cfg s)
   (match prev s with Some p => Some (replicate (length p) 0) | None => None end)
   (prev_mask s).

Definition lookup (s : t) (cksum : Z) : result E (option Z) :=
  let* val := index (table s) (HashCfg.bucket (cfg s) cksum) in
  if negb (val =? 0) then let* p := sub_w 64 val HASH_CKOFFSET in Ok (Some p)
  else Ok None.

Definition insert (s : t) (cksum pos : Z) : result E t :=
  let* stored := add_w 64 pos HASH_CKOFFSET in
  if negb (in_rangeb 32 stored) then Ok s
  else
    let bucket := HashCfg.bucket (cfg s) cksum in
    let* prev' :=
      match prev s with
      | Some p =>
          let* old_head := index (table s) bucket in
          let* p := store p (Z.land pos (prev_mask s)) old_head in
          Ok (Some p)
      | None => Ok None
      end in
    let* table' := store (table s) bucket stored in
    Ok (mk table' (cfg s) prev' (prev_mask s)).

Definition chain_prev (s : t) (pos current_input_pos : Z) : result E (option Z) :=
  match prev s with
  | None => Ok None
  | Some p =>
    let* prev_val := index p (Z.land pos (prev_mask s)) in
    if prev_val =? 0 then Ok None
    else
      let* prev_pos := sub_w 64 prev_val HASH_CKOFFSET in
      if pos <? prev_pos then Ok None
      else
        let* diff := sub_w 64 current_input_pos prev_pos in
        if prev_mask s <? diff then Ok None else Ok (Some prev_pos)
  end.
End Ops.

Definition size (s : t) : Z := HashCfg.size (cfg s).
End SmallTable.

(** ** The large table *)

Module LargeTable.
Record t := mk { table : list Z; cfg : HashCfg.t }.

Definition new (slots : Z) : t :=
  let cfg := HashCfg.new (Z.max slots 8) in
  mk (replicate (Z.to_nat (HashCfg.size cfg)) 0) cfg.

Section Ops.
Context {B : Build} {E : Type}.

Definition lookup (s : t) (cksum : Z) : result E (option Z) :=
  let* val := index (table s) (HashCfg.bucket (cfg s) cksum) in
  if negb (val =? 0) then let* p := sub_w 64 val HASH_CKOFFSET in Ok (Some p)
  else Ok None.

Definition insert (s : t) (cksum pos : Z) : result E t :=
  let bucket := HashCfg.bucket (cfg s) cksum in
  let* stored := add_w 64 pos HASH_CKOFFSET in
  let* table' := store (table s) bucket stored in
  Ok (mk table' (cfg s)).
End Ops.

Definition size (s : t) : Z := HashCfg.size (cfg s).
End LargeTable.

(** ** Buckets are inside the table *)

Definition cfg_wf (c : HashCfg.t) : Prop :=
  exists bits, 2 <= bits <= 28 /\ HashCfg.size c = 2 ^ bits /\
    HashCfg.shift c = 32 - bits /\ HashCfg.mask c = 2 ^ bits - 1.

Lemma bits_range slots : 2 <= HashCfg.size_hashtable_bits slots <= 28.
Proof.
  unfold HashCfg.size_hashtable_bits.
  assert (Forall (fun i => 3 <= i <= 28) (range 3 29)) as Hr.
  { apply Forall_forall. intros i Hi. apply list_elem_of_In, elem_of_seqZ in Hi. lia. }
  induction Hr as [|i ks Hi _ IH]; simpl; [lia|]. case_bool; lia.
Qed.

Lemma HashCfg_new_wf slots : cfg_wf (HashCfg.new slots).
Proof.
  exists (HashCfg.size_hashtable_bits slots). pose proof (bits_range slots).
  unfold HashCfg.new. simpl. by rewrite Z.shiftl_1_l.
Qed.

Lemma bucket_range c cksum : cfg_wf c -> 0 <= HashCfg.bucket c cksum < HashCfg.size c.
Proof.
  intros (bits & Hb & -> & Hsh & Hm). unfold HashCfg.bucket. rewrite Hsh, Hm.
  pose proof (wrap_range 32 cksum ltac:(lia)) as Hk. unfold in_range in Hk.
  apply (lxor_range bits); unfold in_range; [lia|..].
  - rewrite Z.shiftr_div_pow2 by lia. split; [apply Z.div_pos; lia|].
    apply Z.div_lt_upper_bound; [lia|]. rewrite <- Z.pow_add_r by lia.
    replace (32 - bits + bits) with 32 by lia. lia.
  - rewrite land_low by lia. apply Z.mod_pos_bound. lia.
Qed.

(** ** Invariants of the tables *)

Record small_wf (s : SmallTable.t) : Prop := {
  sm_cfg : cfg_wf (SmallTable.cfg s);
  sm_table : lenZ (SmallTable.table s) = HashCfg.size (SmallTable.cfg s);
  sm_values : Forall is_u32 (SmallTable.table s);
  sm_prev : forall p, SmallTable.prev s = Some p ->
    (exists k, 0 <= k < 64 /\ SmallTable.prev_mask s = 2 ^ k - 1 /\ lenZ p = 2 ^ k) /\
    Forall is_u32 p
}.

Record large_wf (s : LargeTable.t) : Prop := {
  lg_cfg : cfg_wf (LargeTable.cfg s);
  lg_table : lenZ (LargeTable.table s) = HashCfg.size (LargeTable.cfg s);
  lg_values : Forall is_u64 (LargeTable.table s)
}.

Lemma size_nonneg c : cfg_wf c -> 0 <= HashCfg.size c.
Proof. intros (bits & ? & -> & _). apply Z.pow_nonneg. lia. Qed.

Lemma mask_index k pos : 0 <= k -> 0 <= Z.land pos (2 ^ k - 1) < 2 ^ k.
Proof. intros Hk. rewrite land_low by lia. apply Z.mod_pos_bound, Z.pow_pos_nonneg; lia. Qed.

Section TableOps.
Context {B : Build} {E : Type}.

Lemma small_new_wf slots k :
  0 <= k < 64 ->
  exists s, SmallTable.new (E:=E) slots (2 ^ k) = Ok s /\ small_wf s.
Proof.
  intros Hk. unfold SmallTable.new. assert (0 < 2 ^ k) by (apply Z.pow_pos_nonneg; lia).
  rewrite (proj2 (Z.ltb_lt _ _)) by lia. rewrite debug_assert_ok.
  - cbn [bind]. eexists. split; [done|]. pose proof (HashCfg_new_wf slots) as Hc.
    pose proof (size_nonneg _ Hc).
    constructor; simpl; [done| | |].
    + rewrite lenZ_replicate. by apply Z2Nat.id.
    + apply Forall_replicate, zero_u32.
    + intros p [= <-]. split; [|apply Forall_replicate, zero_u32].
      exists k. split_and!; try done; try lia. rewrite lenZ_replicate. lia.
  - unfold SmallTable.is_power_of_two. rewrite (proj2 (Z.ltb_lt _ _)) by lia.
    rewrite land_low by lia. by rewrite Z.mod_same by lia.
Qed.

Lemma small_new_no_chain_wf slots :
  exists s, SmallTable.new (E:=E) slots 0 = Ok s /\ small_wf s.
Proof.
  unfold SmallTable.new. simpl. eexists. split; [done|]. pose proof (HashCfg_new_wf slots) as Hc.
  pose proof (size_nonneg _ Hc). constructor; simpl; [done| | |done].
  - rewrite lenZ_replicate. by apply Z2Nat.id.
  - apply Forall_replicate, zero_u32.
Qed.

Lemma small_reset_wf s : small_wf s -> small_wf (SmallTable.reset s).
Proof.
  intros [Hc Ht _ Hp]. constructor; simpl; [done| | |].
  - by rewrite lenZ_replicate.
  - apply Forall_replicate, zero_u32.
  - intros p. destruct (SmallTable.prev s) as [q|]; [|done]. intros [= <-].
    destruct (Hp q eq_refl) as [(k & ? & ? & ?) _].
    split; [|apply Forall_replicate, zero_u32]. exists k. by rewrite lenZ_replicate.
Qed.

Lemma small_lookup_ok s cksum :
  small_wf s -> exists o, SmallTable.lookup (E:=E) s cksum = Ok o /\
    forall p, o = Some p -> 0 <= p < 2 ^ 32.
Proof.
  intros [Hc Ht Hv _]. unfold SmallTable.lookup. pose proof (bucket_range _ cksum Hc).
  destruct (index_ok (E:=E) (SmallTable.table s) (HashCfg.bucket (SmallTable.cfg s) cksum))
    as (v & Hl & ->); [lia|]. cbn [bind].
  pose proof (Forall_lookup_1 _ _ _ _ Hv Hl) as Hu. unfold in_range in Hu.
  destruct (Z.eqb_spec v 0); simpl; [by exists None|].
  unfold HASH_CKOFFSET. rewrite sub_w_ok by (unfold in_range; lia). cbn [bind].
  eexists. split; [done|]. intros p [= <-]. lia.
Qed.

Lemma small_insert_ok s cksum pos :
  small_wf s -> 0 <= pos < 2 ^ 64 - 1 ->
  exists s', SmallTable.insert (E:=E) s cksum pos = Ok s' /\ small_wf s'.
Proof.
  intros Hs Hpos. pose proof Hs as [Hc Ht Hv Hp]. unfold SmallTable.insert, HASH_CKOFFSET.
  rewrite add_w_ok by (unfold in_range; lia). cbn [bind].
  destruct (in_rangeb 32 (pos + 1)) eqn:Hr; simpl; [|by exists s]. apply in_rangeb_spec in Hr.
  pose proof (bucket_range _ cksum Hc) as Hb.
  destruct (index_ok (E:=E) (SmallTable.table s) (HashCfg.bucket (SmallTable.cfg s) cksum))
    as (v & Hl & Hix); [lia|]. pose proof (Forall_lookup_1 _ _ _ _ Hv Hl) as Hu.
  rewrite (store_ok (SmallTable.table s)) by lia.
  destruct (SmallTable.prev s) as [q|] eqn:Hq.
  - destruct (Hp q eq_refl) as [(k & Hk & Hm & Hlq) Hvq]. rewrite Hix. cbn [bind].
    rewrite Hm, store_ok by (rewrite Hlq; apply mask_index; lia). cbn [bind].
    eexists. split; [done|]. constructor; simpl; [done| | |].
    + by rewrite lenZ_insert.
    + by apply Forall_insert.
    + intros p [= <-]. split; [|by apply Forall_insert]. exists k. by rewrite lenZ_insert.
  - cbn [bind]. eexists. split; [done|]. constructor; simpl; [done| | |done].
    + by rewrite lenZ_insert.
    + by apply Forall_insert.
Qed.

Lemma chain_prev_ok s pos cur :
  small_wf s -> 0 <= pos <= cur -> cur < 2 ^ 64 ->
  exists o, SmallTable.chain_prev (E:=E) s pos cur = Ok o /\ forall p, o = Some p -> 0 <= p <= pos.
Proof.
  intros Hs Hpos Hcur. pose proof Hs as [Hc Ht Hv Hp]. unfold SmallTable.chain_prev.
  destruct (SmallTable.prev s) as [q|] eqn:Hq; [|by exists None].
  destruct (Hp q eq_refl) as [(k & Hk & Hm & Hlq) Hvq]. rewrite Hm.
  destruct (index_ok (E:=E) q (Z.land pos (2 ^ k - 1))) as (v & Hl & ->);
    [rewrite Hlq; apply mask_index; lia|]. cbn [bind].
  pose proof (Forall_lookup_1 _ _ _ _ Hvq Hl) as Hu. unfold in_range in Hu.
  destruct (Z.eqb_spec v 0); [by exists None|]. unfold HASH_CKOFFSET.
  rewrite sub_w_ok by (unfold in_range; lia). cbn [bind].
  destruct (Z.ltb_spec pos (v - 1)); [by exists None|].
  rewrite sub_w_ok by (unfold in_range; lia). cbn [bind].
  destruct (Z.ltb_spec (2 ^ k - 1) (cur - (v - 1))); [by exists None|].
  eexists. split; [done|]. intros p [= <-]. lia.
Qed.

Lemma large_new_wf slots : large_wf (LargeTable.new slots).
Proof.
  pose proof (HashCfg_new_wf (Z.max slots 8)) as Hc. pose proof (size_nonneg _ Hc).
  constructor; simpl; [done| |].
  - rewrite lenZ_replicate. by apply Z2Nat.id.
  - apply Forall_replicate, zero_u64.
Qed.

Lemma large_lookup_ok s cksum :
  large_wf s -> exists o, LargeTable.lookup (E:=E) s cksum = Ok o /\
    forall p, o = Some p -> 0 <= p < 2 ^ 64.
Proof.
  intros [Hc Ht Hv]. unfold LargeTable.lookup. pose proof (bucket_range _ cksum Hc).
  destruct (index_ok (E:=E) (LargeTable.table s) (HashCfg.bucket (LargeTable.cfg s) cksum))
    as (v & Hl & ->); [lia|]. cbn [bind].
  pose proof (Forall_lookup_1 _ _ _ _ Hv Hl) as Hu. unfold in_range in Hu.
  destruct (Z.eqb_spec v 0); simpl; [by exists None|].
  unfold HASH_CKOFFSET. rewrite sub_w_ok by (unfold in_range; lia). cbn [bind].
  eexists. split; [done|]. intros p [= <-]. lia.
Qed.

Lemma large_insert_ok s cksum pos :
  large_wf s -> 0 <= pos < 2 ^ 64 - 1 ->
  exists s', LargeTable.insert (E:=E) s cksum pos = Ok s' /\ large_wf s'.
Proof.
  intros [Hc Ht Hv] Hpos. unfold LargeTable.insert, HASH_CKOFFSET.
  rewrite add_w_ok by (unfold in_range; lia). cbn [bind].
  pose proof (bucket_range _ cksum Hc). rewrite store_ok by lia. cbn [bind].
  eexists. split; [done|]. constructor; simpl; [done| |].
  - by rewrite lenZ_insert.
  - apply Forall_insert; [done|unfold in_range; lia].
Qed.
End TableOps.

(** ** The large checksum as sums *)

Definition hash_value (b : Z) : Z := default 0 (SINGLE_HASH !! Z.to_nat b).

(** The plain sum, and the sum of the prefix sums. *)
Definition hash_sum (l : bytes) : Z := foldr (fun b n => hash_value b + n) 0 l.
Fixpoint prefix_sum (l : bytes) : Z :=
  match l with
  | [] => 0
  | b :: l => lenZ (b :: l) * hash_value b + prefix_sum l
  end.

Lemma hash_of_ok {E} b : is_u8 b -> hash_of (E:=E) b = Ok (hash_value b) /\ 0 <= hash_value b < 2 ^ 16.
Proof.
  intros Hb. unfold in_range in Hb.
  assert (forallb (fun h => (0 <=? h) && (h <? 2 ^ 16)) SINGLE_HASH = true) as Hall by reflexivity.
  destruct (index_ok (E:=E) SINGLE_HASH b) as (h & Hl & Hi); [change (lenZ SINGLE_HASH) with 256; lia|].
  unfold hash_of, hash_value. rewrite Hl. split; [done|]. simpl.
  rewrite forallb_forall in Hall. specialize (Hall h).
  assert (In h SINGLE_HASH) as Hin by (apply list_elem_of_In; by eapply list_elem_of_lookup_2).
  specialize (Hall Hin). lia.
Qed.

Lemma wrap_wrap_add w a b : 0 <= w -> wrap w (wrap w a + b) = wrap w (a + b).
Proof. intros. unfold wrap. apply Z.add_mod_idemp_l. apply Z.pow_nonzero; lia. Qed.

Lemma wrap_add_wrap w a b : 0 <= w -> wrap w (a + wrap w b) = wrap w (a + b).
Proof. intros. unfold wrap. apply Z.add_mod_idemp_r. apply Z.pow_nonzero; lia. Qed.

Lemma cksum_loop_ok {E} l lo hi :
  wf_bytes l ->
  for_in (E:=E) l cksum_step (wrap 32 lo, wrap 32 hi)
  = Ok (wrap 32 (lo + hash_sum l), wrap 32 (hi + lenZ l * lo + prefix_sum l)).
Proof.
  revert lo hi. induction l as [|b l IH]; intros lo hi Hl; cbn [for_in hash_sum foldr prefix_sum].
  - change (lenZ (@nil Z)) with 0. by rewrite Z.mul_0_l, !Z.add_0_r.
  - apply wf_bytes_cons in Hl as [Hb Hl]. unfold cksum_step at 1.
    destruct (hash_of_ok (E:=E) b Hb) as [-> _]. cbn [bind].
    rewrite wrap_wrap_add, wrap_wrap_add, wrap_add_wrap by lia.
    rewrite IH by done. fold (hash_sum l). rewrite lenZ_cons.
    f_equal. f_equal; f_equal; ring.
Qed.

(** The two halves of a checksum. *)
Definition pack_cksum (low high : Z) : Z := (high mod 2 ^ 16) * 2 ^ 16 + low mod 2 ^ 16.

Lemma pack_lor h l :
  0 <= h < 2 ^ 16 -> 0 <= l < 2 ^ 16 -> Z.lor (wrap 32 (Z.shiftl h 16)) l = h * 2 ^ 16 + l.
Proof.
  intros Hh Hl. rewrite wrap_small.
  - by rewrite lor_shiftl_add.
  - unfold in_range. rewrite Z.shiftl_mul_pow2 by lia. lia.
Qed.

Lemma pack_ok low high :
  Z.lor (wrap 32 (Z.shiftl (Z.land high 0xFFFF) 16)) (Z.land low 0xFFFF) = pack_cksum low high.
Proof.
  change 0xFFFF with (2 ^ 16 - 1). rewrite !land_low by lia.
  apply pack_lor; apply Z.mod_pos_bound; lia.
Qed.

Lemma mod_wrap x : wrap 32 x mod 2 ^ 16 = x mod 2 ^ 16.
Proof. unfold wrap. dlia. Qed.

Lemma pack_wrap low high : pack_cksum (wrap 32 low) (wrap 32 high) = pack_cksum low high.
Proof. unfold pack_cksum. by rewrite !mod_wrap. Qed.

Lemma checksum_ok {B : Build} {E} lh base :
  wf_bytes base -> 0 <= look lh <= lenZ base ->
  checksum (E:=E) lh base
  = Ok (pack_cksum (hash_sum (sub base 0 (look lh))) (prefix_sum (sub base 0 (look lh)))).
Proof.
  intros Hw Hl. unfold checksum. rewrite debug_assert_ok by (apply Z.leb_le; lia). cbn [bind].
  rewrite slice_ok by lia. cbn [bind]. rewrite Z.sub_0_r.
  change (0, 0) with (wrap 32 0, wrap 32 0). rewrite cksum_loop_ok by (by apply sub_wf).
  cbn [bind]. rewrite pack_ok, pack_wrap. do 2 f_equal; lia.
Qed.

Lemma hash_sum_app l k : hash_sum (l ++ k) = hash_sum l + hash_sum k.
Proof. unfold hash_sum. induction l as [|b l IH]; simpl; [done|]. rewrite IH. lia. Qed.

Lemma prefix_sum_snoc l b :
  prefix_sum (l ++ [b]) = prefix_sum l + hash_sum l + hash_value b.
Proof.
  induction l as [|c l IH]; [simpl; change (lenZ [b]) with 1; unfold hash_sum; simpl; lia|].
  cbn [app prefix_sum]. rewrite IH, !lenZ_cons, lenZ_app. unfold hash_sum. simpl foldr.
  change (lenZ [b]) with 1. fold (hash_sum l). lia.
Qed.

(** Rolling a packed checksum shifts its window by one byte. *)
Lemma roll_ok {E} lh b0 m b1 :
  is_u8 b0 -> is_u8 b1 -> lenZ (b0 :: m) = look lh -> look lh < 2 ^ 32 ->
  roll (E:=E) lh (pack_cksum (hash_sum (b0 :: m)) (prefix_sum (b0 :: m))) b0 b1
  = Ok (pack_cksum (hash_sum (m ++ [b1])) (prefix_sum (m ++ [b1]))).
Proof.
  intros H0 H1 Hl Hu. unfold roll. pose proof (lenZ_nonneg (b0 :: m)).
  destruct (hash_of_ok (E:=E) b0 H0) as [-> Hr0], (hash_of_ok (E:=E) b1 H1) as [-> Hr1]. cbn [bind].
  unfold look_u32. rewrite (wrap_small 32 (look lh)) by (unfold in_range; lia).
  assert (hash_sum (m ++ [b1]) = hash_sum (b0 :: m) - hash_value b0 + hash_value b1) as Hs
    by (rewrite hash_sum_app; unfold hash_sum; simpl; lia).
  assert (prefix_sum (m ++ [b1])
          = prefix_sum (b0 :: m) - hash_value b0 * look lh + hash_sum (m ++ [b1])) as Hp.
  { rewrite prefix_sum_snoc, hash_sum_app, <- Hl. cbn [prefix_sum].
    unfold hash_sum. simpl foldr. lia. }
  rewrite Hp. clear Hp. set (s' := hash_sum (m ++ [b1])) in *.
  set (s := hash_sum (b0 :: m)) in *. set (p := prefix_sum (b0 :: m)) in *.
  set (q := hash_value b0 * look lh). clearbody s p q s'.
  set (c := pack_cksum s p).
  assert (wrap 32 c = c) as ->
    by (apply wrap_small; subst c; unfold pack_cksum, in_range; dlia).
  assert (c mod 2 ^ 16 = s mod 2 ^ 16) as Hc1 by (subst c; unfold pack_cksum; dlia).
  assert (Z.shiftr c 16 = p mod 2 ^ 16) as ->
    by (rewrite Z.shiftr_div_pow2 by lia; subst c; unfold pack_cksum; dlia).
  change 0xFFFF with (2 ^ 16 - 1). rewrite !land_low, !mod_wrap by lia.
  assert ((wrap 32 (c - hash_value b0) + hash_value b1) mod 2 ^ 16 = s' mod 2 ^ 16) as ->.
  { rewrite <- Z.add_mod_idemp_l, mod_wrap, Z.add_mod_idemp_l, Hs by done.
    rewrite <- Z.add_mod_idemp_l, <- Zminus_mod_idemp_l, Hc1, Zminus_mod_idemp_l by done.
    by rewrite Z.add_mod_idemp_l. }
  assert ((wrap 32 (p mod 2 ^ 16 - wrap 32 q) + s' mod 2 ^ 16) mod 2 ^ 16
          = (p - q + s') mod 2 ^ 16) as ->.
  { rewrite Z.add_mod_idemp_r, <- Z.add_mod_idemp_l, mod_wrap, Z.add_mod_idemp_l by done.
    rewrite <- Z.add_mod_idemp_l, Zminus_mod_idemp_l, <- Zminus_mod_idemp_r, mod_wrap by done.
    by rewrite Zminus_mod_idemp_r, Z.add_mod_idemp_l. }
  rewrite pack_lor by (apply Z.mod_pos_bound; lia). done.
Qed.

(** ** Detected runs are runs *)

(** [l] ends with [n] copies of [c]. *)
Definition ends_with_run (l : bytes) (n c : Z) : Prop :=
  exists pre, l = pre ++ replicate (Z.to_nat n) c /\ 0 <= n.

(** One step of the run state, in [comprun] and in the matcher's loop. *)
Lemma run_extend l n c b :
  ends_with_run l n c ->
  if b =? c then ends_with_run (l ++ [b]) (n + 1) c else ends_with_run (l ++ [b]) 1 b.
Proof.
  intros (pre & -> & Hn). destruct (Z.eqb_spec b c) as [->|Hne].
  - exists pre. rewrite <- app_assoc. split; [|lia]. f_equal.
    rewrite Z2Nat.inj_add, Nat.add_comm by lia. simpl. by rewrite <- replicate_cons_app.
  - by exists (pre ++ replicate (Z.to_nat n) c).
Qed.

(** Dropping bytes from the front keeps a run that still fits. *)
Lemma run_drop l n c k :
  ends_with_run l n c -> n + Z.of_nat k <= lenZ l -> ends_with_run (drop k l) n c.
Proof.
  intros (pre & -> & Hn) Hk. rewrite lenZ_app, lenZ_replicate in Hk.
  exists (drop k pre). split; [|done]. rewrite drop_app_le by (unfold lenZ in *; lia). done.
Qed.

Lemma comprun_loop_ok {B : Build} {E} l done n c :
  ends_with_run done n c -> n <= lenZ done -> lenZ done + lenZ l < 2 ^ 64 ->
  exists n' c', for_in (E:=E) l (fun byte '(run_l, run_c) =>
      if byte =? run_c then let* l := add_w 64 run_l 1 in Ok (l, run_c) else Ok (1, byte)) (n, c)
    = Ok (n', c') /\ ends_with_run (done ++ l) n' c' /\ n' <= lenZ (done ++ l) /\
      (1 <= n \/ l <> [] -> 1 <= n').
Proof.
  revert done n c. induction l as [|b l IH]; intros done n c Hr Hn Hlt.
  - exists n, c. rewrite app_nil_r. split_and!; auto. intros [?|?]; [lia|done].
  - pose proof (run_extend done n c b Hr) as Hx. rewrite lenZ_cons in Hlt.
    pose proof (lenZ_nonneg l). pose proof (lenZ_nonneg done). destruct Hr as (_ & _ & Hn0).
    assert (lenZ (done ++ [b]) = lenZ done + 1) as Hl by (rewrite lenZ_app; done).
    cbn [for_in]. destruct (b =? c); [rewrite add_w_ok by (unfold in_range; lia)|]; cbn [bind].
    + destruct (IH (done ++ [b]) (n + 1) c) as (n' & c' & -> & Hr' & Hn' & Hge); [done|lia..|].
      exists n', c'. rewrite <- app_assoc in *. split_and!; auto. intros _. apply Hge. lia.
    + destruct (IH (done ++ [b]) 1 b) as (n' & c' & -> & Hr' & Hn' & Hge); [done|lia..|].
      exists n', c'. rewrite <- app_assoc in *. split_and!; auto. intros _. apply Hge. lia.
Qed.

Lemma comprun_ok {B : Build} {E} seg k :
  0 <= k <= lenZ seg -> k < 2 ^ 64 ->
  exists n c, comprun (E:=E) seg k = Ok (n, c) /\
    ends_with_run (take (Z.to_nat k) seg) n c /\ n <= k /\ (1 <= k -> 1 <= n).
Proof.
  intros Hk Hu. unfold comprun. rewrite debug_assert_ok by (apply Z.leb_le; lia). cbn [bind].
  assert (lenZ (take (Z.to_nat k) seg) = k) as Hl by (unfold lenZ in *; rewrite length_take; lia).
  destruct (comprun_loop_ok (E:=E) (take (Z.to_nat k) seg) [] 0 0)
    as (n & c & -> & Hr & Hn & Hge); [by exists []|done|change (lenZ (@nil Z)) with 0; lia|].
  exists n, c. simpl in *. split_and!; auto; [lia|]. intros Hk1. apply Hge. right.
  intros Hnil. rewrite Hnil in Hl. change (lenZ (@nil Z)) with 0 in Hl. lia.
Qed.

(** ** Checksums are defined *)

Lemma small_cksum_at_ok {E} little data i :
  0 <= i -> i + 4 <= lenZ data -> exists c, small_cksum_at (E:=E) little data i = Ok c.
Proof. intros. unfold small_cksum_at. rewrite load_ok by lia. cbn [bind]. eauto. Qed.

Lemma small_cksum_ok {B : Build} {E} little data :
  4 <= lenZ data -> exists c, small_cksum (E:=E) little data = Ok c.
Proof.
  intros. unfold small_cksum, read_u32_ne. rewrite !debug_assert_ok by (apply Z.leb_le; lia).
  cbn [bind]. rewrite load_ok by lia. cbn [bind]. eauto.
Qed.

Lemma update_at_ok {E} lh old data i :
  wf_bytes data -> 0 <= i -> 0 <= look lh -> i + look lh < lenZ data ->
  exists c, update_at (E:=E) lh old data i = Ok c.
Proof.
  intros Hd Hi Hl Hlt. unfold update_at.
  destruct (index_ok (E:=E) data i) as (b0 & Hb0 & ->); [lia|].
  destruct (index_ok (E:=E) data (i + look lh)) as (b1 & Hb1 & ->); [lia|]. cbn [bind].
  pose proof (Forall_lookup_1 _ _ _ _ Hd Hb0). pose proof (Forall_lookup_1 _ _ _ _ Hd Hb1).
  unfold roll. destruct (hash_of_ok (E:=E) b0) as [-> _]; [done|].
  destruct (hash_of_ok (E:=E) b1) as [-> _]; [done|]. cbn [bind]. eauto.
Qed.

(** ** What an insertion makes the lookups return *)

Section InsertLookup.
Context {B : Build} {E : Type}.

Lemma lookup_bucket s c c' :
  HashCfg.bucket (SmallTable.cfg s) c' = HashCfg.bucket (SmallTable.cfg s) c ->
  SmallTable.lookup (E:=E) s c' = SmallTable.lookup s c.
Proof. intros H. unfold SmallTable.lookup. by rewrite H. Qed.

(** The entry a lookup decodes. *)
Lemma small_lookup_entry s c v :
  0 < v < 2 ^ 64 ->
  index (E:=E) (SmallTable.table s) (HashCfg.bucket (SmallTable.cfg s) c) = Ok v ->
  SmallTable.lookup (E:=E) s c = Ok (Some (v - 1)).
Proof.
  intros Hv Hi. unfold SmallTable.lookup, HASH_CKOFFSET. rewrite Hi. cbn [bind].
  destruct (Z.eqb_spec v 0); [lia|]. simpl. by rewrite sub_w_ok by (unfold in_range; lia).
Qed.

Lemma index_insert_eq (l : list Z) i x :
  0 <= i < lenZ l -> index (E:=E) (<[Z.to_nat i := x]> l) i = Ok x.
Proof.
  intros. apply index_lookup; [lia|]. apply list_lookup_insert_eq. unfold lenZ in *. lia.
Qed.

Lemma index_insert_ne (l : list Z) i j x :
  0 <= i -> 0 <= j -> i <> j -> index (E:=E) (<[Z.to_nat i := x]> l) j = index l j.
Proof. intros. unfold index. by rewrite list_lookup_insert_ne by lia. Qed.

(** The shape of a successful insertion: the head of the bucket is replaced
    and, with chaining, saved at the position's slot. *)
Lemma small_insert_shape s cksum pos :
  small_wf s -> 0 <= pos < 2 ^ 32 - 1 ->
  exists s', SmallTable.insert (E:=E) s cksum pos = Ok s' /\
    SmallTable.cfg s' = SmallTable.cfg s /\ SmallTable.prev_mask s' = SmallTable.prev_mask s /\
    SmallTable.table s' = <[Z.to_nat (HashCfg.bucket (SmallTable.cfg s) cksum) := pos + 1]>
      (SmallTable.table s) /\
    (forall p, SmallTable.prev s = Some p -> exists old,
      index (E:=E) (SmallTable.table s) (HashCfg.bucket (SmallTable.cfg s) cksum) = Ok old /\
      SmallTable.prev s' = Some (<[Z.to_nat (Z.land pos (SmallTable.prev_mask s)) := old]> p)).
Proof.
  intros Hs Hpos. pose proof Hs as [Hc Ht Hv Hp]. unfold SmallTable.insert, HASH_CKOFFSET.
  rewrite add_w_ok by (unfold in_range; lia). cbn [bind].
  rewrite (proj2 (in_rangeb_spec 32 (pos + 1))) by (unfold in_range; lia). cbn [negb].
  pose proof (bucket_range _ cksum Hc) as Hb. rewrite (store_ok (SmallTable.table s)) by lia.
  destruct (index_ok (E:=E) (SmallTable.table s) (HashCfg.bucket (SmallTable.cfg s) cksum))
    as (v & _ & Hix); [lia|]. destruct (SmallTable.prev s) as [q|] eqn:Hq.
  - destruct (Hp q eq_refl) as [(k & Hk & Hm & Hlq) _]. rewrite Hix. cbn [bind].
    rewrite store_ok by (rewrite Hm, Hlq; apply mask_index; lia). cbn [bind].
    eexists. split_and!; try done. intros p [= ->]. by exists v.
  - cbn [bind]. eexists. by split_and!.
Qed.

(** Inserting position [pos] in the small table makes every checksum of
    the same bucket find [pos], leaves every other bucket as it was, and, when
    chaining is enabled, links [pos] to the position the bucket held before:
    while that position is recent enough to be inside the circular buffer,
    [chain_prev] returns it, and when the bucket was empty the chain ends. *)
Theorem small_table_correct s cksum pos now p :
  small_wf s -> 0 <= pos <= now -> pos < 2 ^ 32 - 1 -> now < 2 ^ 64 -> SmallTable.prev s = Some p ->
  exists s' old, SmallTable.insert (E:=E) s cksum pos = Ok s' /\ small_wf s' /\
    SmallTable.lookup (E:=E) s cksum = Ok old /\
    (forall c, HashCfg.bucket (SmallTable.cfg s) c = HashCfg.bucket (SmallTable.cfg s) cksum ->
      SmallTable.lookup (E:=E) s' c = Ok (Some pos)) /\
    (forall c, HashCfg.bucket (SmallTable.cfg s) c <> HashCfg.bucket (SmallTable.cfg s) cksum ->
      SmallTable.lookup (E:=E) s' c = SmallTable.lookup s c) /\
    (old = None -> SmallTable.chain_prev (E:=E) s' pos now = Ok None) /\
    (forall q, old = Some q -> q <= pos -> now - q <= SmallTable.prev_mask s ->
      SmallTable.chain_prev (E:=E) s' pos now = Ok (Some q)).
Proof.
  intros Hs Hpos Hp32 Hnow Hp. pose proof Hs as [Hc Ht Hv Hpw].
  destruct (small_insert_shape s cksum pos) as (s' & Hi & Hcfg & Hmask & Htab & Hprev); [done|lia|].
  destruct (small_insert_ok (E:=E) s cksum pos) as (s2 & Hi2 & Hs'); [done|lia|].
  rewrite Hi in Hi2. injection Hi2 as <-.
  destruct (small_lookup_ok (E:=E) s cksum Hs) as (old & Hold & Hrange).
  pose proof (bucket_range _ cksum Hc) as Hb. destruct (Hprev p Hp) as (v & Hix & Hp').
  destruct (Hpw p Hp) as [(k & Hk & Hm & Hlp) _].
  assert (is_u32 v) as Hvr.
  { apply index_inv in Hix as [_ Hl]. exact (Forall_lookup_1 _ _ _ _ Hv Hl). }
  unfold in_range in Hvr.
  assert (index (E:=E) (<[Z.to_nat (Z.land pos (SmallTable.prev_mask s)) := v]> p)
    (Z.land pos (SmallTable.prev_mask s)) = Ok v) as Hslot.
  { apply index_insert_eq. rewrite Hm, Hlp. apply mask_index. lia. }
  exists s', old. split_and!; [done..| | | |].
  - intros c Hbc. rewrite (small_lookup_entry s' c (pos + 1)); [do 2 f_equal; lia|lia|].
    rewrite Hcfg, Htab, Hbc. apply index_insert_eq. lia.
  - intros c Hbc. unfold SmallTable.lookup. rewrite Hcfg, Htab, index_insert_ne; [done|lia| |done].
    apply bucket_range, Hc.
  - intros ->. unfold SmallTable.chain_prev. rewrite Hp', Hmask, Hslot. cbn [bind].
    destruct (Z.eqb_spec v 0); [done|].
    rewrite (small_lookup_entry s cksum v) in Hold by (done || lia). done.
  - intros q -> Hq Hdiff. unfold SmallTable.chain_prev. rewrite Hp', Hmask, Hslot. cbn [bind].
    destruct (Z.eqb_spec v 0) as [->|Hne].
    { unfold SmallTable.lookup in Hold. rewrite Hix in Hold. done. }
    rewrite (small_lookup_entry s cksum v) in Hold by (done || lia). injection Hold as <-.
    unfold HASH_CKOFFSET. rewrite sub_w_ok by (unfold in_range; lia). cbn [bind].
    rewrite (proj2 (Z.ltb_ge _ _)) by lia. rewrite sub_w_ok by (unfold in_range; lia). cbn [bind].
    by rewrite (proj2 (Z.ltb_ge _ _)) by lia.
Qed.

(** Inserting source position [pos] in the large table makes every
    checksum of the same bucket find [pos] (the last write wins) and leaves
    every other bucket as it was. *)
Theorem large_table_correct s cksum pos :
  large_wf s -> 0 <= pos < 2 ^ 64 - 1 ->
  exists s', LargeTable.insert (E:=E) s cksum pos = Ok s' /\ large_wf s' /\
    (forall c, HashCfg.bucket (LargeTable.cfg s) c = HashCfg.bucket (LargeTable.cfg s) cksum ->
      LargeTable.lookup (E:=E) s' c = Ok (Some pos)) /\
    (forall c, HashCfg.bucket (LargeTable.cfg s) c <> HashCfg.bucket (LargeTable.cfg s) cksum ->
      LargeTable.lookup (E:=E) s' c = LargeTable.lookup s c).
Proof.
  intros Hs Hpos. destruct (large_insert_ok (E:=E) s cksum pos Hs Hpos) as (s' & Hi & Hs').
  exists s'. split; [done|]. split; [done|]. pose proof Hs as [Hc Ht _].
  pose proof (bucket_range _ cksum Hc) as Hb.
  unfold LargeTable.insert, HASH_CKOFFSET in Hi. rewrite add_w_ok in Hi by (unfold in_range; lia).
  cbn [bind] in Hi. rewrite store_ok in Hi by lia. cbn [bind] in Hi. injection Hi as <-.
  unfold LargeTable.lookup. cbn [LargeTable.table LargeTable.cfg]. split; intros c Hbc.
  - rewrite Hbc, index_insert_eq by lia. cbn [bind].
    destruct (Z.eqb_spec (pos + 1) 0); [lia|]. cbn [negb]. unfold HASH_CKOFFSET.
    rewrite sub_w_ok by (unfold in_range; lia). cbn [bind]. do 2 f_equal. lia.
  - rewrite index_insert_ne; [done|lia| |done]. apply bucket_range, Hc.
Qed.
End InsertLookup.

(** C33: rolling the large checksum by one byte, from a slice or at a position
    of a buffer, gives the checksum computed from scratch on the next window. *)
Theorem large_checksum_rolls {B : Build} {E} lh data i old :
  wf_bytes data -> 0 < look lh < 2 ^ 32 -> 0 <= i -> i + look lh < lenZ data ->
  checksum (E:=E) lh (drop (Z.to_nat i) data) = Ok old ->
  update_at (E:=E) lh old data i = checksum lh (drop (Z.to_nat (i + 1)) data) /\
  update (E:=E) lh old (drop (Z.to_nat i) data) = checksum lh (drop (Z.to_nat (i + 1)) data).
Proof.
  intros Hw Hl Hi Hlt Hold.
  assert (drop (Z.to_nat i) data <> []) as Hne.
  { intros Hnil. apply (f_equal length) in Hnil. rewrite length_drop in Hnil. simpl in Hnil.
    unfold lenZ in Hlt. lia. }
  destruct (drop (Z.to_nat i) data) as [|b0 rest] eqn:Hd; [done|]. clear Hne.
  assert (wf_bytes (b0 :: rest)) as Hwd by (rewrite <- Hd; by apply Forall_drop).
  assert (lenZ (b0 :: rest) = lenZ data - i) as Hlen.
  { rewrite <- Hd. unfold lenZ in *. rewrite length_drop. lia. }
  assert (drop (Z.to_nat (i + 1)) data = rest) as ->.
  { replace (Z.to_nat (i + 1)) with (Z.to_nat i + 1)%nat by lia.
    by rewrite <- drop_drop, Hd. }
  pose proof Hwd as [Hb0 Hwr]%wf_bytes_cons. rewrite lenZ_cons in Hlen.
  rewrite checksum_ok in Hold by (done || rewrite lenZ_cons; lia). injection Hold as <-.
  rewrite checksum_ok by (done || lia).
  destruct (index_ok (E:=E) rest (look lh - 1)) as (b1 & Hb1 & _); [lia|].
  pose proof (Forall_lookup_1 _ _ _ _ Hwr Hb1) as Hub1.
  set (m := take (Z.to_nat (look lh - 1)) rest).
  assert (sub (b0 :: rest) 0 (look lh) = b0 :: m) as ->.
  { unfold sub, m. simpl drop. replace (Z.to_nat (look lh)) with (S (Z.to_nat (look lh - 1))) by lia.
    done. }
  assert (sub rest 0 (look lh) = m ++ [b1]) as ->.
  { unfold sub, m. simpl drop. replace (Z.to_nat (look lh)) with (S (Z.to_nat (look lh - 1))) by lia.
    by apply take_S_r. }
  assert (lenZ (b0 :: m) = look lh) as Hm.
  { rewrite lenZ_cons. unfold m, lenZ in *. rewrite length_take. lia. }
  rewrite <- (roll_ok (E:=E) lh b0 m b1) by (done || lia). split.
  - unfold update_at. rewrite (index_lookup data i b0); [|lia|].
    + rewrite (index_lookup data (i + look lh) b1); [done|lia|].
      replace (Z.to_nat (i + look lh)) with (Z.to_nat i + S (Z.to_nat (look lh - 1)))%nat by lia.
      by rewrite <- lookup_drop, Hd.
    + replace (Z.to_nat i) with (Z.to_nat i + 0)%nat by lia. by rewrite <- lookup_drop, Hd.
  - unfold update. rewrite debug_assert_ok by (apply Z.ltb_lt; rewrite lenZ_cons; lia). cbn [bind].
    rewrite (index_lookup (b0 :: rest) 0 b0) by done. cbn [bind].
    rewrite (index_lookup (b0 :: rest) (look lh) b1); [done|lia|].
    replace (Z.to_nat (look lh)) with (S (Z.to_nat (look lh - 1))) by lia. done.
Qed.

(** ** Witnesses *)

Lemma small_wf_witness :
  small_wf (SmallTable.mk [0; 6; 0; 0] (HashCfg.mk 4 30 3) (Some [0; 0; 0; 0]) 3).
Proof.
  constructor.
  - exists 2. split_and!; (reflexivity || lia).
  - reflexivity.
  - by apply in_range_list.
  - intros p [= <-]. split; [|by apply in_range_list]. exists 2. split_and!; (reflexivity || lia).
Qed.

Lemma large_wf_witness : large_wf (LargeTable.mk [0; 6; 0; 0] (HashCfg.mk 4 30 3)).
Proof.
  constructor; [exists 2; split_and!; (reflexivity || lia)|reflexivity|by apply in_range_list].
Qed.

Lemma small_table_correct_witness :
  exists s', SmallTable.insert (B:={| debug_build := true |}) (E:=unit)
    (SmallTable.mk [0; 6; 0; 0] (HashCfg.mk 4 30 3) (Some [0; 0; 0; 0]) 3) 1 7 = Ok s' /\
  SmallTable.chain_prev (B:={| debug_build := true |}) (E:=unit) s' 7 8 = Ok (Some 5).
Proof.
  destruct (small_table_correct (B:={| debug_build := true |}) (E:=unit) _ 1 7 8 [0; 0; 0; 0]
    small_wf_witness ltac:(lia) ltac:(lia) ltac:(lia) eq_refl)
    as (s' & old & Hi & _ & Ho & _ & _ & _ & Hc).
  exists s'. split; [exact Hi|]. vm_compute in Ho. injection Ho as <-.
  apply (Hc 5); [reflexivity|lia|vm_compute; discriminate].
Defined.

Lemma large_table_correct_witness :
  exists s', LargeTable.insert (B:={| debug_build := true |}) (E:=unit)
    (LargeTable.mk [0; 6; 0; 0] (HashCfg.mk 4 30 3)) 1 7 = Ok s' /\
  LargeTable.lookup (B:={| debug_build := true |}) (E:=unit) s' 1 = Ok (Some 7).
Proof.
  destruct (large_table_correct (B:={| debug_build := true |}) (E:=unit) _ 1 7
    large_wf_witness ltac:(lia)) as (s' & Hi & _ & Hl & _).
  exists s'. split; [exact Hi|]. by apply Hl.
Defined.

Lemma large_checksum_rolls_witness :
  exists old, checksum (B:={| debug_build := true |}) (E:=unit) (large_hash 4) [2; 3; 4; 5; 6; 7]
    = Ok old /\
  update_at (E:=unit) (large_hash 4) old [1; 2; 3; 4; 5; 6; 7] 1
  = checksum (B:={| debug_build := true |}) (large_hash 4) [3; 4; 5; 6; 7].
Proof.
  eexists. split; [vm_compute; reflexivity|].
  apply (large_checksum_rolls (B:={| debug_build := true |}) (E:=unit) (large_hash 4)
    [1; 2; 3; 4; 5; 6; 7] 1); try (reflexivity || lia).
  - by apply in_range_list.
  - vm_compute. done.
Defined.
