(* ===== verification/Matching.v ===== *)
(** * The match engine ([src/src/hash/config.rs], [src/src/hash/matching.rs])

    The matcher profiles, the source interface, the engine's state, source
    indexing, the scan over the target with its run, source and self matches,
    and the conversion of matches to instructions.  Prefetches have no effect
    on values and are left out.  A stack of matches is a list, last pushed
    first.  The loops carry fuel: the scan moves at least one byte per turn, so
    the target's length is enough, and the chain walk is bounded by the
    profile's chain length. *)

From stdpp Require Import base numbers list option.
From Stdlib Require Import ZArith Lia String.
From S2P Require Import Prelude CodeTable Source Kernels HashTables.

Local Open Scope Z_scope.
Local Open Scope rust_scope.

(** ** Profiles *)

Definition MIN_MATCH : Z := 4.
Definition MIN_RUN : Z := 8.
Definition DEFAULT_WINSIZE : Z := Z.shiftl 1 23.
Definition DEFAULT_SPREVSZ : Z := Z.shiftl 1 18.

Record MatcherConfig := matcher_config {
  name : string;
  large_look : Z;
  large_step : Z;
  small_look : Z;
  small_chain : Z;
  small_lchain : Z;
  max_lazy : Z;
  long_enough : Z
}.

Definition FASTEST : MatcherConfig := matcher_config "fastest" 9 26 4 1 1 6 6.
Definition FASTER : MatcherConfig := matcher_config "faster" 9 15 4 1 1 18 18.
Definition FAST : MatcherConfig := matcher_config "fast" 9 8 4 4 1 18 35.
Definition DEFAULT : MatcherConfig := matcher_config "default" 9 3 4 8 2 36 70.
Definition SLOW : MatcherConfig := matcher_config "slow" 9 2 4 44 13 90 70.

Definition config_for_level (level : Z) : MatcherConfig :=
  if (level =? 0) || (level =? 1) then FASTEST
  else if level =? 2 then FASTER
  else if (3 <=? level) && (level <=? 5) then FAST
  else if level =? 6 then DEFAULT
  else SLOW.

(** ** Matches *)

Record Match := match_at {
  target_pos : Z;
  m_length : Z;
  addr : Z;
  is_source : bool
}.

Definition U64_MAX : Z := 2 ^ 64 - 1.

(** ** Sources *)

(** The trait [SourceData].  [get_bytes s off n] is what a call with a buffer
    of [n] bytes stores at the buffer's start; its length is the call's result. *)
Class SourceData (E S : Type) := {
  sd_len : S -> Z;
  get_bytes : S -> Z -> Z -> result E bytes;
  as_slice : S -> Z -> Z -> result E (option bytes)
}.

Section SliceSource.
Context {B : Build} {E : Type}.

Definition slice_get_bytes (self : bytes) (offset n : Z) : result E bytes :=
  if lenZ self <=? offset then Ok []
  else
    let* avail := slice_from self offset in
    slice avail 0 (Z.min n (lenZ avail)).

Definition slice_as_slice (self : bytes) (offset len : Z) : result E (option bytes) :=
  let* e := add_w 64 offset len in
  if e <=? lenZ self then let* s := slice self offset e in Ok (Some s) else Ok None.

(** [impl SourceData for &[u8]] and [impl SourceData for Vec<u8>]. *)
#[global] Instance slice_source_data : SourceData E bytes := {
  sd_len := lenZ;
  get_bytes := slice_get_bytes;
  as_slice := slice_as_slice
}.
End SliceSource.

(** ** Integers *)

Section Words.
Context {B : Build} {E : Type}.

(** [usize::checked_next_power_of_two]. *)
Definition checked_next_power_of_two (x : Z) : option Z :=
  let p := if x <=? 1 then 1 else 2 ^ (Z.log2 (x - 1) + 1) in
  if p <? 2 ^ 64 then Some p else None.

(** [usize::next_power_of_two]: a panic or 0 when it does not fit. *)
Definition next_power_of_two (x : Z) : result E Z :=
  match checked_next_power_of_two x with
  | Some p => Ok p
  | None => if debug_build then Panic else Ok 0
  end.

(** [a / b] panics on a zero divisor. *)
Definition div_w (a b : Z) : result E Z := if b =? 0 then Panic else Ok (a / b).
End Words.

(** The byte order small checksums are read in. *)
Definition little_endian (c : cpu) : bool :=
  match c with Other little => little | _ => true end.

(** Should the engine look for a better match one byte further? *)
Definition try_lazy {B : Build} {E} (match_len max_lazy pos avail_in : Z) : result E bool :=
  if (0 <? max_lazy) && (match_len <? max_lazy) then
    let* e := add_w 64 pos match_len in
    let* e := add_w 64 e 2 in
    Ok (e <=? avail_in)
  else Ok false.

(** ** The engine *)

Module MatchEngine.
(** [kernels] stands for the three cached function pointers: what the CPU
    dispatch chose when the engine was built. *)
Record t := mk {
  config : MatcherConfig;
  large_hash : LargeHash;
  large_table : LargeTable.t;
  small_table : SmallTable.t;
  sprevsz : Z;
  match_srcpos : Z;
  kernels : cpu
}.

Definition set_large_table (e : t) (l : LargeTable.t) : t :=
  mk (config e) (large_hash e) l (small_table e) (sprevsz e) (match_srcpos e) (kernels e).
Definition set_small_table (e : t) (s : SmallTable.t) : t :=
  mk (config e) (large_hash e) (large_table e) s (sprevsz e) (match_srcpos e) (kernels e).
Definition set_match_srcpos (e : t) (p : Z) : t :=
  mk (config e) (large_hash e) (large_table e) (small_table e) (sprevsz e) p (kernels e).

Definition XD3_ALLOCSIZE : Z := Z.shiftl 1 14.
Definition CHUNK_SIZE : Z := Z.shiftl 1 20.

Section Ops.
Context {B : Build} {E : Type}.

Definition new (c : cpu) (config : MatcherConfig) (source_len winsize : Z) : result E t :=
  let large_hash := LargeHash_new (large_look config) in
  let* large_slots :=
    if 0 <? source_len then
      let src_max_winsize :=
        Z.max (unwrap_or (checked_next_power_of_two source_len) source_len) XD3_ALLOCSIZE in
      let* q := div_w src_max_winsize (large_step config) in
      Ok (Z.max q 8)
    else Ok 8 in
  let large_table := LargeTable.new large_slots in
  let* sprevsz :=
    if (1 <? small_chain config) || (1 <? small_lchain config) then
      let* p := next_power_of_two winsize in
      let capped := Z.min p DEFAULT_SPREVSZ in
      Ok (Z.max capped 16)
    else Ok 0 in
  let* small_table := SmallTable.new winsize sprevsz in
  Ok (mk config large_hash large_table small_table sprevsz 0 c).

(** [loop { insert(checksum(&data[pos..]), base + pos); if pos < step { break } pos -= step }] *)
Fixpoint index_down (fuel : nat) (lh : LargeHash) (step base : Z) (data : bytes) (pos : Z)
  (table : LargeTable.t) : result E LargeTable.t :=
  match fuel with
  | O => Diverge
  | S fuel =>
    let* s := slice_from data pos in
    let* cksum := checksum lh s in
    let* at_ := add_w 64 base pos in
    let* table := LargeTable.insert table cksum at_ in
    if pos <? step then Ok table
    else
      let* pos := sub_w 64 pos step in
      index_down fuel lh step base data pos table
  end.

Definition index_data (e : t) (base : Z) (data : bytes) (len : Z) (table : LargeTable.t)
  : result E LargeTable.t :=
  let* pos := sub_w 64 len (large_look (config e)) in
  index_down (S (Z.to_nat pos)) (large_hash e) (large_step (config e)) base data pos table.

Context {S : Type} `{SourceData E S}.

(** [while offset < src_len { .. }], a chunk per turn. *)
Fixpoint index_chunks (fuel : nat) (e : t) (source : S) (src_len offset : Z)
  (table : LargeTable.t) : result E LargeTable.t :=
  match fuel with
  | O => Diverge
  | Datatypes.S fuel =>
    if offset <? src_len then
      let* e0 := add_w 64 offset CHUNK_SIZE in
      let end_ := Z.min e0 src_len in
      let* chunk_len := sub_w 64 end_ offset in
      if chunk_len <? large_look (config e) then Ok table
      else
        let* chunk := as_slice source offset chunk_len in
        let* table :=
          match chunk with
          | Some chunk => index_data e offset chunk chunk_len table
          | None => Ok table
          end in
        index_chunks fuel e source src_len end_ table
    else Ok table
  end.

Definition index_source (e : t) (source : S) : result E t :=
  let src_len := sd_len source in
  if src_len <? large_look (config e) then Ok e
  else
    let* contiguous := as_slice source 0 src_len in
    let* table :=
      match contiguous with
      | Some src => index_data e 0 src src_len (large_table e)
      | None =>
          index_chunks (Datatypes.S (Z.to_nat src_len)) e source src_len 0 (large_table e)
      end in
    Ok (set_large_table e table).
End Ops.
End MatchEngine.

(** ** Finding one match *)

Section Extend.
Context {B : Build} {E : Type}.

(** The chain walk of [small_match]: the best length and its position. *)
Fixpoint small_chain_loop (fuel : nat) (e : MatchEngine.t) (target : bytes)
    (input_pos base chain best_len best_offset : Z) : result E (Z * Z) :=
  match fuel with
  | O => Diverge
  | S fuel =>
      let* max_cmp := sub_w 64 (lenZ target) input_pos in
      if input_pos <=? base then Ok (best_len, best_offset)
      else
        let* ref := slice_from target base in
        let* inp := slice_from target input_pos in
        let* cmp_len := forward_match_fn (MatchEngine.kernels e) ref inp max_cmp in
        let walk best_len best_offset :=
          let* chain := sub_w 64 chain 1 in
          if chain =? 0 then Ok (best_len, best_offset)
          else
            let* prev := SmallTable.chain_prev (MatchEngine.small_table e) base input_pos in
            match prev with
            | Some prev => small_chain_loop fuel e target input_pos prev chain best_len best_offset
            | None => Ok (best_len, best_offset)
            end in
        if best_len <? cmp_len then
          let* stop :=
            if long_enough (MatchEngine.config e) <=? cmp_len then Ok true
            else let* e := add_w 64 input_pos cmp_len in Ok (lenZ target <=? e) in
          if stop then Ok (cmp_len, base) else walk cmp_len base
        else walk best_len best_offset
  end.

Definition small_match (e : MatchEngine.t) (target : bytes) (input_pos scksum min_match : Z)
    : result E (option Match) :=
  let* head := SmallTable.lookup (MatchEngine.small_table e) scksum in
  match head with
  | None => Ok None
  | Some head =>
      let is_lazy := MIN_MATCH <? min_match in
      let max_chain := if is_lazy then small_lchain (MatchEngine.config e)
                       else small_chain (MatchEngine.config e) in
      let* (best_len, best_offset) :=
        small_chain_loop (S (Z.to_nat (wrap 64 (max_chain - 1)))) e target input_pos head
          max_chain 0 0 in
      if best_len <? MIN_MATCH then Ok None
      else
        let* distance := sub_w 64 input_pos best_offset in
        if (best_len =? 4) && (Z.shiftl 1 14 <=? distance) then Ok None
        else if (best_len =? 5) && (Z.shiftl 1 21 <=? distance) then Ok None
        else Ok (Some (match_at input_pos best_len best_offset false))
  end.

Definition extend_source_match_slice (e : MatchEngine.t) (target source : bytes)
    (input_pos src_pos : Z) : result E (option Match) :=
  if lenZ source <=? src_pos then Ok None
  else
    let* t_left := sub_w 64 (lenZ target) input_pos in
    let* s_left := sub_w 64 (lenZ source) src_pos in
    let max_fwd := Z.min t_left s_left in
    let* s1 := slice_from source src_pos in
    let* s2 := slice_from target input_pos in
    let* fwd_len := forward_match_fn (MatchEngine.kernels e) s1 s2 max_fwd in
    if fwd_len <? MIN_MATCH then Ok None
    else
      let max_back := Z.min input_pos src_pos in
      let* back_len :=
        if 0 <? max_back then
          let* a1 := sub_w 64 src_pos max_back in
          let* s1 := slice source a1 src_pos in
          let* a2 := sub_w 64 input_pos max_back in
          let* s2 := slice target a2 input_pos in
          backward_match_fn (MatchEngine.kernels e) s1 s2 max_back
        else Ok 0 in
      let* tp := sub_w 64 input_pos back_len in
      let* len := add_w 64 back_len fwd_len in
      let* ad := sub_w 64 src_pos back_len in
      Ok (Some (match_at tp len ad true)).

Context {S : Type} `{SourceData E S}.

Definition BUF_LEN : Z := 16 * 1024.

(** [while off < max_fwd { .. }]: the forward match through a buffer, for a
    source with no slice. *)
Fixpoint buffered_match (fuel : nat) (e : MatchEngine.t) (target : bytes) (source : S)
    (input_pos src_pos max_fwd off total : Z) : result E Z :=
  match fuel with
  | O => Diverge
  | Datatypes.S fuel =>
      if off <? max_fwd then
        let* remaining := sub_w 64 max_fwd off in
        let chunk := Z.min remaining BUF_LEN in
        let* at_ := add_w 64 src_pos off in
        let* buf := get_bytes source at_ chunk in
        let n := lenZ buf in
        if n =? 0 then Ok total
        else
          let* from := add_w 64 input_pos off in
          let* rest := slice_from target from in
          let* m := forward_match_fn (MatchEngine.kernels e) buf rest n in
          let* total := add_w 64 total m in
          if m <? n then Ok total
          else
            let* off := add_w 64 off n in
            buffered_match fuel e target source input_pos src_pos max_fwd off total
      else Ok total
  end.

Definition extend_source_match (e : MatchEngine.t) (target : bytes) (source : S)
    (input_pos src_pos source_len : Z) : result E (option Match) :=
  let* max_fwd := sub_w 64 (lenZ target) input_pos in
  let* src_avail := sub_w 64 source_len src_pos in
  let max_fwd := Z.min max_fwd src_avail in
  let* src_slice := as_slice source src_pos max_fwd in
  let* fwd_len :=
    match src_slice with
    | Some src_slice =>
        let* t := slice_from target input_pos in
        forward_match_fn (MatchEngine.kernels e) src_slice t max_fwd
    | None =>
        buffered_match (Datatypes.S (Z.to_nat max_fwd)) e target source input_pos src_pos
          max_fwd 0 0
    end in
  if fwd_len <? MIN_MATCH then Ok None
  else
    let max_back := Z.min input_pos src_pos in
    let* back_len :=
      if 0 <? max_back then
        let* a1 := sub_w 64 src_pos max_back in
        let* src_slice := as_slice source a1 max_back in
        match src_slice with
        | Some src_slice =>
            let* a2 := sub_w 64 input_pos max_back in
            let* tgt_slice := slice target a2 input_pos in
            backward_match_fn (MatchEngine.kernels e) src_slice tgt_slice max_back
        | None => Ok 0
        end
      else Ok 0 in
    let* total_len := add_w 64 back_len fwd_len in
    let* match_start_target := sub_w 64 input_pos back_len in
    let* match_start_source := sub_w 64 src_pos back_len in
    Ok (Some (match_at match_start_target total_len match_start_source true)).
End Extend.

(** ** Matches to instructions *)

Section Instructions.
Context {B : Build} {E : Type}.

Definition emit_add_all (target : bytes) : list Instruction :=
  match target with
  | [] => []
  | _ => [Add (wrap 32 (lenZ target))]
  end.

(** [while let Some(last) = sorted.last() { if .. { sorted.pop() } else { break } }] *)
Fixpoint pop_overlapped (m : Match) (sorted : list Match) : result E (list Match) :=
  match sorted with
  | [] => Ok []
  | last :: rest =>
      let* e := add_w 64 (target_pos last) (m_length last) in
      if (target_pos m <? e) && (m_length last <? m_length m)
      then pop_overlapped m rest else Ok sorted
  end.

Definition sort_step (m : Match) (sorted : list Match) : result E (list Match) :=
  let* sorted := pop_overlapped m sorted in
  match sorted with
  | [] => Ok [m]
  | last :: _ =>
      let* e := add_w 64 (target_pos last) (m_length last) in
      if (e <=? target_pos m) || (m_length last <? m_length m) then Ok (m :: sorted)
      else Ok sorted
  end.

Definition emit_match (source_len : Z) (m : Match) (s : Z * list Instruction)
    : result E (Z * list Instruction) :=
  let '(covered_to, instructions) := s in
  let m_start := target_pos m in
  let* m_end := add_w 64 m_start (m_length m) in
  if m_start <? covered_to then Ok (covered_to, instructions)
  else
    let* instructions :=
      if covered_to <? m_start then
        let* gap := sub_w 64 m_start covered_to in
        Ok (instructions ++ [Add (wrap 32 gap)])
      else Ok instructions in
    let* inst :=
      if addr m =? U64_MAX then Ok (Run (wrap 32 (m_length m)))
      else if is_source m then Ok (Copy (wrap 32 (m_length m)) (addr m) 0)
      else let* a := add_w 64 source_len (addr m) in Ok (Copy (wrap 32 (m_length m)) a 0) in
    Ok (m_end, instructions ++ [inst]).

(** [matches] in the order they were pushed. *)
Definition matches_to_instructions (target : bytes) (source_len : Z) (matches : list Match)
    : result E (list Instruction) :=
  let* sorted := for_in matches sort_step [] in
  let* (covered_to, instructions) :=
    for_in (reverse sorted) (emit_match source_len) (0, []) in
  if covered_to <? lenZ target then
    let* tail := sub_w 64 (lenZ target) covered_to in
    Ok (instructions ++ [Add (wrap 32 tail)])
  else Ok instructions.
End Instructions.

(** ** The scan over the target *)

(** The locals of [find_matches] that change in its loop, with the engine's
    small table. *)
Record Scan := scan {
  input_pos : Z;
  min_match : Z;
  run_l : Z;
  run_c : Z;
  scksum : Z;
  lcksum : Z;
  matches : list Match;
  table : SmallTable.t
}.

Definition push (s : Scan) (m : Match) : Scan :=
  scan (input_pos s) (min_match s) (run_l s) (run_c s) (scksum s) (lcksum s) (m :: matches s)
       (table s).
Definition set_min_match (s : Scan) (n : Z) : Scan :=
  scan (input_pos s) n (run_l s) (run_c s) (scksum s) (lcksum s) (matches s) (table s).
Definition set_input_pos (s : Scan) (n : Z) : Scan :=
  scan n (min_match s) (run_l s) (run_c s) (scksum s) (lcksum s) (matches s) (table s).
Definition set_matches (s : Scan) (l : list Match) : Scan :=
  scan (input_pos s) (min_match s) (run_l s) (run_c s) (scksum s) (lcksum s) l (table s).
Definition set_table (s : Scan) (t : SmallTable.t) : Scan :=
  scan (input_pos s) (min_match s) (run_l s) (run_c s) (scksum s) (lcksum s) (matches s) t.

(** A part of the loop's body either ends the turn with [continue], or falls
    through with [skip_min_match_decay]. *)
Inductive flow :=
  | Continue (s : Scan)
  | Fall (s : Scan) (skip_min_match_decay : bool).

(** [while let Some(last) = matches.last() { .. matches.pop() .. }] *)
Fixpoint erase_covered (pos : Z) (l : list Match) : list Match :=
  match l with
  | [] => []
  | last :: rest => if pos <=? target_pos last then erase_covered pos rest else l
  end.

Section Scanning.
Context {B : Build} {E S : Type} `{SourceData E S}.
Context (e : MatchEngine.t) (target : bytes) (source : option S) (contiguous : option bytes).

Definition do_large : bool := match source with Some _ => true | None => false end.
Definition source_len : Z := match source with Some s => sd_len s | None => 0 end.
Definition slook : Z := small_look (MatchEngine.config e).
Definition llook : Z := large_look (MatchEngine.config e).

(** [do_large && input_pos + llook <= target_len] *)
Definition large_room (pos : Z) : result E bool :=
  if do_large then let* a := add_w 64 pos llook in Ok (a <=? lenZ target) else Ok false.

(** The checksums and the run state, from scratch at [input_pos]. *)
Definition rehash (s : Scan) : result E Scan :=
  let* a := add_w 64 (input_pos s) slook in
  if a <=? lenZ target then
    let* t := slice_from target (input_pos s) in
    let* sc := small_cksum (little_endian (MatchEngine.kernels e)) t in
    let* (rl2, rc2) := comprun t slook in
    let* room := large_room (input_pos s) in
    let* lc := if room then checksum (MatchEngine.large_hash e) t else Ok (lcksum s) in
    Ok (scan (input_pos s) (min_match s) rl2 rc2 sc lc (matches s) (table s))
  else Ok s.

(** [input_pos += len; min_match = MIN_MATCH; ..; continue] *)
Definition skip_match (s : Scan) (len : Z) : result E flow :=
  let* p := add_w 64 (input_pos s) len in
  let* s := rehash (set_min_match (set_input_pos s p) MIN_MATCH) in
  Ok (Continue s).

(** After a match of [len] was pushed: jump over it, or look further. *)
Definition accept (s : Scan) (len : Z) : result E flow :=
  let* lazy := try_lazy len (max_lazy (MatchEngine.config e)) (input_pos s) (lenZ target) in
  if negb lazy then skip_match s len else Ok (Fall (set_min_match s len) true).

Definition try_run (s : Scan) : result E flow :=
  if run_l s =? slook then
    let* r := sub_w 64 (lenZ target) (input_pos s) in
    let* remaining := sub_w 64 r (run_l s) in
    let* from := add_w 64 (input_pos s) (run_l s) in
    let* rest := slice_from target from in
    let* n := run_length_fn (MatchEngine.kernels e) rest (run_c s) remaining in
    let* total_run := add_w 64 (run_l s) n in
    if (min_match s <=? total_run) && (MIN_RUN <=? total_run)
    then accept (push s (match_at (input_pos s) total_run U64_MAX false)) total_run
    else Ok (Fall s false)
  else Ok (Fall s false).

Definition extend (pos src_pos : Z) : result E (option Match) :=
  match contiguous, source with
  | Some src, _ => extend_source_match_slice e target src pos src_pos
  | None, Some src => extend_source_match e target src pos src_pos source_len
  | None, None => Ok None
  end.

Definition try_large (s : Scan) (skip : bool) : result E flow :=
  let* room := large_room (input_pos s) in
  let* src_pos :=
    if room then LargeTable.lookup (MatchEngine.large_table e) (lcksum s) else Ok None in
  match src_pos with
  | None => Ok (Fall s skip)
  | Some src_pos =>
      let* m := extend (input_pos s) src_pos in
      match m with
      | None => Ok (Fall s skip)
      | Some m =>
          let* back_len := sub_w 64 (input_pos s) (target_pos m) in
          let* fwd_len := sub_w 64 (m_length m) back_len in
          if min_match s <=? fwd_len then
            let s := if 0 <? back_len
                     then set_matches s (erase_covered (target_pos m) (matches s)) else s in
            accept (push s m) fwd_len
          else Ok (Fall s skip)
      end
  end.

Definition try_small (s : Scan) (skip : bool) : result E flow :=
  let* found := small_match (MatchEngine.set_small_table e (table s)) target (input_pos s)
    (scksum s) (min_match s) in
  let* table := SmallTable.insert (table s) (scksum s) (input_pos s) in
  let s := set_table s table in
  match found with
  | Some m => if min_match s <=? m_length m then accept (push s m) (m_length m) else Ok (Fall s skip)
  | None => Ok (Fall s skip)
  end.

(** Advance by one byte; the flag is false on [break]. *)
Definition advance (s : Scan) (skip : bool) : result E (Scan * bool) :=
  let* mm := if negb skip && (MIN_MATCH <? min_match s) then sub_w 64 (min_match s) 1
             else Ok (min_match s) in
  let* pos := add_w 64 (input_pos s) 1 in
  let s := set_min_match (set_input_pos s pos) mm in
  let* a := add_w 64 pos slook in
  if lenZ target <? a then Ok (s, false)
  else
    let* sc := small_cksum_at (little_endian (MatchEngine.kernels e)) target pos in
    let* i := sub_w 64 a 1 in
    let* next_byte := index target i in
    let* (rl, rc) := if next_byte =? run_c s then let* l := add_w 64 (run_l s) 1 in Ok (l, run_c s)
                     else Ok (1, next_byte) in
    let* room := large_room pos in
    let* lc := if room
               then let* i := sub_w 64 pos 1 in update_at (MatchEngine.large_hash e) (lcksum s) target i
               else Ok (lcksum s) in
    Ok (scan pos mm rl rc sc lc (matches s) (table s), true).

Fixpoint scan_loop (fuel : nat) (s : Scan) : result E Scan :=
  match fuel with
  | O => Diverge
  | Datatypes.S fuel =>
      let* a := add_w 64 (input_pos s) slook in
      if lenZ target <? a then Ok s
      else
        let* f := try_run s in
        let* f := match f with Continue s => Ok (Continue s) | Fall s skip => try_large s skip end in
        let* f := match f with Continue s => Ok (Continue s) | Fall s skip => try_small s skip end in
        match f with
        | Continue s => scan_loop fuel s
        | Fall s skip =>
            let* (s, more) := advance s skip in
            if more then scan_loop fuel s else Ok s
        end
  end.

(** A match of at least [MIN_MATCH] at the start of the target was found at
    [src_pos]: the scan starts behind it. *)
Definition probe_hit (e : MatchEngine.t) (s : Scan) (src_pos fwd_len : Z)
    : result E (MatchEngine.t * Scan) :=
  let s := set_input_pos (push s (match_at 0 fwd_len src_pos true)) fwd_len in
  let* e := if fwd_len =? lenZ target
            then let* p := add_w 64 src_pos fwd_len in Ok (MatchEngine.set_match_srcpos e p)
            else Ok e in
  let* s := rehash s in
  Ok (e, s).

(** The probe at [match_srcpos] before the loop. *)
Definition probe (s : Scan) : result E (MatchEngine.t * Scan) :=
  let src_pos := MatchEngine.match_srcpos e in
  match contiguous, source with
  | Some src, _ =>
      if src_pos <? lenZ src then
        let* avail := sub_w 64 (lenZ src) src_pos in
        let max_fwd := Z.min (lenZ target) avail in
        if MIN_MATCH <=? max_fwd then
          let* s1 := slice_from src src_pos in
          let* fwd_len := forward_match_fn (MatchEngine.kernels e) s1 target max_fwd in
          if MIN_MATCH <=? fwd_len then probe_hit e s src_pos fwd_len else Ok (e, s)
        else Ok (e, s)
      else Ok (e, s)
  | None, Some src =>
      if src_pos <? sd_len src then
        let* avail := sub_w 64 (sd_len src) src_pos in
        let max_fwd := Z.min (lenZ target) avail in
        if MIN_MATCH <=? max_fwd then
          let* src_slice := as_slice src src_pos max_fwd in
          let* fwd_len :=
            match src_slice with
            | Some src_slice => forward_match_fn (MatchEngine.kernels e) src_slice target max_fwd
            | None => Ok 0
            end in
          if MIN_MATCH <=? fwd_len then probe_hit e s src_pos fwd_len else Ok (e, s)
        else Ok (e, s)
      else Ok (e, s)
  | None, None => Ok (e, s)
  end.
End Scanning.

Definition find_matches {B : Build} {E S} `{SourceData E S} (e : MatchEngine.t) (target : bytes)
    (source : option S) : result E (MatchEngine.t * list Instruction) :=
  let* contiguous :=
    match source with
    | Some s => as_slice s 0 (sd_len s)
    | None => Ok None
    end in
  let small := SmallTable.reset (MatchEngine.small_table e) in
  if lenZ target <? slook e then
    Ok (MatchEngine.set_small_table e small, emit_add_all target)
  else
    let* sc := small_cksum (little_endian (MatchEngine.kernels e)) target in
    let* (rl, rc) := comprun target (slook e) in
    let* lc := if do_large source && (llook e <=? lenZ target)
               then checksum (MatchEngine.large_hash e) target else Ok 0 in
    let s := scan 0 MIN_MATCH rl rc sc lc [] small in
    let* (e, s) := probe e target source contiguous s in
    let* s := scan_loop e target source contiguous (Datatypes.S (Z.to_nat (lenZ target))) s in
    let* instructions :=
      matches_to_instructions target (source_len source) (reverse (matches s)) in
    Ok (MatchEngine.set_small_table e (table s), instructions).
