(* ===== verification/MatchingCorrect.v ===== *)
(** * The match engine finds valid instructions

    Invariants of the engine and of its scan, and the theorem that
    [find_matches] terminates, never reads or writes out of bounds, never
    overflows, and returns instructions that cover the target and whose COPYs
    and RUNs reproduce it.  What the hash tables hold plays no part in it beyond
    the bound on source positions: every candidate is compared before it is used. *)

From stdpp Require Import base numbers list option.
From Stdlib Require Import ZArith Lia String.
From S2P Require Import Prelude CodeTable Semantics Source Kernels HashTables Matching.

Local Open Scope Z_scope.
Local Open Scope rust_scope.

(** ** What the engine relies on *)

Class SourceDataLaws (E S : Type) `{SourceData E S} (contents : S -> bytes) : Prop := {
  sd_len_spec s : sd_len s = lenZ (contents s);
  as_slice_spec s off len :
    0 <= off -> 0 <= len -> off + len <= lenZ (contents s) -> off + len < 2 ^ 64 ->
    exists o, as_slice s off len = Ok o /\ forall l, o = Some l -> l = sub (contents s) off len;
  get_bytes_spec s off n :
    0 <= off -> 0 <= n -> off + n <= lenZ (contents s) ->
    exists l, get_bytes s off n = Ok l /\ lenZ l <= n /\ l = sub (contents s) off (lenZ l)
}.

Lemma slice_source_data_laws {B : Build} {E} : SourceDataLaws E bytes (fun s => s).
Proof.
  constructor; [done| |].
  - intros s off len Ho Hl Hs Hu. simpl. unfold slice_as_slice.
    rewrite add_w_ok by (unfold in_range; lia). cbn [bind].
    rewrite (proj2 (Z.leb_le _ _)) by lia. rewrite slice_ok by lia. cbn [bind].
    eexists. split; [done|]. intros l [= <-]. f_equal. lia.
  - intros s off n Ho Hn Hs. simpl. unfold slice_get_bytes. destruct (Z.leb_spec (lenZ s) off).
    + exists []. split; [done|]. split; [change (lenZ (@nil Z)) with 0; lia|done].
    + rewrite slice_from_ok by lia. cbn [bind]. rewrite lenZ_drop by lia.
      rewrite slice_ok by (rewrite ?lenZ_drop; lia).
      assert (lenZ (sub s off n) = n) as Hl by (apply sub_length; lia).
      replace (Z.min n (lenZ s - off) - 0) with n by lia.
      exists (sub s off n). rewrite Hl. split_and!; try done; lia.
Qed.
#[export] Existing Instance slice_source_data_laws.

Record config_wf (c : MatcherConfig) : Prop := {
  cw_small_look : small_look c = 4;
  cw_large_look : 1 <= large_look c < 2 ^ 32;
  cw_large_step : 1 <= large_step c < 2 ^ 64;
  cw_small_chain : 1 <= small_chain c < 2 ^ 64;
  cw_small_lchain : 1 <= small_lchain c < 2 ^ 64
}.

Lemma config_for_level_wf level : config_wf (config_for_level level).
Proof.
  unfold config_for_level. repeat case_match; constructor; simpl; lia.
Qed.

(** The engine over a source of [n] bytes. *)
Record engine_wf (n : Z) (e : MatchEngine.t) : Prop := {
  ew_config : config_wf (MatchEngine.config e);
  ew_look : look (MatchEngine.large_hash e) = large_look (MatchEngine.config e);
  ew_large : large_wf (MatchEngine.large_table e);
  ew_bound : Forall (fun v => v <= n) (LargeTable.table (MatchEngine.large_table e));
  ew_small : small_wf (MatchEngine.small_table e);
  ew_srcpos : 0 <= MatchEngine.match_srcpos e
}.

(** ** Agreement of byte strings *)

(** [a] from [i] and [b] from [j] share [n] bytes. *)
Definition agree (a : bytes) (i : Z) (b : bytes) (j n : Z) : Prop :=
  forall k, 0 <= k < n -> a !! Z.to_nat (i + k) = b !! Z.to_nat (j + k).

(** The shortest match that is kept: a RUN has [MIN_RUN] bytes, a COPY [MIN_MATCH]. *)
Definition least_length (m : Match) : Z := if addr m =? U64_MAX then MIN_RUN else MIN_MATCH.

Definition match_ok (src target : bytes) (m : Match) : Prop :=
  0 <= target_pos m /\ least_length m <= m_length m /\ target_pos m + m_length m <= lenZ target /\
  if addr m =? U64_MAX then
    forall k, 0 <= k < m_length m ->
      target !! Z.to_nat (target_pos m + k) = target !! Z.to_nat (target_pos m)
  else if is_source m then
    0 <= addr m /\ addr m + m_length m <= lenZ src /\
    agree src (addr m) target (target_pos m) (m_length m)
  else 0 <= addr m < target_pos m /\ agree target (addr m) target (target_pos m) (m_length m).

Lemma least_length_pos m : 4 <= least_length m.
Proof. unfold least_length, MIN_RUN, MIN_MATCH. destruct (_ =? _); lia. Qed.

(** The same of an instruction. *)
Definition worthwhile (i : Instruction) : Prop :=
  match i with
  | Add _ => True
  | Copy len _ _ => MIN_MATCH <= len
  | Run len => MIN_RUN <= len
  end.

Lemma agree_drop a i b j n :
  0 <= i -> 0 <= j ->
  (forall k, 0 <= k < n -> drop (Z.to_nat i) a !! Z.to_nat k = drop (Z.to_nat j) b !! Z.to_nat k) ->
  agree a i b j n.
Proof.
  intros Hi Hj H k Hk. specialize (H k Hk). rewrite !lookup_drop in H.
  by rewrite !Z2Nat.inj_add by lia.
Qed.

Lemma agree_app a i b j n m :
  0 <= n -> agree a i b j n -> agree a (i + n) b (j + n) m -> agree a i b j (n + m).
Proof.
  intros Hn H1 H2 k Hk. destruct (Z.lt_ge_cases k n); [apply H1; lia|].
  specialize (H2 (k - n) ltac:(lia)).
  by replace (i + n + (k - n)) with (i + k) in H2 by lia;
     replace (j + n + (k - n)) with (j + k) in H2 by lia.
Qed.

Section Kernel.
Context {E : Type} (c : cpu) (a b : bytes).
Hypothesis wf : wf_bytes a /\ wf_bytes b.

(** A forward comparison of two suffixes. *)
Lemma forward_suffix i j n :
  0 <= i <= lenZ a -> 0 <= j <= lenZ b -> 0 <= n -> i + n <= lenZ a -> j + n <= lenZ b ->
  exists r, forward_match_fn (E:=E) c (drop (Z.to_nat i) a) (drop (Z.to_nat j) b) n = Ok r /\
    0 <= r <= n /\ agree a i b j r.
Proof.
  intros Hi Hj Hn Hia Hjb. destruct wf as [Ha Hb]. eexists.
  assert (lenZ (drop (Z.to_nat i) a) = lenZ a - i) by (apply lenZ_drop; lia).
  assert (lenZ (drop (Z.to_nat j) b) = lenZ b - j) by (apply lenZ_drop; lia).
  split; [apply forward_kernels; [split; by apply Forall_drop|lia]|].
  destruct (match_forward_spec (drop (Z.to_nat i) a) (drop (Z.to_nat j) b) n) as (Hr & Heq & _);
    [lia..|]. split; [done|]. by apply agree_drop; [lia|lia|].
Qed.

(** A forward comparison of [n] bytes with a suffix. *)
Lemma forward_sub i j n :
  0 <= i -> 0 <= j <= lenZ b -> 0 <= n -> i + n <= lenZ a -> j + n <= lenZ b ->
  exists r, forward_match_fn (E:=E) c (sub a i n) (drop (Z.to_nat j) b) n = Ok r /\
    0 <= r <= n /\ agree a i b j r.
Proof.
  intros Hi Hj Hn Hia Hjb. destruct wf as [Ha Hb]. eexists.
  assert (lenZ (sub a i n) = n) by (apply sub_length; lia).
  assert (lenZ (drop (Z.to_nat j) b) = lenZ b - j) by (apply lenZ_drop; lia).
  split; [apply forward_kernels; [split; [by apply sub_wf|by apply Forall_drop]|lia]|].
  destruct (match_forward_spec (sub a i n) (drop (Z.to_nat j) b) n) as (Hr & Heq & _);
    [lia..|]. split; [done|]. apply agree_drop; [lia|lia|]. intros k Hk. rewrite <- Heq by done.
  unfold sub. by rewrite lookup_take_lt by lia.
Qed.

(** A backward comparison of the [n] bytes before [i] and [j]. *)
Lemma backward_window i j n :
  0 <= n -> n <= i <= lenZ a -> n <= j <= lenZ b ->
  exists r, backward_match_fn (E:=E) c (sub a (i - n) n) (sub b (j - n) n) n = Ok r /\
    0 <= r <= n /\ agree a (i - r) b (j - r) r.
Proof.
  intros Hn Hi Hj. destruct wf as [Ha Hb]. eexists.
  assert (lenZ (sub a (i - n) n) = n) by (apply sub_length; lia).
  assert (lenZ (sub b (j - n) n) = n) by (apply sub_length; lia).
  split; [apply backward_kernels; [split; by apply sub_wf|lia]|].
  destruct (match_backward_spec (sub a (i - n) n) (sub b (j - n) n) n) as (Hr & Heq & _); [lia..|].
  split; [done|]. set (r := match_backward _ _ _) in *. intros k Hk.
  specialize (Heq (r - 1 - k) ltac:(lia)).
  unfold sub in Heq. rewrite !lookup_take_lt, !lookup_drop in Heq by lia.
  rewrite <- !Z2Nat.inj_add in Heq by lia.
  by replace (i - n + (n - 1 - (r - 1 - k))) with (i - r + k) in Heq by lia;
     replace (j - n + (n - 1 - (r - 1 - k))) with (j - r + k) in Heq by lia.
Qed.
End Kernel.

(** ** Building the engine *)

Section Building.
Context {B : Build} {E : Type}.

Lemma next_power_of_two_ok x :
  0 <= x <= 2 ^ 63 -> exists k, 0 <= k < 64 /\ next_power_of_two (E:=E) x = Ok (2 ^ k).
Proof.
  intros Hx. unfold next_power_of_two, checked_next_power_of_two.
  destruct (Z.leb_spec x 1); [by exists 0|].
  assert (0 <= Z.log2 (x - 1) < 63) as Hlog.
  { split; [apply Z.log2_nonneg|]. apply Z.log2_lt_pow2; lia. }
  exists (Z.log2 (x - 1) + 1). split; [lia|].
  rewrite (proj2 (Z.ltb_lt _ _)); [done|]. apply Z.pow_lt_mono_r; lia.
Qed.

Lemma sprevsz_power k : 0 <= k < 64 ->
  exists j, 0 <= j < 64 /\ Z.max (Z.min (2 ^ k) DEFAULT_SPREVSZ) 16 = 2 ^ j.
Proof.
  intros Hk. change DEFAULT_SPREVSZ with (2 ^ 18). change 16 with (2 ^ 4).
  exists (Z.max (Z.min k 18) 4). split; [lia|].
  destruct (Z.le_gt_cases k 18).
  - rewrite (Z.min_l (2 ^ k)), (Z.min_l k) by (lia || (apply Z.pow_le_mono_r; lia)).
    destruct (Z.le_gt_cases k 4).
    + by rewrite Z.max_r, Z.max_r by (lia || (apply Z.pow_le_mono_r; lia)).
    + by rewrite Z.max_l, Z.max_l by (lia || (apply Z.pow_le_mono_r; lia)).
  - by rewrite (Z.min_r (2 ^ k)), (Z.min_r k) by (lia || (apply Z.pow_le_mono_r; lia)).
Qed.

Lemma engine_new_ok c config source_len winsize n :
  config_wf config -> 0 <= winsize <= 2 ^ 63 -> 0 <= n ->
  exists e, MatchEngine.new (E:=E) c config source_len winsize = Ok e /\ engine_wf n e /\
    MatchEngine.config e = config /\ MatchEngine.match_srcpos e = 0.
Proof.
  intros Hc Hw Hn. unfold MatchEngine.new. pose proof Hc as [Hsl Hll Hls _ _].
  assert (exists slots, (if 0 <? source_len then
      let* q := div_w (Z.max (unwrap_or (checked_next_power_of_two source_len) source_len)
        MatchEngine.XD3_ALLOCSIZE) (large_step config) in Ok (Z.max q 8)
    else Ok 8) = Ok (E:=E) slots) as [slots ->].
  { unfold div_w. rewrite (proj2 (Z.eqb_neq _ _)) by lia. case_match; eauto. }
  cbn [bind].
  assert (exists t, (let* sprevsz :=
      if (1 <? small_chain config) || (1 <? small_lchain config) then
        let* p := next_power_of_two winsize in
        Ok (Z.max (Z.min p DEFAULT_SPREVSZ) 16) else Ok 0 in
      let* small_table := SmallTable.new winsize sprevsz in
      Ok (MatchEngine.mk config (LargeHash_new (large_look config)) (LargeTable.new slots)
        small_table sprevsz 0 c)) = Ok (E:=E) t /\ small_wf (MatchEngine.small_table t) /\
      exists s p, t = MatchEngine.mk config (LargeHash_new (large_look config))
        (LargeTable.new slots) s p 0 c) as (e & -> & Hs & s & p & ->).
  { destruct (_ || _).
    - destruct (next_power_of_two_ok winsize Hw) as (k & Hk & ->). cbn [bind].
      destruct (sprevsz_power k Hk) as (j & Hj & ->).
      destruct (small_new_wf (E:=E) winsize j Hj) as (s & -> & Hs). cbn [bind]. eauto 10.
    - cbn [bind]. destruct (small_new_no_chain_wf (E:=E) winsize) as (s & -> & Hs).
      cbn [bind]. eauto 10. }
  eexists. split; [done|]. split; [|done]. constructor; simpl; try done.
  - apply large_new_wf.
  - by apply Forall_replicate.
Qed.

Lemma large_insert_bound n t cksum pos t' :
  LargeTable.insert (E:=E) t cksum pos = Ok t' -> pos < n -> 0 <= pos < 2 ^ 64 - 1 ->
  Forall (fun v => v <= n) (LargeTable.table t) -> Forall (fun v => v <= n) (LargeTable.table t').
Proof.
  unfold LargeTable.insert, HASH_CKOFFSET, store. intros H Hpos Hr Hf.
  rewrite add_w_ok in H by (unfold in_range; lia). cbn [bind] in H.
  destruct (_ && _); [|done]. cbn [bind] in H. injection H as <-. simpl.
  apply Forall_insert; [done|lia].
Qed.

(** The tables an engine over [n] source bytes may have. *)
Definition table_ok (n : Z) (t : LargeTable.t) : Prop :=
  large_wf t /\ Forall (fun v => v <= n) (LargeTable.table t).

Lemma index_down_ok lh step base data n fuel pos t :
  wf_bytes data -> 1 <= step < 2 ^ 64 -> 1 <= look lh -> 0 <= base -> base + lenZ data <= n ->
  n < 2 ^ 64 -> 0 <= pos -> pos + look lh <= lenZ data -> pos < Z.of_nat fuel -> table_ok n t ->
  exists t', MatchEngine.index_down (E:=E) fuel lh step base data pos t = Ok t' /\ table_ok n t'.
Proof.
  intros Hd Hs Hl Hb Hn Hn64. revert pos t.
  induction fuel as [|fuel IH]; intros pos t Hpos Hlook Hfuel [Hw Hf]; [lia|].
  cbn [MatchEngine.index_down]. rewrite slice_from_ok by lia. cbn [bind].
  rewrite checksum_ok; [|by apply Forall_drop|rewrite lenZ_drop; lia]. cbn [bind].
  rewrite add_w_ok by (unfold in_range; lia). cbn [bind].
  set (ck := pack_cksum _ _).
  destruct (large_insert_ok (E:=E) t ck (base + pos)) as (t' & Ht' & Hw'); [done|lia|].
  rewrite Ht'. cbn [bind]. assert (table_ok n t').
  { split; [done|]. eapply large_insert_bound; eauto; lia. }
  destruct (Z.ltb_spec pos step); [eauto|].
  rewrite sub_w_ok by (unfold in_range; lia). cbn [bind]. apply IH; (done || lia).
Qed.

Lemma index_data_ok e n base data t :
  engine_wf n e -> wf_bytes data -> large_look (MatchEngine.config e) <= lenZ data -> 0 <= base ->
  base + lenZ data <= n -> n < 2 ^ 64 -> table_ok n t ->
  exists t', MatchEngine.index_data (E:=E) e base data (lenZ data) t = Ok t' /\ table_ok n t'.
Proof.
  intros [Hc Hlk _ _ _ _] Hd Hl Hb Hn Hn64 Ht. destruct Hc as [_ Hll Hls _ _].
  unfold MatchEngine.index_data. rewrite sub_w_ok by (unfold in_range; lia). cbn [bind].
  apply index_down_ok with (n := n); (done || lia).
Qed.

Context {S : Type} `{SourceDataLaws E S contents}.

Lemma index_chunks_ok e source fuel offset t :
  let n := lenZ (contents source) in
  wf_bytes (contents source) -> engine_wf n e -> n < 2 ^ 63 -> 0 <= offset <= n ->
  n - offset < Z.of_nat fuel -> table_ok n t ->
  exists t', MatchEngine.index_chunks (E:=E) fuel e source n offset t = Ok t' /\ table_ok n t'.
Proof.
  intros n Hw He Hn. revert offset t. induction fuel as [|fuel IH]; intros offset t Ho Hf Ht; [lia|].
  cbn [MatchEngine.index_chunks]. destruct (Z.ltb_spec offset n); [|eauto].
  assert (MatchEngine.CHUNK_SIZE = 2 ^ 20) as Hcs by done.
  rewrite add_w_ok by (unfold in_range; lia). cbn [bind].
  rewrite sub_w_ok by (unfold in_range; lia). cbn [bind].
  set (end_ := Z.min (offset + MatchEngine.CHUNK_SIZE) n).
  destruct (Z.ltb_spec (end_ - offset) (large_look (MatchEngine.config e))); [eauto|].
  destruct (as_slice_spec source offset (end_ - offset)) as (o & -> & Hs); [lia..|]. cbn [bind].
  assert (exists t', match o with
    | Some chunk => MatchEngine.index_data (E:=E) e offset chunk (end_ - offset) t
    | None => Ok t end = Ok t' /\ table_ok n t') as (t' & -> & Ht').
  { destruct o as [chunk|]; [|eauto]. rewrite (Hs chunk eq_refl).
    assert (lenZ (sub (contents source) offset (end_ - offset)) = end_ - offset) as Hl
      by (apply sub_length; lia).
    pose proof (index_data_ok e n offset (sub (contents source) offset (end_ - offset)) t) as Hi.
    rewrite Hl in Hi. apply Hi; try done; try lia. by apply sub_wf. }
  cbn [bind]. apply IH; (done || lia).
Qed.

Lemma sub_all (l : bytes) : sub l 0 (lenZ l) = l.
Proof. unfold sub. simpl. apply take_ge. unfold lenZ. lia. Qed.

Lemma index_source_ok e source :
  let n := lenZ (contents source) in
  wf_bytes (contents source) -> engine_wf n e -> n < 2 ^ 63 ->
  exists e', MatchEngine.index_source (E:=E) e source = Ok e' /\ engine_wf n e' /\
    MatchEngine.config e' = MatchEngine.config e /\
    MatchEngine.match_srcpos e' = MatchEngine.match_srcpos e.
Proof.
  intros n Hw He Hn. unfold MatchEngine.index_source. rewrite sd_len_spec. fold n.
  destruct (Z.ltb_spec n (large_look (MatchEngine.config e))); [by exists e|].
  assert (0 <= n) by apply lenZ_nonneg. pose proof He as [Hc Hlk Hlw Hlb Hsm Hmp].
  destruct (as_slice_spec source 0 n) as (o & -> & Hs); [lia..|]. cbn [bind].
  assert (exists t', match o with
    | Some src => MatchEngine.index_data (E:=E) e 0 src n (MatchEngine.large_table e)
    | None => MatchEngine.index_chunks (Datatypes.S (Z.to_nat n)) e source n 0
        (MatchEngine.large_table e) end = Ok t' /\ table_ok n t') as (t' & -> & Hw' & Hb').
  { destruct o as [src|].
    - rewrite (Hs src eq_refl), sub_all. apply index_data_ok with (n := n); (done || lia).
    - apply index_chunks_ok; (done || lia). }
  cbn [bind]. eexists. split; [done|]. split; [|done]. by constructor.
Qed.
End Building.

(** ** Finding one match *)

Section Finding.
Context {B : Build} {E : Type}.
Context (target : bytes) (Ht : wf_bytes target) (Ht64 : lenZ target < 2 ^ 64).

(** The best candidate of a chain walk at [pos]. *)
Definition best_ok (pos : Z) (r : Z * Z) : Prop :=
  let '(len, off) := r in
  0 <= len /\ (0 < len -> 0 <= off < pos /\ pos + len <= lenZ target /\ agree target off target pos len).

Lemma small_chain_loop_ok e fuel pos base chain best :
  small_wf (MatchEngine.small_table e) -> 0 <= pos <= lenZ target -> 0 <= base ->
  1 <= chain < 2 ^ 64 -> chain <= Z.of_nat fuel -> best_ok pos best ->
  exists r, small_chain_loop (E:=E) fuel e target pos base chain best.1 best.2 = Ok r /\ best_ok pos r.
Proof.
  intros Hs Hpos. revert base chain best.
  induction fuel as [|fuel IH]; intros base chain best Hbase Hchain Hfuel Hbest; [lia|].
  cbn [small_chain_loop]. rewrite sub_w_ok by (unfold in_range; lia). cbn [bind].
  destruct (Z.leb_spec pos base); [by exists best; destruct best|].
  rewrite !slice_from_ok by lia. cbn [bind].
  destruct (forward_suffix (E:=E) (MatchEngine.kernels e) target target (conj Ht Ht) base pos
    (lenZ target - pos)) as (r & -> & Hr & Hag); [lia..|]. cbn [bind].
  assert (forall b, best_ok pos b -> exists res,
    (let* chain0 := sub_w 64 chain 1 in
     if chain0 =? 0 then Ok (b.1, b.2)
     else
       let* prev := SmallTable.chain_prev (MatchEngine.small_table e) base pos in
       match prev with
       | Some prev => small_chain_loop fuel e target pos prev chain0 b.1 b.2
       | None => Ok (b.1, b.2)
       end) = Ok (E:=E) res /\ best_ok pos res) as Hwalk.
  { intros b Hb. rewrite sub_w_ok by (unfold in_range; lia). cbn [bind].
    destruct (Z.eqb_spec (chain - 1) 0); [exists b; by destruct b|].
    destruct (chain_prev_ok (E:=E) (MatchEngine.small_table e) base pos) as (o & -> & Ho);
      [done|lia|lia|]. cbn [bind]. destruct o as [p|]; [|exists b; by destruct b].
    specialize (Ho p eq_refl). apply IH; (done || lia). }
  destruct best as [bl bo]. cbn [fst snd] in *.
  destruct (Z.ltb_spec bl r); [|by apply (Hwalk (bl, bo))].
  assert (best_ok pos (r, base)) as Hnew by (simpl; split; [lia|]; intros _; split_and!; (done || lia)).
  assert (exists st, (if long_enough (MatchEngine.config e) <=? r then Ok true
    else let* e0 := add_w 64 pos r in Ok (lenZ target <=? e0)) = Ok (E:=E) st) as [st ->].
  { case_bool; [eauto|]. rewrite add_w_ok by (unfold in_range; lia). cbn [bind]. eauto. }
  cbn [bind]. destruct st; [eauto|]. by apply (Hwalk (r, base)).
Qed.

(** What a search may return at [pos]: a valid match that covers [pos] and, at
    [pos], starts at least [MIN_MATCH] bytes. *)
Definition found_ok (src : bytes) (pos : Z) (o : option Match) : Prop :=
  forall m, o = Some m -> match_ok src target m /\
    target_pos m <= pos /\ pos + MIN_MATCH <= target_pos m + m_length m.

Lemma small_match_ok src e pos sc mm :
  config_wf (MatchEngine.config e) -> small_wf (MatchEngine.small_table e) ->
  0 <= pos <= lenZ target ->
  exists o, small_match (E:=E) e target pos sc mm = Ok o /\ found_ok src pos o /\
    forall m, o = Some m -> target_pos m = pos.
Proof.
  intros [_ _ _ Hc1 Hc2] Hs Hpos. unfold small_match.
  destruct (small_lookup_ok (E:=E) (MatchEngine.small_table e) sc Hs) as (o & -> & Ho). cbn [bind].
  destruct o as [head|]; [|by exists None]. specialize (Ho head eq_refl).
  set (chain := if MIN_MATCH <? mm then _ else _).
  assert (1 <= chain < 2 ^ 64) as Hchain by (unfold chain; case_match; lia).
  destruct (small_chain_loop_ok e (S (Z.to_nat (wrap 64 (chain - 1)))) pos head chain (0, 0))
    as ([bl bo] & Hl & Hb); [done|lia|lia|lia| |simpl; lia|].
  { rewrite wrap_small by (unfold in_range; lia). lia. }
  cbn [fst snd] in Hl. rewrite Hl. cbn [bind]. unfold MIN_MATCH in *.
  destruct (Z.ltb_spec bl 4); [by exists None|]. destruct Hb as [_ Hb].
  destruct Hb as (Hbo & Hfit & Hag); [lia|]. rewrite sub_w_ok by (unfold in_range; lia). cbn [bind].
  destruct (_ && _); [by exists None|]. destruct (_ && _); [by exists None|].
  eexists. split; [done|]. split; [|by intros m [= <-]].
  intros m [= <-]. unfold match_ok, least_length, MIN_MATCH. simpl.
  unfold U64_MAX. rewrite (proj2 (Z.eqb_neq _ _)) by lia. split_and!; (done || lia).
Qed.

(** A forward and a backward extension make a valid source match. *)
Lemma source_match_ok src pos src_pos back fwd :
  lenZ src < 2 ^ 64 - 1 -> 0 <= back -> MIN_MATCH <= fwd -> back <= pos -> back <= src_pos ->
  pos + fwd <= lenZ target -> src_pos + fwd <= lenZ src ->
  agree src (src_pos - back) target (pos - back) back -> agree src src_pos target pos fwd ->
  found_ok src pos (Some (match_at (pos - back) (back + fwd) (src_pos - back) true)).
Proof.
  intros Hsrc Hb Hf Hbp Hbs Hpf Hsf Hab Haf m [= <-]. unfold MIN_MATCH in *.
  unfold match_ok, least_length, MIN_MATCH. cbn [target_pos m_length addr is_source].
  unfold U64_MAX. rewrite (proj2 (Z.eqb_neq _ _)) by lia.
  split_and!; try lia. apply agree_app; [done|done|].
  by replace (src_pos - back + back) with src_pos by lia;
     replace (pos - back + back) with pos by lia.
Qed.

Lemma extend_slice_ok e src pos src_pos :
  wf_bytes src -> lenZ src < 2 ^ 64 - 1 -> 0 <= pos <= lenZ target -> 0 <= src_pos ->
  exists o, extend_source_match_slice (E:=E) e target src pos src_pos = Ok o /\ found_ok src pos o.
Proof.
  intros Hw Hsrc Hpos Hsp. unfold extend_source_match_slice.
  destruct (Z.leb_spec (lenZ src) src_pos); [by exists None|].
  rewrite (sub_w_ok _ (lenZ target)), (sub_w_ok _ (lenZ src)) by (unfold in_range; lia). cbn [bind].
  rewrite !slice_from_ok by lia. cbn [bind].
  destruct (forward_suffix (E:=E) (MatchEngine.kernels e) src target (conj Hw Ht) src_pos pos
    (Z.min (lenZ target - pos) (lenZ src - src_pos))) as (fwd & -> & Hf & Haf); [lia..|]. cbn [bind].
  destruct (Z.ltb_spec fwd MIN_MATCH); [by exists None|].
  cbv zeta. set (mb := Z.min pos src_pos).
  assert (exists back, (if 0 <? mb then
      let* a1 := sub_w 64 src_pos mb in
      let* s1 := slice src a1 src_pos in
      let* a2 := sub_w 64 pos mb in
      let* s2 := slice target a2 pos in
      backward_match_fn (MatchEngine.kernels e) s1 s2 mb
    else Ok 0) = Ok (E:=E) back /\ 0 <= back <= mb /\
    agree src (src_pos - back) target (pos - back) back) as (back & -> & Hb & Hab).
  { destruct (Z.ltb_spec 0 mb); [|exists 0; split_and!; try done; try lia; intros k; lia].
    rewrite !sub_w_ok by (unfold in_range; lia). cbn [bind].
    rewrite !slice_ok by lia. cbn [bind].
    replace (src_pos - (src_pos - mb)) with mb by lia. replace (pos - (pos - mb)) with mb by lia.
    apply backward_window; (done || lia). }
  cbn [bind]. unfold MIN_MATCH in *. rewrite sub_w_ok by (unfold in_range; lia). cbn [bind].
  rewrite add_w_ok by (unfold in_range; lia). cbn [bind].
  rewrite sub_w_ok by (unfold in_range; lia). cbn [bind].
  eexists. split; [done|]. apply source_match_ok; unfold MIN_MATCH; (done || lia).
Qed.

Context {S : Type} `{SourceDataLaws E S contents}.

Lemma buffered_match_ok e source fuel pos src_pos max_fwd off :
  let src := contents source in
  wf_bytes src -> lenZ src < 2 ^ 64 -> 0 <= pos -> 0 <= src_pos -> 0 <= off <= max_fwd ->
  pos + max_fwd <= lenZ target -> src_pos + max_fwd <= lenZ src ->
  max_fwd - off < Z.of_nat fuel -> agree src src_pos target pos off ->
  exists r, buffered_match (E:=E) fuel e target source pos src_pos max_fwd off off = Ok r /\
    0 <= r <= max_fwd /\ agree src src_pos target pos r.
Proof.
  intros src Hw Hsrc Hp Hs. revert off.
  induction fuel as [|fuel IH]; intros off Ho Hpt Hps Hf Hag; [lia|].
  cbn [buffered_match]. destruct (Z.ltb_spec off max_fwd); [|by exists off; split_and!; try lia].
  rewrite sub_w_ok by (unfold in_range; lia). cbn [bind].
  rewrite add_w_ok by (unfold in_range; lia). cbn [bind].
  assert (BUF_LEN = 16384) as Hbl by done.
  destruct (get_bytes_spec source (src_pos + off) (Z.min (max_fwd - off) BUF_LEN))
    as (buf & -> & Hlb & Hbuf); [lia..| |].
  { fold src. lia. }
  cbn [bind]. fold src in Hbuf. set (n := lenZ buf) in *. assert (0 <= n) by apply lenZ_nonneg.
  destruct (Z.eqb_spec n 0); [by exists off; split_and!; try lia|].
  rewrite add_w_ok by (unfold in_range; lia). cbn [bind]. rewrite slice_from_ok by lia. cbn [bind].
  rewrite Hbuf.
  destruct (forward_sub (E:=E) (MatchEngine.kernels e) src target (conj Hw Ht) (src_pos + off)
    (pos + off) n) as (r & -> & Hr & Har); [lia..|]. cbn [bind].
  rewrite add_w_ok by (unfold in_range; lia). cbn [bind].
  assert (agree src src_pos target pos (off + r)) by (apply agree_app; (done || lia)).
  destruct (Z.ltb_spec r n); [by exists (off + r); split_and!; try lia|].
  rewrite add_w_ok by (unfold in_range; lia). cbn [bind].
  replace r with n in * by lia. apply IH; (done || lia).
Qed.

Lemma extend_source_ok e source pos src_pos :
  let src := contents source in
  wf_bytes src -> lenZ src < 2 ^ 64 - 1 -> 0 <= pos <= lenZ target -> 0 <= src_pos <= lenZ src ->
  exists o, extend_source_match (E:=E) e target source pos src_pos (lenZ src) = Ok o /\
    found_ok src pos o.
Proof.
  intros src Hw Hsrc Hpos Hsp. unfold extend_source_match.
  rewrite (sub_w_ok _ (lenZ target)), (sub_w_ok _ (lenZ src)) by (unfold in_range; lia). cbn [bind].
  set (max_fwd := Z.min _ _).
  destruct (as_slice_spec source src_pos max_fwd) as (o & -> & Ho); [lia|lia|fold src; lia|lia|].
  cbn [bind]. fold src in Ho.
  assert (exists fwd, match o with
    | Some src_slice => let* t := slice_from target pos in
        forward_match_fn (MatchEngine.kernels e) src_slice t max_fwd
    | None => buffered_match (Datatypes.S (Z.to_nat max_fwd)) e target source pos src_pos max_fwd 0 0
    end = Ok (E:=E) fwd /\ 0 <= fwd <= max_fwd /\ agree src src_pos target pos fwd)
    as (fwd & -> & Hf & Haf).
  { destruct o as [l|].
    - rewrite (Ho l eq_refl), slice_from_ok by lia. cbn [bind]. apply forward_sub; (done || lia).
    - apply buffered_match_ok; try done; try lia; fold src; try lia; try done. intros k; lia. }
  cbn [bind]. destruct (Z.ltb_spec fwd MIN_MATCH); [by exists None|].
  cbv zeta. set (mb := Z.min pos src_pos).
  assert (exists back, (if 0 <? mb then
      let* a1 := sub_w 64 src_pos mb in
      let* src_slice := as_slice source a1 mb in
      match src_slice with
      | Some src_slice =>
          let* a2 := sub_w 64 pos mb in
          let* tgt_slice := slice target a2 pos in
          backward_match_fn (MatchEngine.kernels e) src_slice tgt_slice mb
      | None => Ok 0
      end
    else Ok 0) = Ok (E:=E) back /\ 0 <= back <= mb /\
    agree src (src_pos - back) target (pos - back) back) as (back & -> & Hb & Hab).
  { assert (agree src (src_pos - 0) target (pos - 0) 0) as Hz by (intros k; lia).
    destruct (Z.ltb_spec 0 mb); [|exists 0; split_and!; (done || lia)].
    rewrite (sub_w_ok _ src_pos) by (unfold in_range; lia). cbn [bind].
    destruct (as_slice_spec source (src_pos - mb) mb) as (o' & -> & Ho'); [lia|lia|fold src; lia|lia|].
    cbn [bind]. destruct o' as [l|]; [|exists 0; split_and!; (done || lia)].
    rewrite (Ho' l eq_refl). rewrite sub_w_ok by (unfold in_range; lia). cbn [bind].
    rewrite slice_ok by lia. cbn [bind]. replace (pos - (pos - mb)) with mb by lia.
    apply backward_window; (done || lia). }
  cbn [bind]. unfold MIN_MATCH in *. rewrite add_w_ok by (unfold in_range; lia). cbn [bind].
  rewrite !sub_w_ok by (unfold in_range; lia). cbn [bind].
  eexists. split; [done|]. apply source_match_ok; unfold MIN_MATCH; (done || lia).
Qed.
End Finding.

(** ** The scan *)

Lemma run_prefix p l n c : ends_with_run l n c -> ends_with_run (p ++ l) n c.
Proof. intros (pre & -> & Hn). exists (p ++ pre). by rewrite app_assoc. Qed.

Lemma run_lookup l n c k :
  ends_with_run l n c -> lenZ l - n <= k < lenZ l -> 0 <= k -> l !! Z.to_nat k = Some c.
Proof.
  intros (pre & -> & Hn) Hk Hk0. rewrite lenZ_app, lenZ_replicate, Z2Nat.id in Hk by lia.
  rewrite lookup_app_r by (unfold lenZ in *; lia). apply lookup_replicate.
  unfold lenZ in *. split; [done|lia].
Qed.

Section ScanOk.
Context {B : Build} {E S : Type} `{SourceDataLaws E S contents}.
Context (e : MatchEngine.t) (target : bytes) (source : option S) (contiguous : option bytes).

Definition source_bytes : bytes := match source with Some s => contents s | None => [] end.

(** The contiguous slice, when there is one, is the whole source. *)
Definition contiguous_ok : Prop :=
  forall l, contiguous = Some l -> l = source_bytes /\ source <> None.

Context (He : engine_wf (lenZ source_bytes) e).
Context (Hsw : wf_bytes source_bytes) (Htw : wf_bytes target).
Context (Hlen : lenZ source_bytes + lenZ target < 2 ^ 63).
Context (Hcont : contiguous_ok).

Record base_inv (s : Scan) : Prop := {
  bi_pos : 0 <= input_pos s <= lenZ target;
  bi_min : MIN_MATCH <= min_match s < 2 ^ 63;
  bi_matches : Forall (match_ok source_bytes target) (matches s);
  bi_table : small_wf (table s)
}.

(** The run state describes the last bytes of the current small window. *)
Definition run_inv (s : Scan) : Prop :=
  input_pos s + 4 <= lenZ target ->
  ends_with_run (take (Z.to_nat (input_pos s + 4)) target) (run_l s) (run_c s) /\
  1 <= run_l s <= input_pos s + 4.

Definition scan_inv (s : Scan) : Prop := base_inv s /\ run_inv s.

(** What a part of the loop's body may do to a scan at [pos]. *)
Definition flow_ok (pos : Z) (f : flow) : Prop :=
  match f with
  | Continue s => scan_inv s /\ pos < input_pos s
  | Fall s _ => scan_inv s /\ input_pos s = pos
  end.

Lemma slook_4 : slook e = 4.
Proof. apply (cw_small_look _ (ew_config _ _ He)). Qed.

Lemma target_room : lenZ target < 2 ^ 63.
Proof. pose proof (lenZ_nonneg source_bytes). lia. Qed.

Lemma source_room : lenZ source_bytes < 2 ^ 63.
Proof. pose proof (lenZ_nonneg target). lia. Qed.

Lemma large_room_ok pos :
  0 <= pos <= lenZ target -> exists b, large_room (E:=E) e target source pos = Ok b /\
    (b = true -> pos + llook e <= lenZ target).
Proof.
  intros Hpos. unfold large_room. destruct (do_large source); [|by exists false].
  pose proof (cw_large_look _ (ew_config _ _ He)). pose proof target_room. unfold llook.
  rewrite add_w_ok by (unfold in_range; lia). cbn [bind]. eexists. split; [done|]. lia.
Qed.

Lemma wf_take n : wf_bytes (take n target).
Proof. by apply Forall_take. Qed.

Lemma rehash_ok s :
  base_inv s -> exists s', rehash (E:=E) e target source s = Ok s' /\ scan_inv s' /\
    input_pos s' = input_pos s.
Proof.
  intros Hb. pose proof Hb as [Hp Hm Hms Hst]. pose proof target_room. unfold rehash.
  rewrite slook_4, add_w_ok by (unfold in_range; lia). cbn [bind].
  destruct (Z.leb_spec (input_pos s + 4) (lenZ target)).
  2:{ exists s. split; [done|]. split; [|done]. split; [done|]. intros ?. lia. }
  rewrite slice_from_ok by lia. cbn [bind].
  set (t := drop (Z.to_nat (input_pos s)) target).
  assert (lenZ t = lenZ target - input_pos s) as Hlt by (apply lenZ_drop; lia).
  destruct (small_cksum_ok (E:=E) (little_endian (MatchEngine.kernels e)) t) as [sc ->]; [lia|].
  cbn [bind]. destruct (comprun_ok (E:=E) t 4) as (n & c & -> & Hrun & Hn & Hn1); [lia..|].
  cbn [bind]. destruct (large_room_ok (input_pos s)) as (room & -> & Hroom); [lia|]. cbn [bind].
  assert (exists lc, (if room then checksum (MatchEngine.large_hash e) t else Ok (lcksum s))
    = Ok (E:=E) lc) as [lc ->].
  { destruct room; [|eauto]. pose proof (cw_large_look _ (ew_config _ _ He)).
    rewrite checksum_ok; [eauto|by apply Forall_drop|].
    rewrite (ew_look _ _ He). unfold llook in Hroom. specialize (Hroom eq_refl). lia. }
  cbn [bind]. eexists. split; [done|]. split; [|done]. split; [by constructor|].
  intros _. simpl. split; [|specialize (Hn1 ltac:(lia)); lia].
  rewrite Z2Nat.inj_add, <- take_plus by lia. apply run_prefix. done.
Qed.

Lemma push_inv s m : match_ok source_bytes target m -> scan_inv s -> scan_inv (push s m).
Proof. intros Hm [[? ? ? ?] Hr]. split; [|exact Hr]. constructor; try done. by constructor. Qed.

Lemma try_lazy_ok len ml pos n :
  0 <= pos -> 0 <= len -> pos + len <= 2 ^ 63 -> exists b, try_lazy (E:=E) len ml pos n = Ok b.
Proof.
  intros. unfold try_lazy. destruct (_ && _); [|eauto].
  rewrite add_w_ok by (unfold in_range; lia). cbn [bind].
  rewrite add_w_ok by (unfold in_range; lia). cbn [bind]. eauto.
Qed.

Lemma accept_ok s len :
  scan_inv s -> MIN_MATCH <= len -> input_pos s + len <= lenZ target ->
  exists f, accept (E:=E) e target source s len = Ok f /\ flow_ok (input_pos s) f.
Proof.
  intros [Hb Hr] Hl Hp. pose proof Hb as [Hpos Hmm Hms Hst]. pose proof target_room.
  unfold accept. unfold MIN_MATCH in *.
  destruct (try_lazy_ok len (max_lazy (MatchEngine.config e)) (input_pos s) (lenZ target))
    as [lazy ->]; [lia..|]. cbn [bind]. destruct lazy; cbn [negb].
  - eexists. split; [done|]. split; [|done]. split; [|exact Hr].
    constructor; simpl; (done || unfold MIN_MATCH; lia).
  - unfold skip_match. rewrite add_w_ok by (unfold in_range; lia). cbn [bind].
    destruct (rehash_ok (set_min_match (set_input_pos s (input_pos s + len)) MIN_MATCH))
      as (s' & -> & Hs' & Hp'); [constructor; simpl; (done || unfold MIN_MATCH; lia)|].
    cbn [bind]. eexists. split; [done|]. split; [done|]. rewrite Hp'. simpl. lia.
Qed.
Lemma run_byte s :
  run_inv s -> input_pos s + 4 <= lenZ target -> is_u8 (run_c s).
Proof.
  intros Hr Hroom. destruct (Hr Hroom) as [Hrun Hn].
  set (l := take _ target) in *. assert (lenZ l = input_pos s + 4) as Hl.
  { unfold l, lenZ in *. rewrite length_take. lia. }
  pose proof (run_lookup l _ _ (lenZ l - 1) Hrun ltac:(lia) ltac:(lia)) as Hlast.
  by apply (Forall_lookup_1 _ _ _ _ (wf_take _) Hlast).
Qed.

(** A run of the whole small window, extended forward, is a run. *)
Lemma run_match_ok pos c n :
  0 <= pos -> pos + 4 <= lenZ target -> ends_with_run (take (Z.to_nat (pos + 4)) target) 4 c ->
  4 <= n -> pos + 4 + n <= lenZ target ->
  (forall k, 0 <= k < n -> drop (Z.to_nat (pos + 4)) target !! Z.to_nat k = Some c) ->
  match_ok source_bytes target (match_at pos (4 + n) U64_MAX false).
Proof.
  intros Hp Hroom Hrun Hn Hfit Hk. unfold match_ok, least_length, MIN_RUN. cbn [target_pos m_length addr].
  rewrite Z.eqb_refl. split_and!; try lia.
  assert (forall k, 0 <= k < 4 + n -> target !! Z.to_nat (pos + k) = Some c) as Hall.
  { intros k Hk'. destruct (Z.lt_ge_cases k 4).
    - assert (lenZ (take (Z.to_nat (pos + 4)) target) = pos + 4) as Hl
        by (unfold lenZ in *; rewrite length_take; lia).
      pose proof (run_lookup _ _ _ (pos + k) Hrun ltac:(lia) ltac:(lia)) as Hx.
      by apply lookup_take_Some in Hx as [? _].
    - specialize (Hk (k - 4) ltac:(lia)). rewrite lookup_drop, <- Z2Nat.inj_add in Hk by lia.
      by replace (pos + 4 + (k - 4)) with (pos + k) in Hk by lia. }
  intros k Hk'. rewrite Hall by lia. specialize (Hall 0 ltac:(lia)). by rewrite Z.add_0_r in Hall.
Qed.

Lemma try_run_ok s :
  scan_inv s -> input_pos s + 4 <= lenZ target ->
  exists f, try_run (E:=E) e target source s = Ok f /\ flow_ok (input_pos s) f.
Proof.
  intros Hs Hroom. pose proof Hs as [[Hp Hmm Hms Hst] Hr]. pose proof target_room.
  assert (flow_ok (input_pos s) (Fall s false)) as Hfall by done.
  unfold try_run. rewrite slook_4. destruct (Z.eqb_spec (run_l s) 4) as [H4|]; [|eauto].
  pose proof (run_byte s Hr Hroom) as Hc. destruct (Hr Hroom) as [Hrun Hn]. rewrite H4 in *.
  rewrite (sub_w_ok _ (lenZ target)) by (unfold in_range; lia). cbn [bind].
  rewrite sub_w_ok by (unfold in_range; lia). cbn [bind].
  rewrite add_w_ok by (unfold in_range; lia). cbn [bind].
  rewrite slice_from_ok by lia. cbn [bind].
  set (rest := drop (Z.to_nat (input_pos s + 4)) target).
  assert (lenZ rest = lenZ target - (input_pos s + 4)) as Hlr by (apply lenZ_drop; lia).
  replace (lenZ target - input_pos s - 4) with (lenZ rest) by lia.
  rewrite run_kernels; [|by apply Forall_drop|done|pose proof (lenZ_nonneg rest); lia]. cbn [bind].
  destruct (run_of_spec rest (run_c s) (lenZ rest)) as (Hb & Heq & _);
    [pose proof (lenZ_nonneg rest); lia|].
  set (n := run_of rest (run_c s) (lenZ rest)) in *.
  rewrite add_w_ok by (unfold in_range; lia). cbn [bind].
  destruct (Z.leb_spec (min_match s) (4 + n)); [|eauto].
  unfold MIN_RUN. destruct (Z.leb_spec 8 (4 + n)); [|eauto]. cbn [andb].
  apply (accept_ok (push s (match_at (input_pos s) (4 + n) U64_MAX false))).
  - apply push_inv; [|done]. apply run_match_ok with (c := run_c s); (done || lia).
  - unfold MIN_MATCH in *. lia.
  - simpl. lia.
Qed.

Lemma extend_ok pos src_pos :
  0 <= pos <= lenZ target -> 0 <= src_pos <= lenZ source_bytes ->
  exists o, extend (E:=E) e target source contiguous pos src_pos = Ok o /\
    found_ok target source_bytes pos o.
Proof.
  intros Hpos Hsp. pose proof source_room. pose proof target_room. unfold extend.
  destruct contiguous as [l|] eqn:Hl.
  - destruct (Hcont l Hl) as [-> _]. apply extend_slice_ok; (done || lia).
  - destruct source as [src|] eqn:Hsrc; [|by exists None].
    assert (source_bytes = contents src) as Hsb by (unfold source_bytes; by rewrite Hsrc).
    pose proof Hsw as Hsw'. rewrite Hsb in *. unfold source_len. rewrite sd_len_spec.
    apply extend_source_ok; (done || lia).
Qed.

Lemma erase_covered_forall P pos l : Forall P l -> Forall P (erase_covered pos l).
Proof.
  induction 1 as [|m l Hm Hl IH]; simpl; [done|]. destruct (_ <=? _); [done|by constructor].
Qed.

Lemma large_lookup_bound ck p :
  LargeTable.lookup (E:=E) (MatchEngine.large_table e) ck = Ok (Some p) ->
  0 <= p <= lenZ source_bytes.
Proof.
  intros Hl. pose proof He as [_ _ [_ _ Hv] Hb _ _]. unfold LargeTable.lookup, HASH_CKOFFSET in Hl.
  destruct (index _ _) as [v| | |] eqn:Hi; try discriminate. cbn [bind] in Hl.
  destruct (Z.eqb_spec v 0); [done|]. cbn [negb] in Hl.
  apply index_inv in Hi as [_ Hi]. pose proof (Forall_lookup_1 _ _ _ _ Hv Hi) as Hu.
  pose proof (Forall_lookup_1 _ _ _ _ Hb Hi) as Hn. unfold in_range in Hu. simpl in Hn.
  rewrite sub_w_ok in Hl by (unfold in_range; lia). cbn [bind] in Hl. injection Hl as <-. lia.
Qed.

Lemma try_large_ok s skip :
  scan_inv s -> exists f, try_large (E:=E) e target source contiguous s skip = Ok f /\
    flow_ok (input_pos s) f.
Proof.
  intros Hs. pose proof Hs as [[Hp Hmm Hms Hst] Hr]. pose proof target_room. unfold try_large.
  assert (flow_ok (input_pos s) (Fall s skip)) as Hfall by done.
  destruct (large_room_ok (input_pos s)) as (room & -> & _); [lia|]. cbn [bind].
  destruct room; [|cbn [bind]; eauto].
  destruct (large_lookup_ok (E:=E) (MatchEngine.large_table e) (lcksum s) (ew_large _ _ He))
    as (o & Ho & _). rewrite Ho. cbn [bind]. destruct o as [sp|]; [|eauto].
  apply large_lookup_bound in Ho.
  destruct (extend_ok (input_pos s) sp) as (om & -> & Hm); [done..|]. cbn [bind].
  destruct om as [m|]; [|eauto]. destruct (Hm m eq_refl) as (Hmok & Hle & Hge).
  pose proof Hmok as (Htp & Hml & Hfit & _). pose proof (least_length_pos m). unfold MIN_MATCH in *.
  rewrite sub_w_ok by (unfold in_range; lia). cbn [bind].
  rewrite sub_w_ok by (unfold in_range; lia). cbn [bind].
  destruct (Z.leb_spec (min_match s) (m_length m - (input_pos s - target_pos m))); [|eauto].
  set (s' := if 0 <? input_pos s - target_pos m then _ else _).
  assert (scan_inv s' /\ input_pos s' = input_pos s) as [Hs' Hp'].
  { unfold s'. case_match; [|done]. split; [|done]. split; [|exact Hr].
    constructor; try done. by apply erase_covered_forall. }
  pose proof (accept_ok (push s' m) (m_length m - (input_pos s - target_pos m))) as Ha.
  cbn [push input_pos] in Ha. rewrite Hp' in Ha. unfold MIN_MATCH in Ha.
  apply Ha; [by apply push_inv|lia..].
Qed.

Lemma try_small_ok s skip :
  scan_inv s -> exists f, try_small (E:=E) e target source s skip = Ok f /\ flow_ok (input_pos s) f.
Proof.
  intros Hs. pose proof Hs as [[Hp Hmm Hms Hst] Hr]. pose proof target_room. unfold try_small.
  destruct (small_match_ok target Htw ltac:(lia) (E:=E) source_bytes
    (MatchEngine.set_small_table e (table s)) (input_pos s) (scksum s) (min_match s))
    as (o & -> & Hm & Hat); [apply He|done|lia|]. cbn [bind].
  destruct (small_insert_ok (E:=E) (table s) (scksum s) (input_pos s)) as (t' & -> & Ht');
    [done|lia|]. cbn [bind].
  assert (scan_inv (set_table s t')) as Hs' by (split; [by constructor|exact Hr]).
  assert (flow_ok (input_pos s) (Fall (set_table s t') skip)) as Hfall by done.
  destruct o as [m|]; [|eauto]. destruct (Hm m eq_refl) as (Hmok & _ & _).
  pose proof (Hat m eq_refl) as Hpos. pose proof Hmok as (_ & _ & Hfit & _). unfold MIN_MATCH in *.
  destruct (Z.leb_spec (min_match (set_table s t')) (m_length m)) as [Hle|]; [|eauto].
  simpl in Hle. apply (accept_ok (push (set_table s t') m)).
  - by apply push_inv.
  - unfold MIN_MATCH. lia.
  - simpl. lia.
Qed.

Lemma advance_ok s skip :
  scan_inv s -> input_pos s + 4 <= lenZ target ->
  exists s' more, advance (E:=E) e target source s skip = Ok (s', more) /\ base_inv s' /\
    (more = true -> scan_inv s' /\ input_pos s' = input_pos s + 1).
Proof.
  intros [[Hp Hmm Hms Hst] Hr] Hroom. pose proof target_room. unfold advance, MIN_MATCH in *.
  assert (exists mm, (if negb skip && (4 <? min_match s) then sub_w 64 (min_match s) 1
    else Ok (min_match s)) = Ok (E:=E) mm /\ 4 <= mm < 2 ^ 63) as (mm & -> & Hmm').
  { destruct (_ && _) eqn:Hc; [|eauto]. apply andb_true_iff in Hc as [_ Hc%Z.ltb_lt].
    rewrite sub_w_ok by (unfold in_range; lia). eexists. split; [done|lia]. }
  cbn [bind]. rewrite add_w_ok by (unfold in_range; lia). cbn [bind].
  rewrite slook_4, add_w_ok by (unfold in_range; lia). cbn [bind].
  destruct (Z.ltb_spec (lenZ target) (input_pos s + 1 + 4)).
  { eexists _, false. split; [done|]. split; [|done]. constructor; simpl; (done || unfold MIN_MATCH; lia). }
  destruct (small_cksum_at_ok (E:=E) (little_endian (MatchEngine.kernels e)) target (input_pos s + 1))
    as [sc ->]; [lia..|]. cbn [bind].
  rewrite sub_w_ok by (unfold in_range; lia). cbn [bind].
  destruct (index_ok (E:=E) target (input_pos s + 1 + 4 - 1)) as (b & Hb & ->); [lia|]. cbn [bind].
  destruct (Hr Hroom) as [Hrun Hn]. pose proof (run_extend _ _ _ b Hrun) as Hx.
  replace (take (Z.to_nat (input_pos s + 4)) target ++ [b])
    with (take (Z.to_nat (input_pos s + 1 + 4)) target) in Hx.
  2:{ replace (Z.to_nat (input_pos s + 1 + 4)) with (Datatypes.S (Z.to_nat (input_pos s + 4))) by lia.
      apply take_S_r. by replace (Z.to_nat (input_pos s + 4)) with (Z.to_nat (input_pos s + 1 + 4 - 1)) by lia. }
  cbn [run_c run_l lcksum set_min_match set_input_pos].
  assert (exists rl rc, (if b =? run_c s then let* l := add_w 64 (run_l s) 1 in Ok (l, run_c s)
    else Ok (1, b)) = Ok (E:=E) (rl, rc) /\ 1 <= rl <= input_pos s + 1 + 4 /\
    ends_with_run (take (Z.to_nat (input_pos s + 1 + 4)) target) rl rc) as (rl & rc & -> & Hrl & Hrun').
  { destruct (b =? run_c s).
    - rewrite add_w_ok by (unfold in_range; lia). cbn [bind]. eexists _, _. split_and!; (done || lia).
    - eexists _, _. split_and!; (done || lia). }
  cbn [bind]. destruct (large_room_ok (input_pos s + 1)) as (room & -> & Hlr); [lia|]. cbn [bind].
  assert (exists lc, (if room then let* i := sub_w 64 (input_pos s + 1) 1 in
      update_at (MatchEngine.large_hash e) (lcksum s) target i else Ok (lcksum s)) = Ok (E:=E) lc)
    as [lc ->].
  { destruct room; [|eauto]. rewrite sub_w_ok by (unfold in_range; lia). cbn [bind].
    pose proof (cw_large_look _ (ew_config _ _ He)). unfold llook in Hlr. specialize (Hlr eq_refl).
    apply update_at_ok; rewrite ?(ew_look _ _ He); (done || lia). }
  cbn [bind]. eexists _, true. split; [done|].
  match goal with |- base_inv ?s /\ _ => assert (base_inv s) as Hbase
    by (constructor; simpl; (done || unfold MIN_MATCH; lia)) end.
  split; [done|]. intros _. split; [|done]. split; [done|]. by intros _.
Qed.

Lemma scan_loop_ok fuel s :
  scan_inv s -> lenZ target - input_pos s < Z.of_nat fuel ->
  exists s', scan_loop (E:=E) e target source contiguous fuel s = Ok s' /\ base_inv s'.
Proof.
  revert s. induction fuel as [|fuel IH]; intros s Hs Hf; pose proof Hs as [[Hp _ _ _] _]; [lia|].
  pose proof target_room. cbn [scan_loop].
  rewrite slook_4, add_w_ok by (unfold in_range; lia). cbn [bind].
  destruct (Z.ltb_spec (lenZ target) (input_pos s + 4)); [exists s; split; [done|apply Hs]|].
  destruct (try_run_ok s) as (f1 & -> & Hf1); [done|lia|]. cbn [bind].
  assert (exists f, match f1 with Continue s => Ok (Continue s)
    | Fall s skip => try_large (E:=E) e target source contiguous s skip end = Ok f /\
    flow_ok (input_pos s) f) as (f2 & -> & Hf2).
  { destruct f1 as [s1|s1 skip]; [eauto|]. destruct Hf1 as [Hs1 <-]. by apply try_large_ok. }
  cbn [bind].
  assert (exists f, match f2 with Continue s => Ok (Continue s)
    | Fall s skip => try_small (E:=E) e target source s skip end = Ok f /\
    flow_ok (input_pos s) f) as (f3 & -> & Hf3).
  { destruct f2 as [s2|s2 skip]; [eauto|]. destruct Hf2 as [Hs2 <-]. by apply try_small_ok. }
  cbn [bind]. destruct f3 as [s3|s3 skip]; destruct Hf3 as [Hs3 Hp3]; [apply IH; (done || lia)|].
  destruct (advance_ok s3 skip) as (s4 & more & -> & Hb4 & Hmore); [done|lia|]. cbn [bind].
  destruct more; [|eauto]. destruct (Hmore eq_refl) as [Hs4 Hp4]. apply IH; (done || lia).
Qed.

Lemma set_match_srcpos_wf p :
  0 <= p -> engine_wf (lenZ source_bytes) (MatchEngine.set_match_srcpos e p).
Proof. intros Hp. destruct He. by constructor. Qed.

Lemma probe_hit_ok s src_pos fwd :
  scan_inv s -> 0 <= src_pos -> MIN_MATCH <= fwd <= lenZ target ->
  src_pos + fwd <= lenZ source_bytes -> agree source_bytes src_pos target 0 fwd ->
  exists e' s', probe_hit (E:=E) e target source e s src_pos fwd = Ok (e', s') /\
    engine_wf (lenZ source_bytes) e' /\ scan_inv s'.
Proof.
  intros [[Hp Hmm Hms Hst] Hr] Hsp Hf Hfit Hag. pose proof source_room. unfold probe_hit, MIN_MATCH in *.
  assert (exists e', (if fwd =? lenZ target then let* p := add_w 64 src_pos fwd in
      Ok (MatchEngine.set_match_srcpos e p) else Ok e) = Ok (E:=E) e' /\
    engine_wf (lenZ source_bytes) e') as (e' & -> & He').
  { case_match; [|eauto]. rewrite add_w_ok by (unfold in_range; lia). cbn [bind].
    eexists. split; [done|]. apply set_match_srcpos_wf. lia. }
  cbn [bind].
  destruct (rehash_ok (set_input_pos (push s (match_at 0 fwd src_pos true)) fwd))
    as (s' & -> & Hs' & _); [|cbn [bind]; eauto].
  constructor; simpl; try done; [lia|]. constructor; [|done].
  unfold match_ok, least_length, MIN_MATCH, U64_MAX. simpl. rewrite (proj2 (Z.eqb_neq _ _)) by lia.
  split_and!; (done || lia).
Qed.

Lemma probe_ok s :
  scan_inv s -> exists e' s', probe (E:=E) e target source contiguous s = Ok (e', s') /\
    engine_wf (lenZ source_bytes) e' /\ scan_inv s'.
Proof.
  intros Hs. pose proof source_room. pose proof (ew_srcpos _ _ He) as Hmp.
  pose proof (lenZ_nonneg target). unfold probe.
  set (sp := MatchEngine.match_srcpos e) in *.
  assert (exists e' s', Ok (E:=E) (e, s) = Ok (e', s') /\ engine_wf (lenZ source_bytes) e' /\
    scan_inv s') as Hsame by eauto.
  assert (forall fwd, sp < lenZ source_bytes ->
    0 <= fwd <= Z.min (lenZ target) (lenZ source_bytes - sp) ->
    agree source_bytes sp target 0 fwd ->
    exists e' s', (if MIN_MATCH <=? fwd then probe_hit (E:=E) e target source e s sp fwd
      else Ok (e, s)) = Ok (e', s') /\ engine_wf (lenZ source_bytes) e' /\ scan_inv s') as Hhit.
  { intros fwd Hlt Hf Hag. destruct (Z.leb_spec MIN_MATCH fwd); [|done].
    apply probe_hit_ok; (done || lia). }
  destruct contiguous as [l|] eqn:Hl.
  - destruct (Hcont l Hl) as [-> _]. destruct (Z.ltb_spec sp (lenZ source_bytes)); [|done].
    rewrite sub_w_ok by (unfold in_range; lia). cbn [bind].
    destruct (Z.leb_spec MIN_MATCH (Z.min (lenZ target) (lenZ source_bytes - sp))); [|done].
    rewrite slice_from_ok by lia. cbn [bind].
    destruct (forward_suffix (E:=E) (MatchEngine.kernels e) source_bytes target (conj Hsw Htw) sp 0
      (Z.min (lenZ target) (lenZ source_bytes - sp))) as (r & Hfm & Hr & Hag); [lia..|].
    change (drop (Z.to_nat 0) target) with target in Hfm. rewrite Hfm. cbn [bind]. by apply Hhit.
  - destruct source as [src|] eqn:Hsrc; [|done].
    assert (source_bytes = contents src) as Hsb by (unfold source_bytes; by rewrite Hsrc).
    rewrite sd_len_spec, <- Hsb. destruct (Z.ltb_spec sp (lenZ source_bytes)); [|done].
    rewrite sub_w_ok by (unfold in_range; lia). cbn [bind].
    destruct (Z.leb_spec MIN_MATCH (Z.min (lenZ target) (lenZ source_bytes - sp))); [|done].
    destruct (as_slice_spec src sp (Z.min (lenZ target) (lenZ source_bytes - sp)))
      as (o & -> & Ho); [lia|lia|rewrite <- Hsb; lia|lia|]. cbn [bind]. destruct o as [l|].
    + rewrite (Ho l eq_refl), <- Hsb.
      destruct (forward_sub (E:=E) (MatchEngine.kernels e) source_bytes target (conj Hsw Htw) sp 0
        (Z.min (lenZ target) (lenZ source_bytes - sp))) as (r & Hfm & Hr & Hag); [lia..|].
      change (drop (Z.to_nat 0) target) with target in Hfm. rewrite Hfm. cbn [bind]. by apply Hhit.
    + by cbn [bind].
Qed.
End ScanOk.

(** ** Matches to instructions *)

Lemma emit_add_all_worthwhile target : Forall worthwhile (emit_add_all target).
Proof. destruct target; by repeat constructor. Qed.

Section Emission.
Context {B : Build} {E : Type} (src target : bytes).
Context (Ht32 : lenZ target < 2 ^ 32) (Hlen : lenZ src + lenZ target < 2 ^ 63).

(** The instructions reproduce the target from [pos] to [stop]. *)
Fixpoint covers (pos : Z) (l : list Instruction) (stop : Z) : Prop :=
  match l with
  | [] => pos = stop
  | i :: l => valid_inst src target pos i /\ covers (pos + inst_len i) l stop
  end.

Lemma covers_valid pos l : covers pos l (lenZ target) -> valid_insts src target pos l.
Proof. revert pos. induction l as [|i l IH]; intros pos; simpl; [done|]. intros [? ?]. auto. Qed.

Lemma covers_snoc pos l stop i :
  covers pos l stop -> valid_inst src target stop i -> covers pos (l ++ [i]) (stop + inst_len i).
Proof.
  revert pos. induction l as [|j l IH]; intros pos; simpl.
  - by intros ->.
  - intros [? ?] ?. auto.
Qed.

Lemma pop_overlapped_ok m l :
  Forall (match_ok src target) l ->
  exists l', pop_overlapped (E:=E) m l = Ok l' /\ Forall (match_ok src target) l'.
Proof.
  induction 1 as [|x l Hx Hl IH]; simpl; [by exists []|]. destruct Hx as (Hp & Hm & Hfit & Hx).
  pose proof (lenZ_nonneg src). pose proof (least_length_pos x). rewrite add_w_ok by (unfold in_range; lia). cbn [bind].
  destruct (_ && _); [done|]. eexists. split; [done|]. by constructor.
Qed.

Lemma sort_ok ms : Forall (match_ok src target) ms ->
  forall sorted, Forall (match_ok src target) sorted ->
  exists l, for_in (E:=E) ms sort_step sorted = Ok l /\ Forall (match_ok src target) l.
Proof.
  induction 1 as [|m ms Hm Hms IH]; intros sorted Hs; simpl; [eauto|]. unfold sort_step at 1.
  destruct (pop_overlapped_ok m sorted Hs) as (l & -> & Hl). cbn [bind].
  destruct l as [|x l]; cbn [bind]; [apply IH; by constructor|].
  pose proof Hl as Hl'. inversion Hl' as [|? ? (Hp & Hml & Hfit & _) _]; subst.
  pose proof (lenZ_nonneg src). pose proof (least_length_pos x).
  rewrite add_w_ok by (unfold in_range; lia). cbn [bind].
  destruct (_ || _); cbn [bind]; apply IH; [by constructor|done].
Qed.

Lemma add_valid pos len :
  0 <= pos -> 1 <= len -> pos + len <= lenZ target -> valid_inst src target pos (Add (wrap 32 len)).
Proof.
  intros. unfold valid_inst. simpl. rewrite wrap_small by (unfold in_range; lia). lia.
Qed.

Lemma emit_match_ok m pos insts :
  match_ok src target m -> covers 0 insts pos -> Forall worthwhile insts -> 0 <= pos <= lenZ target ->
  exists pos' insts', emit_match (E:=E) (lenZ src) m (pos, insts) = Ok (pos', insts') /\
    covers 0 insts' pos' /\ Forall worthwhile insts' /\ 0 <= pos' <= lenZ target.
Proof.
  intros (Hp & Hl & Hfit & Hm) Hc Hwo Hpos. pose proof (lenZ_nonneg src). unfold emit_match.
  pose proof (least_length_pos m).
  rewrite add_w_ok by (unfold in_range; lia). cbn [bind].
  destruct (Z.ltb_spec (target_pos m) pos); [by eexists _, _|].
  assert (exists l, (if pos <? target_pos m then let* gap := sub_w 64 (target_pos m) pos in
      Ok (insts ++ [Add (wrap 32 gap)]) else Ok insts) = Ok (E:=E) l /\ covers 0 l (target_pos m) /\
      Forall worthwhile l) as (l & -> & Hcl & Hwl).
  { destruct (Z.ltb_spec pos (target_pos m)); [|by replace (target_pos m) with pos by lia; eauto].
    rewrite sub_w_ok by (unfold in_range; lia). cbn [bind]. eexists. split; [done|].
    split; [|apply Forall_app; split; [done|by repeat constructor]].
    replace (target_pos m) with (pos + inst_len (Add (wrap 32 (target_pos m - pos)))) at 2
      by (simpl; rewrite wrap_small by (unfold in_range; lia); lia).
    apply covers_snoc; [done|]. apply add_valid; lia. }
  cbn [bind]. assert (wrap 32 (m_length m) = m_length m) as Hw by (apply wrap_small; unfold in_range; lia).
  assert (exists i, (if addr m =? U64_MAX then Ok (Run (wrap 32 (m_length m)))
      else if is_source m then Ok (Copy (wrap 32 (m_length m)) (addr m) 0)
      else let* a := add_w 64 (lenZ src) (addr m) in Ok (Copy (wrap 32 (m_length m)) a 0))
      = Ok (E:=E) i /\ valid_inst src target (target_pos m) i /\ inst_len i = m_length m /\ worthwhile i)
    as (i & -> & Hi & Hil & Hiw).
  { unfold least_length in *. rewrite Hw. destruct (addr m =? U64_MAX); [|destruct (is_source m)].
    - eexists. split; [done|]. split; [|done]. split_and!; simpl; (done || lia).
    - destruct Hm as (Ha & Hend & Hag). eexists. split; [done|]. split; [|done].
      split_and!; simpl; try lia. intros k Hk. rewrite <- Hag by lia.
      apply lookup_app_l. unfold lenZ in *. lia.
    - destruct Hm as (Ha & Hag). rewrite add_w_ok by (unfold in_range; lia). cbn [bind].
      eexists. split; [done|]. split; [|done]. split_and!; simpl; try lia.
      intros k Hk. rewrite <- Hag by lia. rewrite lookup_app_r by (unfold lenZ in *; lia).
      f_equal. unfold lenZ in *. lia. }
  cbn [bind]. eexists _, _. split; [done|]. split; [rewrite <- Hil; by apply covers_snoc|].
  split; [|lia]. apply Forall_app. by repeat constructor.
Qed.

Lemma emit_matches_ok ms : Forall (match_ok src target) ms ->
  forall pos insts, covers 0 insts pos -> Forall worthwhile insts -> 0 <= pos <= lenZ target ->
  exists pos' insts', for_in (E:=E) ms (emit_match (lenZ src)) (pos, insts) = Ok (pos', insts') /\
    covers 0 insts' pos' /\ Forall worthwhile insts' /\ 0 <= pos' <= lenZ target.
Proof.
  induction 1 as [|m ms Hm Hms IH]; intros pos insts Hc Hw Hpos; cbn [for_in]; [eauto 6|].
  destruct (emit_match_ok m pos insts Hm Hc Hw Hpos) as (p & l & -> & Hc' & Hw' & Hp'). cbn [bind]. auto.
Qed.

Lemma matches_to_instructions_ok ms :
  Forall (match_ok src target) ms ->
  exists l, matches_to_instructions (E:=E) target (lenZ src) ms = Ok l /\ valid_insts src target 0 l /\
    Forall worthwhile l.
Proof.
  intros Hms. unfold matches_to_instructions. pose proof (lenZ_nonneg target).
  destruct (sort_ok ms Hms [] (Forall_nil_2 _)) as (sorted & -> & Hs). cbn [bind].
  destruct (emit_matches_ok (reverse sorted) (proj2 (Forall_reverse _ _) Hs) 0 []) as (p & l & -> & Hc & Hw & Hp);
    [done|done|lia|]. cbn [bind]. pose proof (lenZ_nonneg src).
  destruct (Z.ltb_spec p (lenZ target)).
  - rewrite sub_w_ok by (unfold in_range; lia). cbn [bind]. eexists. split; [done|].
    split; [|apply Forall_app; by repeat constructor].
    apply covers_valid. replace (lenZ target) with (p + inst_len (Add (wrap 32 (lenZ target - p)))) at 2
      by (simpl; rewrite wrap_small by (unfold in_range; lia); lia).
    apply covers_snoc; [done|]. apply add_valid; lia.
  - eexists. split; [done|]. split; [|done]. apply covers_valid. by replace (lenZ target) with p by lia.
Qed.

Lemma emit_add_all_ok : valid_insts src target 0 (emit_add_all target).
Proof.
  assert (emit_add_all target = [] /\ lenZ target = 0 \/
    emit_add_all target = [Add (wrap 32 (lenZ target))] /\ 1 <= lenZ target) as [[-> Hz]|[-> Hpos]].
  { destruct target as [|b t]; [by left|]. right. split; [done|].
    rewrite lenZ_cons. pose proof (lenZ_nonneg t). lia. }
  { by rewrite <- Hz. }
  split; [apply add_valid; lia|]. cbn [valid_insts inst_len].
  rewrite wrap_small by (unfold in_range; lia). lia.
Qed.
End Emission.

(** ** The theorem *)

Section FindMatches.
Context {B : Build} {E S : Type} `{SourceDataLaws E S contents}.

Lemma contiguous_slice source :
  lenZ (source_bytes (contents:=contents) source) < 2 ^ 63 ->
  exists o, match source with Some s => as_slice s 0 (sd_len s) | None => Ok None end = Ok (E:=E) o /\
    contiguous_ok (contents:=contents) source o.
Proof.
  intros Hl. destruct source as [s|]; [|by exists None].
  rewrite sd_len_spec. pose proof (lenZ_nonneg (contents s)). simpl in Hl.
  destruct (as_slice_spec s 0 (lenZ (contents s))) as (o & -> & Ho); [lia..|].
  exists o. split; [done|]. intros l ->. split; [|done]. by rewrite (Ho l eq_refl), sub_all.
Qed.

(** The search on an engine already indexed, as the encoders use it. *)
Lemma find_matches_found e target source :
  let src := source_bytes (contents:=contents) source in
  engine_wf (lenZ src) e -> wf_bytes src -> wf_bytes target ->
  lenZ target < 2 ^ 32 -> lenZ src + lenZ target < 2 ^ 63 ->
  exists e' insts, find_matches (E:=E) e target source = Ok (e', insts) /\
    engine_wf (lenZ src) e' /\ valid_insts src target 0 insts /\ Forall worthwhile insts.
Proof.
  intros src He Hsw Htw Ht32 Hlen. unfold find_matches. pose proof (lenZ_nonneg target).
  destruct (contiguous_slice source) as (o & -> & Hc); [fold src; lia|]. cbn [bind].
  pose proof (slook_4 (contents:=contents) e source He) as H4. rewrite H4.
  assert (forall e', engine_wf (lenZ src) e' -> forall t, small_wf t ->
    engine_wf (lenZ src) (MatchEngine.set_small_table e' t)) as Hset by (intros ? [] ? ?; by constructor).
  assert (small_wf (SmallTable.reset (MatchEngine.small_table e))) as Hst
    by apply small_reset_wf, He.
  destruct (Z.ltb_spec (lenZ target) 4) as [|Hge].
  { eexists _, _. split; [done|]. split; [by apply Hset|].
    split; [by apply emit_add_all_ok|apply emit_add_all_worthwhile]. }
  destruct (small_cksum_ok (E:=E) (little_endian (MatchEngine.kernels e)) target) as [sc ->]; [lia|].
  cbn [bind]. destruct (comprun_ok (E:=E) target 4) as (n & c & -> & Hrun & Hn & Hn1); [lia..|].
  cbn [bind].
  assert (exists lc, (if do_large source && (llook e <=? lenZ target)
    then checksum (MatchEngine.large_hash e) target else Ok 0) = Ok (E:=E) lc) as [lc ->].
  { destruct (do_large source); [|simpl; eauto]. cbn [andb].
    destruct (Z.leb_spec (llook e) (lenZ target)); [|eauto].
    pose proof (cw_large_look _ (ew_config _ _ He)). unfold llook in *.
    rewrite checksum_ok; [eauto|done|]. rewrite (ew_look _ _ He). lia. }
  cbn [bind]. set (s0 := scan 0 MIN_MATCH n c sc lc [] _).
  assert (scan_inv (contents:=contents) target source s0) as Hs0.
  { split; [constructor; simpl; try done; unfold MIN_MATCH; lia|].
    intros _. simpl. split; [exact Hrun|]. specialize (Hn1 ltac:(lia)). lia. }
  destruct (probe_ok (E:=E) (contents:=contents) e target source o He Hsw Htw Hlen Hc s0 Hs0)
    as (e' & s1 & -> & He' & Hs1). cbn [bind].
  destruct (scan_loop_ok (E:=E) (contents:=contents) e' target source o He' Hsw Htw Hlen Hc
    (Datatypes.S (Z.to_nat (lenZ target))) s1) as (s2 & -> & [Hp2 _ Hm2 Ht2]);
    [done|destruct Hs1 as [[? _ _ _] _]; lia|]. cbn [bind].
  assert (source_len (E:=E) source = lenZ src) as ->.
  { unfold source_len, src. destruct source as [s|]; [simpl; by rewrite sd_len_spec|done]. }
  destruct (matches_to_instructions_ok (E:=E) src target Ht32 Hlen (reverse (matches s2)))
    as (l & -> & Hl); [by apply Forall_reverse|]. cbn [bind].
  eexists _, _. split; [done|]. split; [by apply Hset|done].
Qed.

Lemma find_matches_ok e target source :
  let src := source_bytes (contents:=contents) source in
  engine_wf (lenZ src) e -> wf_bytes src -> wf_bytes target ->
  lenZ target < 2 ^ 32 -> lenZ src + lenZ target < 2 ^ 63 ->
  exists e' insts, find_matches (E:=E) e target source = Ok (e', insts) /\
    engine_wf (lenZ src) e' /\ valid_insts src target 0 insts.
Proof.
  intros src He Hsw Htw Ht32 Hlen.
  destruct (find_matches_found e target source He Hsw Htw Ht32 Hlen) as (e' & insts & Hf & He' & Hv & _). eauto.
Qed.

(** C4: for every source and target (a target window below 4 GiB), every
    compression level and every CPU, building the engine, indexing the source and
    searching the target finish without a panic, an overflow or an access out
    of bounds, and the instructions found cover the target exactly: each COPY
    and RUN reproduces the target's bytes, a COPY at least [MIN_MATCH] of them
    and a RUN at least [MIN_RUN]. *)
Theorem find_matches_correct c level source target :
  wf_bytes (contents source) -> wf_bytes target ->
  lenZ target < 2 ^ 32 -> lenZ (contents source) + lenZ target < 2 ^ 63 ->
  exists e0 e1 e2 insts,
    MatchEngine.new (E:=E) c (config_for_level level) (lenZ (contents source)) (lenZ target) = Ok e0 /\
    MatchEngine.index_source (E:=E) e0 source = Ok e1 /\
    find_matches (E:=E) e1 target (Some source) = Ok (e2, insts) /\
    valid_insts (contents source) target 0 insts /\ Forall worthwhile insts /\
    exec_ops (contents source) [] (ops_of target 0 insts) = Some target.
Proof.
  intros Hsw Htw Ht32 Hlen. pose proof (lenZ_nonneg (contents source)). pose proof (lenZ_nonneg target).
  destruct (engine_new_ok (E:=E) c (config_for_level level) (lenZ (contents source)) (lenZ target)
    (lenZ (contents source))) as (e0 & Hnew & He0 & _); [apply config_for_level_wf|lia|lia|].
  destruct (index_source_ok (contents:=contents) e0 source) as (e1 & Hix & He1 & _); [done|done|lia|].
  destruct (find_matches_found e1 target (Some source)) as (e2 & insts & Hf & _ & Hv & Hw); [done..|].
  exists e0, e1, e2, insts. split_and!; try done.
  pose proof (exec_valid_insts (contents source) target 0 insts) as Hx.
  apply Hx; (done || lia).
Qed.
End FindMatches.

#[local] Instance checked_build : Build := {| debug_build := true |}.

Lemma find_matches_correct_witness :
  exists e0 e1 e2 insts,
    MatchEngine.new (E:=unit) X86_sse2 (config_for_level 6) 12 16 = Ok e0 /\
    MatchEngine.index_source (E:=unit) e0
      [1; 2; 3; 4; 5; 6; 7; 8; 9; 10; 11; 12] = Ok e1 /\
    find_matches (E:=unit) e1
      [3; 4; 5; 6; 7; 8; 9; 10; 0; 0; 0; 0; 0; 0; 0; 0]
      (Some [1; 2; 3; 4; 5; 6; 7; 8; 9; 10; 11; 12]) = Ok (e2, insts) /\
    valid_insts [1; 2; 3; 4; 5; 6; 7; 8; 9; 10; 11; 12]
      [3; 4; 5; 6; 7; 8; 9; 10; 0; 0; 0; 0; 0; 0; 0; 0] 0 insts /\ Forall worthwhile insts /\
    exec_ops [1; 2; 3; 4; 5; 6; 7; 8; 9; 10; 11; 12] []
      (ops_of [3; 4; 5; 6; 7; 8; 9; 10; 0; 0; 0; 0; 0; 0; 0; 0] 0 insts)
      = Some [3; 4; 5; 6; 7; 8; 9; 10; 0; 0; 0; 0; 0; 0; 0; 0].
Proof.
  apply (find_matches_correct (E:=unit) (contents:=fun s => s)
    X86_sse2 6 [1; 2; 3; 4; 5; 6; 7; 8; 9; 10; 11; 12]
    [3; 4; 5; 6; 7; 8; 9; 10; 0; 0; 0; 0; 0; 0; 0; 0]); try (by apply in_range_list); done.
Defined.
