(* ===== verification/Emit.v ===== *)
(** * Emitting instructions into a window ([src/src/compress/encoder.rs], 434-459)

    The loop that gives the window encoder the literal bytes of each ADD and
    the byte of each RUN, shared by the three encoders built on the match
    engine, and the lemma that takes valid instructions over the whole source
    to a window that decodes to the target. *)

From stdpp Require Import base numbers list option.
From Stdlib Require Import ZArith Lia.
From S2P Require Import Prelude AddrCache CodeTable Semantics Header WindowEncoder Source.
From S2P Require Import Secondary WindowDecoder StreamRoundtrip.

Local Open Scope Z_scope.
Local Open Scope rust_scope.

(** The copy window of the high-level encoders: the whole source, if any. *)
Definition whole_source (source : bytes) : option SourceWindow :=
  match source with
  | [] => None
  | _ => Some (source_win (lenZ source) 0)
  end.

Section Emit.
Context {B : Build} {E : Type}.

(** The body of the loop; the state is the encoder and [target_pos]. *)
Definition emit_step (target : bytes) (inst : Instruction) (s : WindowEncoder.t * Z)
    : result E (WindowEncoder.t * Z) :=
  let '(we, target_pos) := s in
  match inst with
  | Add len =>
      let* end_ := add_w 64 target_pos len in
      let* data := slice target target_pos end_ in
      let* we := WindowEncoder.add we data in
      let* target_pos := add_w 64 target_pos len in
      Ok (we, target_pos)
  | Copy len addr _ =>
      let* we := WindowEncoder.copy_with_auto_mode we len addr in
      let* target_pos := add_w 64 target_pos len in
      Ok (we, target_pos)
  | Run len =>
      let* byte := index target target_pos in
      let* we := WindowEncoder.run we len byte in
      let* target_pos := add_w 64 target_pos len in
      Ok (we, target_pos)
  end.

Definition emit_instructions (we : WindowEncoder.t) (target : bytes) (insts : list Instruction)
    : result E WindowEncoder.t :=
  let* (we, _) := for_in insts (emit_step target) (we, 0) in
  Ok we.

(** ** Emission of instructions *)

Lemma emit_step_ok srclen target pos i we :
  0 <= pos -> lenZ target < 2 ^ 63 -> inst_fits srclen pos i -> pos + inst_len i <= lenZ target ->
  emit_step target i (we, pos)
  = let* we := step (E:=E) we (op_of target pos i) in Ok (we, pos + inst_len i).
Proof.
  intros Hp Hl (Hlen & Hi) Hfit. unfold emit_step.
  destruct i as [len|len addr mode|len]; cbn [inst_len op_of step] in *.
  - rewrite !add_w_ok by (unfold in_range; lia). cbn [bind]. rewrite slice_ok by lia. cbn [bind].
    unfold sub. by replace (pos + len - pos) with len by lia.
  - by rewrite add_w_ok by (unfold in_range; lia).
  - destruct (index_ok (E:=E) target pos) as (b & Hb & ->); [lia|]. cbn [bind]. rewrite Hb.
    by rewrite add_w_ok by (unfold in_range; lia).
Qed.

Lemma emit_steps srclen target insts : lenZ target < 2 ^ 63 -> forall pos we,
  0 <= pos -> insts_fit srclen pos insts (lenZ target) ->
  for_in insts (emit_step target) (we, pos)
  = let* we := steps (E:=E) we (ops_of target pos insts) in Ok (we, lenZ target).
Proof.
  intros Hl. induction insts as [|i insts IH]; intros pos we Hp; cbn [for_in ops_of steps insts_fit].
  - by intros <-.
  - intros [Hi Hv]. pose proof (insts_fit_stop _ _ _ _ Hv). rewrite (emit_step_ok srclen) by done.
    destruct (step we (op_of target pos i)) as [we1| | |]; cbn [bind]; try done.
    apply IH; [|done]. destruct Hi. lia.
Qed.

(** The copy window of the whole source is the source. *)
Lemma selected_whole source : selected (whole_source source) source = source.
Proof.
  destruct source as [|b l]; [done|]. cbn [whole_source selected sw_offset sw_len].
  unfold sub. change (Z.to_nat 0) with 0%nat. rewrite drop_0, lenZ_to_nat. by apply take_ge.
Qed.

(** Instructions over the whole source, emitted in a fresh window. *)
Lemma emit_instructions_ok ck source target insts :
  wf_bytes target -> lenZ source < 2 ^ 62 -> lenZ target < 2 ^ 62 ->
  insts_fit (lenZ source) 0 insts (lenZ target) ->
  exists we, emit_instructions (WindowEncoder.new (whole_source source) ck) target insts = Ok we /\
    encoded we (ops_of target 0 insts) /\ ops_len (ops_of target 0 insts) = lenZ target /\
    WindowEncoder.source_window we = whole_source source /\ WindowEncoder.emit_checksum we = ck /\
    source_window_ok (WindowEncoder.source_window we) source /\
    (valid_insts source target 0 insts <->
     exec_ops (selected (WindowEncoder.source_window we) source) [] (ops_of target 0 insts)
     = Some target).
Proof.
  intros Hw Hs Ht Hv. unfold emit_instructions.
  rewrite (emit_steps (lenZ source) target insts) by (done || lia).
  destruct (fits_ops (lenZ source) target insts Hw 0 ltac:(lia) Hv) as [Hok Hlen].
  assert (win_len (whole_source source) = lenZ source) as Hwin by (by destruct source).
  pose proof (selected_whole source) as Hsel.
  destruct (steps_ok (E:=E) (WindowEncoder.new (whole_source source) ck) [] (ops_of target 0 insts))
    as (we & -> & He & Hsw & Hck); [apply encoded_new| | | |].
  - cbn [WindowEncoder.new WindowEncoder.source_window]. rewrite Hwin. done.
  - cbn [WindowEncoder.new WindowEncoder.source_window]. rewrite Hwin.
    change (ops_len []) with 0. lia.
  - cbn [WindowEncoder.new WindowEncoder.source_window]. rewrite Hwin. apply lenZ_nonneg.
  - cbn [bind]. cbn [WindowEncoder.new WindowEncoder.source_window] in Hsw.
    exists we. rewrite Hsw, Hsel. split_and!; try done; try lia.
    + split; [lia|]. intros w. destruct source; [done|]. intros [= <-].
      cbn [sw_len sw_offset]. pose proof (lenZ_nonneg (z :: source)). lia.
    + split; intros Hval; [apply (exec_valid_insts source target 0 insts); (done || lia)|].
      by apply (valid_insts_of_exec source target insts Hw 0).
Qed.
End Emit.
