(* ===== verification/Engine.v ===== *)
(** * The one-shot engine ([src/src/engine.rs])

    [encode] and [encode_with_options] chunk the target, search each chunk with
    a fresh match engine and write a window per chunk; [decode] is the decoder
    in memory.  The theorems: decoding what was encoded returns the target, for
    every source, target and level, and a window size of zero never ends. *)

From stdpp Require Import base numbers list option.
From Stdlib Require Import ZArith Lia.
From S2P Require Import Prelude Varint AddrCache CodeTable Semantics Header WindowEncoder Source.
From S2P Require Import Secondary WindowDecoder StreamRoundtrip Kernels HashTables Matching.
From S2P Require Import MatchingCorrect Emit.

Local Open Scope Z_scope.
Local Open Scope rust_scope.

Record EncodeOptions := encode_options {
  level : Z;
  window_size : Z;
  checksum : bool
}.

Definition default_options : EncodeOptions := encode_options 6 (Z.shiftl 1 23) true.

Inductive EncodeError := EncodeIo (k : io_kind).

Section Encode.
Context {B : Build} `{Adler32} (c : cpu).

Abbreviation R := (result EncodeError).

Definition find_matches_no_source (config : MatcherConfig) (target : bytes)
    : R (list Instruction) :=
  let* engine := MatchEngine.new c config 0 (Z.max (lenZ target) 64) in
  let* (_, insts) := find_matches engine target (None : option bytes) in
  Ok insts.

Definition find_matches_with_source (config : MatcherConfig) (source target : bytes)
    : R (list Instruction) :=
  let src_len := lenZ source in
  let* engine := MatchEngine.new c config src_len (Z.max (lenZ target) 64) in
  let* engine := MatchEngine.index_source engine source in
  let* (_, insts) := find_matches engine target (Some source) in
  Ok insts.

(** The same loop as in [compress/encoder.rs]; the source length is unused. *)
Definition emit_instructions (we : WindowEncoder.t) (target : bytes) (_source_len : Z)
    (insts : list Instruction) : R WindowEncoder.t :=
  Emit.emit_instructions we target insts.

(** The body of the loop over windows. *)
Definition encode_chunk (source : bytes) (opts : EncodeOptions) (win_target : bytes)
    (stream : StreamEncoder.t) : R StreamEncoder.t :=
  let config := config_for_level (level opts) in
  let* instructions :=
    match source with
    | [] => find_matches_no_source config win_target
    | _ => find_matches_with_source config source win_target
    end in
  let we := WindowEncoder.new (whole_source source) (checksum opts) in
  let* we := emit_instructions we win_target (lenZ source) instructions in
  StreamEncoder.write_window stream we (Some win_target).

(** [while target_offset < target.len() { .. }] *)
Fixpoint encode_loop (fuel : nat) (source target : bytes) (opts : EncodeOptions)
    (target_offset : Z) (stream : StreamEncoder.t) : R StreamEncoder.t :=
  match fuel with
  | O => Diverge
  | S fuel =>
      if target_offset <? lenZ target then
        let* e := add_w 64 target_offset (window_size opts) in
        let win_end := Z.min e (lenZ target) in
        let* win_target := slice target target_offset win_end in
        let* stream := encode_chunk source opts win_target stream in
        encode_loop fuel source target opts win_end stream
      else Ok stream
  end.

(** [output] is what the vector held; the result is what it holds after. *)
Definition encode_with_options (source target output : bytes) (opts : EncodeOptions) : R bytes :=
  let stream := StreamEncoder.new output (checksum opts) in
  let* stream := encode_loop (S (length target)) source target opts 0 stream in
  let* stream :=
    match target with
    | [] => StreamEncoder.write_window stream (WindowEncoder.new None (checksum opts)) (Some [])
    | _ => Ok stream
    end in
  StreamEncoder.finish stream.

Definition encode (source target output : bytes) : R bytes :=
  encode_with_options source target output default_options.
End Encode.

Definition decode {B : Build} `{Adler32} `{Codecs} (source delta : bytes) : result DecodeError bytes :=
  decode_memory delta source.

(** ** One window *)

Section Correct.
Context {B : Build} `{Adler32Laws} `{Codecs} (c : cpu).
Context (source : bytes) (Hsw : wf_bytes source) (Hsl : lenZ source < 2 ^ 62).

(** Either search finds valid instructions. *)
Lemma search_ok config target :
  config_wf config -> wf_bytes target -> lenZ target < 2 ^ 32 ->
  exists insts, match source with
    | [] => find_matches_no_source c config target
    | _ => find_matches_with_source c config source target
    end = Ok insts /\ valid_insts source target 0 insts.
Proof.
  intros Hc Hw Hl. pose proof (lenZ_nonneg target). pose proof (lenZ_nonneg source).
  assert (0 <= Z.max (lenZ target) 64 <= 2 ^ 63) as Hmax by lia.
  destruct source as [|b l] eqn:Hs; [|rewrite <- Hs in *].
  - unfold find_matches_no_source.
    destruct (engine_new_ok (E:=EncodeError) c config 0 (Z.max (lenZ target) 64) 0)
      as (e & -> & He & _); [done|done|lia|]. cbn [bind].
    destruct (find_matches_ok (E:=EncodeError) (contents:=fun s : bytes => s) e target None)
      as (e' & insts & -> & _ & Hv); [done|done|done|lia|simpl; lia|]. cbn [bind]. eauto.
  - unfold find_matches_with_source.
    destruct (engine_new_ok (E:=EncodeError) c config (lenZ source) (Z.max (lenZ target) 64)
      (lenZ source)) as (e & -> & He & _); [done|done|lia|]. cbn [bind].
    destruct (index_source_ok (E:=EncodeError) (contents:=fun s : bytes => s) e source)
      as (e1 & -> & He1 & _); [done|done|lia|]. cbn [bind].
    destruct (find_matches_ok (E:=EncodeError) (contents:=fun s : bytes => s) e1 target (Some source))
      as (e2 & insts & -> & _ & Hv); [done|done|done|lia|simpl; lia|]. cbn [bind]. eauto.
Qed.

Lemma engine_chunk_ok opts target st ws :
  wf_bytes target -> lenZ target <= HARD_MAX_WINSIZE -> wrote st FileHeader.default ws ->
  exists st' w, encode_chunk c source opts target st = Ok st' /\
    wrote st' FileHeader.default (ws ++ [w]) /\
    decodes_to (contents:=fun s : bytes => s) FileHeader.default true source w target.
Proof.
  intros Hw Hl Hst. unfold encode_chunk, HARD_MAX_WINSIZE in *.
  destruct (search_ok (config_for_level (level opts)) target) as (insts & -> & Hv);
    [apply config_for_level_wf|done|lia|]. cbn [bind].
  destruct (emit_instructions_ok (E:=EncodeError) (checksum opts) source target insts)
    as (we & Hem & He & Hlen & Hsw' & _ & Hok & Hex); [done|lia|lia|by apply valid_insts_fit|].
  apply Hex in Hv as Hex'.
  unfold emit_instructions. rewrite Hem. cbn [bind].
  destruct (finish_decodes (E:=EncodeError) (contents:=fun s : bytes => s) FileHeader.default true source we
    (ops_of target 0 insts) target) as (w & Hfin & Hd); [done..|rewrite Hlen; done|done|].
  rewrite (write_window_raw st FileHeader.default ws we _ w Hst Hfin).
  destruct (write_raw_window_ok (E:=EncodeError) st _ _ w Hst) as (st' & Hwr & Hst'). eauto.
Qed.

(** ** The loop over windows *)

Lemma engine_loop_ok opts target fuel off st ws :
  wf_bytes target -> lenZ target < 2 ^ 62 -> 1 <= window_size opts <= HARD_MAX_WINSIZE ->
  0 <= off <= lenZ target -> lenZ target - off < Z.of_nat fuel -> wrote st FileHeader.default ws ->
  exists st' ws' ts, encode_loop c fuel source target opts off st = Ok st' /\
    wrote st' FileHeader.default (ws ++ ws') /\
    Forall2 (decodes_to (contents:=fun s : bytes => s) FileHeader.default true source) ws' ts /\
    concat ts = drop (Z.to_nat off) target.
Proof.
  intros Hw Hl Hws. revert off st ws.
  induction fuel as [|fuel IH]; intros off st ws Hoff Hf Hst; [lia|]. cbn [encode_loop].
  unfold HARD_MAX_WINSIZE in *. destruct (Z.ltb_spec off (lenZ target)).
  - rewrite add_w_ok by (unfold in_range; lia). cbn [bind].
    set (end_ := Z.min (off + window_size opts) (lenZ target)).
    rewrite slice_ok by lia. cbn [bind]. set (t := sub target off (end_ - off)).
    assert (lenZ t = end_ - off) as Hlt by (apply sub_length; lia).
    destruct (engine_chunk_ok opts t st ws) as (st1 & w & -> & Hst1 & Hd);
      [by apply sub_wf|unfold HARD_MAX_WINSIZE; lia|done|]. cbn [bind].
    destruct (IH end_ st1 (ws ++ [w])) as (st2 & ws' & ts & -> & Hst2 & Hds & Hc); [lia|lia|done|].
    exists st2, (w :: ws'), (t :: ts). rewrite <- app_assoc in Hst2.
    split_and!; [done|done|by constructor|]. simpl. rewrite Hc. unfold t, sub.
    replace (Z.to_nat end_) with (Z.to_nat off + Z.to_nat (end_ - off))%nat by lia.
    by rewrite <- drop_drop, take_drop.
  - exists st, [], []. rewrite app_nil_r. split_and!; [done|done|constructor|].
    symmetry. apply drop_ge. unfold lenZ in *. lia.
Qed.
End Correct.

(** Encoding succeeds, and the delta decodes to the target. *)
Lemma encode_decode_ok {B : Build} `{Adler32Laws} `{Codecs} (c : cpu) (opts : EncodeOptions)
    (source target : bytes) :
  wf_bytes source -> wf_bytes target -> lenZ source < 2 ^ 62 -> lenZ target < 2 ^ 62 ->
  1 <= window_size opts <= HARD_MAX_WINSIZE ->
  exists delta, encode_with_options c source target [] opts = Ok delta /\
    decode source delta = Ok target.
Proof.
  intros Hsw Htw Hsl Htl Hws. unfold encode_with_options, decode.
  destruct (engine_loop_ok c source Hsw Hsl opts target (S (length target)) 0
    (StreamEncoder.new [] (checksum opts)) []) as (st & ws & ts & -> & Hst & Hds & Hc);
    [done|done|done|pose proof (lenZ_nonneg target); lia|unfold lenZ; lia|apply wrote_new|].
  cbn [bind]. simpl in Hst. rewrite drop_0 in Hc.
  assert (exists st' ws', match target with
      | [] => StreamEncoder.write_window (E:=EncodeError) st (WindowEncoder.new None (checksum opts))
                (Some [])
      | _ => Ok st end = Ok st' /\ wrote st' FileHeader.default ws' /\
      exists ts', Forall2 (decodes_to (contents:=fun s : bytes => s) FileHeader.default true source) ws' ts' /\
        concat ts' = target) as (st' & ws' & -> & Hst' & ts' & Hds' & Hc').
  { destruct target as [|b t]; [|by eauto 10].
    destruct (finish_decodes (E:=EncodeError) (contents:=fun s : bytes => s) FileHeader.default true source
      (WindowEncoder.new None (checksum opts)) [] []) as (w & Hfin & Hd);
      [apply encoded_new|by split; [lia|]|done|done|].
    rewrite (write_window_raw st FileHeader.default ws _ _ w Hst Hfin).
    destruct (write_raw_window_ok (E:=EncodeError) st _ _ w Hst) as (st' & Hwr & Hst').
    exists st', (ws ++ [w]). split_and!; [done|done|]. exists (ts ++ [[]]).
    split; [apply Forall2_app; [done|by constructor]|]. by rewrite concat_app, Hc. }
  cbn [bind]. rewrite (stream_finish_ok st' _ _ Hst'). eexists. split; [done|].
  rewrite <- Hc'. apply decode_memory_ok; [apply default_header_wf|done|rewrite Hc'; lia].
Qed.

(** ** Theorems *)

(** C1: the one-shot engine is correct: for every source and target, every
    level, checksums on or off, any window size the decoder accepts, every CPU
    and both build profiles, encoding succeeds (no panic, no endless loop) and
    decoding the delta against the same source returns the target. *)
Theorem engine_roundtrip {B : Build} `{Adler32Laws} `{Codecs} (c : cpu) (opts : EncodeOptions)
    (source target : bytes) :
  wf_bytes source -> wf_bytes target -> lenZ source < 2 ^ 62 -> lenZ target < 2 ^ 62 ->
  1 <= window_size opts <= HARD_MAX_WINSIZE ->
  exists delta, encode_with_options c source target [] opts = Ok delta /\
    decode source delta = Ok target.
Proof. intros. by apply encode_decode_ok. Qed.

(** C38: with a window size of zero the loop never ends: it writes one empty
    window after another, whatever fuel the model gives it. *)
Theorem zero_window_never_ends {B : Build} `{Adler32Laws} `{Codecs} (c : cpu) (opts : EncodeOptions)
    (source target : bytes) (fuel : nat) :
  wf_bytes source -> lenZ source < 2 ^ 62 -> window_size opts = 0 -> 1 <= lenZ target < 2 ^ 62 ->
  encode_loop c fuel source target opts 0 (StreamEncoder.new [] (checksum opts)) = Diverge.
Proof.
  intros Hsw Hsl Hws Htl. pose proof (wrote_new (checksum opts)) as Hst. revert Hst.
  generalize (StreamEncoder.new [] (checksum opts)) as st. generalize (@nil bytes) as ws.
  induction fuel as [|fuel IH]; intros ws st Hst; [done|]. cbn [encode_loop].
  rewrite (proj2 (Z.ltb_lt _ _)) by lia. rewrite Hws, add_w_ok by (unfold in_range; lia). cbn [bind].
  replace (Z.min (0 + 0) (lenZ target)) with 0 by lia. rewrite slice_ok by lia. cbn [bind].
  destruct (engine_chunk_ok c source Hsw Hsl opts [] st ws) as (st1 & w & Hch & Hst1 & _);
    [constructor|vm_compute; done|done|].
  change (sub target 0 (0 - 0)) with (@nil Z). rewrite Hch. cbn [bind]. by apply (IH (ws ++ [w])).
Qed.

(** ** Witnesses *)

Definition sample_old : bytes := [1; 2; 3; 4; 5; 6; 7; 8; 9; 10; 11; 12; 13; 14; 15; 16].
Definition sample_new : bytes :=
  [0; 1; 2; 3; 4; 5; 6; 7; 8; 9; 10; 7; 7; 7; 7; 7; 7; 7; 7; 7; 5; 6; 7; 8; 9; 10; 11; 12; 99].

Lemma engine_roundtrip_witness :
  exists delta,
    encode_with_options (B:={| debug_build := true |}) (H:=adler32_fallback) X86_avx2
      sample_old sample_new [] (encode_options 6 20 true) = Ok delta /\
    decode (B:={| debug_build := true |}) (H:=adler32_fallback) (H0:=zeros_codecs)
      sample_old delta = Ok sample_new.
Proof.
  apply (engine_roundtrip (B:={| debug_build := true |}) (H:=adler32_fallback)
    (H0:=adler32_fallback_laws) (H1:=zeros_codecs) X86_avx2 (encode_options 6 20 true)
    sample_old sample_new);
    first [by apply in_range_list|reflexivity|split; vm_compute; done].
Defined.

Lemma zero_window_never_ends_witness :
  encode_loop (B:={| debug_build := true |}) (H:=adler32_fallback) X86_avx2 1000 sample_old sample_new
    (encode_options 6 0 true) 0 (StreamEncoder.new [] true) = Diverge.
Proof.
  apply (zero_window_never_ends (B:={| debug_build := true |}) (H:=adler32_fallback)
    (H0:=adler32_fallback_laws) (H1:=zeros_codecs) X86_avx2 (encode_options 6 0 true)
    sample_old sample_new 1000);
    first [by apply in_range_list|reflexivity|split; vm_compute; done].
Defined.
