(* ===== verification/Pipeline.v ===== *)
(** * The instruction optimizer ([src/src/compress/pipeline.rs])

    Coalescing of adjacent instructions and splitting of runs out of ADDs.  The
    theorems: the optimizer never panics and keeps the length of the target
    covered; it keeps the instructions valid when the merges it makes are safe,
    with an executable test for that; and the two merges that are not safe, of
    RUNs of different bytes and of COPYs that meet at the source's end. *)

From stdpp Require Import base numbers list option.
From Stdlib Require Import ZArith Lia.
From S2P Require Import Prelude CodeTable Semantics Source Kernels HashTables Matching.
From S2P Require Import MatchingCorrect.

Local Open Scope Z_scope.
Local Open Scope rust_scope.

Section Optimize.
Context {B : Build} {E : Type}.

(** Merge two adjacent instructions into one. *)
Definition try_coalesce (a b : Instruction) : result E (option Instruction) :=
  match a, b with
  | Add l1, Add l2 => let* l := add_w 32 l1 l2 in Ok (Some (Add l))
  | Copy l1 a1 m1, Copy l2 a2 m2 =>
      if m2 =? m1 then
        let* e := add_w 64 a1 l1 in
        if a2 =? e then let* l := add_w 32 l1 l2 in Ok (Some (Copy l a1 m1)) else Ok None
      else Ok None
  | Run l1, Run l2 => let* l := add_w 32 l1 l2 in Ok (Some (Run l))
  | _, _ => Ok None
  end.

(** The body of the coalescing loop; the vector is a stack, last pushed first. *)
Definition coalesce_step (inst : Instruction) (coalesced : list Instruction)
    : result E (list Instruction) :=
  if inst_len inst =? 0 then Ok coalesced
  else
    let* merged :=
      match coalesced with
      | last :: _ => try_coalesce last inst
      | [] => Ok None
      end in
    match merged, coalesced with
    | Some m, _ :: rest => Ok (m :: rest)
    | _, _ => Ok (inst :: coalesced)
    end.

Context (c : cpu).

(** The inner loop of [split_add_with_runs]: where the ADD that is open at
    [i] ends. *)
Fixpoint add_end (fuel : nat) (data : bytes) (i : Z) : result E Z :=
  match fuel with
  | O => Diverge
  | S fuel =>
      if i <? lenZ data then
        let* b := index data i in
        let* s := slice_from data i in
        let* n := sub_w 64 (lenZ data) i in
        let* rl := run_length_fn c s b n in
        if MIN_RUN <=? rl then Ok i
        else
          let* i := add_w 64 i rl in
          add_end fuel data i
      else Ok i
  end.

(** [while i < data.len() { .. }] *)
Fixpoint split_loop (fuel : nat) (data : bytes) (i : Z) (out : list Instruction)
    : result E (list Instruction) :=
  match fuel with
  | O => Diverge
  | S fuel =>
      if i <? lenZ data then
        let* left_ := sub_w 64 (lenZ data) i in
        if left_ <? MIN_RUN then Ok (out ++ [Add (wrap 32 left_)])
        else
          let* byte := index data i in
          let* s := slice_from data i in
          let* run_len := run_length_fn c s byte left_ in
          if MIN_RUN <=? run_len then
            let* i := add_w 64 i run_len in
            split_loop fuel data i (out ++ [Run (wrap 32 run_len)])
          else
            let* j := add_w 64 i run_len in
            let* j := add_end (S (length data)) data j in
            let* add_len := sub_w 64 j i in
            split_loop fuel data j (out ++ [Add (wrap 32 add_len)])
      else Ok out
  end.

Definition split_add_with_runs (data : bytes) (out : list Instruction)
    : result E (list Instruction) :=
  match data with
  | [] => Ok out
  | _ =>
      if lenZ data <? MIN_RUN then Ok (out ++ [Add (wrap 32 (lenZ data))])
      else split_loop (S (length data)) data 0 out
  end.

(** The body of [split_add_runs]; the state is [target_pos] and [result]. *)
Definition split_step (target : bytes) (inst : Instruction) (s : Z * list Instruction)
    : result E (Z * list Instruction) :=
  let '(target_pos, out) := s in
  match inst with
  | Add len =>
      let* e := add_w 64 target_pos len in
      let* data := slice target target_pos e in
      let* out := split_add_with_runs data out in
      let* target_pos := add_w 64 target_pos len in
      Ok (target_pos, out)
  | Copy len _ _ | Run len =>
      let* target_pos := add_w 64 target_pos len in
      Ok (target_pos, out ++ [inst])
  end.

Definition split_add_runs (insts : list Instruction) (target : bytes) : result E (list Instruction) :=
  let* (_, out) := for_in insts (split_step target) (0, []) in
  Ok out.

Definition optimize (insts : list Instruction) (target : bytes) : result E (list Instruction) :=
  match insts with
  | [] => Ok []
  | _ =>
      let* coalesced := for_in insts coalesce_step [] in
      let* out := split_add_runs (reverse coalesced) target in
      let* _ := debug_assert (insts_len out =? lenZ target) in
      Ok out
  end.
End Optimize.

(** ** Safe merges *)

(** Merging [i], at [pos], with the next instruction keeps the target. *)
Definition safe_pair (src target : bytes) (pos : Z) (i j : Instruction) : bool :=
  match i, j with
  | Run l1, Run _ =>
      bool_decide (target !! Z.to_nat (pos + l1) = target !! Z.to_nat pos)
  | Copy l1 a1 m1, Copy _ a2 m2 => negb ((m2 =? m1) && (a2 =? a1 + l1) && (a2 =? lenZ src))
  | _, _ => true
  end.

Fixpoint safe_merges (src target : bytes) (pos : Z) (l : list Instruction) : bool :=
  match l with
  | i :: rest =>
      match rest with
      | j :: _ => safe_pair src target pos i j
      | [] => true
      end && safe_merges src target (pos + inst_len i) rest
  | [] => true
  end.

(** ** Splitting an ADD *)

Section Split.
Context {B : Build} {E : Type} (c : cpu) (data : bytes).
Context (Hd : wf_bytes data) (Hd32 : lenZ data < 2 ^ 32).

(** The run scanner at [i]: a run of at least one byte. *)
Lemma run_at i :
  0 <= i < lenZ data ->
  exists b r, index (E:=E) data i = Ok b /\
    slice_from (E:=E) data i = Ok (drop (Z.to_nat i) data) /\
    run_length_fn (E:=E) c (drop (Z.to_nat i) data) b (lenZ data - i) = Ok r /\
    1 <= r <= lenZ data - i /\
    forall k, 0 <= k < r -> data !! Z.to_nat (i + k) = data !! Z.to_nat i.
Proof.
  intros Hi. destruct (index_ok (E:=E) data i) as (b & Hb & Hix); [lia|].
  assert (lenZ (drop (Z.to_nat i) data) = lenZ data - i) as Hl by (apply lenZ_drop; lia).
  pose proof (Forall_lookup_1 _ _ _ _ Hd Hb) as Hu.
  destruct (run_of_spec (drop (Z.to_nat i) data) b (lenZ data - i)) as (Hr & Heq & Hstop); [lia|].
  set (r := run_of _ _ _) in *. exists b, r.
  assert (1 <= r).
  { destruct (Z.eq_dec r 0) as [H0|]; [|lia]. rewrite H0 in Hstop. exfalso.
    apply Hstop; [lia|]. rewrite lookup_drop, Nat.add_0_r. done. }
  split_and!; [done|apply slice_from_ok; lia| |lia|lia|].
  - apply run_kernels; [by apply Forall_drop|done|lia].
  - intros k Hk. specialize (Heq k Hk). rewrite lookup_drop in Heq.
    rewrite Z2Nat.inj_add by lia. congruence.
Qed.

Lemma add_end_ok fuel i :
  0 <= i <= lenZ data -> lenZ data - i < Z.of_nat fuel ->
  exists j, add_end (E:=E) c fuel data i = Ok j /\ i <= j <= lenZ data.
Proof.
  revert i. induction fuel as [|fuel IH]; intros i Hi Hf; [lia|]. cbn [add_end].
  destruct (Z.ltb_spec i (lenZ data)); [|exists i; split; [done|lia]].
  destruct (run_at i) as (b & r & -> & Hs & Hrun & Hr & _); [lia|]. cbn [bind]. rewrite Hs. cbn [bind].
  rewrite sub_w_ok by (unfold in_range; lia). cbn [bind]. rewrite Hrun. cbn [bind].
  destruct (MIN_RUN <=? r); [exists i; split; [done|lia]|].
  rewrite add_w_ok by (unfold in_range; lia). cbn [bind].
  destruct (IH (i + r)) as (j & -> & Hj); [lia|lia|]. exists j. split; [done|lia].
Qed.

(** Pieces of an ADD: valid on their own data, no COPY among them. *)
Definition pieces_ok (i : Z) (l : list Instruction) : Prop :=
  covers [] data i l (lenZ data) /\
  Forall (fun x => match x with Copy _ _ _ => False | _ => True end) l.

Lemma split_loop_ok fuel i out :
  0 <= i <= lenZ data -> lenZ data - i < Z.of_nat fuel ->
  exists l, split_loop (E:=E) c fuel data i out = Ok (out ++ l) /\ pieces_ok i l.
Proof.
  revert i out. induction fuel as [|fuel IH]; intros i out Hi Hf; [lia|]. cbn [split_loop].
  destruct (Z.ltb_spec i (lenZ data)).
  2:{ exists []. rewrite app_nil_r. split; [done|]. split; [simpl; lia|constructor]. }
  rewrite sub_w_ok by (unfold in_range; lia). cbn [bind].
  assert (forall n, 1 <= n <= lenZ data - i -> wrap 32 n = n) as Hwrap
    by (intros n Hn; apply wrap_small; unfold in_range; lia).
  destruct (Z.ltb_spec (lenZ data - i) MIN_RUN).
  { eexists. split; [done|]. split; [|repeat constructor]. cbn [covers inst_len].
    rewrite Hwrap by lia. split; [|lia]. split_and!; cbn [inst_len]; (done || lia). }
  destruct (run_at i) as (b & r & -> & Hs & Hrun & Hr & Heq); [lia|]. cbn [bind]. rewrite Hs. cbn [bind].
  rewrite Hrun. cbn [bind]. destruct (MIN_RUN <=? r).
  - rewrite add_w_ok by (unfold in_range; lia). cbn [bind].
    destruct (IH (i + r) (out ++ [Run (wrap 32 r)])) as (l & -> & Hc & Hn); [lia|lia|].
    exists (Run (wrap 32 r) :: l). rewrite <- app_assoc. split; [done|]. split; [|by constructor].
    cbn [covers inst_len]. rewrite Hwrap by lia. split; [|done].
    split_and!; cbn [inst_len]; (done || lia).
  - rewrite add_w_ok by (unfold in_range; lia). cbn [bind].
    destruct (add_end_ok (S (length data)) (i + r)) as (j & -> & Hj); [lia|unfold lenZ in *; lia|].
    cbn [bind]. rewrite sub_w_ok by (unfold in_range; lia). cbn [bind].
    destruct (IH j (out ++ [Add (wrap 32 (j - i))])) as (l & -> & Hc & Hn); [lia|lia|].
    exists (Add (wrap 32 (j - i)) :: l). rewrite <- app_assoc. split; [done|].
    split; [|by constructor]. cbn [covers inst_len]. rewrite Hwrap by lia.
    replace (i + (j - i)) with j by lia. split; [|done].
    split_and!; cbn [inst_len]; (done || lia).
Qed.

End Split.

Lemma split_add_with_runs_ok {B : Build} {E} c data out :
  wf_bytes data -> lenZ data < 2 ^ 32 ->
  exists l, split_add_with_runs (E:=E) c data out = Ok (out ++ l) /\ pieces_ok data 0 l.
Proof.
  intros Hd Hd32. destruct data as [|b t].
  { exists []. rewrite app_nil_r. split; [done|]. split; [done|constructor]. }
  unfold split_add_with_runs. pose proof (lenZ_nonneg t) as Ht.
  destruct (Z.ltb_spec (lenZ (b :: t)) MIN_RUN).
  - assert (1 <= lenZ (b :: t)) by (rewrite lenZ_cons; lia).
    eexists. split; [done|]. split; [|repeat constructor].
    cbn [covers inst_len]. rewrite wrap_small by (unfold in_range; lia). split; [|lia].
    split_and!; cbn [inst_len]; (done || lia).
  - apply split_loop_ok; try done; rewrite ?lenZ_cons; unfold lenZ in *; simpl; lia.
Qed.

(** Pieces of the data of an ADD at [pos] are valid there. *)
Lemma pieces_lift src target pos len l :
  0 <= pos -> 0 <= len -> pos + len <= lenZ target -> forall i, 0 <= i ->
  pieces_ok (sub target pos len) i l -> covers src target (pos + i) l (pos + len).
Proof.
  intros Hp Hl Hfit. assert (lenZ (sub target pos len) = len) as Hlen by (by apply sub_length).
  unfold pieces_ok. rewrite Hlen.
  induction l as [|x l IH]; intros i Hi [Hc Hn]; cbn [covers] in *; [lia|].
  inversion Hn as [|? ? Hx Hn']; subst. destruct Hc as [(Hxl & Hxf & Hxv) Hc]. rewrite Hlen in Hxf.
  split; [|rewrite <- Z.add_assoc; apply IH; [lia|done]].
  split; [done|]. split; [lia|]. destruct x as [n|n a m|n]; [done|done|]. cbn [inst_len] in *.
  intros k Hk. specialize (Hxv k Hk). unfold sub in Hxv.
  rewrite !lookup_take_lt, !lookup_drop, <- !Z2Nat.inj_add in Hxv by lia.
  by rewrite <- Z.add_assoc.
Qed.

Lemma covers_app src target pos l k mid stop :
  covers src target pos l mid -> covers src target mid k stop -> covers src target pos (l ++ k) stop.
Proof.
  revert pos. induction l as [|x l IH]; intros pos; simpl; [by intros ->|].
  intros [? ?] ?. auto.
Qed.

Lemma covers_range src target pos l stop :
  covers src target pos l stop -> pos <= stop /\ pos + insts_len l = stop.
Proof.
  revert pos. induction l as [|x l IH]; intros pos; cbn [covers].
  - intros ->. unfold insts_len. simpl. lia.
  - intros [(Hx & _) Hc]. apply IH in Hc. unfold insts_len in *. simpl. lia.
Qed.

Lemma valid_covers src target pos l :
  valid_insts src target pos l <-> covers src target pos l (lenZ target).
Proof.
  split; [|apply covers_valid]. revert pos. induction l as [|i l IH]; intros pos; simpl; [done|].
  intros [? ?]. auto.
Qed.

Lemma insts_len_app l k : insts_len (l ++ k) = insts_len l + insts_len k.
Proof. unfold insts_len. induction l as [|x l IH]; simpl; lia. Qed.

Lemma insts_len_reverse l : insts_len (reverse l) = insts_len l.
Proof.
  induction l as [|x l IH]; [done|]. rewrite reverse_cons, insts_len_app, IH. unfold insts_len. simpl. lia.
Qed.

Lemma covers_app_inv src target pos l k stop :
  covers src target pos (l ++ k) stop ->
  covers src target pos l (pos + insts_len l) /\ covers src target (pos + insts_len l) k stop.
Proof.
  revert pos. induction l as [|x l IH]; intros pos; simpl.
  - unfold insts_len. simpl. rewrite Z.add_0_r. done.
  - intros [Hx Hc]. apply IH in Hc as [H1 H2].
    change (insts_len (x :: l)) with (inst_len x + insts_len l). by rewrite Z.add_assoc.
Qed.

Lemma covers_fit src target pos l stop : covers src target pos l stop -> insts_fit (lenZ src) pos l stop.
Proof.
  revert pos. induction l as [|i l IH]; intros pos; [done|]. intros [(? & _ & Hi) ?].
  split; [|auto]. split; [done|]. by destruct i; [|destruct Hi|].
Qed.

(** ** Splitting the ADDs of a sequence *)

(** Lengths and addresses that cannot overflow. *)
Definition plain (i : Instruction) : Prop :=
  1 <= inst_len i /\ match i with Copy _ a _ => 0 <= a < 2 ^ 63 | _ => True end.

Lemma plain_len_nonneg l : Forall plain l -> 0 <= insts_len l.
Proof. unfold insts_len. induction 1 as [|x l [Hx _] _ IH]; simpl; lia. Qed.

Section SplitAll.
Context {B : Build} {E : Type} (c : cpu) (target : bytes).
Context (Ht : wf_bytes target) (Ht32 : lenZ target < 2 ^ 32).

(** What splitting needs of an instruction, valid or not. *)
Definition sized (i : Instruction) : Prop := 0 <= inst_len i.

Definition a_copy (i : Instruction) : Prop := match i with Copy _ _ _ => True | _ => False end.

Lemma split_step_ok inst pos out :
  sized inst -> 0 <= pos -> pos + inst_len inst <= lenZ target ->
  exists l, split_step (E:=E) c target inst (pos, out) = Ok (pos + inst_len inst, out ++ l) /\
    insts_len l = inst_len inst /\ (a_copy inst -> l = [inst]) /\
    (forall src : bytes, inst_fits (lenZ src) pos inst ->
      insts_fit (lenZ src) pos l (pos + inst_len inst)) /\
    forall src, 1 <= inst_len inst ->
      (valid_inst src target pos inst <-> covers src target pos l (pos + inst_len inst)).
Proof.
  unfold sized. intros Hs Hp Hfit.
  assert (insts_len [inst] = inst_len inst) as Hone by (unfold insts_len; simpl; lia).
  destruct inst as [len|len a m|len]; cbn [split_step inst_len] in *;
    rewrite add_w_ok by (unfold in_range; lia); cbn [bind].
  - rewrite slice_ok by lia. cbn [bind]. replace (pos + len - pos) with len by lia.
    assert (lenZ (sub target pos len) = len) as Hlen by (apply sub_length; lia).
    destruct (split_add_with_runs_ok (E:=E) c (sub target pos len) out) as (l & -> & Hl);
      [by apply sub_wf|lia|]. cbn [bind].
    assert (forall src, covers src target pos l (pos + len)) as Hcov.
    { intros src. replace pos with (pos + 0) at 1 by lia. apply pieces_lift; (done || lia). }
    exists l. split; [done|]. split; [|split; [done|split]].
    + destruct Hl as [Hl _]. apply covers_range in Hl. lia.
    + intros src _. by eapply covers_fit.
    + intros src Hl1. split; intros _; [done|by split_and!; cbn [inst_len]; try lia].
  - eexists. split; [done|]. split; [done|]. split; [done|]. split; [by split|]. intros src _. by split; [|intros [? _]].
  - eexists. split; [done|]. split; [done|]. split; [done|]. split; [by split|]. intros src _. by split; [|intros [? _]].
Qed.

Lemma split_all_ok insts : Forall sized insts -> forall pos out,
  0 <= pos -> pos + insts_len insts = lenZ target ->
  exists l, for_in insts (split_step (E:=E) c target) (pos, out) = Ok (lenZ target, out ++ l) /\
    insts_len l = insts_len insts /\ (forall x, a_copy x -> x ∈ insts -> x ∈ l) /\
    (forall src : bytes, insts_fit (lenZ src) pos insts (lenZ target) ->
      insts_fit (lenZ src) pos l (lenZ target)) /\
    forall src, Forall plain insts ->
      (covers src target pos insts (lenZ target) <-> covers src target pos l (lenZ target)).
Proof.
  induction 1 as [|i insts Hi Hs IH]; intros pos out Hp Hsum; cbn [for_in].
  - unfold insts_len in *. simpl in *. exists []. rewrite app_nil_r.
    replace pos with (lenZ target) by lia. by split_and!.
  - assert (insts_len (i :: insts) = inst_len i + insts_len insts) as Hcons by done.
    assert (0 <= insts_len insts) as Hn.
    { clear -Hs. unfold insts_len. induction Hs as [|x l Hx _ IHl]; simpl; [lia|].
      unfold sized in Hx. lia. }
    unfold sized in Hi.
    destruct (split_step_ok i pos out) as (l1 & -> & Hl1 & Hk1 & Hf1 & Hc1); [done|done|lia|]. cbn [bind].
    destruct (IH (pos + inst_len i) (out ++ l1)) as (l2 & -> & Hl2 & Hk2 & Hf2 & Hc2); [lia|lia|].
    exists (l1 ++ l2). rewrite app_assoc. split; [done|]. split; [|split; [|split]].
    + rewrite Hcons, <- Hl1, <- Hl2. apply insts_len_app.
    + intros x Hx [->|Hin]%elem_of_cons; apply elem_of_app; [left|right; by apply Hk2].
      rewrite Hk1 by done. by left.
    + intros src [Hif Hr]. eapply insts_fit_app; eauto.
    + intros src [[Hi1 _] Hpl]%Forall_cons_1. specialize (Hc1 src Hi1). specialize (Hc2 src Hpl). split.
      * intros [Hv%Hc1 Hc%Hc2]. by eapply covers_app.
      * intros [Hv Hc]%covers_app_inv. rewrite Hl1 in *. split; [by apply Hc1|by apply Hc2].
Qed.
End SplitAll.

(** ** Coalescing *)

Lemma valid_plain src target pos i :
  lenZ src + lenZ target < 2 ^ 63 -> valid_inst src target pos i -> plain i.
Proof. intros Hl ([? ?] & ? & Hi). split; [done|]. destruct i; [done| |done]. simpl in *. lia. Qed.

Lemma covers_plain src target pos l stop :
  lenZ src + lenZ target < 2 ^ 63 -> covers src target pos l stop -> Forall plain l.
Proof.
  intros Hl. revert pos. induction l as [|i l IH]; intros pos; cbn [covers]; [constructor|].
  intros [Hi Hc]. constructor; [by eapply valid_plain|eauto].
Qed.

Lemma covers_snoc_inv src target pos l t stop :
  covers src target pos (l ++ [t]) stop ->
  exists q, covers src target pos l q /\ valid_inst src target q t /\ q + inst_len t = stop.
Proof.
  revert pos. induction l as [|i l IH]; intros pos; simpl.
  - intros [Ht <-]. eauto.
  - intros [Hi Hc]. destruct (IH _ Hc) as (q & ? & ? & ?). eauto.
Qed.

(** [t], the top of the stack, ends with the instruction [i] read last. *)
Definition tail_of (t i : Instruction) : Prop :=
  inst_len i <= inst_len t /\
  match t, i with
  | Add _, Add _ => True
  | Run _, Run _ => True
  | Copy L A M, Copy l a m => A + L = a + l /\ M = m
  | _, _ => False
  end.

Lemma tail_of_refl i : tail_of i i.
Proof. split; [lia|]. by destruct i. Qed.

Section Coalesce.
Context {B : Build} {E : Type}.

Lemma try_coalesce_ok t j :
  plain t -> plain j -> inst_len t + inst_len j < 2 ^ 32 ->
  exists o, try_coalesce (E:=E) t j = Ok o /\
    forall m, o = Some m -> plain m /\ inst_len m = inst_len t + inst_len j /\ tail_of m j.
Proof.
  intros [Ht Hta] [Hj Hja] Hl. unfold tail_of, plain.
  destruct t as [l1|l1 a1 m1|l1], j as [l2|l2 a2 m2|l2]; cbn [try_coalesce inst_len] in *;
    try (by exists None); try (rewrite add_w_ok by (unfold in_range; lia); cbn [bind];
      eexists; split; [done|]; intros m [= <-]; cbn [inst_len]; split_and!; (done || lia)).
  destruct (Z.eqb_spec m2 m1); [|by exists None]. rewrite add_w_ok by (unfold in_range; lia). cbn [bind].
  destruct (Z.eqb_spec a2 (a1 + l1)); [|by exists None].
  rewrite add_w_ok by (unfold in_range; lia). cbn [bind]. eexists. split; [done|].
  intros m [= <-]. cbn [inst_len]. split_and!; (done || lia).
Qed.

(** A safe merge of valid neighbours is valid. *)
Lemma merge_valid src target q t i j m :
  valid_inst src target q t -> valid_inst src target (q + inst_len t) j ->
  inst_len t + inst_len j < 2 ^ 32 -> plain t -> plain j -> 1 <= inst_len i -> 0 <= q ->
  tail_of t i -> safe_pair src target (q + inst_len t - inst_len i) i j = true ->
  try_coalesce (E:=E) t j = Ok (Some m) -> valid_inst src target q m.
Proof.
  intros (Htl & Htf & Ht) (Hjl & Hjf & Hj) Hl [_ Hta] [_ Hja] Hi1 Hq [Hil Htail] Hsafe Hm.
  destruct t as [l1|l1 a1 m1|l1], j as [l2|l2 a2 m2|l2]; cbn [try_coalesce inst_len] in *; try done.
  - rewrite add_w_ok in Hm by (unfold in_range; lia). cbn [bind] in Hm. injection Hm as <-.
    split_and!; cbn [inst_len]; (done || lia).
  - destruct (Z.eqb_spec m2 m1); [|done]. rewrite add_w_ok in Hm by (unfold in_range; lia).
    cbn [bind] in Hm. destruct (Z.eqb_spec a2 (a1 + l1)) as [->|]; [|done].
    rewrite add_w_ok in Hm by (unfold in_range; lia). cbn [bind] in Hm. injection Hm as <-.
    destruct i as [|l a m|]; try done. destruct Htail as [Hend ->]. cbn [safe_pair inst_len] in *.
    destruct Ht as (Ha1 & Hin1 & Hb1), Hj as (Ha2 & Hin2 & Hb2).
    assert (a1 + l1 <> lenZ src) as Hne.
    { intros Heq. rewrite !(proj2 (Z.eqb_eq _ _)) in Hsafe by lia. done. }
    split_and!; cbn [inst_len]; try lia. intros k Hk. destruct (Z.lt_ge_cases k l1); [by apply Hb1; lia|].
    specialize (Hb2 (k - l1) ltac:(lia)).
    by replace (a1 + l1 + (k - l1)) with (a1 + k) in Hb2 by lia;
       replace (q + l1 + (k - l1)) with (q + k) in Hb2 by lia.
  - rewrite add_w_ok in Hm by (unfold in_range; lia). cbn [bind] in Hm. injection Hm as <-.
    destruct i as [| |l]; try done. cbn [safe_pair inst_len] in *. apply bool_decide_eq_true_1 in Hsafe.
    replace (q + l1 - l + l) with (q + l1) in Hsafe by lia.
    split_and!; cbn [inst_len]; try lia. intros k Hk. destruct (Z.lt_ge_cases k l1); [by apply Ht; lia|].
    specialize (Hj (k - l1) ltac:(lia)). replace (q + l1 + (k - l1)) with (q + k) in Hj by lia.
    rewrite Hj, Hsafe. replace (q + l1 - l) with (q + (l1 - l)) by lia. apply Ht. lia.
Qed.

Lemma coalesce_step_ok stack j :
  Forall plain stack -> plain j -> insts_len stack + inst_len j < 2 ^ 32 ->
  exists stack', coalesce_step (E:=E) j stack = Ok stack' /\ Forall plain stack' /\
    insts_len stack' = insts_len stack + inst_len j /\
    (stack' = j :: stack \/ exists t rest m, stack = t :: rest /\ stack' = m :: rest /\
       try_coalesce (E:=E) t j = Ok (Some m) /\ tail_of m j /\ inst_len t + inst_len j < 2 ^ 32).
Proof.
  intros Hst Hj Hl. unfold coalesce_step. pose proof Hj as [Hj1 _].
  rewrite (proj2 (Z.eqb_neq _ _)) by lia.
  assert (forall l, insts_len (j :: l) = insts_len l + inst_len j) as Hcons
    by (intros l; unfold insts_len; simpl; lia).
  destruct stack as [|t rest]; cbn [bind].
  - exists [j]. split_and!; [done|by constructor|apply Hcons|by left].
  - inversion Hst as [|? ? Ht Hrest]; subst.
    pose proof (plain_len_nonneg rest Hrest) as Hn.
    assert (insts_len (t :: rest) = inst_len t + insts_len rest) as Ht' by done.
    destruct (try_coalesce_ok t j) as (o & Ho & Hm); [done|done|lia|]. rewrite Ho. cbn [bind].
    destruct o as [m|].
    + destruct (Hm m eq_refl) as (Hp & Hml & Htail). exists (m :: rest).
      split_and!; [done|by constructor|unfold insts_len in *; simpl in *; lia|].
      right. exists t, rest, m. split_and!; (done || lia).
    + exists (j :: t :: rest). split_and!; [done|by constructor|apply Hcons|by left].
Qed.

(** A safe merge of the top of the stack with [j] keeps the stack valid. *)
Lemma merge_covers src target t rest m i j :
  covers src target 0 (reverse (t :: rest)) (insts_len (t :: rest)) ->
  valid_inst src target (insts_len (t :: rest)) j -> plain t -> plain j ->
  inst_len t + inst_len j < 2 ^ 32 -> tail_of t i -> 1 <= inst_len i ->
  safe_pair src target (insts_len (t :: rest) - inst_len i) i j = true ->
  try_coalesce (E:=E) t j = Ok (Some m) ->
  covers src target 0 (reverse (m :: rest)) (insts_len (t :: rest) + inst_len j).
Proof.
  intros Hcov Hv Hpt Hj Hlt Hti Hi1 Hsafe Hm. rewrite !reverse_cons in *.
  apply covers_snoc_inv in Hcov as (q & Hq & Hvt & Hqt).
  assert (inst_len m = inst_len t + inst_len j) as Hml.
  { destruct (try_coalesce_ok t j) as (o & Ho & Hmm); [done|done|lia|].
    rewrite Hm in Ho. injection Ho as <-. by apply Hmm. }
  rewrite <- Hqt, <- Z.add_assoc, <- Hml. apply covers_snoc; [done|]. apply covers_range in Hq.
  eapply (merge_valid src target q t i j m); try done; rewrite ?Hqt; (done || lia).
Qed.

(** Any merge with [j] keeps the stack one that can be written. *)
Lemma merge_fits srclen t rest m j stop :
  insts_fit srclen 0 (reverse (t :: rest)) stop -> plain t -> plain j ->
  inst_len t + inst_len j < 2 ^ 32 -> try_coalesce (E:=E) t j = Ok (Some m) ->
  insts_fit srclen 0 (reverse (m :: rest)) (stop + inst_len j).
Proof.
  intros Hf Hpt Hpj Hl Hm. rewrite !reverse_cons in *.
  apply insts_fit_snoc_inv in Hf as (q & Hq & [Htl Hta] & <-).
  destruct (try_coalesce_ok t j) as (o & Ho & Hmm); [done|done|lia|]. rewrite Hm in Ho. injection Ho as <-.
  destruct (Hmm m eq_refl) as (_ & Hml & _). destruct Hpj as [Hj1 _].
  eapply insts_fit_app; [done|]. split; [|cbn [insts_fit]; lia]. split; [lia|].
  destruct t as [l1|l1 a1 m1|l1], j as [l2|l2 a2 m2|l2]; cbn [try_coalesce] in Hm; try done;
    repeat (case_match || (apply bind_ok_inv in Hm as (? & _ & Hm))); simplify_eq; done.
Qed.

(** The merges that remain are safe, given what was read last. *)
Definition linked (src target : bytes) (pos : Z) (stack l : list Instruction) : Prop :=
  match stack with
  | [] => safe_merges src target pos l = true
  | t :: _ => exists i, tail_of t i /\ 1 <= inst_len i /\
                safe_merges src target (pos - inst_len i) (i :: l) = true
  end.

Lemma coalesce_ok l : Forall plain l -> forall stack,
  Forall plain stack -> insts_len stack + insts_len l < 2 ^ 32 ->
  exists stack', for_in l (coalesce_step (E:=E)) stack = Ok stack' /\ Forall plain stack' /\
    insts_len stack' = insts_len stack + insts_len l /\
    (forall srclen, insts_fit srclen 0 (reverse stack) (insts_len stack) ->
      insts_fit srclen (insts_len stack) l (insts_len stack + insts_len l) ->
      insts_fit srclen 0 (reverse stack') (insts_len stack + insts_len l)) /\
    forall src target, covers src target 0 (reverse stack) (insts_len stack) ->
      covers src target (insts_len stack) l (insts_len stack + insts_len l) ->
      linked src target (insts_len stack) stack l ->
      covers src target 0 (reverse stack') (insts_len stack + insts_len l).
Proof.
  induction 1 as [|j l Hj Hl IH]; intros stack Hst Hlen; cbn [for_in].
  - exists stack. unfold insts_len in *. simpl in *. rewrite Z.add_0_r in *. by split_and!.
  - assert (insts_len (j :: l) = inst_len j + insts_len l) as Hcons by done.
    pose proof (plain_len_nonneg l Hl) as Hn.
    destruct (coalesce_step_ok stack j) as (st1 & -> & Hst1 & Hl1 & Hcase); [done|done|lia|]. cbn [bind].
    destruct (IH st1) as (st2 & -> & Hst2 & Hl2 & Hf2 & Hc2); [done|lia|].
    exists st2. split_and!; [done|done|lia| |].
    { replace (insts_len stack + insts_len (j :: l)) with (insts_len st1 + insts_len l) by lia.
      intros srclen Hsf [Hjf Hlf]. rewrite <- Hl1 in Hlf. apply Hf2; [|done]. rewrite Hl1.
      destruct Hcase as [->|(t & rest & m & -> & -> & Hm & _ & Hlt)].
      - rewrite reverse_cons. eapply insts_fit_app; [done|]. by split.
      - inversion Hst as [|? ? Hpt _]; subst. by eapply merge_fits. }
    intros src target Hcov [Hv Hcl] Hlink.
    replace (insts_len stack + insts_len (j :: l)) with (insts_len st1 + insts_len l) in * by lia.
    apply Hc2; [|by rewrite <- Hl1 in Hcl|].
    + rewrite Hl1. destruct Hcase as [->|(t & rest & m & -> & -> & Hm & Htail & Hlt)].
      * rewrite reverse_cons. by apply covers_snoc.
      * destruct Hlink as (i & Hti & Hi1 & Hsafe). cbn [safe_merges] in Hsafe.
        apply andb_true_iff in Hsafe as [Hsafe _]. inversion Hst as [|? ? Hpt _]; subst.
        by apply (merge_covers src target t rest m i j).
    + assert (safe_merges src target (insts_len stack) (j :: l) = true) as Hs.
      { destruct stack as [|t rest]; [done|]. destruct Hlink as (i & _ & _ & Hsafe).
        cbn [safe_merges] in Hsafe. apply andb_true_iff in Hsafe as [_ Hsafe].
        by replace (insts_len (t :: rest) - inst_len i + inst_len i) with (insts_len (t :: rest))
          in Hsafe by lia. }
      assert (exists x rest, st1 = x :: rest /\ tail_of x j) as (x & rest & -> & Hx).
      { destruct Hcase as [->|(t & rest & m & _ & -> & _ & Htail & _)]; eauto using tail_of_refl. }
      exists j. split_and!; [done|apply Hj|].
      by replace (insts_len (x :: rest) - inst_len j) with (insts_len stack) by lia.
Qed.

(** *** Unsafe merges *)

(** An instruction at [q] that a merge has spoilt: a RUN over different bytes,
    a COPY across the end of the source. *)
Definition spoilt (src target : bytes) (q : Z) (t : Instruction) : Prop :=
  match t with
  | Add _ => False
  | Copy len a _ => a < lenZ src < a + len
  | Run len => exists k, 0 <= k < len /\ target !! Z.to_nat (q + k) <> target !! Z.to_nat q
  end.

Lemma spoilt_invalid src target q t : spoilt src target q t -> ~ valid_inst src target q t.
Proof.
  intros Hs (_ & _ & Hv). destruct t as [len|len a m|len]; simpl in *; [done|lia|].
  destruct Hs as (k & Hk & Hne). by apply Hne, Hv.
Qed.

(** What comes later only makes it longer. *)
Lemma spoilt_merge src target q t j m :
  plain t -> plain j -> inst_len t + inst_len j < 2 ^ 32 -> spoilt src target q t ->
  try_coalesce (E:=E) t j = Ok (Some m) -> spoilt src target q m.
Proof.
  intros [Ht Hta] [Hj _] Hl Hs Hm.
  destruct t as [l1|l1 a1 m1|l1], j as [l2|l2 a2 m2|l2]; cbn [try_coalesce inst_len spoilt] in *; try done.
  - destruct (m2 =? m1); [|done]. rewrite add_w_ok in Hm by (unfold in_range; lia). cbn [bind] in Hm.
    destruct (a2 =? a1 + l1); [|done]. rewrite add_w_ok in Hm by (unfold in_range; lia). cbn [bind] in Hm.
    injection Hm as <-. simpl. lia.
  - rewrite add_w_ok in Hm by (unfold in_range; lia). cbn [bind] in Hm. injection Hm as <-.
    destruct Hs as (k & Hk & Hne). exists k. split; [lia|done].
Qed.

Lemma unsafe_spoils src target q t i j :
  valid_inst src target q t -> 0 <= q -> plain t -> plain j -> inst_len t + inst_len j < 2 ^ 32 ->
  tail_of t i -> 1 <= inst_len i -> safe_pair src target (q + inst_len t - inst_len i) i j = false ->
  exists m, try_coalesce (E:=E) t j = Ok (Some m) /\ spoilt src target q m.
Proof.
  intros (_ & _ & Hv) Hq [Ht Hta] [Hj _] Hl [Hil Htail] Hi1 Hun.
  destruct t as [l1|l1 a1 m1|l1], i as [l|l a m|l]; try done; destruct j as [l2|l2 a2 m2|l2];
    try done; cbn [safe_pair try_coalesce inst_len] in *.
  - apply negb_false_iff in Hun. rewrite !andb_true_iff, !Z.eqb_eq in Hun. destruct Hun as [[-> ->] Hsrc].
    destruct Htail as [Hend ->]. rewrite Z.eqb_refl, add_w_ok by (unfold in_range; lia). cbn [bind].
    rewrite (proj2 (Z.eqb_eq _ _)) by lia. rewrite add_w_ok by (unfold in_range; lia). cbn [bind].
    eexists. split; [done|]. simpl. lia.
  - apply bool_decide_eq_false_1 in Hun. rewrite add_w_ok by (unfold in_range; lia). cbn [bind].
    eexists. split; [done|]. exists l1. split; [lia|].
    replace (q + l1 - l + l) with (q + l1) in Hun by lia.
    replace (q + l1 - l) with (q + (l1 - l)) in Hun by lia. rewrite (Hv (l1 - l)) in Hun by lia. done.
Qed.

(** What a merge keeps of an instruction of the stack is kept in the end. *)
Lemma merged_stays (P : Instruction -> Prop) l :
  (forall t j m, plain t -> plain j -> inst_len t + inst_len j < 2 ^ 32 -> P t ->
     try_coalesce (E:=E) t j = Ok (Some m) -> P m) ->
  Forall plain l -> forall more t rest stack',
  Forall plain (more ++ t :: rest) -> insts_len (more ++ t :: rest) + insts_len l < 2 ^ 32 -> P t ->
  for_in l (coalesce_step (E:=E)) (more ++ t :: rest) = Ok stack' ->
  exists more' t', stack' = more' ++ t' :: rest /\ P t'.
Proof.
  intros HP. induction 1 as [|j l Hj Hl IH]; intros more t rest stack' Hst Hlen Hs; cbn [for_in].
  - intros [= <-]. eauto.
  - assert (insts_len (j :: l) = inst_len j + insts_len l) as Hcons by done.
    pose proof (plain_len_nonneg l Hl) as Hn.
    destruct (coalesce_step_ok (more ++ t :: rest) j) as (st1 & -> & Hst1 & Hl1 & Hcase); [done|done|lia|].
    cbn [bind]. intros Hfor.
    destruct Hcase as [->|(t1 & rest1 & m & Heq & -> & Hm & _ & Hlt)].
    + apply (IH (j :: more) t rest stack'); auto; simpl in *; lia.
    + destruct more as [|x more]; simpl in Heq; injection Heq as <- <-.
      * apply (IH [] m rest stack'); auto; [simpl in *; lia|].
        apply (HP t j m); auto. by inversion Hst.
      * apply (IH (m :: more) t rest stack'); auto; simpl in *; lia.
Qed.

Lemma spoilt_not_covers src target more t rest stop :
  spoilt src target (insts_len rest) t -> ~ covers src target 0 (reverse (more ++ t :: rest)) stop.
Proof.
  intros Hs Hc. rewrite reverse_app, reverse_cons, <- app_assoc in Hc.
  apply covers_app_inv in Hc as [_ Hc]. rewrite insts_len_reverse, Z.add_0_l in Hc.
  destruct Hc as [Hv _]. by apply (spoilt_invalid src target (insts_len rest) t Hs).
Qed.

(** If the result is valid, every merge was safe. *)
Lemma coalesce_exact src target l : Forall plain l -> forall t rest i stack',
  let n := insts_len (t :: rest) in
  Forall plain (t :: rest) -> n + insts_len l < 2 ^ 32 -> tail_of t i -> 1 <= inst_len i ->
  covers src target 0 (reverse (t :: rest)) n -> covers src target n l (n + insts_len l) ->
  for_in l (coalesce_step (E:=E)) (t :: rest) = Ok stack' ->
  covers src target 0 (reverse stack') (n + insts_len l) ->
  safe_merges src target (n - inst_len i) (i :: l) = true.
Proof.
  induction 1 as [|j l Hj Hl IH]; intros t rest i stack' n Hst Hlen Hti Hi1 Hcov Hcl Hfor Hres; [done|].
  cbn [for_in] in Hfor. cbn [safe_merges]. replace (n - inst_len i + inst_len i) with n by lia.
  assert (insts_len (j :: l) = inst_len j + insts_len l) as Hcons by done. destruct Hcl as [Hv Hcl].
  pose proof (plain_len_nonneg l Hl) as Hn.
  inversion Hst as [|? ? Hpt Hrest]; subst.
  pose proof (plain_len_nonneg rest Hrest) as Hnr.
  assert (n = inst_len t + insts_len rest) as Hnn by done.
  destruct (coalesce_step_ok (t :: rest) j) as (st1 & Hstep & Hst1 & Hl1 & Hcase); [done|done|lia|].
  fold n in Hl1. rewrite Hstep in Hfor. cbn [bind] in Hfor.
  destruct (safe_pair src target (n - inst_len i) i j) eqn:Hsafe.
  - assert (exists x r1, st1 = x :: r1 /\ tail_of x j /\ covers src target 0 (reverse st1) (n + inst_len j))
      as (x & r1 & -> & Hx & Hc1).
    { destruct Hcase as [->|(t1 & rest1 & m & [= <- <-] & -> & Hm & Htail & Hlt)].
      - eexists _, _. split_and!; [done|apply tail_of_refl|]. rewrite reverse_cons. by apply covers_snoc.
      - eexists _, _. split_and!; [done|done|]. by apply (merge_covers src target t rest m i j). }
    replace (n) with (insts_len (x :: r1) - inst_len j) by lia. simpl andb.
    apply (IH x r1 j stack'); rewrite ?Hl1; auto; [lia|apply Hj|..];
      by replace (n + inst_len j + insts_len l) with (n + insts_len (j :: l)) by lia.
  - exfalso. rewrite reverse_cons in Hcov. apply covers_snoc_inv in Hcov as (q & Hq & Hvt & Hqt).
    assert (q = insts_len rest) as -> by lia.
    destruct (unsafe_spoils src target (insts_len rest) t i j) as (m & Hm & Hsp); auto; [lia| |].
    { by replace (insts_len rest + inst_len t - inst_len i) with (n - inst_len i) by lia. }
    assert (st1 = m :: rest) as ->.
    { unfold coalesce_step in Hstep. destruct Hj as [Hj1 _].
      rewrite (proj2 (Z.eqb_neq _ _)), Hm in Hstep by lia. by injection Hstep as <-. }
    destruct (merged_stays (spoilt src target (insts_len rest)) l) with
      (more := @nil Instruction) (t := m) (rest := rest) (stack' := stack') as (more & t' & -> & Hsp'); auto;
      [intros t0 j0 m0 ? ? ? ?; by apply spoilt_merge|simpl in *; lia|].
    by apply (spoilt_not_covers src target more t' rest) in Hres.
Qed.

Lemma coalesce_all_exact src target i l stack :
  Forall plain (i :: l) -> insts_len (i :: l) < 2 ^ 32 ->
  covers src target 0 (i :: l) (insts_len (i :: l)) ->
  for_in (i :: l) (coalesce_step (E:=E)) [] = Ok stack ->
  covers src target 0 (reverse stack) (insts_len (i :: l)) -> safe_merges src target 0 (i :: l) = true.
Proof.
  intros [Hi Hl]%Forall_cons_1 Hlen [Hv Hc] Hfor Hres. rewrite Z.add_0_l in Hc.
  cbn [for_in] in Hfor. unfold coalesce_step at 1 in Hfor. pose proof Hi as [Hi1 _].
  rewrite (proj2 (Z.eqb_neq _ _)) in Hfor by lia. cbn [bind] in Hfor.
  assert (insts_len [i] = inst_len i) as Hone by (unfold insts_len; simpl; lia).
  assert (insts_len (i :: l) = insts_len [i] + insts_len l) as Hcons by (rewrite Hone; done).
  rewrite Hcons in *. replace 0 with (insts_len [i] - inst_len i) by lia.
  apply (coalesce_exact src target l Hl i [] i stack); auto using tail_of_refl; rewrite ?Hone in *; auto.
  by split.
Qed.

(** *** Copies across the end of the source *)

Definition spanning (srclen : Z) (t : Instruction) : Prop :=
  match t with Copy len a _ => a < srclen < a + len | _ => False end.

Lemma spanning_merge srclen t j m :
  plain t -> plain j -> inst_len t + inst_len j < 2 ^ 32 -> spanning srclen t ->
  try_coalesce (E:=E) t j = Ok (Some m) -> spanning srclen m.
Proof.
  intros [Ht Hta] [Hj _] Hl Hs Hm.
  destruct t as [|l1 a1 m1|], j as [|l2 a2 m2|]; cbn [try_coalesce inst_len spanning] in *; try done.
  destruct (m2 =? m1); [|done]. rewrite add_w_ok in Hm by (unfold in_range; lia). cbn [bind] in Hm.
  destruct (a2 =? a1 + l1); [|done]. rewrite add_w_ok in Hm by (unfold in_range; lia). cbn [bind] in Hm.
  injection Hm as <-. simpl. lia.
Qed.

(** A COPY up to the end of the source and one that goes on from there become
    one across it, whatever is around them. *)
Lemma coalesce_spans pre l1 a1 l2 m post stack :
  let l := pre ++ Copy l1 a1 m :: Copy l2 (a1 + l1) m :: post in
  Forall plain l -> insts_len l < 2 ^ 32 -> for_in l (coalesce_step (E:=E)) [] = Ok stack ->
  exists x, x ∈ stack /\ spanning (a1 + l1) x.
Proof.
  intros l Hpl Hlen Hfor. unfold l in *. rewrite insts_len_app in Hlen.
  apply Forall_app in Hpl as [Hpre [H1 [H2 Hpost]%Forall_cons_1]%Forall_cons_1].
  pose proof (plain_len_nonneg _ Hpre). pose proof (plain_len_nonneg _ Hpost).
  change (insts_len (Copy l1 a1 m :: Copy l2 (a1 + l1) m :: post)) with (l1 + (l2 + insts_len post)) in Hlen.
  pose proof H1 as [? ?]. pose proof H2 as [? ?]. cbn [inst_len] in *.
  destruct (coalesce_ok pre Hpre []) as (st0 & Hst0 & Hp0 & Hl0 & _); [constructor|simpl; lia|].
  change (insts_len []) with 0 in Hl0.
  rewrite for_in_app, Hst0 in Hfor. cbn [bind for_in] in Hfor.
  destruct (coalesce_step_ok st0 (Copy l1 a1 m)) as (st1 & Hs1 & Hp1 & Hl1 & Hcase); [done|done|simpl; lia|].
  rewrite Hs1 in Hfor. cbn [bind] in Hfor.
  assert (exists L A r, st1 = Copy L A m :: r /\ A + L = a1 + l1) as (L & A & r & -> & HAL).
  { destruct Hcase as [->|(t & r & x & _ & -> & _ & [_ Hx] & _)]; [eauto|].
    destruct x as [|L A M|]; try done. destruct Hx as [? ->]. eauto. }
  apply Forall_cons_1 in Hp1 as [Hx Hr]. pose proof (plain_len_nonneg _ Hr). pose proof Hx as [? ?].
  change (insts_len (Copy L A m :: r)) with (L + insts_len r) in Hl1. cbn [inst_len] in *.
  unfold coalesce_step at 1 in Hfor. cbn [inst_len try_coalesce] in Hfor.
  rewrite (proj2 (Z.eqb_neq _ _)), Z.eqb_refl in Hfor by lia.
  rewrite add_w_ok in Hfor by (unfold in_range; lia). cbn [bind] in Hfor.
  rewrite HAL, Z.eqb_refl, add_w_ok in Hfor by (unfold in_range; lia). cbn [bind] in Hfor.
  destruct (merged_stays (spanning (a1 + l1)) post) with (more := @nil Instruction) (t := Copy (L + l2) A m)
    (rest := r) (stack' := stack) as (more & t' & -> & Ht'); auto.
  - intros t0 j0 m0 ? ? ? ?. by apply spanning_merge.
  - constructor; [|done]. split; simpl; lia.
  - change (insts_len ([] ++ Copy (L + l2) A m :: r)) with (L + l2 + insts_len r). lia.
  - simpl. lia.
  - exists t'. split; [|done]. apply elem_of_app. right. by left.
Qed.
End Coalesce.

(** ** The optimizer *)

Section OptimizeOk.
Context {B : Build} {E : Type} (c : cpu).

(** Shared by the theorems below: the length is kept, and validity with it
    exactly when the merges are safe. *)
Lemma optimize_ok src target l :
  wf_bytes target -> lenZ target < 2 ^ 32 -> lenZ src + lenZ target < 2 ^ 63 ->
  valid_insts src target 0 l ->
  exists l', optimize (E:=E) c l target = Ok l' /\ insts_len l' = lenZ target /\
    insts_fit (lenZ src) 0 l' (lenZ target) /\
    (valid_insts src target 0 l' <-> safe_merges src target 0 l = true).
Proof.
  intros Hw Ht32 Hlen Hv. apply valid_covers in Hv as Hcov.
  destruct (covers_range _ _ _ _ _ Hcov) as [_ Hsum]. rewrite Z.add_0_l in Hsum.
  unfold optimize. destruct l as [|i0 l0]; [exists []; by split_and!|]. set (l := i0 :: l0) in *.
  pose proof (covers_plain _ _ _ _ _ Hlen Hcov) as Hplain.
  destruct (coalesce_ok (E:=E) l Hplain []) as (st & Hfor & Hst & Hsl & Hsf & Hc);
    [constructor|change (insts_len []) with 0; lia|]. rewrite Hfor. cbn [bind].
  change (insts_len []) with 0 in *. rewrite !Z.add_0_l in *. unfold split_add_runs.
  destruct (split_all_ok (E:=E) c target Hw Ht32 (reverse st)) with (pos := 0) (out := @nil Instruction)
    as (out & -> & Hol & _ & Hof & Hoc).
  { apply Forall_reverse. eapply Forall_impl; [|exact Hst]. intros x [? _]. unfold sized. lia. }
  { lia. }
  { rewrite insts_len_reverse. lia. }
  rewrite insts_len_reverse in Hol.
  cbn [bind app]. rewrite debug_assert_ok by (apply Z.eqb_eq; lia). cbn [bind].
  exists out. split_and!; [done|lia|apply Hof; rewrite <- Hsum; apply Hsf; [done|by rewrite Hsum; apply (covers_fit _ target)]|].
  rewrite valid_covers, <- Hoc by (by apply Forall_reverse).
  rewrite <- Hsum in *. split; [|by intros Hsafe; apply Hc].
  intros Hres. by apply (coalesce_all_exact (E:=E) src target i0 l0 st).
Qed.

Lemma optimize_spans src target pre l1 a1 l2 m post l' :
  let l := pre ++ Copy l1 a1 m :: Copy l2 (lenZ src) m :: post in
  wf_bytes target -> lenZ target < 2 ^ 32 -> lenZ src + lenZ target < 2 ^ 63 ->
  valid_insts src target 0 l -> a1 + l1 = lenZ src -> optimize (E:=E) c l target = Ok l' ->
  exists x, x ∈ l' /\ spanning (lenZ src) x.
Proof.
  intros l Hw Ht32 Hlen Hv Ha Ho. apply valid_covers in Hv as Hcov.
  destruct (covers_range _ _ _ _ _ Hcov) as [_ Hsum]. rewrite Z.add_0_l in Hsum.
  pose proof (covers_plain _ _ _ _ _ Hlen Hcov) as Hplain.
  destruct (coalesce_ok (E:=E) l Hplain []) as (st & Hfor & Hst & Hsl & _);
    [constructor|change (insts_len []) with 0; lia|]. change (insts_len []) with 0 in Hsl.
  assert (exists x, x ∈ st /\ spanning (lenZ src) x) as (x & Hx & Hspan).
  { unfold l in *. rewrite <- Ha in Hfor |- *. eapply coalesce_spans; rewrite ?Ha; [exact Hplain|lia|by rewrite <- Ha]. }
  destruct (split_all_ok (E:=E) c target Hw Ht32 (reverse st)) with (pos := 0) (out := @nil Instruction)
    as (out & Hout & _ & Hkeep & _).
  { apply Forall_reverse. eapply Forall_impl; [|exact Hst]. intros y [? _]. unfold sized. lia. }
  { lia. }
  { rewrite insts_len_reverse. lia. }
  assert (exists r, out = r /\ l' = r) as (r & -> & ->).
  { unfold optimize, split_add_runs in Ho. rewrite Hfor in Ho. cbn [bind] in Ho. rewrite Hout in Ho. cbn [bind] in Ho.
    destruct l eqn:El; [by destruct pre|]. apply bind_ok_inv in Ho as (_ & _ & [= <-]). eauto. }
  exists x. split; [|done]. apply Hkeep; [by destruct x|]. by apply elem_of_reverse.
Qed.
End OptimizeOk.

(** ** Theorems *)

(** C13: on valid instructions the optimizer returns (no panic, every loop ends,
    its own length assertion holds) instructions of the same total length.  They
    are valid exactly when the merges it makes are safe, and then running them
    rebuilds the target. *)
Theorem optimize_correct {B : Build} {E} (c : cpu) (src target : bytes) (l : list Instruction) :
  wf_bytes target -> lenZ target < 2 ^ 32 -> lenZ src + lenZ target < 2 ^ 63 ->
  valid_insts src target 0 l ->
  exists l', optimize (E:=E) c l target = Ok l' /\ insts_len l' = lenZ target /\
    (valid_insts src target 0 l' <-> safe_merges src target 0 l = true) /\
    (safe_merges src target 0 l = true -> exec_ops src [] (ops_of target 0 l') = Some target).
Proof.
  intros Hw Ht Hl Hv. destruct (optimize_ok (E:=E) c src target l Hw Ht Hl Hv) as (l' & Ho & Hlen & _ & Hs).
  exists l'. split_and!; [done..|]. intros Hsafe%Hs.
  apply (exec_valid_insts src target 0 l'); (done || lia).
Qed.

Lemma optimize_correct_witness :
  exists l', optimize (B:={| debug_build := true |}) (E:=unit) X86_avx2 [Add 1; Add 11; Copy 2 0 0; Copy 1 2 0]
      [1; 2; 0; 0; 0; 0; 0; 0; 0; 0; 0; 3; 7; 8; 9] = Ok l' /\
    insts_len l' = 15 /\
    (valid_insts [7; 8; 9] [1; 2; 0; 0; 0; 0; 0; 0; 0; 0; 0; 3; 7; 8; 9] 0 l' <->
     safe_merges [7; 8; 9] [1; 2; 0; 0; 0; 0; 0; 0; 0; 0; 0; 3; 7; 8; 9] 0
       [Add 1; Add 11; Copy 2 0 0; Copy 1 2 0] = true) /\
    (safe_merges [7; 8; 9] [1; 2; 0; 0; 0; 0; 0; 0; 0; 0; 0; 3; 7; 8; 9] 0
       [Add 1; Add 11; Copy 2 0 0; Copy 1 2 0] = true ->
     exec_ops [7; 8; 9] [] (ops_of [1; 2; 0; 0; 0; 0; 0; 0; 0; 0; 0; 3; 7; 8; 9] 0 l')
     = Some [1; 2; 0; 0; 0; 0; 0; 0; 0; 0; 0; 3; 7; 8; 9]).
Proof.
  apply (optimize_correct (B:={| debug_build := true |}) (E:=unit) X86_avx2 [7; 8; 9]
    [1; 2; 0; 0; 0; 0; 0; 0; 0; 0; 0; 3; 7; 8; 9] [Add 1; Add 11; Copy 2 0 0; Copy 1 2 0]);
    [by apply in_range_list|reflexivity|reflexivity|by apply valid_instsb_spec].
Defined.
