(* ===== verification/Rayon.v ===== *)
(** * The parallel iterator the encoder collects its windows from

    [encode_all_parallel] maps a closure over its chunks with [rayon] and
    collects the results.  Of [rayon] only the documented outcome of [collect]
    is used: the values in the order of the items when every closure returns
    one, and otherwise what one of the failing closures gave; which one is
    unspecified.  The second half shows what that allows: a pool whose workers
    take the items in any order whatever satisfies it. *)

From stdpp Require Import base numbers list option relations.
From Stdlib Require Import ZArith Lia.
From S2P Require Import Prelude.

Local Open Scope rust_scope.

(** [.par_iter().map(f).collect::<Result<Vec<_>, _>>()]. *)
Class Rayon := par_collect : forall {E A C : Type}, (A -> result E C) -> list A -> result E (list C).

(** What one of the closures gave, when it was not a value. *)
Definition failure {E A C D} (f : A -> result E C) (l : list A) (r : result E D) : Prop :=
  exists x, x ∈ l /\
    match r with
    | Ok _ => False
    | Err e => f x = Err e
    | Panic => f x = Panic
    | Diverge => f x = Diverge
    end.

Class RayonLaws `{Rayon} := {
  par_outcome : forall {E A C : Type} (f : A -> result E C) (l : list A),
    (exists ys, par_collect f l = Ok ys /\ Forall2 (fun x y => f x = Ok y) l ys) \/
    failure f l (par_collect f l)
}.

Section Laws.
Context `{RayonLaws} {E A C : Type} (f : A -> result E C).

Lemma par_collect_ok l ys :
  par_collect f l = Ok ys <-> Forall2 (fun x y => f x = Ok y) l ys.
Proof.
  destruct (par_outcome f l) as [(zs & -> & Hzs)|(x & Hx & Hf)].
  - split; [by intros [= <-]|]. intros Hys. f_equal. clear -Hys Hzs. revert zs Hzs.
    induction Hys as [|x y l ys Hxy _ IH]; intros zs Hzs; inversion Hzs as [|? z ? zs' Hxz Hzs']; subst; [done|].
    rewrite Hxy in Hxz. injection Hxz as ->. f_equal. by apply IH.
  - split; [intros Heq; by rewrite Heq in Hf|]. intros Hys.
    destruct (list_elem_of_lookup_1 l x Hx) as [i Hi].
    destruct (Forall2_lookup_l _ _ _ _ _ Hys Hi) as (y & _ & Hy).
    destruct (par_collect f l); [done|by rewrite Hy in Hf..].
Qed.
End Laws.

(** ** A pool of workers *)

Section Pool.
Context {E A C : Type} (f : A -> result E C).

(** A slot per item, filled when a worker has run its closure. *)
Abbreviation slots := (list (option (result E C))).

(** Some worker runs the closure of some item nobody has run. *)
Inductive work (items : list A) (s : slots) : slots -> Prop :=
  | work_on i x :
      items !! i = Some x -> s !! i = Some None -> work items s (<[i := Some (f x)]> s).

Definition idle (items : list A) : slots := replicate (length items) None.

(** What [collect] may return: the values once all slots have one, or a
    failure as soon as a slot has it. *)
Inductive collected (s : slots) : result E (list C) -> Prop :=
  | collected_all ys : s = (fun y => Some (Ok y)) <$> ys -> collected s (Ok ys)
  | collected_err i e : s !! i = Some (Some (Err e)) -> collected s (Err e)
  | collected_panic i : s !! i = Some (Some Panic) -> collected s Panic
  | collected_diverge i : s !! i = Some (Some Diverge) -> collected s Diverge.

(** A filled slot holds what the closure gives on its item. *)
Definition pool_inv (items : list A) (s : slots) : Prop :=
  length s = length items /\
  forall i r, s !! i = Some (Some r) -> exists x, items !! i = Some x /\ r = f x.

Lemma work_inv items s : rtc (work items) (idle items) s -> pool_inv items s.
Proof.
  apply (rtc_ind_r (pool_inv items)).
  - split; [apply length_replicate|]. intros i r Hi. by apply lookup_replicate in Hi as [? _].
  - intros s1 s2 _ [i x Hx Hi] [Hl Hs]. split; [by rewrite length_insert|].
    intros j r Hj. destruct (decide (i = j)) as [<-|Hne].
    + rewrite list_lookup_insert_eq in Hj by (by eapply lookup_lt_Some). injection Hj as <-. eauto.
    + rewrite list_lookup_insert_ne in Hj by done. by apply Hs.
Qed.

(** The items nobody has run yet; every step takes one of them. *)
Fixpoint waiting (s : slots) : nat :=
  match s with
  | [] => 0
  | None :: s => S (waiting s)
  | Some _ :: s => waiting s
  end.

Lemma waiting_insert s i r : s !! i = Some None -> waiting s = S (waiting (<[i := Some r]> s)).
Proof.
  revert i. induction s as [|o s IH]; intros [|i]; simpl; try done; [by intros [= ->]|].
  intros Hi. rewrite (IH i Hi). by destruct o.
Qed.

Lemma work_progress items s : pool_inv items s -> (0 < waiting s)%nat -> exists s', work items s s'.
Proof.
  intros [Hl _] Hw. assert (exists i, s !! i = Some None) as [i Hi].
  { clear -Hw. induction s as [|[r|] s IH]; simpl in Hw; [lia| |by exists 0%nat].
    destruct (IH Hw) as [i Hi]. by exists (S i). }
  destruct (lookup_lt_is_Some_2 items i) as [x Hx]; [rewrite <- Hl; by eapply lookup_lt_Some|].
  eexists. by apply (work_on items s i x).
Qed.

(** ** Any order of work has the documented outcome *)

Lemma filled_ok items s ys :
  pool_inv items s -> s = (fun y => Some (Ok y)) <$> ys -> Forall2 (fun x y => f x = Ok y) items ys.
Proof.
  intros [Hl Hs] ->. rewrite length_fmap in Hl. apply Forall2_same_length_lookup. split; [done|].
  intros i x y Hx Hy. destruct (Hs i (Ok y)) as (x' & Hx' & Hr); [by rewrite list_lookup_fmap, Hy|].
  rewrite Hx in Hx'. by injection Hx' as <-.
Qed.

Lemma slot_failure {D} items s i (r : result E C) (q : result E D) :
  pool_inv items s -> s !! i = Some (Some r) ->
  (forall x, r = f x -> match q with
     | Ok _ => False | Err e => f x = Err e | Panic => f x = Panic | Diverge => f x = Diverge end) ->
  failure f items q.
Proof.
  intros [_ Hs] Hi Hq. destruct (Hs i r Hi) as (x & Hx & Hr). exists x. split; [|by apply Hq].
  by apply list_elem_of_lookup_2 with i.
Qed.

Theorem pool_outcome items s r :
  rtc (work items) (idle items) s -> collected s r ->
  (exists ys, r = Ok ys /\ Forall2 (fun x y => f x = Ok y) items ys) \/ failure f items r.
Proof.
  intros Hrun%work_inv [ys Hs|i e Hi|i Hi|i Hi].
  - left. exists ys. split; [done|]. by apply (filled_ok items s).
  - right. by apply (slot_failure items s i (Err e)).
  - right. by apply (slot_failure items s i Panic).
  - right. by apply (slot_failure items s i Diverge).
Qed.

(** A pool that takes the items in a given order. *)
Fixpoint run_order (items : list A) (order : list nat) (s : slots) : result E (list C) :=
  match order with
  | [] =>
      match mapM (fun o => match o with Some (Ok y) => Some y | _ => None end) s with
      | Some ys => Ok ys
      | None => Panic
      end
  | i :: order =>
      match items !! i with
      | Some x =>
          match f x with
          | Ok y => run_order items order (<[i := Some (Ok y)]> s)
          | Err e => Err e
          | Panic => Panic
          | Diverge => Diverge
          end
      | None => Panic
      end
  end.

(** The slots that are filled have values. *)
Definition no_failure (s : slots) : Prop := forall i r, s !! i = Some (Some r) -> exists y, r = Ok y.

(** The order names the items that wait, each once. *)
Lemma run_order_collected items order : NoDup order -> forall s,
  rtc (work items) (idle items) s -> no_failure s ->
  (forall i, i ∈ order <-> s !! i = Some None) ->
  exists s', rtc (work items) (idle items) s' /\ collected s' (run_order items order s).
Proof.
  induction 1 as [|i order Hi Hnd IH]; intros s Hrun Hnf Hord; cbn [run_order].
  - exists s. split; [done|].
    assert (exists ys, s = (fun y => Some (Ok y)) <$> ys) as [ys ->].
    { clear -Hnf Hord. assert (forall i, s !! i <> Some None) as Hno by (intros i Hi; by apply Hord, elem_of_nil in Hi).
      clear Hord. induction s as [|o s IH]; [by exists []|].
      destruct IH as [ys ->]; [intros i; apply (Hnf (S i))|intros i; apply (Hno (S i))|].
      destruct o as [r|]; [|by destruct (Hno 0%nat)]. destruct (Hnf 0%nat r) as [y ->]; [done|]. by exists (y :: ys). }
    rewrite mapM_fmap_Some; [by apply collected_all|done].
  - pose proof (proj1 (Hord i) (list_elem_of_here _ _)) as Hwait. pose proof (work_inv _ _ Hrun) as [Hl _].
    destruct (lookup_lt_is_Some_2 items i) as [x Hx]; [rewrite <- Hl; by eapply lookup_lt_Some|]. rewrite Hx.
    pose proof (rtc_r _ _ _ Hrun (work_on items s i x Hx Hwait)) as Hrun'.
    assert (<[i := Some (f x)]> s !! i = Some (Some (f x))) as Hat
      by (apply list_lookup_insert_eq; by eapply lookup_lt_Some).
    destruct (f x) as [y|e| |] eqn:Hfx.
    + apply IH; [done| |].
      * intros j r Hj. destruct (decide (i = j)) as [<-|Hne]; [rewrite Hat in Hj; injection Hj as <-; eauto|].
        rewrite list_lookup_insert_ne in Hj by done. by apply (Hnf j).
      * intros j. destruct (decide (i = j)) as [<-|Hne]; [by rewrite Hat|].
        rewrite list_lookup_insert_ne by done. rewrite <- Hord, elem_of_cons.
        split; [by right|by intros [->|]].
    + eexists. split; [done|]. by apply (collected_err _ i).
    + eexists. split; [done|]. by apply (collected_panic _ i).
    + eexists. split; [done|]. by apply (collected_diverge _ i).
Qed.
End Pool.

(** A scheduler is an order of the items for every number of them. *)
Definition scheduler (order : nat -> list nat) : Rayon :=
  fun E A C f items => run_order f items (order (length items)) (idle items).

Lemma scheduler_laws order :
  (forall n, order n ≡ₚ seq 0 n) -> @RayonLaws (scheduler order).
Proof.
  intros Hord. constructor. intros E A C f items. unfold par_collect, scheduler.
  destruct (run_order_collected f items (order (length items))) with (s := @idle E A C items)
    as (s' & Hrun & Hc).
  - rewrite Hord. apply NoDup_seq.
  - done.
  - intros i r Hi. by apply lookup_replicate in Hi as [? _].
  - intros i. rewrite Hord, elem_of_seq. unfold idle.
    rewrite lookup_replicate. split; [intros ?; split; [done|lia]|intros [_ ?]; lia].
  - by apply (pool_outcome f items s').
Qed.

(** First to last, and last to first. *)
Definition forwards : Rayon := scheduler (seq 0).
Definition backwards : Rayon := scheduler (fun n => reverse (seq 0 n)).

Lemma forwards_laws : @RayonLaws forwards.
Proof. by apply scheduler_laws. Qed.

Lemma backwards_laws : @RayonLaws backwards.
Proof. apply scheduler_laws. intros n. apply reverse_Permutation. Qed.
