(* ===== verification/Delta.v ===== *)
(** * The streaming encoder and decoder ([src/src/compress/encoder.rs],
      [src/src/compress/decoder.rs])

    [DeltaEncoder] indexes the source once, buffers the target into windows,
    searches, optimizes, compresses and writes each window; [encode_all] and
    [encode_all_parallel] are the conveniences on top.  [DeltaDecoder] decodes
    a window at a time into a writer.  The loop over full windows carries the
    input's length as fuel: with a positive window size each turn consumes
    some of it. *)

From stdpp Require Import base numbers list option.
From Stdlib Require Import ZArith Lia.
From S2P Require Import Prelude Varint AddrCache CodeTable Semantics Header WindowEncoder Source.
From S2P Require Import Secondary WindowDecoder StreamRoundtrip Kernels HashTables Matching.
From S2P Require Import MatchingCorrect Emit Pipeline Rayon.

Local Open Scope Z_scope.
Local Open Scope rust_scope.

Record CompressOptions := compress_options {
  level : Z;
  window_size : Z;
  checksum : bool;
  secondary : SecondaryCompression
}.

Definition default_options : CompressOptions :=
  compress_options 6 (Z.shiftl 1 23) true NoSecondary.

Inductive EncodeError := EncodeIo (k : io_kind).

(** An error comes with what the writer holds when it is returned. *)
Abbreviation R := (result (EncodeError * bytes)).

(** The choice of instructions without matching. *)
Definition store_only (window : bytes) : list Instruction :=
  match window with
  | [] => []
  | _ => [Add (wrap 32 (lenZ window))]
  end.

Module DeltaEncoder.
Record t := mk {
  stream : StreamEncoder.t;
  opts : CompressOptions;
  config : MatcherConfig;
  source : bytes;
  engine : option MatchEngine.t;
  buffer : bytes;
  bytes_in : Z;
  windows_written : Z;
  last_data_size : Z;
  last_inst_size : Z;
  last_addr_size : Z
}.

Definition set_buffer (d : t) (b : bytes) : t :=
  mk (stream d) (opts d) (config d) (source d) (engine d) b (bytes_in d) (windows_written d)
     (last_data_size d) (last_inst_size d) (last_addr_size d).
Definition set_bytes_in (d : t) (n : Z) : t :=
  mk (stream d) (opts d) (config d) (source d) (engine d) (buffer d) n (windows_written d)
     (last_data_size d) (last_inst_size d) (last_addr_size d).
Definition set_engine (d : t) (e : option MatchEngine.t) : t :=
  mk (stream d) (opts d) (config d) (source d) e (buffer d) (bytes_in d) (windows_written d)
     (last_data_size d) (last_inst_size d) (last_addr_size d).

(** The stream written and the section sizes remembered for the next window. *)
Definition wrote_window (d : t) (st : StreamEncoder.t) (ws : WindowSections.t) (n : Z) : t :=
  mk st (opts d) (config d) (source d) (engine d) (buffer d) (bytes_in d) n
     (lenZ (WindowSections.data_section ws)) (lenZ (WindowSections.inst_section ws))
     (lenZ (WindowSections.addr_section ws)).

Section Ops.
Context {B : Build} `{Adler32} `{Codecs} (c : cpu).

Definition new (writer source : bytes) (opts : CompressOptions) : R t :=
  let config := config_for_level (level opts) in
  let stream := StreamEncoder.new writer (checksum opts) in
  let stream :=
    match backend (secondary opts) with
    | Some be => StreamEncoder.set_secondary_id stream (be_id be)
    | None => stream
    end in
  let* engine :=
    if (0 <? level opts) && negb (lenZ source =? 0) then
      let* eng := MatchEngine.new c config (lenZ source) (Z.max (window_size opts) 64) in
      let* eng := MatchEngine.index_source eng source in
      Ok (Some eng)
    else if 0 <? level opts then
      let* eng := MatchEngine.new c config 0 (Z.max (window_size opts) 64) in
      Ok (Some eng)
    else Ok None in
  Ok (mk stream opts config source engine [] 0 0 0 0 0).

Definition find_matches (d : t) (target : bytes) : R (t * list Instruction) :=
  match engine d with
  | None => Panic
  | Some engine =>
    let* (engine, insts) :=
      match source d with
      | [] => Matching.find_matches engine target (None : option bytes)
      | src => Matching.find_matches engine target (Some src)
      end in
    Ok (set_engine d (Some engine), insts)
  end.

(** The instructions of a window, searched or stored. *)
Definition window_instructions (d : t) (window : bytes) : R (t * list Instruction) :=
  if level (opts d) =? 0 then Ok (d, store_only window)
  else
    let* (d, raw) := find_matches d window in
    let* insts := optimize c raw window in
    Ok (d, insts).

Definition encode_window (d : t) (window : bytes) : R t :=
  let source_win := whole_source (source d) in
  let* (d, insts) := window_instructions d window in
  let we :=
    if 0 <? last_data_size d
    then WindowEncoder.with_capacity source_win (checksum (opts d))
           (last_data_size d) (last_inst_size d) (last_addr_size d)
    else WindowEncoder.new source_win (checksum (opts d)) in
  let* we := emit_instructions we window insts in
  let* secs := WindowEncoder.finish_sections we (Some window) in
  let* encoded :=
    match backend (secondary (opts d)) with
    | Some be =>
        let* (comp_data, comp_inst, comp_addr, del_ind) :=
          map_err (fun k => (EncodeIo k, StreamEncoder.writer (stream d)))
            (compress_sections be (WindowSections.data_section secs)
               (WindowSections.inst_section secs) (WindowSections.addr_section secs)) in
        WindowSections.assemble
          (WindowSections.mk (WindowSections.source_window secs)
             (WindowSections.target_len secs) (WindowSections.checksum secs)
             comp_data comp_inst comp_addr) del_ind
    | None => WindowSections.assemble secs 0
    end in
  let* stream := StreamEncoder.write_raw_window (stream d) encoded in
  let* n := add_w 64 (windows_written d) 1 in
  Ok (wrote_window d stream secs n).

(** [while offset + window_size <= data.len() { .. }], and the rest buffered. *)
Fixpoint write_windows (fuel : nat) (d : t) (data : bytes) (offset : Z) : R t :=
  match fuel with
  | O => Diverge
  | S fuel =>
    let* e := add_w 64 offset (window_size (opts d)) in
    if e <=? lenZ data then
      let* w := slice data offset e in
      let* d := encode_window d w in
      write_windows fuel d data e
    else if offset <? lenZ data then
      let* rest := slice_from data offset in
      Ok (set_buffer d (buffer d ++ rest))
    else Ok d
  end.

Definition write_target (d : t) (data : bytes) : R t :=
  let* n := add_w 64 (bytes_in d) (lenZ data) in
  let d := set_bytes_in d n in
  let* (d, offset) :=
    match buffer d with
    | [] => Ok (d, 0)
    | _ =>
        let* need := sub_w 64 (window_size (opts d)) (lenZ (buffer d)) in
        let take := Z.min need (lenZ data) in
        let* s := slice data 0 take in
        let d := set_buffer d (buffer d ++ s) in
        if lenZ (buffer d) =? window_size (opts d) then
          let window := buffer d in
          let* d := encode_window (set_buffer d []) window in
          Ok (set_buffer d [], take)
        else Ok (d, take)
    end in
  write_windows (S (length data)) d data offset.

Definition finish (d : t) : R (bytes * Z) :=
  let* d :=
    match buffer d with
    | [] => Ok d
    | remaining => encode_window (set_buffer d []) remaining
    end in
  let* stream :=
    if windows_written d =? 0
    then StreamEncoder.write_window (stream d) (WindowEncoder.new None (checksum (opts d))) (Some [])
    else Ok (stream d) in
  let windows := windows_written d in
  let* w := StreamEncoder.finish stream in
  Ok (w, windows).
End Ops.
End DeltaEncoder.

Section EncodeAll.
Context {B : Build} `{Adler32} `{Codecs} (c : cpu).

(** The cap of the window size at the target's length. *)
Definition cap_window (opts : CompressOptions) (target : bytes) : CompressOptions :=
  if lenZ target <? window_size opts
  then compress_options (level opts) (Z.max (lenZ target) 64) (checksum opts) (secondary opts)
  else opts.

Definition encode_all (writer source target : bytes) (opts : CompressOptions) : R bytes :=
  let opts := cap_window opts target in
  let* enc := DeltaEncoder.new c writer source opts in
  let* enc := DeltaEncoder.write_target c enc target in
  let* (w, _) := DeltaEncoder.finish c enc in
  Ok w.
End EncodeAll.

(** ** Parallel encoding *)

(** [target.chunks(n)], for a positive [n]; the target's length is fuel enough. *)
Fixpoint chunks (fuel : nat) (n : Z) (l : bytes) : list bytes :=
  match fuel, l with
  | S fuel, _ :: _ => take (Z.to_nat n) l :: chunks fuel n (drop (Z.to_nat n) l)
  | _, _ => []
  end.

Section Parallel.
Context {B : Build} `{Adler32} `{Codecs} `{Rayon} (c : cpu).

(** The search of one window, with an engine of its own. *)
Definition chunk_search (source : bytes) (opts : CompressOptions) (chunk : bytes)
    : result EncodeError (list Instruction) :=
  let config := config_for_level (level opts) in
  let* engine :=
    if negb (lenZ source =? 0) then
      let* eng := MatchEngine.new c config (lenZ source) (Z.max (lenZ chunk) 64) in
      MatchEngine.index_source eng source
    else MatchEngine.new c config 0 (Z.max (lenZ chunk) 64) in
  let* (_, raw) :=
    match source with
    | [] => Matching.find_matches engine chunk (None : option bytes)
    | src => Matching.find_matches engine chunk (Some src)
    end in
  Ok raw.

(** The closure over the chunks. *)
Definition encode_chunk (source : bytes) (opts : CompressOptions) (chunk : bytes)
    : result EncodeError bytes :=
  let* insts :=
    if level opts =? 0 then Ok (store_only chunk)
    else let* raw := chunk_search source opts chunk in optimize c raw chunk in
  let we := WindowEncoder.new (whole_source source) (checksum opts) in
  let* we := emit_instructions we chunk insts in
  let* secs := WindowEncoder.finish_sections we (Some chunk) in
  match backend (secondary opts) with
  | Some be =>
      let* (comp_data, comp_inst, comp_addr, del_ind) :=
        map_err EncodeIo
          (compress_sections be (WindowSections.data_section secs)
             (WindowSections.inst_section secs) (WindowSections.addr_section secs)) in
      WindowSections.assemble
        (WindowSections.mk (WindowSections.source_window secs) (WindowSections.target_len secs)
           (WindowSections.checksum secs) comp_data comp_inst comp_addr) del_ind
  | None => WindowSections.assemble secs 0
  end.

Definition encode_all_parallel (writer source target : bytes) (opts : CompressOptions) : R bytes :=
  let opts := cap_window opts target in
  match target with
  | [] => encode_all c writer source target opts
  | _ =>
      let window_size := Z.max (window_size opts) 64 in
      let* windows :=
        map_err (fun e => (e, writer))
          (par_collect (encode_chunk source opts) (chunks (S (length target)) window_size target)) in
      let stream := StreamEncoder.new writer (checksum opts) in
      let stream :=
        match backend (secondary opts) with
        | Some be => StreamEncoder.set_secondary_id stream (be_id be)
        | None => stream
        end in
      let* stream := for_in windows (fun w st => StreamEncoder.write_raw_window st w) stream in
      StreamEncoder.finish stream
  end.
End Parallel.

(** ** The streaming decoder *)

Module DeltaDecoder.
Record t := mk {
  inner : StreamDecoder.t;
  bytes_decoded : Z;
  windows_decoded : Z;
  window_buf : bytes
}.

Definition with_checksum (reader : bytes) (verify : bool) : t :=
  mk (StreamDecoder.new reader verify) 0 0 [].

Definition new (reader : bytes) : t := with_checksum reader true.

Section Ops.
Context {B : Build} {S : Type} `{SourceProvider S} `{Adler32} `{Codecs}.

(** The writer is a growing vector; an error comes with what it holds. *)
Definition decode_window_to (d : t) (src : S) (writer : bytes)
  : result (DecodeError * bytes) (option Z * t * S * bytes) :=
  let* (has_more, inner, src, buf) :=
    map_err (fun e => (e, writer)) (StreamDecoder.decode_window (inner d) src []) in
  if negb has_more then Ok (None, mk inner (bytes_decoded d) (windows_decoded d) buf, src, writer)
  else
    let size := lenZ buf in
    let writer := writer ++ buf in
    let* n := add_w 64 (bytes_decoded d) size in
    let* k := add_w 64 (windows_decoded d) 1 in
    Ok (Some size, mk inner n k buf, src, writer).

(** [while self.decode_window_to(source, writer)?.is_some() {}] *)
Fixpoint decode_loop (fuel : nat) (d : t) (src : S) (writer : bytes)
  : result (DecodeError * bytes) (t * S * bytes) :=
  match fuel with
  | O => Diverge
  | Datatypes.S fuel =>
    let* (o, d, src, writer) := decode_window_to d src writer in
    match o with
    | Some _ => decode_loop fuel d src writer
    | None => Ok (d, src, writer)
    end
  end.

Definition decode_to (d : t) (src : S) (writer : bytes)
  : result (DecodeError * bytes) (Z * t * S * bytes) :=
  let* (d, src, writer) :=
    decode_loop (Datatypes.S (length (StreamDecoder.reader (inner d)))) d src writer in
  Ok (bytes_decoded d, d, src, writer).
End Ops.
End DeltaDecoder.

Definition decode_all {B : Build} `{Adler32} `{Codecs} (source delta : bytes)
    : result DecodeError bytes :=
  decode_memory delta source.
