(* ===== verification/DeltaCorrect.v ===== *)
(** * The streaming encoder and decoder invert each other

    Invariant of [DeltaEncoder] between calls, whatever pieces the target is
    fed in, and the round trip through [decode_all] and [DeltaDecoder].  At
    level 0 it is unconditional; at the searching levels it needs the merges of
    the optimizer to be safe, which [safe_windows] tests by running the search.
    [meant] says what the windows mean when they are not; the last theorem is an
    input on which the delta is bad. *)

From stdpp Require Import base numbers list option.
From Stdlib Require Import ZArith Lia.
From S2P Require Import Prelude Varint AddrCache CodeTable Semantics Header WindowEncoder Source.
From S2P Require Import Secondary WindowDecoder WindowRoundtrip StreamRoundtrip Kernels HashTables.
From S2P Require Import Matching MatchingCorrect Emit Pipeline Rayon Delta.

Local Open Scope Z_scope.
Local Open Scope rust_scope.

(** ** Windows of a target *)

(** [l] cut in windows of [n] bytes, the last one shorter. *)
Inductive chunked (n : Z) : bytes -> list bytes -> Prop :=
  | chunked_nil : chunked n [] []
  | chunked_last l : 1 <= lenZ l < n -> chunked n l [l]
  | chunked_cons w l ts : lenZ w = n -> chunked n l ts -> chunked n (w ++ l) (w :: ts).

Lemma chunks_ok n : 1 <= n -> forall fuel l, (length l < fuel)%nat -> chunked n l (chunks fuel n l).
Proof.
  intros Hn. induction fuel as [|fuel IH]; intros l Hf; [lia|].
  destruct l as [|b l]; [constructor|]. cbn [chunks].
  destruct (Z.lt_ge_cases (lenZ (b :: l)) n) as [Hlt|Hge].
  - rewrite take_ge, drop_ge by (unfold lenZ in *; lia). destruct fuel; cbn [chunks];
      constructor; rewrite lenZ_cons in *; pose proof (lenZ_nonneg l); lia.
  - rewrite <- (take_drop (Z.to_nat n) (b :: l)) at 1. constructor.
    + unfold lenZ in *. rewrite length_take. lia.
    + apply IH. rewrite length_drop. simpl in *. lia.
Qed.

Lemma chunked_concat n l ts : chunked n l ts -> concat ts = l.
Proof. induction 1 as [|l Hl|w l ts Hw _ IH]; simpl; [done|by rewrite app_nil_r|by rewrite IH]. Qed.

Lemma chunked_full n w l ts :
  1 <= n -> lenZ w = n -> chunked n (w ++ l) ts -> exists ts', ts = w :: ts' /\ chunked n l ts'.
Proof.
  intros Hn Hw Hc. remember (w ++ l) as x eqn:Hx. destruct Hc as [|y Hy|v m ts Hv Hc].
  - symmetry in Hx. apply app_eq_nil in Hx as [-> _]. change (lenZ (@nil Z)) with 0 in Hw. lia.
  - subst. rewrite lenZ_app in Hy. pose proof (lenZ_nonneg l). lia.
  - apply app_inj_1 in Hx as [-> ->]; [eauto|]. unfold lenZ in *. lia.
Qed.

Lemma chunked_short n l ts :
  lenZ l < n -> chunked n l ts -> (l = [] /\ ts = []) \/ (1 <= lenZ l /\ ts = [l]).
Proof.
  intros Hl Hc. destruct Hc as [|l H|w l ts Hw _]; [by left|right; split; [lia|done]|].
  rewrite lenZ_app in Hl. pose proof (lenZ_nonneg l). lia.
Qed.

(** ** Safe searches *)

Section Safe.
Context {B : Build}.

(** The search of [DeltaEncoder::find_matches], over a source or none. *)
Definition search {E} (e : MatchEngine.t) (source target : bytes)
    : result E (MatchEngine.t * list Instruction) :=
  match source with
  | [] => Matching.find_matches e target (None : option bytes)
  | src => Matching.find_matches e target (Some src)
  end.

(** The optimizer merges safely in each of the windows, searched in order. *)
Fixpoint safe_windows (e : MatchEngine.t) (source : bytes) (ts : list bytes) : bool :=
  match ts with
  | [] => true
  | t :: ts =>
      match search (E:=EncodeError * bytes) e source t with
      | Ok (e', insts) => safe_merges source t 0 insts && safe_windows e' source ts
      | _ => false
      end
  end.

Definition safe_from (d : DeltaEncoder.t) (ts : list bytes) : bool :=
  if level (DeltaEncoder.opts d) =? 0 then true
  else
    match DeltaEncoder.engine d with
    | Some e => safe_windows e (DeltaEncoder.source d) ts
    | None => false
    end.

(** What the windows mean: each is searched and optimized, and the operations
    of the result are run. *)
Fixpoint window_meanings (c : cpu) (e : MatchEngine.t) (source : bytes) (ts : list bytes)
    : list (option bytes) :=
  match ts with
  | [] => []
  | t :: ts =>
      match search (E:=EncodeError * bytes) e source t with
      | Ok (e', raw) =>
          match optimize (E:=EncodeError * bytes) c raw t with
          | Ok insts => exec_ops source [] (ops_of t 0 insts)
          | _ => None
          end :: window_meanings c e' source ts
      | _ => []
      end
  end.

Definition meanings (c : cpu) (d : DeltaEncoder.t) (ts : list bytes) : list (option bytes) :=
  if level (DeltaEncoder.opts d) =? 0 then map Some ts
  else
    match DeltaEncoder.engine d with
    | Some e => window_meanings c e (DeltaEncoder.source d) ts
    | None => []
    end.

Lemma search_valid {E} e source target :
  engine_wf (lenZ source) e -> wf_bytes source -> wf_bytes target ->
  lenZ target < 2 ^ 32 -> lenZ source + lenZ target < 2 ^ 63 ->
  exists e' insts, search (E:=E) e source target = Ok (e', insts) /\ engine_wf (lenZ source) e' /\
    valid_insts source target 0 insts /\ Forall worthwhile insts.
Proof.
  intros He Hs Ht Hl Hsum. unfold search. destruct source as [|b l].
  - apply (find_matches_found (E:=E) (contents:=fun s : bytes => s) e target None); done.
  - apply (find_matches_found (E:=E) (contents:=fun s : bytes => s) e target (Some (b :: l))); done.
Qed.
End Safe.

(** The file header the encoder writes. *)
Definition header_of `{Codecs} (opts : CompressOptions) : FileHeader.t :=
  match backend (secondary opts) with
  | Some be => FileHeader.mk VCD_SECONDARY (Some (be_id be)) None
  | None => FileHeader.default
  end.

(** Compression in memory does not fail. *)
Definition secondary_total `{Codecs} (s : SecondaryCompression) : Prop :=
  forall be, backend s = Some be -> forall d, exists c, be_compress be d = Ok c.

Record options_ok `{Codecs} (opts : CompressOptions) : Prop := {
  oo_level : 0 <= level opts;
  oo_window : 1 <= window_size opts <= HARD_MAX_WINSIZE;
  oo_secondary : secondary_ok (secondary opts);
  oo_total : secondary_total (secondary opts)
}.

Lemma no_secondary_ok `{Codecs} lvl n ck :
  0 <= lvl -> 1 <= n <= HARD_MAX_WINSIZE -> options_ok (compress_options lvl n ck NoSecondary).
Proof. intros Hl Hn. by constructor. Qed.

(** A window size capped at the target's stays one the decoder accepts. *)
Lemma cap_window_ok `{Codecs} opts target :
  options_ok opts -> options_ok (cap_window opts target).
Proof.
  intros [Hl Hw Hs Ht]. unfold cap_window, HARD_MAX_WINSIZE in *.
  destruct (Z.ltb_spec (lenZ target) (window_size opts)); [|done].
  pose proof (lenZ_nonneg target). constructor; simpl; try done. unfold HARD_MAX_WINSIZE. lia.
Qed.

(** ** One window *)

Section Encoder.
Context {B : Build} `{Adler32Laws} `{CodecLaws} (c : cpu).
Context (src : bytes) (options : CompressOptions).
Context (Hsw : wf_bytes src) (Hsl : lenZ src < 2 ^ 62) (Hoo : options_ok options).

(** Instructions of a window, at most: one when it is stored, one for each
    byte when it is searched. *)
Definition inst_bound (t : bytes) : Z := if level options =? 0 then 1 else lenZ t.

(** [w] is a window for [t]: it carries operations of the length of [t], with
    the meaning [m]. *)
Definition window_if (m : option bytes) (w t : bytes) : Prop :=
  exists sw ops, carries (header_of options) sw (checksum options) ops t w /\
    source_window_ok sw src /\ ops_len ops = lenZ t /\ lenZ t <= HARD_MAX_WINSIZE /\
    lenZ ops <= inst_bound t /\ exec_ops (selected sw src) [] ops = m.

(** The windows of pieces, with their meanings. *)
Definition carried : list bytes -> list bytes -> list (option bytes) -> Prop :=
  Forall3 (fun w t m => window_if m w t).

Lemma windows_decode ws ts :
  carried ws ts (map Some ts) ->
  Forall2 (decodes_to (contents:=fun s : bytes => s) (header_of options) true src) ws ts.
Proof.
  intros Hws. remember (map Some ts) as ms eqn:Hms.
  induction Hws as [|w t m ws ts ms (sw & ops & Hc & Hok & Hl & Hm & _ & Hex) _ IH]; [constructor|].
  injection Hms as -> ->. constructor; [|auto]. eapply carries_decodes; [done|done|lia|done].
Qed.

(** The windows written are those of the pieces [ts], with the meanings [ms]. *)
Record enc_inv (d : DeltaEncoder.t) (ts : list bytes) (ms : list (option bytes)) : Prop := {
  ei_opts : DeltaEncoder.opts d = options;
  ei_source : DeltaEncoder.source d = src;
  ei_engine : level options <> 0 -> exists e, DeltaEncoder.engine d = Some e /\ engine_wf (lenZ src) e;
  ei_sizes : lenZ ts <= lenZ (concat ts);
  ei_count : DeltaEncoder.windows_written d = lenZ ts;
  ei_windows : exists ws, wrote (DeltaEncoder.stream d) (header_of options) ws /\ carried ws ts ms
}.

Lemma compress_section_total be d :
  (forall d, exists c, be_compress be d = Ok c) -> exists c, compress_section be d = Ok c.
Proof.
  intros Ht. unfold compress_section. destruct (be_should_compress be d); [|eauto].
  destruct (Ht d) as [x ->]. simpl. case_match; eauto.
Qed.

Lemma compress_sections_total be x y z :
  (forall d, exists c, be_compress be d = Ok c) ->
  exists p q r del, compress_sections be x y z = Ok (p, q, r, del).
Proof.
  intros Ht. unfold compress_sections.
  destruct (compress_section_total be x Ht) as [p ->], (compress_section_total be y Ht) as [q ->],
    (compress_section_total be z Ht) as [r ->]. cbn [bind]. eauto 10.
Qed.

(** Finished sections, compressed or not, make a window. *)
Lemma finish_window {E} (f : io_kind -> E) we ops t :
  encoded we ops -> source_window_ok (WindowEncoder.source_window we) src ->
  WindowEncoder.emit_checksum we = checksum options ->
  ops_len ops = lenZ t -> lenZ t <= HARD_MAX_WINSIZE -> lenZ ops <= inst_bound t ->
  exists ws w, WindowEncoder.finish_sections (E:=E) we (Some t) = Ok ws /\
    match backend (secondary options) with
    | Some be =>
        let* (cd, ci, ca, del) := map_err f
          (compress_sections be (WindowSections.data_section ws) (WindowSections.inst_section ws)
             (WindowSections.addr_section ws)) in
        WindowSections.assemble (WindowSections.mk (WindowSections.source_window ws)
          (WindowSections.target_len ws) (WindowSections.checksum ws) cd ci ca) del
    | None => WindowSections.assemble ws 0
    end = Ok w /\ window_if (exec_ops (selected (WindowEncoder.source_window we) src) [] ops) w t.
Proof.
  intros He Hok Hck Heq Hl Hk. pose proof Hl as Hl'. rewrite <- Heq in Hl'.
  destruct (encoded_window_carries (E:=E) (header_of options) src we ops t He Hok Hl')
    as (ws & Hfin & Hasm). rewrite Hck in Hasm.
  destruct (backend (secondary options)) as [be|] eqn:Hbe.
  - destruct (secondary_decodable (secondary options) be (oo_secondary _ Hoo) Hbe) as [_ Hdec].
    destruct (compress_sections_total be (WindowSections.data_section ws)
      (WindowSections.inst_section ws) (WindowSections.addr_section ws)
      (oo_total _ Hoo be Hbe)) as (cd & ci & ca & del & Hcs).
    pose proof (decompress_compress be _ _ _ _ _ _ _ Hdec Hcs) as Hinv.
    pose proof (compress_sections_inv _ _ _ _ _ _ _ _ Hcs) as (Hdel & [_ Hd] & [_ Hi] & [_ Ha]).
    assert (forall x y, compress_section be y = Ok x -> lenZ x <= lenZ y) as Hle.
    { intros x y Hxy. apply compress_section_ok in Hxy as [[? _]| ->]; lia. }
    apply Hle in Hd, Hi, Ha.
    destruct (Hasm cd ci ca del) as (w & Hw & Hwc); [lia|lia| |].
    { unfold header_of. rewrite Hbe. exact Hinv. }
    exists ws, w. split; [done|]. rewrite Hcs. cbn [map_err bind]. split; [done|].
    eexists _, ops. by split_and!.
  - destruct (Hasm (WindowSections.data_section ws) (WindowSections.inst_section ws)
      (WindowSections.addr_section ws) 0) as (w & Hw & Hwc); [lia|lia|done|].
    exists ws, w. split; [done|]. split; [rewrite <- Hw; by destruct ws|]. eexists _, ops. by split_and!.
Qed.

Lemma store_only_valid t : 1 <= lenZ t < 2 ^ 32 -> valid_insts src t 0 (store_only t).
Proof.
  intros Hl. destruct t as [|b t]; [change (lenZ (@nil Z)) with 0 in Hl; lia|].
  unfold store_only. cbn [valid_insts inst_len].
  rewrite wrap_small by (unfold in_range; lia). split; [|lia]. split_and!; cbn [inst_len]; (done || lia).
Qed.

(** Instructions make at most an operation for each byte. *)
Lemma fit_count t insts :
  wf_bytes t -> insts_fit (lenZ src) 0 insts (lenZ t) -> lenZ (ops_of t 0 insts) <= lenZ t.
Proof.
  intros Hw Hf. destruct (fits_ops (lenZ src) t insts Hw 0 ltac:(lia) Hf) as [Hok Hlen].
  apply ops_fit_count in Hok. lia.
Qed.

Lemma store_count t : lenZ (ops_of t 0 (store_only t)) <= 1.
Proof. by destruct t. Qed.

(** The operations of stored bytes are run to them. *)
Lemma store_means t : 1 <= lenZ t < 2 ^ 32 -> exec_ops src [] (ops_of t 0 (store_only t)) = Some t.
Proof. intros Hl. by apply (exec_valid_insts src t 0), store_only_valid. Qed.

(** The instructions of a window can be written, they have the meaning the
    specification gives, and the search moves on. *)
Lemma window_instructions_ok d ts ms t :
  enc_inv d ts ms -> wf_bytes t -> 1 <= lenZ t <= HARD_MAX_WINSIZE ->
  exists d' insts, DeltaEncoder.window_instructions c d t = Ok (d', insts) /\
    insts_fit (lenZ src) 0 insts (lenZ t) /\
    lenZ (ops_of t 0 insts) <= inst_bound t /\ enc_inv d' ts ms /\
    (forall rest, meanings c d (t :: rest) = exec_ops src [] (ops_of t 0 insts) :: meanings c d' rest) /\
    (exists e, d' = DeltaEncoder.set_engine d e).
Proof.
  intros Hinv Ht Hl. pose proof Hinv as [Ho Hs He Hsz Hcnt Hw].
  unfold DeltaEncoder.window_instructions, meanings, inst_bound, HARD_MAX_WINSIZE in *. rewrite Ho in *.
  destruct (Z.eqb_spec (level options) 0) as [Hz|Hne].
  - exists d, (store_only t). split; [done|].
    split; [by apply valid_insts_fit, store_only_valid; lia|].
    split; [apply store_count|]. split; [done|]. rewrite Ho, Hz, store_means by lia. split; [done|].
    exists (DeltaEncoder.engine d). by destruct d.
  - destruct (He Hne) as (e & Hde & Hew). rewrite Hde, Hs in *.
    destruct (search_valid (E:=EncodeError * bytes) e src t) as (e' & raw & Hse & He' & Hv & _);
      [done|done|done|lia|lia|].
    assert (DeltaEncoder.find_matches d t
      = let* (e', insts) := search e src t in Ok (DeltaEncoder.set_engine d (Some e'), insts)) as ->.
    { unfold DeltaEncoder.find_matches, search. rewrite Hde, Hs. by destruct src. }
    rewrite Hse. cbn [bind].
    destruct (optimize_ok (E:=EncodeError * bytes) c src t raw) as (insts & Hopt & _ & Hfit & _);
      [done|lia|lia|done|]. rewrite Hopt. cbn [bind].
    eexists _, insts. split; [done|]. split; [done|].
    split; [by apply fit_count|]. split; [|split; [|eauto]].
    + constructor; try done. eauto.
    + intros rest. cbn [window_meanings DeltaEncoder.set_engine DeltaEncoder.opts DeltaEncoder.engine DeltaEncoder.source].
      by rewrite Hse, Hopt, Ho, Hs, (proj2 (Z.eqb_neq _ _)).
Qed.

Lemma encode_window_ok d ts ms t :
  enc_inv d ts ms -> wf_bytes t -> 1 <= lenZ t <= HARD_MAX_WINSIZE -> lenZ (concat ts) < 2 ^ 63 ->
  exists d' m, DeltaEncoder.encode_window c d t = Ok d' /\ enc_inv d' (ts ++ [t]) (ms ++ [m]) /\
    DeltaEncoder.buffer d' = DeltaEncoder.buffer d /\
    DeltaEncoder.bytes_in d' = DeltaEncoder.bytes_in d /\
    forall rest, meanings c d (t :: rest) = m :: meanings c d' rest.
Proof.
  intros Hinv Ht Hl Hdn. unfold DeltaEncoder.encode_window, HARD_MAX_WINSIZE in *.
  rewrite (ei_source _ _ _ Hinv).
  destruct (window_instructions_ok d ts ms t)
    as (d1 & insts & -> & Hfit & Hcount & Hinv1 & Hm1 & e & Hd1); [done|done|done|]. cbn [bind].
  set (we0 := if 0 <? DeltaEncoder.last_data_size d1 then _ else _).
  assert (we0 = WindowEncoder.new (whole_source src) (checksum options)) as ->.
  { unfold we0. rewrite (ei_opts _ _ _ Hinv1). by case_match. }
  destruct (emit_instructions_ok (E:=EncodeError * bytes) (checksum options) src t insts)
    as (we & -> & He & Hlen & Hsel & Hck & Hok & _); [done|lia|lia|done|]. cbn [bind].
  destruct (finish_window
    (fun k => (EncodeIo k, StreamEncoder.writer (DeltaEncoder.stream d1))) we (ops_of t 0 insts) t) as (ws & w & -> & Hw & Hwd);
    [done|done|done|done|unfold HARD_MAX_WINSIZE; lia|done|]. cbn [bind].
  rewrite Hsel, selected_whole in Hwd.
  pose proof Hinv1 as [Ho1 Hs1 He1 Hsz1 Hcnt1 (wl & Hwr & Hf3)].
  rewrite Ho1, Hw. cbn [bind].
  destruct (write_raw_window_ok (E:=EncodeError * bytes) (DeltaEncoder.stream d1) _ _ w Hwr)
    as (st & -> & Hst). cbn [bind]. pose proof (lenZ_nonneg ts).
  rewrite add_w_ok by (unfold in_range; lia). cbn [bind].
  eexists _, _. split; [done|]. split_and!; [|by rewrite Hd1|by rewrite Hd1|].
  - constructor; simpl; try done.
    + rewrite concat_app, !lenZ_app. simpl. rewrite app_nil_r. change (lenZ [t]) with 1. lia.
    + rewrite lenZ_app, Hcnt1. done.
    + exists (wl ++ [w]). split; [done|]. apply Forall3_app; [done|]. repeat constructor. exact Hwd.
  - intros rest. rewrite Hm1. unfold meanings. simpl. by rewrite Ho1.
Qed.

(** ** Feeding the target *)

(** All the pieces, those written and those still to be cut, and what they
    mean. *)
Context (all : list bytes) (means : list (option bytes)).

(** [fed] was fed and [more] is to come: what is not in a window is buffered. *)
Record fed_inv (d : DeltaEncoder.t) (fed more : bytes) : Prop := {
  fi_windows : exists ts ms rest, enc_inv d ts ms /\ concat ts ++ DeltaEncoder.buffer d = fed /\
    chunked (window_size options) (DeltaEncoder.buffer d ++ more) rest /\
    all = ts ++ rest /\ means = ms ++ meanings c d rest;
  fi_short : lenZ (DeltaEncoder.buffer d) < window_size options;
  fi_wf : wf_bytes (DeltaEncoder.buffer d);
  fi_bytes : DeltaEncoder.bytes_in d = lenZ fed
}.

(** A window encoded at the head of the rest moves to the end of what is written. *)
Lemma moves_on d d' ts ms t m rest :
  (forall l, meanings c d (t :: l) = m :: meanings c d' l) ->
  all = ts ++ t :: rest -> means = ms ++ meanings c d (t :: rest) ->
  all = (ts ++ [t]) ++ rest /\ means = (ms ++ [m]) ++ meanings c d' rest.
Proof. intros Hm -> ->. rewrite Hm, <- !app_assoc. done. Qed.

Lemma concat_snoc (ts : list bytes) t : concat (ts ++ [t]) = concat ts ++ t.
Proof. rewrite concat_app. simpl. by rewrite app_nil_r. Qed.

(** The loop over full windows, with an empty buffer. *)
Lemma write_windows_ok data more fuel d ts ms off :
  wf_bytes data -> lenZ data < 2 ^ 62 -> lenZ (concat ts) + (lenZ data - off) < 2 ^ 62 ->
  enc_inv d ts ms -> DeltaEncoder.buffer d = [] -> 0 <= off <= lenZ data -> lenZ data - off < Z.of_nat fuel ->
  DeltaEncoder.bytes_in d = lenZ (concat ts) + (lenZ data - off) ->
  (exists rest, chunked (window_size options) (drop (Z.to_nat off) data ++ more) rest /\
     all = ts ++ rest /\ means = ms ++ meanings c d rest) ->
  exists d', DeltaEncoder.write_windows c fuel d data off = Ok d' /\
    fed_inv d' (concat ts ++ drop (Z.to_nat off) data) more.
Proof.
  intros Hd Hdl62. pose proof (oo_window _ Hoo) as Hn. unfold HARD_MAX_WINSIZE in Hn.
  revert d ts ms off. induction fuel as [|fuel IH];
    intros d ts ms off Hl Hinv Hbuf Hoff Hf Hby (rest & Hch & Hall & Hms); [lia|].
  cbn [DeltaEncoder.write_windows]. rewrite (ei_opts _ _ _ Hinv).
  pose proof (lenZ_nonneg (concat ts)). rewrite add_w_ok by (unfold in_range; lia). cbn [bind].
  destruct (Z.leb_spec (off + window_size options) (lenZ data)).
  - rewrite slice_ok by lia. cbn [bind].
    replace (off + window_size options - off) with (window_size options) by lia.
    set (w := sub data off (window_size options)).
    assert (lenZ w = window_size options) as Hw by (apply sub_length; lia).
    assert (drop (Z.to_nat off) data = w ++ drop (Z.to_nat (off + window_size options)) data) as Hcut.
    { unfold w, sub. rewrite Z2Nat.inj_add, <- drop_drop by lia. by rewrite take_drop. }
    rewrite Hcut, <- app_assoc in Hch.
    apply chunked_full in Hch as (rest' & -> & Hch); [|lia|done].
    destruct (encode_window_ok d ts ms w) as (d1 & m & -> & Hinv1 & Hb1 & Hby1 & Hm1);
      [done|by apply sub_wf|unfold HARD_MAX_WINSIZE; lia|lia|]. cbn [bind].
    destruct (moves_on d d1 ts ms w m rest' Hm1 Hall Hms) as [Hall' Hms'].
    destruct (IH d1 (ts ++ [w]) (ms ++ [m]) (off + window_size options)) as (d2 & -> & Hd2);
      rewrite ?concat_snoc, ?lenZ_app, ?Hw in *; try done; try lia; [by rewrite Hb1|eauto|].
    exists d2. split; [done|]. by rewrite Hcut, app_assoc.
  - assert (lenZ (drop (Z.to_nat off) data) = lenZ data - off) as Hdl by (apply lenZ_drop; lia).
    assert (wf_bytes (drop (Z.to_nat off) data)) by (by apply Forall_drop).
    destruct (Z.ltb_spec off (lenZ data)).
    + rewrite slice_from_ok by lia. cbn [bind]. rewrite Hbuf. simpl app. eexists. split; [done|].
      constructor; simpl; try done; [|lia|rewrite lenZ_app; lia].
      exists ts, ms, rest. split_and!; try done. by destruct Hinv.
    + assert (drop (Z.to_nat off) data = []) as Hnil by (apply drop_ge; unfold lenZ in *; lia).
      eexists. split; [done|]. rewrite Hnil in *. rewrite app_nil_r.
      constructor; rewrite ?Hbuf; try done; [|change (lenZ (@nil Z)) with 0; lia|lia].
      exists ts, ms, rest. rewrite app_nil_r. by split_and!.
Qed.

Lemma set_bytes_in_inv d n ts ms :
  enc_inv d ts ms -> enc_inv (DeltaEncoder.set_bytes_in d n) ts ms.
Proof. intros []. by constructor. Qed.

Lemma set_buffer_inv d buf ts ms :
  enc_inv d ts ms -> enc_inv (DeltaEncoder.set_buffer d buf) ts ms.
Proof. intros []. by constructor. Qed.

(** Data that does not complete the buffered window joins it. *)
Lemma write_windows_end data d :
  DeltaEncoder.opts d = options -> lenZ data < 2 ^ 62 ->
  DeltaEncoder.write_windows c (S (length data)) d data (lenZ data) = Ok d.
Proof.
  intros Ho Hl. cbn [DeltaEncoder.write_windows]. pose proof (oo_window _ Hoo) as Hn.
  unfold HARD_MAX_WINSIZE in Hn. pose proof (lenZ_nonneg data). rewrite Ho.
  rewrite add_w_ok by (unfold in_range; lia). cbn [bind].
  rewrite (proj2 (Z.leb_gt _ _)), (proj2 (Z.ltb_ge _ _)) by lia. done.
Qed.

(** Data that completes the buffered window: it is encoded, and the windows
    after it come straight from the data. *)
Lemma complete_window d ts ms buf data more rest tk :
  enc_inv d ts ms -> wf_bytes buf -> wf_bytes data ->
  lenZ (concat ts) + lenZ buf + lenZ data < 2 ^ 62 ->
  DeltaEncoder.bytes_in d = lenZ (concat ts) + lenZ buf + lenZ data ->
  0 <= tk <= lenZ data -> lenZ buf + tk = window_size options ->
  chunked (window_size options) (buf ++ data ++ more) rest ->
  all = ts ++ rest -> means = ms ++ meanings c d rest ->
  let w := buf ++ take (Z.to_nat tk) data in
  exists d2 d', DeltaEncoder.encode_window c (DeltaEncoder.set_buffer d []) w = Ok d2 /\
    DeltaEncoder.write_windows c (S (length data)) (DeltaEncoder.set_buffer d2 []) data tk = Ok d' /\
    fed_inv d' ((concat ts ++ buf) ++ data) more.
Proof.
  intros Hinv Hbw Hd Hl Hby Htk Hfull Hch Hall Hms w.
  pose proof (oo_window _ Hoo) as Hn. unfold HARD_MAX_WINSIZE in Hn.
  pose proof (lenZ_nonneg (concat ts)). pose proof (lenZ_nonneg buf).
  assert (lenZ w = window_size options) as Hwl.
  { unfold w. rewrite lenZ_app. unfold lenZ in *. rewrite length_take. lia. }
  assert (buf ++ data ++ more = w ++ drop (Z.to_nat tk) data ++ more) as Hcut
    by (unfold w; rewrite <- app_assoc, (app_assoc (take _ _)), take_drop; done).
  rewrite Hcut in Hch. apply chunked_full in Hch as (rest' & -> & Hch); [|lia|done].
  destruct (encode_window_ok (DeltaEncoder.set_buffer d []) ts ms w)
    as (d2 & m & Henc & Hinv2 & Hb2 & Hby2 & Hm2); try done.
  - by apply set_buffer_inv.
  - apply wf_bytes_app. split; [done|]. by apply Forall_take.
  - unfold HARD_MAX_WINSIZE. lia.
  - lia.
  - destruct (moves_on d d2 ts ms w m rest' Hm2 Hall Hms) as [Hall' Hms'].
    destruct (write_windows_ok data more (S (length data)) (DeltaEncoder.set_buffer d2 []) (ts ++ [w]) (ms ++ [m]) tk)
      as (d3 & Hww & Hd3); rewrite ?concat_snoc, ?lenZ_app in *; try done; try lia.
    + by apply set_buffer_inv.
    + unfold lenZ. lia.
    + cbn [DeltaEncoder.bytes_in DeltaEncoder.set_buffer]. rewrite Hby2. simpl. lia.
    + eauto.
    + exists d2, d3. split_and!; [done|done|].
      replace ((concat ts ++ buf) ++ data) with ((concat ts ++ w) ++ drop (Z.to_nat tk) data); [done|].
      unfold w. rewrite <- !app_assoc, take_drop. done.
Qed.

Lemma write_target_ok d fed data more :
  fed_inv d fed (data ++ more) -> wf_bytes data -> lenZ fed + lenZ data < 2 ^ 62 ->
  exists d', DeltaEncoder.write_target c d data = Ok d' /\ fed_inv d' (fed ++ data) more.
Proof.
  intros [(ts & ms & rest & Hinv & Hfed & Hch & Hall & Hms) Hshort Hbw Hby] Hd Hl. subst fed.
  pose proof (oo_window _ Hoo) as Hn. unfold HARD_MAX_WINSIZE in Hn.
  pose proof (lenZ_nonneg (concat ts)). pose proof (lenZ_nonneg data). rewrite lenZ_app in Hl, Hby.
  pose proof (lenZ_nonneg (DeltaEncoder.buffer d)). unfold DeltaEncoder.write_target.
  rewrite add_w_ok by (unfold in_range; lia). cbn [bind].
  set (d1 := DeltaEncoder.set_bytes_in d _).
  assert (enc_inv d1 ts ms) as Hinv1 by (by apply set_bytes_in_inv).
  change (DeltaEncoder.buffer d1) with (DeltaEncoder.buffer d).
  destruct (DeltaEncoder.buffer d) as [|b0 bl] eqn:Hb.
  { cbn [bind]. rewrite app_nil_r. change (lenZ (@nil Z)) with 0 in *.
    apply (write_windows_ok data more (S (length data)) d1 ts ms 0); try done; try lia;
      [unfold lenZ; lia|simpl; lia|by exists rest]. }
  rewrite <- Hb in *. set (buf := DeltaEncoder.buffer d) in *.
  change (DeltaEncoder.opts d1) with (DeltaEncoder.opts d). rewrite (ei_opts _ _ _ Hinv).
  rewrite sub_w_ok by (unfold in_range; lia). cbn [bind].
  set (tk := Z.min _ _). rewrite slice_ok by lia. cbn [bind]. rewrite Z.sub_0_r.
  change (sub data 0 tk) with (take (Z.to_nat tk) data).
  assert (lenZ (take (Z.to_nat tk) data) = tk) as Htk by (unfold lenZ in *; rewrite length_take; lia).
  cbn [DeltaEncoder.buffer DeltaEncoder.set_buffer DeltaEncoder.opts]. rewrite lenZ_app, Htk.
  change (DeltaEncoder.opts d1) with (DeltaEncoder.opts d). rewrite (ei_opts _ _ _ Hinv).
  destruct (Z.eqb_spec (lenZ buf + tk) (window_size options)) as [Hfull|Hpart].
  - set (d2 := DeltaEncoder.set_buffer d1 (buf ++ take (Z.to_nat tk) data)).
    destruct (complete_window d2 ts ms buf data more rest tk)
      as (d3 & d4 & -> & Hww & Hd4); try done; [by apply set_buffer_inv|simpl; lia|lia|].
    cbn [bind]. eauto.
  - cbn [bind]. assert (tk = lenZ data) as Htd by lia.
    assert (lenZ buf + lenZ data < window_size options) as Hroom by lia.
    rewrite Htd, lenZ_to_nat, firstn_all.
    rewrite write_windows_end; [|simpl; apply Hinv|lia]. eexists. split; [done|].
    constructor; cbn [DeltaEncoder.buffer DeltaEncoder.set_buffer];
      [|rewrite lenZ_app; lia|by apply wf_bytes_app|simpl; rewrite !lenZ_app; lia].
    exists ts, ms, rest. split_and!; [by apply set_buffer_inv|by rewrite <- app_assoc|by rewrite <- app_assoc|done|done].
Qed.

(** Any number of pieces. *)
Lemma feed_ok pieces : Forall wf_bytes pieces -> forall d fed,
  fed_inv d fed (concat pieces) -> lenZ fed + lenZ (concat pieces) < 2 ^ 62 ->
  exists d', for_in pieces (fun p d => DeltaEncoder.write_target c d p) d = Ok d' /\
    fed_inv d' (fed ++ concat pieces) [].
Proof.
  induction 1 as [|p pieces Hp _ IH]; intros d fed Hd Hl; cbn [for_in concat].
  - exists d. by rewrite app_nil_r.
  - cbn [concat] in *. rewrite lenZ_app in Hl. pose proof (lenZ_nonneg (concat pieces)).
    destruct (write_target_ok d fed p (concat pieces)) as (d1 & -> & Hd1); [done|done|lia|]. cbn [bind].
    destruct (IH d1 (fed ++ p)) as (d2 & -> & Hd2); [done|rewrite lenZ_app; lia|].
    exists d2. by rewrite app_assoc.
Qed.

(** ** Start and finish *)

Lemma header_of_wf : file_header_wf (header_of options).
Proof.
  unfold header_of. destruct (backend (secondary options)) as [be|] eqn:Hbe;
    [|apply default_header_wf].
  apply secondary_header_wf. by apply (secondary_decodable (secondary options) be (oo_secondary _ Hoo) Hbe).
Qed.

Lemma new_stream_wrote :
  wrote (match backend (secondary options) with
    | Some be => StreamEncoder.set_secondary_id (StreamEncoder.new [] (checksum options)) (be_id be)
    | None => StreamEncoder.new [] (checksum options) end) (header_of options) [].
Proof.
  pose proof header_of_wf as Hw. unfold header_of in *.
  destruct (backend (secondary options)) as [be|]; [by split_and!|apply wrote_new].
Qed.

Lemma new_ok :
  exists d, DeltaEncoder.new c [] src options = Ok d /\ enc_inv d [] [] /\
    DeltaEncoder.buffer d = [] /\ DeltaEncoder.bytes_in d = 0.
Proof.
  unfold DeltaEncoder.new. pose proof (oo_window _ Hoo) as Hn. unfold HARD_MAX_WINSIZE in Hn.
  pose proof (oo_level _ Hoo). pose proof (lenZ_nonneg src).
  assert (exists o, (if (0 <? level options) && negb (lenZ src =? 0) then
      let* eng := MatchEngine.new c (config_for_level (level options)) (lenZ src)
        (Z.max (window_size options) 64) in
      let* eng := MatchEngine.index_source eng src in Ok (Some eng)
    else if 0 <? level options then
      let* eng := MatchEngine.new c (config_for_level (level options)) 0
        (Z.max (window_size options) 64) in Ok (Some eng)
    else Ok None) = Ok (E:=EncodeError * bytes) o /\
    (level options <> 0 -> exists e, o = Some e /\ engine_wf (lenZ src) e)) as (o & -> & Ho).
  { destruct (Z.ltb_spec 0 (level options)); cbn [andb]; [|by exists None; split; [|lia]].
    destruct (Z.eqb_spec (lenZ src) 0) as [Hz|Hz]; cbn [negb].
    - destruct (engine_new_ok (E:=EncodeError * bytes) c (config_for_level (level options)) 0
        (Z.max (window_size options) 64) (lenZ src)) as (e & -> & He & _);
        [apply config_for_level_wf|lia|lia|]. cbn [bind]. eauto.
    - destruct (engine_new_ok (E:=EncodeError * bytes) c (config_for_level (level options)) (lenZ src)
        (Z.max (window_size options) 64) (lenZ src)) as (e & -> & He & _);
        [apply config_for_level_wf|lia|lia|]. cbn [bind].
      destruct (index_source_ok (E:=EncodeError * bytes) (contents:=fun s : bytes => s) e src)
        as (e1 & -> & He1 & _); [done|done|lia|]. cbn [bind]. eauto. }
  cbn [bind]. eexists. split; [done|]. split; [|done]. constructor; simpl; try done.
  exists []. split; [apply new_stream_wrote|constructor].
Qed.

(** An empty target still has a window. *)
Definition or_empty {A} (l : list A) (x : A) : list A := match l with [] => [x] | _ => l end.

Lemma or_empty_pieces (ts : list bytes) :
  concat (or_empty ts []) = concat ts /\ lenZ (or_empty ts []) = Z.max 1 (lenZ ts).
Proof.
  destruct ts as [|t ts]; [done|]. split; [done|]. cbn [or_empty]. rewrite lenZ_cons.
  pose proof (lenZ_nonneg ts). lia.
Qed.

(** The bytes of a finished stream of the pieces [ts], with the meanings [ms]. *)
Definition delta_if (ts : list bytes) (ms : list (option bytes)) (delta : bytes) (n : Z) : Prop :=
  exists ws, delta = file_header_bytes (header_of options) ++ concat ws /\
    carried ws (or_empty ts []) (or_empty ms (Some [])) /\ length ms = length ts /\
    n = lenZ ts /\ lenZ ts <= lenZ (concat ts).

(** The last window, if the buffer holds one. *)
Lemma finish_buffer d target :
  fed_inv d target [] -> lenZ target < 2 ^ 62 ->
  exists d1, match DeltaEncoder.buffer d with
      | [] => Ok d
      | remaining => DeltaEncoder.encode_window c (DeltaEncoder.set_buffer d []) remaining
      end = Ok d1 /\ enc_inv d1 all means.
Proof.
  intros [(ts & ms & rest & Hinv & Hfed & Hch & Hall & Hms) Hshort Hbw _] Hl. rewrite app_nil_r in Hch.
  pose proof (oo_window _ Hoo) as Hn.
  assert (forall d', meanings c d' [] = []) as Hend
    by (intros d'; unfold meanings; destruct (_ =? 0); [done|by destruct (DeltaEncoder.engine d')]).
  apply chunked_short in Hch as [[Hb ->]|[Hb ->]]; [| |done].
  - rewrite Hb. exists d. split; [done|]. subst all means. by rewrite Hend, !app_nil_r.
  - destruct (encode_window_ok (DeltaEncoder.set_buffer d []) ts ms (DeltaEncoder.buffer d))
      as (d1 & m & Hd1 & Hinv1 & _ & _ & Hm1); [by apply set_buffer_inv|done|lia| |].
    { rewrite <- Hfed, lenZ_app in Hl. lia. }
    destruct (moves_on d d1 ts ms (DeltaEncoder.buffer d) m [] Hm1 Hall Hms) as [-> ->].
    rewrite Hend, !app_nil_r. exists d1. split; [|done].
    destruct (DeltaEncoder.buffer d); [|done]. change (lenZ (@nil Z)) with 0 in Hb. lia.
Qed.

Lemma finish_ok d target :
  fed_inv d target [] -> lenZ target < 2 ^ 62 ->
  exists delta n, DeltaEncoder.finish c d = Ok (delta, n) /\ delta_if all means delta n.
Proof.
  intros Hfed Hl. unfold DeltaEncoder.finish. destruct (finish_buffer d target Hfed Hl) as (d1 & -> & Hinv1).
  cbn [bind]. destruct Hinv1 as [Ho1 _ _ Hsz Hcnt (ws & Hw & Hf3)]. rewrite Ho1, Hcnt. clear Hfed.
  destruct all as [|t ts].
  - inversion Hf3; subst ws means. change (lenZ [] =? 0) with true. cbv iota.
    destruct (finish_carries (E:=EncodeError * bytes) (header_of options) src
      (WindowEncoder.new None (checksum options)) [] []) as (w & Hfin & Hd);
      [apply encoded_new|by split; [lia|]|done|].
    rewrite (write_window_raw _ _ _ _ _ w Hw Hfin).
    destruct (write_raw_window_ok (E:=EncodeError * bytes) _ _ _ w Hw) as (st & -> & Hst). cbn [bind].
    rewrite (stream_finish_ok st _ _ Hst). cbn [bind]. eexists _, _. split; [done|].
    exists [w]. split_and!; try done. repeat constructor.
    exists None, []. split_and!; try done; [by split; [lia|]|]. unfold inst_bound. by case_match.
  - rewrite (proj2 (Z.eqb_neq _ _)) by (rewrite lenZ_cons; pose proof (lenZ_nonneg ts); lia).
    cbn [bind]. rewrite (stream_finish_ok _ _ _ Hw). cbn [bind]. eexists _, _. split; [done|].
    apply Forall3_length_lm in Hf3 as Hlm. apply Forall3_length_lr in Hf3 as Hlr.
    exists ws. split_and!; try done; [by inversion Hf3; subst|congruence].
Qed.

(** ** Windows encoded on their own *)

Lemma chunk_search_ok t :
  wf_bytes t -> lenZ t <= HARD_MAX_WINSIZE ->
  exists raw, chunk_search c src options t = Ok raw /\ valid_insts src t 0 raw /\ Forall worthwhile raw.
Proof.
  intros Ht Hl. unfold chunk_search, HARD_MAX_WINSIZE in *.
  pose proof (lenZ_nonneg t). pose proof (lenZ_nonneg src).
  assert (exists e, (if negb (lenZ src =? 0) then
      let* eng := MatchEngine.new c (config_for_level (level options)) (lenZ src) (Z.max (lenZ t) 64) in
      MatchEngine.index_source eng src
    else MatchEngine.new c (config_for_level (level options)) 0 (Z.max (lenZ t) 64))
    = Ok (E:=EncodeError) e /\ engine_wf (lenZ src) e) as (e & -> & He).
  { destruct (Z.eqb_spec (lenZ src) 0) as [Hz|Hz]; cbn [negb].
    - destruct (engine_new_ok (E:=EncodeError) c (config_for_level (level options)) 0
        (Z.max (lenZ t) 64) (lenZ src)) as (e & -> & He & _); [apply config_for_level_wf|lia|lia|]. eauto.
    - destruct (engine_new_ok (E:=EncodeError) c (config_for_level (level options)) (lenZ src)
        (Z.max (lenZ t) 64) (lenZ src)) as (e & -> & He & _); [apply config_for_level_wf|lia|lia|].
      cbn [bind]. destruct (index_source_ok (E:=EncodeError) (contents:=fun s : bytes => s) e src)
        as (e1 & -> & He1 & _); [done|done|lia|]. eauto. }
  cbn [bind]. destruct (search_valid (E:=EncodeError) e src t) as (e' & raw & Hse & _ & Hv & Hw);
    [done|done|done|lia|lia|].
  exists raw. split; [|done]. unfold search in Hse. destruct src; by rewrite Hse.
Qed.

(** The merges of a window searched on its own are safe. *)
Definition chunk_safe (t : bytes) : bool :=
  (level options =? 0) ||
  match chunk_search c src options t with
  | Ok raw => safe_merges src t 0 raw
  | _ => false
  end.

Lemma parallel_chunk_ok t :
  wf_bytes t -> 1 <= lenZ t <= HARD_MAX_WINSIZE ->
  exists w m, encode_chunk c src options t = Ok w /\ window_if m w t /\ (chunk_safe t = true <-> m = Some t).
Proof.
  intros Ht Hl. unfold encode_chunk.
  assert (exists insts, (if level options =? 0 then Ok (store_only t)
    else let* raw := chunk_search c src options t in optimize c raw t) = Ok insts /\
    insts_fit (lenZ src) 0 insts (lenZ t) /\ (chunk_safe t = true <-> valid_insts src t 0 insts) /\
    lenZ (ops_of t 0 insts) <= inst_bound t) as (insts & -> & Hfit & Hv & Hcount).
  { unfold chunk_safe, HARD_MAX_WINSIZE, inst_bound in *. destruct (level options =? 0); cbn [orb].
    - pose proof (store_only_valid t ltac:(lia)) as Hv. eexists. split; [done|].
      split; [by apply valid_insts_fit|]. split; [done|apply store_count].
    - destruct (chunk_search_ok t) as (raw & Hraw & Hv & _); [done|unfold HARD_MAX_WINSIZE; lia|].
      rewrite Hraw in *. cbn [bind].
      destruct (optimize_ok (E:=EncodeError) c src t raw) as (insts & -> & _ & Hfit & Hvo); [done|lia|lia|done|].
      eexists. split; [done|]. split; [done|]. split; [by rewrite Hvo|by apply fit_count]. }
  cbn [bind].
  destruct (emit_instructions_ok (E:=EncodeError) (checksum options) src t insts)
    as (we & -> & He & Hlen & _ & Hck & Hok & Hex); [done|lia|unfold HARD_MAX_WINSIZE in *; lia|done|]. cbn [bind].
  destruct (finish_window EncodeIo we (ops_of t 0 insts) t) as (ws & w & -> & Hw & Hwd);
    [done|done|done|done|lia|done|]. cbn [bind]. eexists w, _. split_and!; [done|done|]. by rewrite Hv.
Qed.

Lemma parallel_chunks_ok ts :
  Forall (fun t => wf_bytes t /\ 1 <= lenZ t <= HARD_MAX_WINSIZE) ts ->
  exists ws, Forall2 (fun t w => encode_chunk c src options t = Ok w) ts ws /\
    (forallb chunk_safe ts = true -> carried ws ts (map Some ts)).
Proof.
  induction 1 as [|t ts (Ht & Hl) _ (ws & IH & Hws)]; [by exists []; repeat constructor|].
  destruct (parallel_chunk_ok t) as (w & m & Hw & Hwd & Hs); [done..|]. exists (w :: ws).
  split; [by constructor|]. cbn [forallb]. intros [Hst Hsts]%andb_true_iff.
  rewrite Hs in Hst. subst m. constructor; [done|by apply Hws].
Qed.

Lemma write_raw_windows_ok ws : forall st ws0,
  wrote st (header_of options) ws0 ->
  exists st', for_in ws (fun w st => StreamEncoder.write_raw_window (E:=EncodeError * bytes) st w) st = Ok st' /\
    wrote st' (header_of options) (ws0 ++ ws).
Proof.
  induction ws as [|w ws IH]; intros st ws0 Hst; cbn [for_in].
  - exists st. by rewrite app_nil_r.
  - destruct (write_raw_window_ok (E:=EncodeError * bytes) st _ _ w Hst) as (st1 & -> & Hst1). cbn [bind].
    destruct (IH st1 _ Hst1) as (st2 & -> & Hst2). exists st2. by rewrite <- app_assoc in Hst2.
Qed.

Lemma chunked_windows n l ts :
  1 <= n -> wf_bytes l -> chunked n l ts -> Forall (fun t => wf_bytes t /\ 1 <= lenZ t <= n) ts.
Proof.
  intros Hn Hl Hc. induction Hc as [|l Hs|w l ts Hw _ IH]; [constructor| |].
  - repeat constructor; (done || lia).
  - apply wf_bytes_app in Hl as [? ?]. constructor; [split; [done|lia]|auto].
Qed.
End Encoder.

(** The bytes of a stream of windows that mean [target]. *)
Definition delta_of {B : Build} `{Adler32} `{Codecs} source opts (delta target : bytes) (n : Z) : Prop :=
  exists ts, delta_if source opts ts (map Some ts) delta n /\ concat ts = target.

(** ** The streaming decoder *)

Section Decoder.
Context {B : Build} {S : Type} `{SourceProvider S} {contents : S -> bytes}
      `{!SourceLaws S contents} `{Adler32} `{Codecs}.

Lemma delta_decode_loop_ok fh verify source ws ts :
  Forall2 (decodes_to (contents:=contents) fh verify source) ws ts ->
  forall fuel d s out,
  (length ws < fuel)%nat -> ready (DeltaDecoder.inner d) fh verify (concat ws) -> contents s = source ->
  0 <= DeltaDecoder.bytes_decoded d -> 0 <= DeltaDecoder.windows_decoded d ->
  DeltaDecoder.bytes_decoded d + lenZ (concat ts) < 2 ^ 63 ->
  DeltaDecoder.windows_decoded d + lenZ ts < 2 ^ 63 ->
  exists d' s', DeltaDecoder.decode_loop fuel d s out = Ok (d', s', out ++ concat ts) /\
    contents s' = source /\
    DeltaDecoder.bytes_decoded d' = DeltaDecoder.bytes_decoded d + lenZ (concat ts) /\
    DeltaDecoder.windows_decoded d' = DeltaDecoder.windows_decoded d + lenZ ts.
Proof.
  induction 1 as [|w t ws ts [Hne Hw] Hws IH]; intros [|fuel] d s out Hf Hd Hs Hb0 Hk0 Hl Hk;
    try (simpl in Hf; lia); cbn [DeltaDecoder.decode_loop]; unfold DeltaDecoder.decode_window_to.
  - destruct d as [inner n k buf]. cbn [DeltaDecoder.inner] in *.
    destruct (decode_windows_ok (contents:=contents) fh verify source [] [] (Forall2_nil_2 _ _ _) 1 inner s [])
      as (d' & s' & Hdw & _ & Hs'); [simpl; lia|done|done|done|].
    cbn [StreamDecoder.decode_windows] in Hdw.
    destruct (StreamDecoder.decode_window inner s []) as [[[[more i1] s1] o1]| | |]; try done.
    cbn [bind] in Hdw. destruct more; [done|]. injection Hdw as -> -> ->. cbn [map_err bind negb].
    eexists _, s'. rewrite app_nil_r. split; [done|]. split; [done|]. simpl.
    change (lenZ (@nil Z)) with 0. change (lenZ (@nil bytes)) with 0. lia.
  - cbn [concat] in *. rewrite lenZ_app in *. rewrite lenZ_cons in Hk.
    pose proof (lenZ_nonneg t). pose proof (lenZ_nonneg (concat ts)). pose proof (lenZ_nonneg ts).
    destruct (Hw (DeltaDecoder.inner d) s [] (concat ws)) as (i1 & s1 & -> & Hi1 & Hs1);
      [done|done|change (lenZ (@nil Z)) with 0; lia|].
    cbn [map_err bind negb app]. rewrite !add_w_ok by (unfold in_range; lia). cbn [bind].
    destruct (IH fuel (DeltaDecoder.mk i1 (DeltaDecoder.bytes_decoded d + lenZ t)
      (DeltaDecoder.windows_decoded d + 1) t) s1 (out ++ t)) as (d2 & s2 & -> & Hs2 & Hb2 & Hk2);
      cbn [DeltaDecoder.inner DeltaDecoder.bytes_decoded DeltaDecoder.windows_decoded] in *;
      try done; try lia; [simpl in Hf; lia|].
    exists d2, s2. rewrite <- app_assoc. rewrite lenZ_cons. split_and!; (done || lia).
Qed.

(** What a decoder leaves on the writer, whether it succeeds or fails. *)
Definition left_on {A} (r : result (DecodeError * bytes) (A * bytes)) (P : bytes -> Prop) : Prop :=
  match r with
  | Ok (_, written) => P written
  | Err (_, written) => P written
  | Panic | Diverge => True
  end.

Lemma decode_loop_extends fuel : forall d s out,
  left_on (DeltaDecoder.decode_loop fuel d s out) (fun written => out `prefix_of` written).
Proof.
  induction fuel as [|fuel IH]; intros d s out; [done|]. cbn [DeltaDecoder.decode_loop].
  unfold DeltaDecoder.decode_window_to.
  destruct (StreamDecoder.decode_window (DeltaDecoder.inner d) s []) as [[[[more i1] s1] o1]| | |];
    cbn [map_err bind left_on]; [|done|done|done]. destruct more; cbn [negb bind left_on]; [|done].
  unfold add_w at 1, narrow. destruct (in_rangeb _ _); [|destruct debug_build; [done|]]; cbn [bind];
    unfold add_w, narrow; (destruct (in_rangeb _ _); [|destruct debug_build; [done|]]); cbn [bind];
    match goal with |- left_on (DeltaDecoder.decode_loop fuel ?d1 ?s1 ?o1) _ =>
      pose proof (IH d1 s1 o1) as Hr;
      destruct (DeltaDecoder.decode_loop fuel d1 s1 o1) as [[p' w']|[e w']| |] end; try done;
    simpl in *; (etransitivity; [|exact Hr]); by apply prefix_app_r.
Qed.

(** Good windows in front of anything are decoded and written. *)
Lemma decode_loop_prefix fh verify source ws ts rest :
  Forall2 (decodes_to (contents:=contents) fh verify source) ws ts ->
  forall fuel d s out,
  ready (DeltaDecoder.inner d) fh verify (concat ws ++ rest) -> contents s = source ->
  0 <= DeltaDecoder.bytes_decoded d -> 0 <= DeltaDecoder.windows_decoded d ->
  DeltaDecoder.bytes_decoded d + lenZ (concat ts) < 2 ^ 63 ->
  DeltaDecoder.windows_decoded d + lenZ ts < 2 ^ 63 ->
  left_on (DeltaDecoder.decode_loop fuel d s out) (fun written => (out ++ concat ts) `prefix_of` written).
Proof.
  induction 1 as [|w t ws ts [Hne Hw] Hws IH]; intros fuel d s out Hd Hs Hb0 Hk0 Hl Hk.
  { rewrite app_nil_r. apply decode_loop_extends. }
  destruct fuel as [|fuel]; [done|]. cbn [DeltaDecoder.decode_loop]. unfold DeltaDecoder.decode_window_to.
  cbn [concat] in *. rewrite lenZ_app in *. rewrite lenZ_cons in Hk. rewrite <- app_assoc in Hd.
  pose proof (lenZ_nonneg t). pose proof (lenZ_nonneg (concat ts)). pose proof (lenZ_nonneg ts).
  destruct (Hw (DeltaDecoder.inner d) s [] (concat ws ++ rest)) as (i1 & s1 & -> & Hi1 & Hs1);
    [done|done|change (lenZ (@nil Z)) with 0; lia|].
  cbn [map_err bind negb app]. rewrite !add_w_ok by (unfold in_range; lia). cbn [bind].
  rewrite app_assoc. apply IH; cbn [DeltaDecoder.inner DeltaDecoder.bytes_decoded DeltaDecoder.windows_decoded];
    (done || lia).
Qed.

Lemma decode_to_prefix fh verify source ws ts rest s :
  file_header_wf fh -> Forall2 (decodes_to (contents:=contents) fh verify source) ws ts ->
  contents s = source -> lenZ (concat ts) < 2 ^ 63 -> lenZ ts < 2 ^ 63 ->
  left_on (DeltaDecoder.decode_to
    (DeltaDecoder.with_checksum (file_header_bytes fh ++ concat ws ++ rest) verify) s [])
    (fun written => concat ts `prefix_of` written).
Proof.
  intros Hfh Hws Hs Hl Hk. unfold DeltaDecoder.decode_to, DeltaDecoder.with_checksum.
  cbn [DeltaDecoder.inner StreamDecoder.new StreamDecoder.reader].
  pose proof (decode_loop_prefix fh verify source ws ts rest Hws
    (Datatypes.S (length (file_header_bytes fh ++ concat ws ++ rest)))
    (DeltaDecoder.mk (after_header fh verify (concat ws ++ rest)) 0 0 []) s []
    (ready_after_header _ _ _) Hs ltac:(done) ltac:(done) Hl Hk) as Hp.
  cbn [DeltaDecoder.decode_loop] in *. unfold DeltaDecoder.decode_window_to in *.
  cbn [DeltaDecoder.inner DeltaDecoder.bytes_decoded DeltaDecoder.windows_decoded] in *.
  rewrite decode_window_fresh by done.
  match goal with |- left_on (bind ?m _) _ => destruct m as [[[d1 s1] w1]|[e1 w1]| |] end; exact Hp.
Qed.

(** Decoding a whole delta with the streaming decoder. *)
Lemma decode_to_ok fh verify source ws ts s :
  file_header_wf fh -> Forall2 (decodes_to (contents:=contents) fh verify source) ws ts ->
  contents s = source -> lenZ (concat ts) < 2 ^ 63 -> lenZ ts < 2 ^ 63 ->
  exists d' s', DeltaDecoder.decode_to
      (DeltaDecoder.with_checksum (file_header_bytes fh ++ concat ws) verify) s []
    = Ok (lenZ (concat ts), d', s', concat ts) /\ contents s' = source /\
    DeltaDecoder.windows_decoded d' = lenZ ts.
Proof.
  intros Hfh Hws Hs Hl Hk. unfold DeltaDecoder.decode_to, DeltaDecoder.with_checksum.
  pose proof (windows_count _ _ _ _ _ Hws) as Hcount.
  cbn [DeltaDecoder.inner StreamDecoder.new StreamDecoder.reader].
  destruct (delta_decode_loop_ok fh verify source ws ts Hws
    (Datatypes.S (length (file_header_bytes fh ++ concat ws)))
    (DeltaDecoder.mk (after_header fh verify (concat ws)) 0 0 []) s [])
    as (d' & s' & Heq & Hs' & Hb & Hw); try done.
  - rewrite length_app. lia.
  - apply ready_after_header.
  - cbn [DeltaDecoder.decode_loop] in *. unfold DeltaDecoder.decode_window_to in *.
    cbn [DeltaDecoder.inner DeltaDecoder.bytes_decoded DeltaDecoder.windows_decoded] in *.
    rewrite decode_window_fresh by done. rewrite Heq. cbn [bind].
    simpl in Hb, Hw. rewrite Hb. eexists _, s'. split; [done|]. done.
Qed.
End Decoder.

(** ** Round trips *)

Section Roundtrip.
Context {B : Build} `{Adler32Laws} `{CodecLaws} (c : cpu).

(** A client of [DeltaEncoder] that feeds the target in pieces. *)
Definition encode_pieces (source : bytes) (opts : CompressOptions) (pieces : list bytes)
    : R (bytes * Z) :=
  let* d := DeltaEncoder.new c [] source opts in
  let* d := for_in pieces (fun p d => DeltaEncoder.write_target c d p) d in
  DeltaEncoder.finish c d.

(** The windows the encoder cuts [target] in. *)
Definition windows (opts : CompressOptions) (target : bytes) : list bytes :=
  chunks (S (length target)) (window_size opts) target.

(** Whether the optimizer's merges are safe on [target]: a search in its windows. *)
Definition merges_safe (source : bytes) (opts : CompressOptions) (target : bytes) : bool :=
  match DeltaEncoder.new c [] source opts with
  | Ok d => safe_from d (windows opts target)
  | _ => false
  end.

(** Nothing is merged in an empty target, nor at level 0. *)
Lemma merges_safe_nil source opts :
  wf_bytes source -> lenZ source < 2 ^ 62 -> options_ok opts -> merges_safe source opts [] = true.
Proof.
  intros Hsw Hsl Hoo. unfold merges_safe.
  destruct (new_ok c source opts Hsw Hsl Hoo) as (d & -> & Hinv & _).
  unfold safe_from. rewrite (ei_opts _ _ _ _ _ Hinv). case_match; [done|].
  destruct (ei_engine _ _ _ _ _ Hinv) as (e & -> & _); [by apply Z.eqb_neq|done].
Qed.

Lemma merges_safe_store source opts target :
  wf_bytes source -> lenZ source < 2 ^ 62 -> options_ok opts -> level opts = 0 ->
  merges_safe source opts target = true.
Proof.
  intros Hsw Hsl Hoo Hz. unfold merges_safe.
  destruct (new_ok c source opts Hsw Hsl Hoo) as (d & -> & Hinv & _).
  unfold safe_from. by rewrite (ei_opts _ _ _ _ _ Hinv), Hz.
Qed.

(** What the windows of [target] mean. *)
Definition meant (source : bytes) (opts : CompressOptions) (target : bytes) : list (option bytes) :=
  match DeltaEncoder.new c [] source opts with
  | Ok d => meanings c d (windows opts target)
  | _ => []
  end.

(** A target that fits a window is one. *)
Lemma one_window opts target : 1 <= lenZ target <= window_size opts -> windows opts target = [target].
Proof.
  intros Hl. unfold windows, lenZ in *. destruct target as [|b target]; [simpl in Hl; lia|].
  cbn [chunks]. rewrite take_ge, drop_ge by lia. by destruct target.
Qed.

Lemma windows_concat opts target : options_ok opts -> concat (windows opts target) = target.
Proof.
  intros Hoo. pose proof (oo_window _ Hoo). eapply chunked_concat, chunks_ok; lia.
Qed.

Lemma windows_wf opts target :
  options_ok opts -> wf_bytes target ->
  Forall (fun t => wf_bytes t /\ 1 <= lenZ t <= HARD_MAX_WINSIZE) (windows opts target).
Proof.
  intros Hoo Ht. pose proof (oo_window _ Hoo) as Hn.
  pose proof (chunks_ok (window_size opts) ltac:(lia) (S (length target)) target ltac:(lia)) as Hch.
  pose proof (chunked_windows (window_size opts) _ _ ltac:(lia) Ht Hch) as Hw.
  eapply Forall_impl; [|exact Hw]. intros t [? ?]. split; [done|lia].
Qed.

(** A new encoder, about to be fed [target]. *)
Lemma new_fed source opts target :
  wf_bytes source -> lenZ source < 2 ^ 62 -> options_ok opts ->
  exists d, DeltaEncoder.new c [] source opts = Ok d /\
    fed_inv c source opts (windows opts target) (meant source opts target) d [] target /\
    DeltaEncoder.windows_written d = 0.
Proof.
  intros Hsw Hsl Hoo. unfold meant. pose proof (oo_window _ Hoo) as Hn.
  destruct (new_ok c source opts Hsw Hsl Hoo) as (d & -> & Hinv & Hbuf & Hby).
  exists d. split; [done|]. split; [|apply Hinv].
  constructor; rewrite ?Hbuf; [|change (lenZ (@nil Z)) with 0; lia|constructor|done].
  exists [], [], (windows opts target). split_and!; try done. apply chunks_ok; simpl; lia.
Qed.

(** Encoding succeeds, with the windows of the target and their meanings. *)
Lemma encode_pieces_if source opts pieces :
  let target := concat pieces in
  wf_bytes source -> lenZ source < 2 ^ 62 -> Forall wf_bytes pieces -> lenZ target < 2 ^ 62 ->
  options_ok opts ->
  exists delta n, encode_pieces source opts pieces = Ok (delta, n) /\
    delta_if source opts (windows opts target) (meant source opts target) delta n.
Proof.
  intros target Hsw Hsl Hpw Htl Hoo. unfold encode_pieces.
  destruct (new_fed source opts target) as (d0 & -> & Hd0 & _); [done..|]. cbn [bind].
  destruct (feed_ok c source opts Hsw Hsl Hoo (windows opts target) (meant source opts target) pieces Hpw d0 [])
    as (d1 & -> & Hd1); [done| |].
  - change (lenZ (@nil Z)) with 0. fold target. lia.
  - cbn [bind]. by apply (finish_ok c source opts Hsw Hsl Hoo _ _ _ target).
Qed.

(** The merges are safe exactly when the windows mean their pieces. *)
Lemma safe_windows_mean source ts : forall e,
  engine_wf (lenZ source) e -> wf_bytes source -> lenZ source < 2 ^ 62 ->
  Forall (fun t => wf_bytes t /\ 1 <= lenZ t <= HARD_MAX_WINSIZE) ts ->
  safe_windows e source ts = true <-> window_meanings c e source ts = map Some ts.
Proof.
  induction ts as [|t ts IH]; intros e He Hsw Hsl Hts; [done|].
  apply Forall_cons_1 in Hts as [[Ht Hl] Hts]. unfold HARD_MAX_WINSIZE in Hl.
  cbn [safe_windows window_meanings map].
  destruct (search_valid (E:=EncodeError * bytes) e source t) as (e' & raw & -> & He' & Hv & _);
    [done|done|done|lia|lia|].
  destruct (optimize_ok (E:=EncodeError * bytes) c source t raw) as (insts & -> & _ & Hfit & Hvo);
    [done|lia|lia|done|].
  rewrite andb_true_iff, <- Hvo, IH by done. split.
  - intros [Hval ->]. f_equal. apply (exec_valid_insts source t 0 insts); (done || lia).
  - intros [= Hex ->]. split; [|done]. by apply (valid_insts_of_exec source t insts Ht 0).
Qed.

Lemma merges_safe_meant source opts target :
  wf_bytes source -> lenZ source < 2 ^ 62 -> wf_bytes target -> options_ok opts ->
  merges_safe source opts target = true <-> meant source opts target = map Some (windows opts target).
Proof.
  intros Hsw Hsl Htw Hoo. unfold merges_safe, meant.
  destruct (new_ok c source opts Hsw Hsl Hoo) as (d & -> & Hinv & _).
  unfold safe_from, meanings. rewrite (ei_opts _ _ _ _ _ Hinv), (ei_source _ _ _ _ _ Hinv).
  destruct (Z.eqb_spec (level opts) 0) as [|Hne]; [done|].
  destruct (ei_engine _ _ _ _ _ Hinv Hne) as (e & -> & He).
  apply safe_windows_mean; [done..|by apply windows_wf].
Qed.

Lemma encode_pieces_ok source opts pieces :
  let target := concat pieces in
  wf_bytes source -> lenZ source < 2 ^ 62 -> Forall wf_bytes pieces -> lenZ target < 2 ^ 62 ->
  options_ok opts -> merges_safe source opts target = true ->
  exists delta n, encode_pieces source opts pieces = Ok (delta, n) /\
    delta_of source opts delta target n.
Proof.
  intros target Hsw Hsl Hpw Htl Hoo Hsafe.
  destruct (encode_pieces_if source opts pieces) as (delta & n & Henc & Hd); [done..|].
  exists delta, n. split; [done|]. apply merges_safe_meant in Hsafe; [|done|done|by apply Forall_concat|done].
  exists (windows opts target). unfold target in *. rewrite Hsafe in Hd. split; [done|by apply windows_concat].
Qed.

(** [encode_all] feeds the whole target, with a capped window. *)
Lemma encode_all_pieces source target opts delta n :
  encode_pieces source (cap_window opts target) [target] = Ok (delta, n) ->
  encode_all c [] source target opts = Ok delta.
Proof.
  unfold encode_all, encode_pieces.
  destruct (DeltaEncoder.new c [] source (cap_window opts target)) as [d| | |]; try done.
  cbn [bind for_in]. destruct (DeltaEncoder.write_target c d target) as [d1| | |]; try done.
  cbn [bind]. by intros ->.
Qed.

(** What a delta decodes to, through either decoder; an empty target has a
    window that is not counted. *)
Lemma delta_decodes source opts delta target n :
  options_ok opts -> lenZ target < 2 ^ 62 -> delta_of source opts delta target n ->
  decode_all source delta = Ok target /\
  forall verify, exists d', DeltaDecoder.decode_to (DeltaDecoder.with_checksum delta verify) source []
    = Ok (lenZ target, d', source, target) /\ DeltaDecoder.windows_decoded d' = Z.max 1 n.
Proof.
  intros Hoo Hl (ts & (ws & -> & Hws & _ & Hn & Hts) & <-).
  assert (or_empty (map Some ts) (Some []) = map Some (or_empty ts [])) as Hoe by (by destruct ts).
  rewrite Hoe in Hws. apply windows_decode in Hws.
  destruct (or_empty_pieces ts) as [Hcat Hcnt]. rewrite <- Hn in Hcnt. rewrite <- Hcat in *. set (tl := or_empty ts []) in *. pose proof (lenZ_nonneg ts).
  pose proof (header_of_wf opts Hoo) as Hfh. split.
  - apply decode_memory_ok; (done || lia).
  - intros verify.
    destruct (decode_to_ok (contents:=fun s : bytes => s) (header_of opts) verify source ws tl source)
      as (d' & s' & Heq & -> & Hk); [done| |done|lia|lia|].
    { destruct verify; [done|]. eapply Forall2_impl; [|exact Hws]. intros. by apply decodes_unverified. }
    exists d'. split; [exact Heq|]. by rewrite Hk.
Qed.

(** [encode_all] then [decode_all]. *)
Lemma encode_all_ok source target opts :
  wf_bytes source -> lenZ source < 2 ^ 62 -> wf_bytes target -> lenZ target < 2 ^ 62 ->
  options_ok (cap_window opts target) ->
  merges_safe source (cap_window opts target) target = true ->
  exists delta, encode_all c [] source target opts = Ok delta /\ decode_all source delta = Ok target.
Proof.
  intros Hsw Hsl Htw Htl Hoo Hsafe.
  assert (concat [target] = target) as Hcat by apply app_nil_r.
  destruct (encode_pieces_ok source (cap_window opts target) [target]) as (delta & n & Henc & Hd);
    rewrite ?Hcat; try done; [by constructor|]. rewrite Hcat in Hd.
  destruct (delta_decodes source _ delta target n Hoo Htl Hd) as (Hdec & _).
  exists delta. split; [|done]. by apply (encode_all_pieces source target opts delta n).
Qed.
End Roundtrip.

(** ** Theorems *)

Section Theorems.
Context {B : Build} `{Adler32Laws} `{CodecLaws} (c : cpu).

(** C2: the streaming encoder and both decoders invert each other.  Feed a
    target in any pieces to a [DeltaEncoder] with any level, window size the
    decoder accepts, checksum setting and decodable secondary compression; when
    the optimizer's merges are safe on its windows, encoding succeeds and
    [decode_all] as well as the window-at-a-time [DeltaDecoder] return the target. *)
Theorem delta_roundtrip (source : bytes) (opts : CompressOptions) (pieces : list bytes) :
  wf_bytes source -> lenZ source < 2 ^ 62 -> Forall wf_bytes pieces ->
  lenZ (concat pieces) < 2 ^ 62 -> options_ok opts ->
  merges_safe c source opts (concat pieces) = true ->
  exists delta n d', encode_pieces c source opts pieces = Ok (delta, n) /\
    decode_all source delta = Ok (concat pieces) /\
    DeltaDecoder.decode_to (DeltaDecoder.new delta) source []
    = Ok (lenZ (concat pieces), d', source, concat pieces).
Proof.
  intros Hsw Hsl Hpw Htl Hoo Hsafe.
  destruct (encode_pieces_ok c source opts pieces) as (delta & n & Henc & Hd); [done..|].
  destruct (delta_decodes source opts delta (concat pieces) n Hoo Htl Hd) as (Hdec & Hdt).
  destruct (Hdt true) as (d' & Hd' & _). by exists delta, n, d'.
Qed.

(** At level 0 nothing is searched or merged, and the round trip holds for
    every source and every target. *)
Theorem store_roundtrip (source : bytes) (opts : CompressOptions) (pieces : list bytes) :
  wf_bytes source -> lenZ source < 2 ^ 62 -> Forall wf_bytes pieces ->
  lenZ (concat pieces) < 2 ^ 62 -> options_ok opts -> level opts = 0 ->
  exists delta n, encode_pieces c source opts pieces = Ok (delta, n) /\
    decode_all source delta = Ok (concat pieces).
Proof.
  intros Hsw Hsl Hpw Htl Hoo Hz.
  pose proof (merges_safe_store c source opts (concat pieces) Hsw Hsl Hoo Hz) as Hsafe.
  destruct (encode_pieces_ok c source opts pieces) as (delta & n & Henc & Hd); [done..|].
  destruct (delta_decodes source opts delta (concat pieces) n Hoo Htl Hd) as (Hdec & _).
  by exists delta, n.
Qed.

(** [encode_all], which caps the window size at the target's length,
    round-trips through [decode_all] when the merges are safe. *)
Theorem encode_all_roundtrip (source target : bytes) (opts : CompressOptions) :
  wf_bytes source -> lenZ source < 2 ^ 62 -> wf_bytes target -> lenZ target < 2 ^ 62 ->
  options_ok (cap_window opts target) ->
  merges_safe c source (cap_window opts target) target = true ->
  exists delta, encode_all c [] source target opts = Ok delta /\ decode_all source delta = Ok target.
Proof.
  intros. by apply encode_all_ok.
Qed.

Lemma parallel_encodes `{RayonLaws} (source target : bytes) (opts : CompressOptions) :
  let opts' := cap_window opts target in
  let n := Z.max (window_size opts') 64 in
  wf_bytes source -> lenZ source < 2 ^ 62 -> wf_bytes target -> 1 <= lenZ target < 2 ^ 62 ->
  options_ok opts' -> forallb (chunk_safe c source opts') (chunks (S (length target)) n target) = true ->
  exists delta, encode_all_parallel c [] source target opts = Ok delta /\
    decode_all source delta = Ok target.
Proof.
  intros opts' n Hsw Hsl Htw Htl Hoo Hsafe. unfold encode_all_parallel. fold opts' n.
  pose proof (oo_window _ Hoo) as Hn. unfold HARD_MAX_WINSIZE in Hn.
  pose proof (chunks_ok n ltac:(lia) (S (length target)) target ltac:(lia)) as Hch.
  pose proof (chunked_windows n target _ ltac:(lia) Htw Hch) as Hw.
  set (ts := chunks (S (length target)) n target) in *.
  destruct (parallel_chunks_ok c source opts' Hsw Hsl Hoo ts) as (ws & Hcol%par_collect_ok & Hws).
  { eapply Forall_impl; [|exact Hw]. intros t [? ?]. unfold HARD_MAX_WINSIZE. split; [done|lia]. }
  specialize (Hws Hsafe).
  destruct target as [|b t0] eqn:Ht; [change (lenZ (@nil Z)) with 0 in Htl; lia|]. rewrite <- Ht in *.
  rewrite Hcol. cbn [map_err bind].
  destruct (write_raw_windows_ok opts' ws _ [] (new_stream_wrote opts' Hoo)) as (st & -> & Hst).
  cbn [bind]. rewrite (stream_finish_ok st _ _ Hst). eexists. split; [done|]. simpl.
  rewrite <- (chunked_concat n target ts Hch).
  apply decode_memory_ok; [apply (header_of_wf opts' Hoo)|exact (windows_decode _ _ _ _ Hws)|].
  rewrite (chunked_concat n target ts Hch). lia.
Qed.

(** C21: the parallel encoder, whose windows are searched independently of each
    other, round-trips a non-empty target too, in whatever order the windows are
    encoded, with options the decoder accepts and when the merges in each window
    are safe. *)
Theorem parallel_roundtrip `{RayonLaws} (source target : bytes) (opts : CompressOptions) :
  let opts' := cap_window opts target in
  let n := Z.max (window_size opts') 64 in
  wf_bytes source -> lenZ source < 2 ^ 62 -> wf_bytes target -> 1 <= lenZ target < 2 ^ 62 ->
  options_ok opts' -> forallb (chunk_safe c source opts') (chunks (S (length target)) n target) = true ->
  exists delta, encode_all_parallel c [] source target opts = Ok delta /\
    decode_all source delta = Ok target.
Proof. intros opts' n. apply parallel_encodes. Qed.

(** [finish] reports no windows for an empty target, while the delta it
    writes holds one: decoding it decodes a window of no bytes. *)
Theorem empty_target_window_count (source : bytes) (opts : CompressOptions) :
  wf_bytes source -> lenZ source < 2 ^ 62 -> options_ok opts ->
  exists delta d', encode_pieces c source opts [] = Ok (delta, 0) /\
    DeltaDecoder.decode_to (DeltaDecoder.new delta) source [] = Ok (0, d', source, []) /\
    1 <= DeltaDecoder.windows_decoded d'.
Proof.
  intros Hsw Hsl Hoo.
  pose proof (merges_safe_nil c source opts Hsw Hsl Hoo) as Hsafe.
  destruct (encode_pieces_ok c source opts []) as (delta & n & Henc & Hd); [done..|].
  pose proof Hd as (ts & (ws & _ & _ & _ & Hn & Hle) & Hcat). rewrite Hcat in Hle. pose proof (lenZ_nonneg ts).
  change (lenZ (concat [])) with 0 in Hle. assert (n = 0) as -> by lia.
  destruct (delta_decodes source opts delta [] 0 Hoo ltac:(done) Hd) as (_ & Hdt).
  destruct (Hdt true) as (d' & Hd' & Hk). exists delta, d'. split_and!; [done|done|lia].
Qed.
End Theorems.

(** ** Merges that are not safe *)

#[local] Instance checked_build : Build := {| debug_build := true |}.
#[local] Instance fallback : Adler32 := adler32_fallback.
#[local] Instance sample_codecs : Codecs := zeros_codecs.

(** Encode, then decode. *)
Definition recode (source target : bytes) (opts : CompressOptions) : option (result DecodeError bytes) :=
  match encode_all X86_sse2 [] source target opts with
  | Ok delta => Some (decode_all source delta)
  | _ => None
  end.

Lemma recode_some source target opts r :
  recode source target opts = Some r ->
  exists delta, encode_all X86_sse2 [] source target opts = Ok delta /\ decode_all source delta = r.
Proof. unfold recode. destruct (encode_all _ _ _ _ _) as [d| | |]; [|done..]. intros [= <-]. eauto. Qed.

Definition two_runs : bytes := replicate 8 97 ++ replicate 8 98.

Lemma two_runs_merged (lvl : Z) (ck : bool) :
  1 <= lvl <= 9 ->
  recode [] two_runs (compress_options lvl (Z.shiftl 1 23) ck NoSecondary)
  = Some (if ck then Err (ChecksumMismatch 867960345 865601041) else Ok (replicate 16 97)).
Proof.
  intros Hl. assert (lvl = 1 \/ lvl = 2 \/ lvl = 3 \/ lvl = 4 \/ lvl = 5 \/ lvl = 6 \/ lvl = 7 \/
    lvl = 8 \/ lvl = 9) as Hcases by lia. clear Hl.
  repeat destruct Hcases as [->|Hcases]; subst; destruct ck; vm_compute; reflexivity.
Qed.

(** C36: two adjacent runs of different bytes are merged into one run of the
    first byte.  At every searching level, a target of eight [a] and eight [b]
    over an empty source, with the default window size, is encoded without an
    error into a delta that decodes to sixteen [a], or, with checksums, that the
    decoder rejects; shown for the SSE2 kernels and a checked build. *)
Theorem adjacent_runs_corrupted (lvl : Z) :
  1 <= lvl <= 9 ->
  (exists delta, encode_all X86_sse2 [] [] two_runs
      (compress_options lvl (Z.shiftl 1 23) false NoSecondary) = Ok delta /\
    decode_all [] delta = Ok (replicate 16 97)) /\
  (exists delta e f, encode_all X86_sse2 [] [] two_runs
      (compress_options lvl (Z.shiftl 1 23) true NoSecondary) = Ok delta /\
    decode_all [] delta = Err (ChecksumMismatch e f)).
Proof.
  intros Hl. split.
  - apply recode_some. by rewrite two_runs_merged.
  - destruct (recode_some _ _ _ _ (two_runs_merged lvl true Hl)) as (delta & ? & ?). eauto.
Qed.

(** ** Witnesses *)

Definition sample_source : bytes := seqZ 1 40.
Definition sample_pieces : list bytes := [seqZ 5 20; []; replicate 12 0 ++ seqZ 1 9; seqZ 30 3].
Definition sample_options (lvl : Z) : CompressOptions := compress_options lvl 16 true Lzma.

Lemma sample_options_ok lvl : 0 <= lvl -> options_ok (sample_options lvl).
Proof.
  intros Hl. constructor; simpl; [done|by split|done|].
  intros be [= <-] d. simpl. unfold zeros_compress. destruct (strip_zeros 255 d). eauto.
Qed.

Lemma sample_pieces_wf : Forall wf_bytes sample_pieces.
Proof. by repeat apply Forall_cons_2; try apply in_range_list. Qed.

Lemma delta_roundtrip_witness :
  merges_safe X86_avx2 sample_source (sample_options 6) (concat sample_pieces) = true /\
  exists delta n d', encode_pieces X86_avx2 sample_source (sample_options 6) sample_pieces = Ok (delta, n) /\
    decode_all sample_source delta = Ok (concat sample_pieces) /\
    DeltaDecoder.decode_to (DeltaDecoder.new delta) sample_source []
    = Ok (lenZ (concat sample_pieces), d', sample_source, concat sample_pieces).
Proof.
  assert (merges_safe X86_avx2 sample_source (sample_options 6) (concat sample_pieces) = true) as Hs
    by (vm_compute; reflexivity).
  split; [exact Hs|].
  apply (delta_roundtrip (H0:=adler32_fallback_laws) (H2:=zeros_codec_laws) X86_avx2 sample_source
    (sample_options 6) sample_pieces); [by apply in_range_list|reflexivity|apply sample_pieces_wf|
    reflexivity|by apply sample_options_ok|exact Hs].
Defined.

Lemma store_roundtrip_witness :
  exists delta n, encode_pieces Aarch64 sample_source (sample_options 0) sample_pieces = Ok (delta, n) /\
    decode_all sample_source delta = Ok (concat sample_pieces).
Proof.
  apply (store_roundtrip (H0:=adler32_fallback_laws) (H2:=zeros_codec_laws) Aarch64 sample_source
    (sample_options 0) sample_pieces); [by apply in_range_list|reflexivity|apply sample_pieces_wf|
    reflexivity|by apply sample_options_ok|reflexivity].
Defined.

Lemma encode_all_roundtrip_witness :
  exists delta, encode_all X86_avx2 [] sample_source (concat sample_pieces) default_options = Ok delta /\
    decode_all sample_source delta = Ok (concat sample_pieces).
Proof.
  apply (encode_all_roundtrip (H0:=adler32_fallback_laws) (H2:=zeros_codec_laws) X86_avx2 sample_source
    (concat sample_pieces) default_options);
    [by apply in_range_list|reflexivity|by apply in_range_list|reflexivity| |vm_compute; reflexivity].
  constructor; simpl; [lia|vm_compute; by split|done|by intros be].
Defined.

Lemma empty_target_window_count_witness :
  exists delta d', encode_pieces X86_avx2 sample_source (sample_options 6) [] = Ok (delta, 0) /\
    DeltaDecoder.decode_to (DeltaDecoder.new delta) sample_source [] = Ok (0, d', sample_source, []) /\
    1 <= DeltaDecoder.windows_decoded d'.
Proof.
  apply (empty_target_window_count (H0:=adler32_fallback_laws) (H2:=zeros_codec_laws) X86_avx2
    sample_source (sample_options 6)); [by apply in_range_list|reflexivity|by apply sample_options_ok].
Defined.

Lemma adjacent_runs_corrupted_witness :
  (exists delta, encode_all X86_sse2 [] [] two_runs
      (compress_options 6 (Z.shiftl 1 23) false NoSecondary) = Ok delta /\
    decode_all [] delta = Ok (replicate 16 97)) /\
  (exists delta e f, encode_all X86_sse2 [] [] two_runs
      (compress_options 6 (Z.shiftl 1 23) true NoSecondary) = Ok delta /\
    decode_all [] delta = Err (ChecksumMismatch e f)).
Proof. apply (adjacent_runs_corrupted 6). lia. Defined.

Lemma parallel_roundtrip_witness :
  exists delta, encode_all_parallel (H1:=backwards) X86_avx2 [] sample_source
      (concat (replicate 5 (concat sample_pieces))) (compress_options 6 70 true Lzma) = Ok delta /\
    decode_all sample_source delta = Ok (concat (replicate 5 (concat sample_pieces))).
Proof.
  apply (parallel_roundtrip (H0:=adler32_fallback_laws) (H2:=zeros_codec_laws) (H4:=backwards_laws) X86_avx2 sample_source
    (concat (replicate 5 (concat sample_pieces))) (compress_options 6 70 true Lzma));
    [by apply in_range_list|reflexivity|by apply in_range_list|by split| |vm_compute; reflexivity].
  constructor; simpl; [lia|vm_compute; by split|done|].
  intros be [= <-] d. simpl. unfold zeros_compress. destruct (strip_zeros 255 d). eauto.
Defined.
