(* ===== verification/Seams.v ===== *)
(** * Targets the optimizer cannot spoil

    The merges of [compress/pipeline.rs] are unsafe in two situations only, and
    both leave a mark in the data.  Where two RUNs of different bytes are merged
    the target has a _run seam_: [MIN_RUN] equal bytes followed by [MIN_RUN] equal
    others.  Where a COPY of the source's end is merged with a COPY of the
    window's start it has a _copy seam_: the last [MIN_MATCH] bytes of the source
    followed by the first [MIN_MATCH] bytes of the window.  A scan of the source's
    end and of the target, without a search, so decides a condition under which
    every level, CPU and front end round-trips. *)

From stdpp Require Import base numbers list option.
From Stdlib Require Import ZArith Lia.
From S2P Require Import Prelude CodeTable Semantics Header WindowEncoder Source Secondary Kernels.
From S2P Require Import Matching MatchingCorrect Pipeline Rayon Delta DeltaCorrect.

Local Open Scope Z_scope.
Local Open Scope rust_scope.

(** ** The condition *)

(** [l] starts with [n] equal bytes. *)
Definition starts_run (n : nat) (l : bytes) : bool :=
  (n <=? length l)%nat && forallb (Z.eqb (hd 0 l)) (take n l).

Definition run_seam (l : bytes) : bool :=
  let n := Z.to_nat MIN_RUN in
  starts_run n l && starts_run n (drop n l) && negb (hd 0 l =? hd 0 (drop n l)).

(** The bytes a copy seam consists of. *)
Definition junction (src target : bytes) : bytes :=
  let n := Z.to_nat MIN_MATCH in drop (length src - n) src ++ take n target.

Definition copy_seam (j l : bytes) : bool :=
  let n := (2 * Z.to_nat MIN_MATCH)%nat in (length j =? n)%nat && bool_decide (take n l = j).

(** No seam starts in [l], a tail of the target with the junction [j]. *)
Fixpoint seamless (j l : bytes) : bool :=
  match l with
  | [] => true
  | _ :: rest => negb (run_seam l) && negb (copy_seam j l) && seamless j rest
  end.

Definition seam_free (src target : bytes) : bool := seamless (junction src target) target.

Lemma seamless_drop j l k :
  seamless j l = true -> (k < length l)%nat ->
  run_seam (drop k l) = false /\ copy_seam j (drop k l) = false.
Proof.
  revert k. induction l as [|b l IH]; intros k Hs Hk; simpl in Hk; [lia|].
  cbn [seamless] in Hs. rewrite !andb_true_iff, !negb_true_iff in Hs. destruct Hs as [[Hr Hc] Hs].
  destruct k as [|k]; [done|]. apply IH; [done|lia].
Qed.

Lemma starts_run_true n l b :
  (0 < n <= length l)%nat -> (forall k, (k < n)%nat -> l !! k = Some b) ->
  starts_run n l = true /\ hd 0 l = b.
Proof.
  intros Hn Hk. assert (hd 0 l = b) as Hb.
  { specialize (Hk O ltac:(lia)). destruct l; [done|]. by injection Hk. }
  split; [|done]. unfold starts_run. rewrite Hb, (proj2 (Nat.leb_le _ _)) by lia. cbn [andb].
  apply forallb_forall. intros x Hx%list_elem_of_In%list_elem_of_lookup_1. destruct Hx as (i & Hi).
  apply lookup_take_Some in Hi as [Hi Hlt]. rewrite Hk in Hi by done. injection Hi as ->. apply Z.eqb_refl.
Qed.

(** ** Seams are the only obstacle *)

Section Pairs.
Context (src target : bytes).

(** Two adjacent RUNs of different bytes show a run seam. *)
Lemma runs_show_seam pos l1 l2 :
  0 <= pos -> MIN_RUN <= l1 -> MIN_RUN <= l2 ->
  valid_inst src target pos (Run l1) -> valid_inst src target (pos + l1) (Run l2) ->
  target !! Z.to_nat (pos + l1) <> target !! Z.to_nat pos ->
  run_seam (drop (Z.to_nat (pos + l1 - MIN_RUN)) target) = true.
Proof.
  unfold MIN_RUN. intros Hp H1 H2 (_ & Hf1 & Hr1) (_ & Hf2 & Hr2) Hne. simpl in Hf1, Hf2.
  destruct (lookup_lt_is_Some_2 target (Z.to_nat pos)) as [a Ha]; [unfold lenZ in *; lia|].
  destruct (lookup_lt_is_Some_2 target (Z.to_nat (pos + l1))) as [b Hb]; [unfold lenZ in *; lia|].
  set (l := drop _ target).
  assert (forall k, (k < 8)%nat -> l !! k = Some a) as Hla.
  { intros k Hk. unfold l. rewrite lookup_drop, <- Ha, <- (Hr1 (l1 - 8 + Z.of_nat k)) by lia. f_equal. lia. }
  assert (forall k, (k < 8)%nat -> drop 8 l !! k = Some b) as Hlb.
  { intros k Hk. unfold l. rewrite drop_drop, lookup_drop, <- Hb, <- (Hr2 (Z.of_nat k)) by lia. f_equal. lia. }
  assert (16 <= length l)%nat as Hll by (unfold l; rewrite length_drop; unfold lenZ in *; lia).
  destruct (starts_run_true 8 l a) as [Hs1 Hh1]; [lia|done|].
  destruct (starts_run_true 8 (drop 8 l) b) as [Hs2 Hh2]; [rewrite length_drop; lia|done|].
  unfold run_seam. change (Z.to_nat MIN_RUN) with 8%nat. rewrite Hs1, Hs2, Hh1, Hh2. cbn [andb].
  apply negb_true_iff, Z.eqb_neq. congruence.
Qed.

(** A COPY of the source's end followed by one of the window's start shows a
    copy seam. *)
Lemma copies_show_seam pos l1 a1 m1 l2 m2 :
  0 <= pos -> MIN_MATCH <= l1 -> MIN_MATCH <= l2 -> a1 + l1 = lenZ src ->
  valid_inst src target pos (Copy l1 a1 m1) -> valid_inst src target (pos + l1) (Copy l2 (lenZ src) m2) ->
  copy_seam (junction src target) (drop (Z.to_nat (pos + l1 - MIN_MATCH)) target) = true.
Proof.
  unfold MIN_MATCH. intros Hp H1 H2 Ha (_ & Hf1 & (Ha1 & _) & _ & Hc1) (_ & Hf2 & _ & _ & Hc2). simpl in Hf1, Hf2.
  unfold copy_seam. apply andb_true_iff. split.
  { apply Nat.eqb_eq. unfold junction. change (Z.to_nat MIN_MATCH) with 4%nat.
    rewrite length_app, length_drop, length_take. unfold lenZ in *. lia. }
  apply bool_decide_eq_true_2. unfold junction. change (Z.to_nat MIN_MATCH) with 4%nat.
  assert (forall k, 0 <= k < 4 -> target !! Z.to_nat (pos + l1 - 4 + k) = src !! (length src - 4 + Z.to_nat k)%nat) as Hl.
  { intros k Hk. replace (pos + l1 - 4 + k) with (pos + (l1 - 4 + k)) by lia. rewrite <- Hc1 by lia.
    rewrite lookup_app_l by (unfold lenZ in *; lia). f_equal. unfold lenZ in *. lia. }
  assert (forall k, 0 <= k < 4 -> target !! Z.to_nat (pos + l1 + k) = target !! Z.to_nat k) as Hr.
  { intros k Hk. rewrite <- Hc2 by lia. rewrite lookup_app_r by (unfold lenZ in *; lia).
    f_equal. unfold lenZ in *. lia. }
  apply list_eq. intros i. destruct (Nat.lt_ge_cases i 4) as [Hi|Hi].
  - rewrite lookup_take_lt, lookup_app_l by (rewrite ?length_drop; unfold lenZ in *; lia).
    rewrite !lookup_drop. specialize (Hl (Z.of_nat i) ltac:(lia)). rewrite Nat2Z.id in Hl. rewrite <- Hl. f_equal. lia.
  - destruct (Nat.lt_ge_cases i 8) as [Hi'|Hi'].
    + rewrite lookup_take_lt, lookup_app_r by (rewrite ?length_drop; unfold lenZ in *; lia).
      rewrite length_drop, lookup_drop, lookup_take_lt by (unfold lenZ in *; lia).
      specialize (Hr (Z.of_nat i - 4) ltac:(lia)).
      replace (i - (length src - (length src - 4)))%nat with (Z.to_nat (Z.of_nat i - 4)) by (unfold lenZ in *; lia).
      rewrite <- Hr. f_equal. lia.
    + rewrite lookup_take_ge by lia. symmetry. apply lookup_ge_None.
      rewrite length_app, length_drop, length_take. unfold lenZ in *. lia.
Qed.

Lemma seam_free_pair pos i j :
  seam_free src target = true -> 0 <= pos ->
  valid_inst src target pos i -> valid_inst src target (pos + inst_len i) j ->
  worthwhile i -> worthwhile j -> safe_pair src target pos i j = true.
Proof.
  intros Hsf Hp Hi Hj Hwi Hwj. unfold MIN_MATCH, MIN_RUN in *. pose proof Hi as (Hi1 & Hi2 & _).
  pose proof Hj as (Hj1 & Hj2 & _).
  assert (forall n, 0 < n <= inst_len i -> (Z.to_nat (pos + inst_len i - n) < length target)%nat) as Hin
    by (unfold lenZ in *; lia).
  destruct i as [l1|l1 a1 m1|l1], j as [l2|l2 a2 m2|l2]; try done; simpl in *.
  - destruct (_ =? _); [|done]. destruct (Z.eqb_spec a2 (a1 + l1)) as [Ha|]; [|done].
    destruct (Z.eqb_spec a2 (lenZ src)) as [->|]; [|done]. exfalso.
    pose proof (copies_show_seam pos l1 a1 m1 l2 m2 Hp Hwi Hwj ltac:(lia) Hi Hj) as Hc. unfold MIN_MATCH in *.
    destruct (seamless_drop _ _ _ Hsf (Hin 4 ltac:(lia))) as [_ Hc']. congruence.
  - apply bool_decide_eq_true_2.
    destruct (decide (target !! Z.to_nat (pos + l1) = target !! Z.to_nat pos)) as [|Hne]; [done|]. exfalso.
    pose proof (runs_show_seam pos l1 l2 Hp Hwi Hwj Hi Hj Hne) as Hc. unfold MIN_RUN in *.
    destruct (seamless_drop _ _ _ Hsf (Hin 8 ltac:(lia))) as [Hc' _]. congruence.
Qed.

Lemma seam_free_merges l : forall pos,
  seam_free src target = true -> 0 <= pos -> valid_insts src target pos l -> Forall worthwhile l ->
  safe_merges src target pos l = true.
Proof.
  induction l as [|i l IH]; intros pos Hsf Hp Hv Hw; [done|]. cbn [safe_merges].
  destruct Hv as [Hi Hv]. apply Forall_cons_1 in Hw as [Hwi Hw].
  assert (1 <= inst_len i) as Hil by apply Hi. rewrite IH by (done || lia).
  destruct l as [|j l]; [done|]. rewrite andb_true_r.
  apply seam_free_pair; [done..|apply Hv|done|by apply Forall_cons_1 in Hw as [? _]].
Qed.
End Pairs.

(** ** The front ends *)

Section Windows.
Context {B : Build}.

Lemma safe_windows_seamless source ts : forall e,
  engine_wf (lenZ source) e -> wf_bytes source -> lenZ source < 2 ^ 62 ->
  Forall (fun t => wf_bytes t /\ lenZ t <= HARD_MAX_WINSIZE) ts ->
  forallb (seam_free source) ts = true -> safe_windows e source ts = true.
Proof.
  induction ts as [|t ts IH]; intros e He Hsw Hsl Hts Hsf; [done|].
  apply Forall_cons_1 in Hts as [[Ht Hl] Hts]. cbn [forallb] in Hsf. apply andb_true_iff in Hsf as [Hsf Hsfs].
  unfold HARD_MAX_WINSIZE in Hl. cbn [safe_windows].
  destruct (search_valid (E:=EncodeError * bytes) e source t) as (e' & insts & -> & He' & Hv & Hw);
    [done|done|done|lia|lia|]. rewrite IH by done. rewrite andb_true_r. apply seam_free_merges; (done || lia).
Qed.
End Windows.

Section FrontEnds.
Context {B : Build} `{Adler32Laws} `{CodecLaws} (c : cpu).

(** Every window of a target is free of seams. *)
Definition windows_seamless (source : bytes) (opts : CompressOptions) (target : bytes) : bool :=
  forallb (seam_free source) (windows opts target).

Lemma merges_safe_seamless source opts target :
  wf_bytes source -> lenZ source < 2 ^ 62 -> wf_bytes target -> options_ok opts ->
  windows_seamless source opts target = true -> merges_safe c source opts target = true.
Proof.
  intros Hsw Hsl Ht Hoo Hsf. unfold merges_safe.
  destruct (new_ok c source opts Hsw Hsl Hoo) as (d & -> & Hinv & _).
  unfold safe_from. rewrite (ei_opts _ _ _ _ _ Hinv), (ei_source _ _ _ _ _ Hinv).
  destruct (Z.eqb_spec (level opts) 0) as [|Hne]; [done|].
  destruct (ei_engine _ _ _ _ _ Hinv Hne) as (e & -> & He).
  apply safe_windows_seamless; [done..| |done].
  eapply Forall_impl; [|by apply windows_wf]. intros t [? ?]. split; [done|lia].
Qed.

Lemma chunk_safe_seamless source opts t :
  wf_bytes source -> lenZ source < 2 ^ 62 -> wf_bytes t -> lenZ t <= HARD_MAX_WINSIZE -> options_ok opts ->
  seam_free source t = true -> chunk_safe c source opts t = true.
Proof.
  intros Hsw Hsl Ht Hl Hoo Hsf. unfold chunk_safe.
  destruct (chunk_search_ok c source opts Hsw Hsl t Ht Hl) as (raw & -> & Hv & Hw).
  apply orb_true_iff. right. apply seam_free_merges; (done || lia).
Qed.
End FrontEnds.

(** ** Theorems *)

Section Theorems.
Context {B : Build} `{Adler32Laws} `{CodecLaws} (c : cpu).

(** C3: a round trip from a condition on the data alone.  Feed a target in any
    pieces to a [DeltaEncoder], at any level, on any CPU, with any window size the
    decoder accepts and any secondary compression it can undo.  If no window of it has a seam, which a
    scan decides without any search, encoding succeeds and both decoders return
    the target. *)
Theorem seamless_roundtrip (source : bytes) (opts : CompressOptions) (pieces : list bytes) :
  wf_bytes source -> lenZ source < 2 ^ 62 -> Forall wf_bytes pieces ->
  lenZ (concat pieces) < 2 ^ 62 -> options_ok opts ->
  windows_seamless source opts (concat pieces) = true ->
  exists delta n d', encode_pieces c source opts pieces = Ok (delta, n) /\
    decode_all source delta = Ok (concat pieces) /\
    DeltaDecoder.decode_to (DeltaDecoder.new delta) source []
    = Ok (lenZ (concat pieces), d', source, concat pieces).
Proof.
  intros Hsw Hsl Hpw Htl Hoo Hsf.
  assert (merges_safe c source opts (concat pieces) = true) as Hsafe.
  { apply merges_safe_seamless; try done. by apply Forall_concat. }
  destruct (encode_pieces_ok c source opts pieces) as (delta & n & Henc & Hd); [done..|].
  destruct (delta_decodes source opts delta (concat pieces) n Hoo Htl Hd) as (Hdec & Hdt).
  destruct (Hdt true) as (d' & Hd' & _). by exists delta, n, d'.
Qed.

(** The same of the one-shot functions, over the windows they cut. *)
Theorem seamless_one_shot `{RayonLaws} (source target : bytes) (opts : CompressOptions) :
  let opts' := cap_window opts target in
  wf_bytes source -> lenZ source < 2 ^ 62 -> wf_bytes target -> 1 <= lenZ target < 2 ^ 62 -> options_ok opts' ->
  (windows_seamless source opts' target = true ->
   exists delta, encode_all c [] source target opts = Ok delta /\ decode_all source delta = Ok target) /\
  (forallb (seam_free source) (chunks (S (length target)) (Z.max (window_size opts') 64) target) = true ->
   exists delta, encode_all_parallel c [] source target opts = Ok delta /\ decode_all source delta = Ok target).
Proof.
  intros opts' Hsw Hsl Htw Htl Hoo. pose proof (oo_window _ Hoo) as Hn. unfold HARD_MAX_WINSIZE in Hn. split.
  - intros Hsf. apply encode_all_ok; try done; [lia|]. by apply merges_safe_seamless.
  - intros Hsf. apply parallel_encodes; try done. fold opts'. set (n := Z.max (window_size opts') 64) in *.
    pose proof (chunks_ok n ltac:(lia) (S (length target)) target ltac:(lia)) as Hch.
    pose proof (chunked_windows n target _ ltac:(lia) Htw Hch) as Hw.
    rewrite forallb_forall in Hsf |- *. rewrite Forall_forall in Hw. intros t Ht.
    destruct (Hw t Ht) as [? ?].
    apply chunk_safe_seamless; try done; [unfold HARD_MAX_WINSIZE; lia|by apply Hsf].
Qed.
End Theorems.

#[local] Instance checked_build : Build := {| debug_build := true |}.
#[local] Instance fallback : Adler32 := adler32_fallback.
#[local] Instance fallback_laws : Adler32Laws := adler32_fallback_laws.
#[local] Instance codecs : Codecs := zeros_codecs.
#[local] Instance codec_laws : CodecLaws := zeros_codec_laws.

(** Text with a run, edited in the middle. *)
Definition plain_source : bytes := seqZ 32 60.
Definition plain_target : bytes := seqZ 32 20 ++ replicate 12 48 ++ seqZ 60 30.

Definition plain_pieces : list bytes := [take 3 plain_target; drop 3 plain_target].
Definition plain_options : CompressOptions := compress_options 9 50 true NoSecondary.

Lemma seamless_roundtrip_witness :
  windows_seamless plain_source plain_options (concat plain_pieces) = true /\
  exists delta n d', encode_pieces X86_sse2 plain_source plain_options plain_pieces = Ok (delta, n) /\
    decode_all plain_source delta = Ok (concat plain_pieces) /\
    DeltaDecoder.decode_to (DeltaDecoder.new delta) plain_source []
    = Ok (lenZ (concat plain_pieces), d', plain_source, concat plain_pieces).
Proof.
  assert (windows_seamless plain_source plain_options (concat plain_pieces) = true) as Hs
    by (vm_compute; reflexivity).
  split; [exact Hs|].
  apply (seamless_roundtrip X86_sse2 plain_source plain_options plain_pieces);
    [by apply in_range_list|reflexivity| |reflexivity|by apply no_secondary_ok|exact Hs].
  constructor; [by apply in_range_list|]. constructor; [by apply in_range_list|constructor].
Defined.
