(* ===== verification/DecoderSafety.v ===== *)
(** * The decoder on arbitrary input

    [safe P m]: the computation returns an error or a value in [P]; it neither
    panics nor runs forever.  Over any sections, valid or hostile, and any
    header whose copy window and sizes stay within the address space, decoding
    a window is safe, and what it accepts has the announced length and, when
    checked, the announced checksum. *)

From stdpp Require Import base numbers list option.
From Stdlib Require Import ZArith Lia.
From S2P Require Import Prelude Varint AddrCache CodeTable Semantics Header WindowEncoder Source.
From S2P Require Import Secondary WindowDecoder WindowRoundtrip.

Local Open Scope Z_scope.
Local Open Scope rust_scope.

Definition safe {E A} (P : A -> Prop) (m : result E A) : Prop :=
  match m with
  | Ok a => P a
  | Err _ => True
  | Panic | Diverge => False
  end.

Lemma safe_bind {E A C} (P : A -> Prop) (Q : C -> Prop) (m : result E A) (k : A -> result E C) :
  safe P m -> (forall a, P a -> safe Q (k a)) -> safe Q (bind m k).
Proof. destruct m; simpl; auto. Qed.

Lemma safe_weaken {E A} (P Q : A -> Prop) (m : result E A) :
  safe P m -> (forall a, P a -> Q a) -> safe Q m.
Proof. destruct m; simpl; auto. Qed.

Lemma read_u32_safe data :
  wf_bytes data -> safe (fun '(v, n) => 0 <= v < 2 ^ 32 /\ 1 <= n <= lenZ data) (read_u32 data).
Proof.
  intros Hd. destruct (read_u32 data) as [[v n]| | |] eqn:Hr; simpl; [|done|..].
  - apply (read_loop_sound 32 U32_OVERFLOW_MASK acc_u32) in Hr
      as (bs & rest & -> & Ht & -> & -> & Hv); auto with oxidelta.
    rewrite lenZ_app. pose proof (lenZ_nonneg rest). unfold in_range in Hv.
    destruct bs as [|b bs]; [done|]. rewrite lenZ_cons in *. pose proof (lenZ_nonneg bs). lia.
  - revert Hr. unfold read_u32. generalize 0 at 1 as x. generalize 0 as i.
    clear. induction data as [|b data IH]; intros i x; simpl; try done.
    destruct (negb _); [done|]. destruct (_ =? 0); [done|apply IH].
  - revert Hr. unfold read_u32. generalize 0 at 1 as x. generalize 0 as i.
    clear. induction data as [|b data IH]; intros i x; simpl; try done.
    destruct (negb _); [done|]. destruct (_ =? 0); [done|apply IH].
Qed.

Lemma address_safe c mode here data :
  reusable c -> wf_bytes data -> is_u64 here -> 0 <= mode < 9 ->
  safe (fun '(addr, n, c') => 0 <= addr < here /\ 1 <= n <= lenZ data /\ reusable c')
       (AddressCache.decode c mode data here).
Proof.
  intros [Hc [Hn Hs]] Hd Hh Hm.
  assert (0 <= mode < AddressCache.mode_count c) as Hm'.
  { unfold AddressCache.mode_count. rewrite Hn, Hs. unfold NEAR_MODES, SAME_MODES. lia. }
  destruct (decode_no_panic c mode data here Hc Hd Hm') as [[[[a n] c'] H]|[e ->]]; [|done].
  rewrite H. simpl. pose proof (decode_inv _ _ _ _ _ _ _ Hc H) as [_ ->].
  pose proof (decode_addr_u64 _ _ _ _ _ _ _ Hc Hd Hh Hm' H) as [? ?].
  split_and!; try lia. split; [apply upd_wf; [unfold in_range in *; lia|done]|].
  unfold default_sizes in *. unfold upd. by simpl.
Qed.

(** The entries of the code table: known types, a copy mode below nine, sizes
    of a byte. *)
Lemma table_entry_safe i :
  0 <= i < 256 ->
  let e := rfc_entry i in
  0 <= type1 e <= 11 /\ 0 <= type2 e <= 11 /\ 0 <= size1 e < 256 /\ 0 <= size2 e < 256.
Proof.
  intros Hi.
  pose proof (range_forall (fun i => let e := rfc_entry i in
    (0 <=? type1 e) && (type1 e <=? 11) && (0 <=? type2 e) && (type2 e <=? 11) &&
    (0 <=? size1 e) && (size1 e <? 256) && (0 <=? size2 e) && (size2 e <? 256)) 0 256
    ltac:(vm_compute; reflexivity) i Hi) as H. simpl in *. lia.
Qed.

Section Window.
Context {B : Build} {S : Type} `{SourceProvider S} {contents : S -> bytes} `{!SourceLaws S contents}.
Context (sec : Sections) (cwl cwo : Z) (out0 src : bytes).
Context (Hinst : wf_bytes (sec_inst sec)) (Haddr : wf_bytes (sec_addr sec)).
Context (Hdlen : lenZ (sec_data sec) < 2 ^ 62) (Halen : lenZ (sec_addr sec) < 2 ^ 62).
Context (Hilen : lenZ (sec_inst sec) <= 2 ^ 28) (Hout : lenZ out0 < 2 ^ 61).
Context (Hwin : 0 <= cwl < 2 ^ 61 /\ 0 <= cwo < 2 ^ 61).

(** The decoder's state inside a window that started after [out0]. *)
Record dec_inv (st : DecodeState S) : Prop := {
  di_inst : 0 <= inst_pos st <= lenZ (sec_inst sec);
  di_data : 0 <= data_pos st <= lenZ (sec_data sec);
  di_addr : 0 <= addr_pos st <= lenZ (sec_addr sec);
  di_cache : reusable (acache st);
  di_output : exists w, output st = out0 ++ w /\ lenZ w = target_pos st;
  di_source : contents (source st) = src
}.

Definition grown (size : Z) (st st' : DecodeState S) : Prop :=
  dec_inv st' /\ target_pos st' = target_pos st + size /\ inst_pos st' = inst_pos st.

Lemma dec_target st : dec_inv st -> 0 <= target_pos st /\ lenZ (output st) = lenZ out0 + target_pos st.
Proof.
  intros [_ _ _ _ (w & -> & Hw) _]. pose proof (lenZ_nonneg w). rewrite lenZ_app. lia.
Qed.

Lemma resolve_size_safe st table_size :
  dec_inv st -> 0 <= table_size < 256 ->
  safe (fun '(size, p) => 0 <= size < 2 ^ 32 /\ inst_pos st <= p <= lenZ (sec_inst sec))
       (resolve_size (sec_inst sec) (inst_pos st) table_size).
Proof.
  intros [Hi _ _ _ _ _] Ht. unfold resolve_size. case_bool; [|simpl; lia].
  rewrite slice_from_ok by lia. cbn [bind].
  pose proof (read_u32_safe (drop (Z.to_nat (inst_pos st)) (sec_inst sec)) (Forall_drop _ _ _ Hinst)) as Hr.
  rewrite lenZ_drop in Hr by lia. destruct (read_u32 _) as [[v n]| | |]; try done. simpl in Hr.
  cbn [map_err bind]. rewrite add_w_ok by (unfold in_range; lia). simpl. lia.
Qed.

Lemma execute_run_safe size st :
  dec_inv st -> 0 <= size < 2 ^ 32 -> target_pos st < 2 ^ 62 ->
  safe (grown size st) (execute_run (sec_data sec) size st).
Proof.
  intros Hst Hs Htp. pose proof (dec_target st Hst) as [Ht Hl]. pose proof Hst as [Hi Hd Ha Hc Ho Hsrc].
  unfold execute_run. pose proof (lenZ_nonneg out0). destruct (Z.leb_spec (lenZ (sec_data sec)) (data_pos st)); [done|].
  destruct (index_ok (E:=DecodeError) (sec_data sec) (data_pos st)) as (b & _ & ->); [lia|]. cbn [bind].
  rewrite add_w_ok by (unfold in_range; lia). cbn [bind].
  rewrite add_w_ok by (unfold in_range; lia). cbn [bind].
  unfold alloc. rewrite (proj2 (Z.leb_le _ _)) by lia. cbn [bind].
  rewrite add_w_ok by (unfold in_range; lia). cbn [bind safe].
  split; [|done]. constructor; simpl; try done; [lia|].
  destruct Ho as (w & -> & Hw). exists (w ++ replicate (Z.to_nat size) b).
  rewrite resize_grow by lia. split; [by rewrite <- app_assoc|].
  rewrite lenZ_app, lenZ_replicate. lia.
Qed.

Lemma execute_add_safe size st :
  dec_inv st -> 0 <= size < 2 ^ 32 -> target_pos st < 2 ^ 62 ->
  safe (grown size st) (execute_add (sec_data sec) size st).
Proof.
  intros Hst Hs Htp. pose proof (dec_target st Hst) as [Ht Hl]. pose proof Hst as [Hi Hd Ha Hc Ho Hsrc].
  unfold execute_add. rewrite add_w_ok by (unfold in_range; lia). cbn [bind].
  destruct (Z.ltb_spec (lenZ (sec_data sec)) (data_pos st + size)); [done|].
  rewrite slice_ok by lia. cbn [bind]. rewrite add_w_ok by (unfold in_range; lia). cbn [bind safe].
  split; [|done]. constructor; simpl; try done; [lia|].
  destruct Ho as (w & -> & Hw). eexists. rewrite <- app_assoc. split; [done|].
  rewrite lenZ_app, sub_length by lia. lia.
Qed.

(** A copy appends [size] bytes and keeps the source. *)
Definition copied (size : Z) (out : bytes) (r : bytes * S * bytes) : Prop :=
  let '(out', s', _) := r in
  contents s' = src /\ exists w, out' = out ++ w /\ lenZ w = size.

Lemma copy_from_source_safe off size st :
  dec_inv st -> 0 <= off < 2 ^ 62 -> 0 <= size < 2 ^ 32 ->
  safe (copied size (output st)) (copy_from_source off size st).
Proof.
  intros [_ _ _ _ _ Hsrc] Ho Hs. unfold copy_from_source.
  destruct (source_slice_spec (source st) off size) as (o & -> & Hsl); [lia..|]. cbn [bind].
  destruct o as [l|].
  - destruct (Hsl l eq_refl) as [Hfit ->]. simpl. split; [done|]. eexists. split; [done|].
    by apply sub_length; lia.
  - set (buf := resize (copy_buf st) size 0).
    assert (lenZ buf = size) as Hbl.
    { unfold buf, resize, lenZ. rewrite length_app, length_take, length_replicate. lia. }
    destruct (read_source_spec (source st) off buf) as [(e & -> & _)|(n & buf' & s' & -> & Hs' & Hlb & _)];
      [unfold in_range; lia|done|]. cbn [bind].
    destruct (n <? size); [done|]. rewrite slice_ok by lia. cbn [bind safe copied]. rewrite Z.sub_0_r.
    split; [congruence|]. eexists. split; [done|]. apply sub_length; lia.
Qed.

Lemma copy_from_target_safe off size out :
  0 <= off < lenZ out -> lenZ out < 2 ^ 63 -> 0 <= size < 2 ^ 32 ->
  safe (fun out' => exists w, out' = out ++ w /\ lenZ w = size)
       (copy_from_target (E:=DecodeError) off size out).
Proof.
  intros Ho Hl Hs. unfold copy_from_target. rewrite add_w_ok by (unfold in_range; lia). cbn [bind].
  destruct (Z.leb_spec (off + size) (lenZ out)).
  - rewrite slice_ok by lia. simpl. eexists. split; [done|].
    replace (off + size - off) with size by lia. apply sub_length; lia.
  - assert (forall (n : nat) (i : Z) (out1 : bytes), 0 <= i -> i + Z.of_nat n = size -> lenZ out1 = lenZ out + i ->
      safe (fun out' => exists w, out' = out1 ++ w /\ lenZ w = size - i)
        (for_in (range i size) (fun i out => let* p := add_w 64 off i in
           let* byte := index (E:=DecodeError) out p in Ok (out ++ [byte])) out1)) as Hloop.
    { induction n as [|n IH]; intros i out1 Hi Hn Hl1.
      - rewrite range_nil by lia. simpl. exists []. rewrite app_nil_r. split; [done|].
        change (lenZ (@nil Z)) with 0. lia.
      - rewrite range_cons by lia. cbn [for_in]. rewrite add_w_ok by (unfold in_range; lia). cbn [bind].
        destruct (index_ok (E:=DecodeError) out1 (off + i)) as (b & _ & ->); [lia|]. cbn [bind].
        eapply safe_weaken; [apply (IH (i + 1) (out1 ++ [b])); try lia; rewrite lenZ_app;
          change (lenZ [b]) with 1; lia|].
        intros out' (w & -> & Hw). exists (b :: w). rewrite <- app_assoc, lenZ_cons. split; [done|lia]. }
    eapply safe_weaken; [apply (Hloop (Z.to_nat size) 0 out); lia|].
    intros out' (w & -> & Hw). exists w. split; [done|lia].
Qed.

Lemma execute_copy_safe itype size st :
  dec_inv st -> 3 <= itype <= 11 -> 0 <= size < 2 ^ 32 -> target_pos st < 2 ^ 62 ->
  safe (grown size st) (execute_copy itype (sec_addr sec) cwl cwo (lenZ out0) size st).
Proof.
  intros Hst Hit Hs Htp. pose proof (dec_target st Hst) as [Ht Hl]. pose proof Hst as [Hi Hd Ha Hc Ho Hsrc].
  pose proof (lenZ_nonneg out0). unfold execute_copy, XD3_CPY.
  rewrite sub_w_ok by (unfold in_range; lia). cbn [bind].
  rewrite add_w_ok by (unfold in_range; lia). cbn [bind].
  rewrite slice_from_ok by lia. cbn [bind].
  set (rest := drop _ _).
  assert (lenZ rest = lenZ (sec_addr sec) - addr_pos st) as Hrl by (apply lenZ_drop; lia).
  pose proof (address_safe (acache st) (itype - 3) (cwl + target_pos st) rest Hc
    (Forall_drop _ _ _ Haddr) ltac:(unfold in_range; lia) ltac:(lia)) as Hdec.
  destruct (AddressCache.decode _ _ _ _) as [[[a n] c']| | |]; try done.
  cbn [map_err bind safe] in *. destruct Hdec as (Har & Hn & Hc').
  rewrite add_w_ok by (unfold in_range; lia). cbn [bind].
  assert (safe (copied size (output st))
    (if a <? cwl then let* src_offset := add_w 64 cwo a in copy_from_source src_offset size st
     else let* off := sub_w 64 a cwl in let* tgt_offset := add_w 64 (lenZ out0) off in
       let* out := copy_from_target tgt_offset size (output st) in
       Ok (out, source st, copy_buf st))) as Hcopy.
  { destruct (Z.ltb_spec a cwl).
    - rewrite add_w_ok by (unfold in_range; lia). cbn [bind]. apply copy_from_source_safe; (done || lia).
    - rewrite sub_w_ok by (unfold in_range; lia). cbn [bind].
      rewrite add_w_ok by (unfold in_range; lia). cbn [bind].
      eapply safe_bind; [apply copy_from_target_safe; lia|]. intros out' Hout'. by split. }
  assert (exists b, (if a <? cwl then let* e := add_w 64 a size in Ok (cwl <? e) else Ok false)
    = Ok (E:=DecodeError) b) as [b ->].
  { destruct (a <? cwl); [|eauto]. rewrite add_w_ok by (unfold in_range; lia). cbn [bind]. eauto. }
  cbn [bind]. destruct b; [done|].
  eapply safe_bind; [exact Hcopy|]. intros [[out' s'] buf'] (Hs' & w & Hw & Hwl).
  rewrite add_w_ok by (unfold in_range; lia). cbn [bind safe].
  split; [|done]. constructor; simpl; try done; [lia|].
  destruct Ho as (w0 & Ho & Hw0). exists (w0 ++ w). rewrite Hw, Ho, <- app_assoc, lenZ_app. split; [done|lia].
Qed.

(** A half-instruction moves forward in INST and grows the target by less than 4 GiB. *)
Lemma execute_half_safe itype table_size st :
  dec_inv st -> 1 <= itype <= 11 -> 0 <= table_size < 256 -> target_pos st < 2 ^ 62 ->
  safe (fun st' => dec_inv st' /\ inst_pos st <= inst_pos st' /\
          target_pos st <= target_pos st' < target_pos st + 2 ^ 32)
       (execute_half_instruction itype table_size sec cwl cwo (lenZ out0) st).
Proof.
  intros Hst Hit Hts Htp. unfold execute_half_instruction.
  eapply safe_bind; [by apply resolve_size_safe|]. intros [size p] [Hs Hp].
  assert (dec_inv (set_inst_pos st p)) as Hst'.
  { destruct Hst as [? ? ? ? ? ?]. constructor; simpl; (done || lia). }
  eapply safe_weaken with (P := grown size (set_inst_pos st p)).
  - unfold execute_sized, XD3_RUN, XD3_ADD.
    destruct (Z.eqb_spec itype 2); [by apply execute_run_safe|].
    destruct (Z.eqb_spec itype 1); [by apply execute_add_safe|].
    apply execute_copy_safe; (done || lia).
  - intros st' (Hd & Htp' & Hip). simpl in *. split; [done|lia].
Qed.

Lemma decode_loop_safe fuel st :
  dec_inv st -> target_pos st <= 2 ^ 33 * inst_pos st ->
  lenZ (sec_inst sec) - inst_pos st < Z.of_nat fuel ->
  safe (fun st' => dec_inv st' /\ target_pos st' <= 2 ^ 33 * lenZ (sec_inst sec))
       (decode_loop fuel sec cwl cwo (lenZ out0) st).
Proof.
  revert st. induction fuel as [|fuel IH]; intros st Hst Htp Hf; pose proof Hst as [Hi _ _ _ _ _]; [lia|].
  cbn [decode_loop]. destruct (Z.ltb_spec (inst_pos st) (lenZ (sec_inst sec))); [|simpl; split; [done|lia]].
  destruct (index_ok (E:=DecodeError) (sec_inst sec) (inst_pos st)) as (op & Hop & ->); [lia|]. cbn [bind].
  rewrite add_w_ok by (unfold in_range; lia). cbn [bind].
  pose proof (Forall_lookup_1 _ _ _ _ Hinst Hop) as Hu. unfold in_range in Hu.
  rewrite table_index by lia. cbn [bind].
  destruct (table_entry_safe op) as (H1 & H2 & H3 & H4); [lia|]. set (e := rfc_entry op) in *.
  set (st1 := set_inst_pos st (inst_pos st + 1)).
  assert (dec_inv st1) as Hst1.
  { destruct Hst as [? ? ? ? ? ?]. constructor; simpl; (done || lia). }
  assert (inst_pos st1 = inst_pos st + 1 /\ target_pos st1 = target_pos st) as [Hi1 Ht1] by done.
  pose proof (proj1 (dec_target st1 Hst1)). unfold XD3_NOOP.
  eapply (safe_bind (fun st' => dec_inv st' /\ inst_pos st1 <= inst_pos st' /\
    target_pos st1 <= target_pos st' < target_pos st1 + 2 ^ 32)).
  { destruct (Z.eqb_spec (type1 e) 0); cbn [negb]; [simpl; split; [done|lia]|].
    apply execute_half_safe; (done || lia). }
  intros st2 (Hst2 & Hi2 & Ht2).
  eapply (safe_bind (fun st' => dec_inv st' /\ inst_pos st2 <= inst_pos st' /\
    target_pos st2 <= target_pos st' < target_pos st2 + 2 ^ 32)).
  { destruct (Z.eqb_spec (type2 e) 0); cbn [negb]; [simpl; split; [done|lia]|].
    apply execute_half_safe; (done || lia). }
  intros st3 (Hst3 & Hi3 & Ht3). apply IH; [done|lia|lia].
Qed.
End Window.

(** ** The theorem *)

(** Decoding a window of arbitrary sections, valid or hostile, over any
    lawful source, is safe: no panic, no access out of bounds, no overflow, no
    endless loop, only an error or a result.  The bounds are those of the
    address space (INST below 256 MiB, each instruction growing the target by
    less than 4 GiB).  And what it accepts is what the header announced: the
    output is extended by exactly the announced number of bytes, whose checksum
    is the announced one when there is one to verify. *)
Lemma decode_window_safe {B : Build} {S : Type} `{SourceProvider S} {contents : S -> bytes}
    `{!SourceLaws S contents} `{Adler32} (h : WindowHeader.t) (sec : Sections) (s : S)
    (verify : bool) (buf out : bytes) (c : AddressCache.t) :
  wf_bytes (sec_inst sec) -> wf_bytes (sec_addr sec) ->
  lenZ (sec_data sec) < 2 ^ 62 -> lenZ (sec_addr sec) < 2 ^ 62 -> lenZ (sec_inst sec) <= 2 ^ 28 ->
  lenZ out < 2 ^ 61 -> 0 <= WindowHeader.target_window_len h <= HARD_MAX_WINSIZE ->
  0 <= WindowHeader.copy_window_len h < 2 ^ 61 -> 0 <= WindowHeader.copy_window_offset h < 2 ^ 61 ->
  reusable c ->
  match decode_window_with_cache h sec s verify buf out c with
  | Ok (out', s', _, c') =>
      contents s' = contents s /\ reusable c' /\
      exists w, out' = out ++ w /\ lenZ w = WindowHeader.target_window_len h /\
        forall k, WindowHeader.adler32 h = Some k -> verify = true -> compute_adler32 w = k
  | Err _ => True
  | Panic | Diverge => False
  end.
Proof.
  intros Hi Ha Hdl Hal Hil Hol Htl Hcl Hco Hc. unfold decode_window_with_cache, HARD_MAX_WINSIZE in *.
  pose proof (lenZ_nonneg out). rewrite add_w_ok by (unfold in_range; lia). cbn [bind].
  unfold alloc. rewrite (proj2 (Z.leb_le _ _)) by lia. cbn [bind]. rewrite init_reusable by done.
  set (st0 := dstate 0 0 0 AddressCache.new 0 out s buf).
  assert (dec_inv (contents:=contents) sec out (contents s) st0) as Hst0.
  { constructor; simpl; try done; try (split; [lia|apply lenZ_nonneg]); [apply new_reusable|].
    exists []. by rewrite app_nil_r. }
  pose proof (decode_loop_safe sec (WindowHeader.copy_window_len h) (WindowHeader.copy_window_offset h)
    out (contents s) Hi Ha Hdl Hal Hil Hol (conj Hcl Hco) (Datatypes.S (length (sec_inst sec))) st0 Hst0
    ltac:(simpl; lia) ltac:(simpl; unfold lenZ; lia)) as Hloop.
  destruct (decode_loop _ _ _ _ _ _) as [st| | |]; try done. cbn [bind safe] in *.
  destruct Hloop as [[_ _ _ Hcache (w & Hw & Hwl) Hsrc] Htp].
  pose proof (lenZ_nonneg w). rewrite Hw, lenZ_app.
  rewrite sub_w_ok by (unfold in_range; lia). cbn [bind].
  replace (lenZ out + lenZ w - lenZ out) with (lenZ w) by lia.
  destruct (Z.eqb_spec (lenZ w) (WindowHeader.target_window_len h)) as [Hlen|]; cbn [negb]; [|done].
  rewrite slice_from_app.
  destruct (WindowHeader.adler32 h) as [k|]; [|simpl; split_and!; [done..|]; by exists w].
  destruct verify; [|simpl; split_and!; [done..|]; by exists w]. cbn [bind].
  destruct (Z.eqb_spec (compute_adler32 w) k) as [Hk|]; cbn [negb]; [|done].
  simpl. split_and!; [done..|]. exists w. split_and!; try done. by intros k' [= <-].
Qed.

(** A delta of one window: a COPY of four bytes from a copy window of eight at
    offset 2^64 - 2 of the source. *)
Definition hostile_delta : bytes :=
  [214; 195; 196; 0; 0; 1; 8] ++ varint (2 ^ 64 - 2) ++ [7; 4; 0; 0; 1; 1; 20; 0].

(** The bound on the copy window is needed.  A copy-window offset close to
    2^64, which the header parser accepts, panics the decoder over a byte slice
    in both build profiles: under overflow checks in the addition of
    [source_slice], without them in the slice it forms after the wrap. *)
Theorem copy_window_offset_panics {B : Build} `{Adler32} `{Codecs} :
  decode_memory hostile_delta [1; 2; 3; 4; 5; 6; 7; 8] = Panic.
Proof. destruct B as [[|]]; vm_compute; reflexivity. Qed.
