(* ===== verification/StreamSafety.v ===== *)
(** * The stream decoder on arbitrary bytes

    A delta that announces lengths far beyond any memory can panic the decoder.
    [tame] is the executable condition that excludes it: the application header
    is announced below 2^63 bytes, the sections and the copy window fields of
    every window below 2^61, and the sections, once decompressed, are of at most
    2^28 bytes (INST) and below 2^62 bytes (DATA and ADDR).  The bound on INST
    is what keeps the output, 2^33 bytes per opcode at the most, within the
    positions the decoder adds up.  On a tame delta below 64 GiB, valid or
    hostile, decoding returns an error, or the windows the bytes frame, each with the
    length and the checksum its header announces. *)

From stdpp Require Import base numbers list option.
From Stdlib Require Import ZArith Lia.
From S2P Require Import Prelude Varint AddrCache CodeTable Semantics Header WindowEncoder Source.
From S2P Require Import Secondary WindowDecoder WindowRoundtrip StreamRoundtrip DecoderSafety.

Local Open Scope Z_scope.
Local Open Scope rust_scope.

(** ** Tame deltas *)

(** The length of the application header, before anything is checked. *)
Definition app_length (r : bytes) : result io_kind Z :=
  let* (_, r) := read_exact 4 r in
  let* (ind, r) := read_byte r in
  let* r := if has ind VCD_SECONDARY then let* (_, r) := read_byte r in Ok r else Ok r in
  if has ind VCD_APPHEADER then let* (n, _) := stream_read_u64 r in Ok n else Ok 0.

(** The lengths of the three sections, before anything is checked. *)
Definition section_lengths (r : bytes) : result io_kind (Z * Z * Z) :=
  let* (ind, r) := read_byte r in
  let* r :=
    if has ind (Z.lor VCD_SOURCE VCD_TARGET) then
      let* (_, r) := stream_read_u64 r in let* (_, r) := stream_read_u64 r in Ok r
    else Ok r in
  let* (_, r) := stream_read_u64 r in
  let* (_, r) := stream_read_u64 r in
  let* (_, r) := read_byte r in
  let* (d, r) := stream_read_u64 r in
  let* (i, r) := stream_read_u64 r in
  let* (a, _) := stream_read_u64 r in
  Ok (d, i, a).

Definition tame_lengths (r : bytes) : bool :=
  match section_lengths r with
  | Ok (d, i, a) => (d <? 2 ^ 61) && (i <? 2 ^ 61) && (a <? 2 ^ 61)
  | _ => true
  end.

(** The sections of a window, and what follows them. *)
Definition cut_sections (h : WindowHeader.t) (r : bytes) : result io_kind (bytes * bytes * bytes * bytes) :=
  let* (d, r) := read_exact (WindowHeader.data_len h) r in
  let* (i, r) := read_exact (WindowHeader.inst_len h) r in
  let* (a, r) := read_exact (WindowHeader.addr_len h) r in
  Ok (d, i, a, r).

(** After decompression INST has at most 2^28 bytes, DATA and ADDR fewer than
    2^62. *)
Definition tame_sections (m : result DecodeError (bytes * bytes * bytes)) : bool :=
  match m with
  | Ok (d, i, a) => (lenZ d <? 2 ^ 62) && (lenZ i <=? 2 ^ 28) && (lenZ a <? 2 ^ 62)
  | _ => true
  end.

Fixpoint tame_windows {B : Build} `{Codecs} (fuel : nat) (id : option Z) (r : bytes) : bool :=
  match fuel with
  | O => true
  | S fuel =>
      tame_lengths r &&
      match WindowHeader.decode r with
      | Ok (Some h, r) =>
          (WindowHeader.copy_window_len h <? 2 ^ 61) && (WindowHeader.copy_window_offset h <? 2 ^ 61) &&
          match cut_sections h r with
          | Ok (d, i, a, r) =>
              tame_sections (decompress_sections d i a (WindowHeader.del_ind h) id) &&
              tame_windows fuel id r
          | _ => true
          end
      | _ => true
      end
  end.

Definition tame {B : Build} `{Codecs} (delta : bytes) : bool :=
  match app_length delta with Ok n => n <? 2 ^ 63 | _ => true end &&
  match FileHeader.decode delta with
  | Ok (h, r) => tame_windows (S (length r)) (FileHeader.secondary_id h) r
  | _ => true
  end.

(** The bytes [r] are windows with the headers [hs], and nothing else. *)
Inductive framed {B : Build} : bytes -> list WindowHeader.t -> Prop :=
  | framed_nil : framed [] []
  | framed_cons r h r1 d i a r2 hs :
      WindowHeader.decode r = Ok (Some h, r1) -> cut_sections h r1 = Ok (d, i, a, r2) ->
      framed r2 hs -> framed r (h :: hs).

(** The chunk is what the header announces. *)
Definition as_announced `{Adler32} (h : WindowHeader.t) (chunk : bytes) : Prop :=
  lenZ chunk = WindowHeader.target_window_len h /\
  forall k, WindowHeader.adler32 h = Some k -> compute_adler32 chunk = k.

(** ** Sections *)

(** The decompressors return bytes. *)
Definition codecs_typed `{Codecs} : Prop :=
  (forall c d, wf_bytes c -> lzma_decompress c = Some d -> wf_bytes d) /\
  (forall c d, wf_bytes c -> zlib_decompress c = Some d -> wf_bytes d).

Section Sections.
Context `{Codecs}.

Lemma backend_wf id be x y :
  codecs_typed -> backend_for_id id = Ok be -> wf_bytes x -> decompress_section be x = Ok y -> wf_bytes y.
Proof.
  intros [Hlz Hz] Hbe Hx. unfold backend_for_id in Hbe.
  repeat match type of Hbe with
  | match ?x with _ => _ end = Ok _ => destruct x
  end; try discriminate; injection Hbe as <-; unfold decompress_section; simpl; unfold ok_or_failed.
  - destruct (lzma_decompress x) eqn:E; [|done]. intros [= <-]. by apply (Hlz x).
  - destruct (zlib_decompress x) eqn:E; [|done]. intros [= <-]. by apply (Hz x).
Qed.

Lemma decompress_wf d i a del id d' i' a' :
  codecs_typed -> wf_bytes d -> wf_bytes i -> wf_bytes a ->
  decompress_sections d i a del id = Ok (d', i', a') -> wf_bytes d' /\ wf_bytes i' /\ wf_bytes a'.
Proof.
  intros Hct Hd Hi Ha. unfold decompress_sections.
  destruct (_ =? 0); [by intros [= <- <- <-]|]. intros He.
  apply bind_ok_inv in He as (be & Hbe & He). apply bind_ok_inv in He as (x & Hx & He).
  apply bind_ok_inv in He as (y & Hy & He). apply bind_ok_inv in He as (z & Hz & He).
  injection He as <- <- <-. pose proof (fun x y => backend_wf id be x y Hct Hbe) as Hb.
  split_and!.
  - destruct (has del VCD_DATACOMP); [by apply (Hb d)|by injection Hx as <-].
  - destruct (has del VCD_INSTCOMP); [by apply (Hb i)|by injection Hy as <-].
  - destruct (has del VCD_ADDRCOMP); [by apply (Hb a)|by injection Hz as <-].
Qed.
End Sections.

Lemma zeros_typed : codecs_typed (H:=zeros_codecs).
Proof.
  split; intros [|n c] d Hc; simpl; try done; intros [= <-];
    apply wf_bytes_cons in Hc as [_ Hc]; apply wf_bytes_app; (split; [|done]); by apply Forall_replicate.
Qed.

(** ** Headers *)

Lemma read_exact_safe n r : safe (fun '(l, r') => l = take (Z.to_nat n) r /\ r' = drop (Z.to_nat n) r) (read_exact n r).
Proof. unfold read_exact. by destruct (_ <=? _). Qed.

Lemma stream_read_safe r : safe (fun _ => True) (stream_read_u64 r).
Proof.
  unfold stream_read_u64. generalize 0. induction r as [|b r IH]; intros v; simpl; [done|].
  destruct (negb _); [done|]. by destruct (_ =? 0).
Qed.

(** Run the two parsers in step: a field that does not parse ends both. *)
Ltac field_step :=
  match goal with
  | |- context [stream_read_u64 ?r] =>
      let Hs := fresh in
      pose proof (stream_read_safe r) as Hs;
      destruct (stream_read_u64 r) as [[? ?]| | |] eqn:?; simpl in Hs;
      [clear Hs|clear Hs; cbn [bind safe]; done|done|done]; cbn [bind]
  end.

Lemma file_header_safe r :
  match app_length r with Ok n => n <? 2 ^ 63 | _ => true end = true ->
  safe (fun _ => True) (FileHeader.decode r).
Proof.
  unfold app_length, FileHeader.decode, stream_read_usize.
  pose proof (read_exact_safe 4 r) as H4.
  destruct (read_exact 4 r) as [[magic r1]| | |]; try done. cbn [bind]. intros Ht.
  destruct (negb (bool_decide _)); [done|]. destruct (negb (_ =? 0)); [done|].
  destruct r1 as [|ind r1]; [done|]. cbn [read_byte bind] in *.
  destruct (has ind VCD_INVHDR); [done|].
  destruct (has ind VCD_SECONDARY); [destruct r1 as [|b r1]; [done|]|]; cbn [read_byte bind] in *;
    (destruct (has ind VCD_CODETABLE); [done|]);
    (destruct (has ind VCD_APPHEADER); [|done]);
    revert Ht; field_step; intros Ht; apply Z.ltb_lt in Ht;
    (destruct (in_rangeb 64 _); [|done]); cbn [bind]; unfold alloc;
    rewrite (proj2 (Z.leb_le _ _)) by lia; cbn [bind];
    match goal with |- context [read_exact ?n ?x] => pose proof (read_exact_safe n x); by destruct (read_exact n x) as [[? ?]| | |] end.
Qed.

Section Headers.
Context {B : Build}.

Definition lengths_below (h : WindowHeader.t) : Prop :=
  WindowHeader.data_len h < 2 ^ 61 /\ WindowHeader.inst_len h < 2 ^ 61 /\ WindowHeader.addr_len h < 2 ^ 61.

Lemma compute_enc_len_safe {E} h :
  is_u64 (WindowHeader.target_window_len h) -> is_u64 (WindowHeader.data_len h) ->
  is_u64 (WindowHeader.inst_len h) -> is_u64 (WindowHeader.addr_len h) -> lengths_below h ->
  safe (fun _ => True) (WindowHeader.compute_enc_len (E:=E) h).
Proof.
  intros Ht Hd Hi Ha (Hd' & Hi' & Ha'). unfold WindowHeader.compute_enc_len.
  assert (forall n, is_u64 n -> 0 <= sizeof_u64 n <= 10) as Hs.
  { intros n Hn. rewrite sizeof_u64_varint by done. pose proof (varint_length_le n Hn).
    pose proof (lenZ_nonneg (varint n)). lia. }
  pose proof (Hs _ Ht). pose proof (Hs _ Hd). pose proof (Hs _ Hi). pose proof (Hs _ Ha).
  unfold in_range in *.
  do 8 (rewrite add_w_ok by (unfold in_range; lia); cbn [bind]).
  destruct (WindowHeader.has_checksum h); [|done]. by rewrite add_w_ok by (unfold in_range; lia).
Qed.

(** Fields are read one after the other, and what is left is bytes. *)
Ltac field_wf :=
  match goal with
  | H : stream_read_u64 ?r = Ok (?v, ?r'), Hr : wf_bytes ?r |- _ =>
      apply read_field_inv in H as (? & ? & _); [|exact Hr]
  end.

(** The fields behind the copy window. *)
Lemma window_fields_safe ind cl co r :
  wf_bytes r ->
  match (let* (_, r) := stream_read_u64 r in let* (_, r) := stream_read_u64 r in
         let* (_, r) := read_byte r in let* (d, r) := stream_read_u64 r in
         let* (i, r) := stream_read_u64 r in let* (a, _) := stream_read_u64 r in Ok (d, i, a)) with
  | Ok (d, i, a) => (d <? 2 ^ 61) && (i <? 2 ^ 61) && (a <? 2 ^ 61) | _ => true end = true ->
  safe (fun '(oh, _) => match oh with Some h => lengths_below h | None => False end)
    (let* (elen, r) := stream_read_u64 r in let* (tlen, r) := stream_read_u64 r in
     if HARD_MAX_WINSIZE <? tlen then Err InvalidData
     else
       let* (del, r) := read_byte r in
       if has del VCD_INVDEL then Err InvalidData
       else
         let* (d, r) := stream_read_u64 r in let* (i, r) := stream_read_u64 r in
         let* (a, r) := stream_read_u64 r in
         let* (adler32, r) :=
           if has ind VCD_ADLER32 then
             let* (cksum_buf, r) := read_exact 4 r in Ok (Some (from_be_bytes cksum_buf), r)
           else Ok (None, r) in
         let hdr := WindowHeader.mk ind cl co elen tlen del d i a adler32 in
         let* expected := WindowHeader.compute_enc_len hdr in
         if negb (elen =? expected) then Err InvalidData else Ok (Some hdr, r)).
Proof.
  intros Hr. do 2 (field_step; field_wf). destruct (HARD_MAX_WINSIZE <? _); [done|].
  match goal with |- context [read_byte ?x] => destruct x as [|del r2]; [done|] end.
  cbn [read_byte bind]. destruct (has del VCD_INVDEL); [done|].
  match goal with H : wf_bytes (_ :: _) |- _ => apply wf_bytes_cons in H as [_ ?] end.
  do 3 (field_step; field_wf). intros Hl. apply andb_true_iff in Hl as [Hl Ha%Z.ltb_lt].
  apply andb_true_iff in Hl as [Hd%Z.ltb_lt Hi%Z.ltb_lt].
  eapply (safe_bind (fun _ => True)).
  { destruct (has ind VCD_ADLER32); [|done].
    match goal with |- context [read_exact 4 ?x] =>
      pose proof (read_exact_safe 4 x); by destruct (read_exact 4 x) as [[? ?]| | |] end. }
  intros [ad r9] _. eapply safe_bind; [by apply compute_enc_len_safe|]. intros ex _.
  by destruct (negb _).
Qed.

Lemma window_header_safe r :
  wf_bytes r -> tame_lengths r = true ->
  safe (fun '(oh, _) => match oh with Some h => lengths_below h | None => r = [] end) (WindowHeader.decode r).
Proof.
  unfold tame_lengths, section_lengths, WindowHeader.decode. destruct r as [|ind r]; [done|].
  intros [_ Hr]%wf_bytes_cons. cbn [read_byte bind].
  destruct (has ind VCD_INVWIN); [done|]. destruct (_ && _); [done|].
  destruct (has ind (Z.lor VCD_SOURCE VCD_TARGET)); [do 2 (field_step; field_wf)|]; cbn [bind]; intros Ht;
    (eapply safe_weaken; [by apply window_fields_safe|by intros [[h|] ?]]).
Qed.
End Headers.

(** ** Windows *)

Section Stream.
Context {B : Build} `{Adler32} `{Codecs} (Hct : codecs_typed).

Lemma read_section_eq n r :
  n < 2 ^ 63 -> StreamDecoder.read_section n r = map_err Io (read_exact n r).
Proof.
  intros Hn. unfold StreamDecoder.read_section, alloc. by rewrite (proj2 (Z.leb_le _ _)) by lia.
Qed.

(** The decoder reads the sections as they are cut. *)
Lemma read_sections_cut {A} h r (k : bytes -> bytes -> bytes -> bytes -> result DecodeError A) :
  lengths_below h ->
  (let* (d, r) := StreamDecoder.read_section (WindowHeader.data_len h) r in
   let* (i, r) := StreamDecoder.read_section (WindowHeader.inst_len h) r in
   let* (a, r) := StreamDecoder.read_section (WindowHeader.addr_len h) r in k d i a r)
  = let* (d, i, a, r) := map_err Io (cut_sections h r) in k d i a r.
Proof.
  intros (Hd & Hi & Ha). unfold cut_sections. rewrite read_section_eq by lia.
  destruct (read_exact (WindowHeader.data_len h) r) as [[d r1]| | |]; [cbn [map_err bind]|done..].
  rewrite read_section_eq by lia.
  destruct (read_exact (WindowHeader.inst_len h) r1) as [[i r2]| | |]; [cbn [map_err bind]|done..].
  rewrite read_section_eq by lia.
  by destruct (read_exact (WindowHeader.addr_len h) r2) as [[a r3]| | |].
Qed.

Lemma cut_sections_wf h r :
  wf_bytes r ->
  safe (fun '(d, i, a, r') => wf_bytes d /\ wf_bytes i /\ wf_bytes a /\ wf_bytes r' /\ lenZ r' <= lenZ r)
    (cut_sections h r).
Proof.
  intros Hr. assert (forall n r, wf_bytes r ->
    safe (fun '(l, r') => wf_bytes l /\ wf_bytes r' /\ lenZ r' <= lenZ r) (read_exact n r)) as Hx.
  { clear r Hr. intros n r Hr. eapply safe_weaken; [apply read_exact_safe|]. intros [l r'] [-> ->].
    split_and!; [by apply Forall_take|by apply Forall_drop|unfold lenZ; rewrite length_drop; lia]. }
  unfold cut_sections. eapply safe_bind; [by apply Hx|]. intros [d r1] (? & ? & ?).
  eapply safe_bind; [by apply Hx|]. intros [i r2] (? & ? & ?).
  eapply safe_bind; [by apply Hx|]. intros [a r3] (? & ? & ?). simpl. split_and!; auto; lia.
Qed.

Lemma decompress_safe d i a del id : safe (fun _ => True) (decompress_sections d i a del id).
Proof.
  unfold decompress_sections. destruct (_ =? 0); [done|].
  destruct (backend_for_id id) as [be| | |] eqn:Hbe; try done.
  - assert (forall x, safe (fun _ => True) (decompress_section be x)) as Hx.
    { intros x. unfold backend_for_id in Hbe.
      repeat match type of Hbe with
      | match ?x with _ => _ end = Ok _ => destruct x
      end; try discriminate; injection Hbe as <-; unfold decompress_section; simpl.
      - by destruct (lzma_decompress x).
      - by destruct (zlib_decompress x). }
    cbn [bind]. do 3 (eapply (safe_bind (fun _ => True)); [by destruct (has _ _)|intros ? _]). done.
  - revert Hbe. unfold backend_for_id. repeat (case_match; try done).
  - revert Hbe. unfold backend_for_id. repeat (case_match; try done).
Qed.

(** A window was decoded: the decoder is behind it. *)
Definition window_done (fuel : nat) (fh : FileHeader.t) (r out : bytes) (d' : StreamDecoder.t) (out' : bytes)
    : Prop :=
  exists h r1 sd si sa r2 chunk,
    WindowHeader.decode r = Ok (Some h, r1) /\ cut_sections h r1 = Ok (sd, si, sa, r2) /\
    out' = out ++ chunk /\ as_announced h chunk /\ lenZ chunk <= HARD_MAX_WINSIZE /\
    ready d' fh true r2 /\ wf_bytes r2 /\ lenZ r2 < lenZ r /\
    tame_windows fuel (FileHeader.secondary_id fh) r2 = true.

(** The bounds of a window within which decoding it is safe. *)
Record window_bounds (h : WindowHeader.t) (sec : Sections) : Prop := {
  wb_inst : wf_bytes (sec_inst sec);
  wb_addr : wf_bytes (sec_addr sec);
  wb_data_len : lenZ (sec_data sec) < 2 ^ 62;
  wb_addr_len : lenZ (sec_addr sec) < 2 ^ 62;
  wb_inst_len : lenZ (sec_inst sec) <= 2 ^ 28;
  wb_target_len : 0 <= WindowHeader.target_window_len h <= HARD_MAX_WINSIZE;
  wb_copy_len : 0 <= WindowHeader.copy_window_len h < 2 ^ 61;
  wb_copy_offset : 0 <= WindowHeader.copy_window_offset h < 2 ^ 61
}.

(** What stands in front of the instructions of a window does not depend on
    the source and the output: the decoder is at its end, or fails, or has the
    header and the sections of a bounded window. *)
Inductive window_read (fuel : nat) (d : StreamDecoder.t) (fh : FileHeader.t) (r : bytes) : Prop :=
  | read_end d' :
      r = [] -> (forall s out : bytes, StreamDecoder.decode_window d s out = Ok (false, d', s, out)) ->
      window_read fuel d fh r
  | read_error e :
      (forall s out : bytes, StreamDecoder.decode_window d s out = Err e) -> window_read fuel d fh r
  | read_sections h r1 db ib ab r2 sec :
      WindowHeader.decode r = Ok (Some h, r1) -> cut_sections h r1 = Ok (db, ib, ab, r2) ->
      window_bounds h sec -> wf_bytes r2 -> lenZ r2 < lenZ r ->
      tame_windows fuel (FileHeader.secondary_id fh) r2 = true ->
      (forall s out : bytes, StreamDecoder.decode_window d s out
        = let* (out, s, buf, c) :=
            decode_window_with_cache h sec s true (StreamDecoder.copy_buf d) out (StreamDecoder.acache d) in
          Ok (true, StreamDecoder.mk r2 (Some fh) true (FileHeader.secondary_id fh) db ib ab buf c, s, out)) ->
      window_read fuel d fh r.

Lemma window_read_cases fuel d fh r :
  ready d fh true r -> wf_bytes r -> tame_windows (S fuel) (FileHeader.secondary_id fh) r = true ->
  window_read fuel d fh r.
Proof.
  intros (Hfh & Hsid & Hv & Hrd & Hc) Hr Ht. cbn [tame_windows] in Ht.
  apply andb_true_iff in Ht as [Hl Ht]. pose proof (window_header_safe r Hr Hl) as Hh.
  assert (forall s out, StreamDecoder.decode_window (S:=bytes) d s out =
    ltac:(let t := eval cbv delta [StreamDecoder.decode_window] beta in
            (StreamDecoder.decode_window (S:=bytes) d s out) in exact t)) as Hdw by done.
  revert Hdw. unfold StreamDecoder.ensure_header. rewrite Hfh. cbn [bind]. rewrite Hrd, Hsid, Hv. intros Hdw.
  destruct (WindowHeader.decode r) as [[[h|] r1]|e| |] eqn:Hdec; try done;
    [|eapply read_end; [exact Hh|exact Hdw]|eapply read_error; exact Hdw].
  simpl in Hh. pose proof (window_header_decode_wf r h r1 Hr Hdec) as ([Hwf _] & Hr1 & Hlt).
  apply andb_true_iff in Ht as [Hw Ht]. apply andb_true_iff in Hw as [Hcl%Z.ltb_lt Hco%Z.ltb_lt].
  cbn [map_err bind] in Hdw. destruct (has _ _); [eapply read_error; exact Hdw|].
  setoid_rewrite read_sections_cut in Hdw; [|done].
  pose proof (cut_sections_wf h r1 Hr1) as Hcut.
  destruct (cut_sections h r1) as [[[[db ib] ab] r2]|e| |] eqn:Ecut; try done;
    [|eapply read_error; exact Hdw].
  cbn [map_err bind safe] in *. destruct Hcut as (Hdb & Hib & Hab & Hr2 & Hlt2).
  apply andb_true_iff in Ht as [Hts Htw].
  assert ((if negb (WindowHeader.del_ind h =? 0)
    then decompress_sections db ib ab (WindowHeader.del_ind h) (FileHeader.secondary_id fh) else Ok (db, ib, ab))
    = decompress_sections db ib ab (WindowHeader.del_ind h) (FileHeader.secondary_id fh)) as Heq
    by (unfold decompress_sections; by destruct (WindowHeader.del_ind h =? 0)).
  rewrite Heq in Hdw.
  pose proof (decompress_safe db ib ab (WindowHeader.del_ind h) (FileHeader.secondary_id fh)) as Hds.
  destruct (decompress_sections db ib ab _ _) as [[[sd si] sa]|e| |] eqn:Edec; try done;
    [|eapply read_error; exact Hdw].
  cbn [bind] in Hdw. apply (decompress_wf db ib ab) in Edec as (Hsd & Hsi & Hsa); [|done..].
  unfold tame_sections in Hts. rewrite !andb_true_iff, !Z.ltb_lt, Z.leb_le in Hts. destruct Hts as [[? ?] ?].
  destruct Hwf as [_ _ [Hcl0 _] [Hco0 _] _ Htl _ _ _ _ _ _].
  eapply (read_sections _ _ _ _ h r1 db ib ab r2 (sections sd si sa)); try done; [lia|].
  intros s out. rewrite Hdw. by rewrite Hfh.
Qed.

Lemma stream_window_safe fuel d fh r (s out : bytes) :
  ready d fh true r -> wf_bytes r -> tame_windows (S fuel) (FileHeader.secondary_id fh) r = true ->
  lenZ out < 2 ^ 61 ->
  safe (fun '(more, d', _, out') =>
          if more : bool then window_done fuel fh r out d' out' else r = [] /\ out' = out)
    (StreamDecoder.decode_window d s out).
Proof.
  intros Hd Hr Ht Ho.
  destruct (window_read_cases fuel d fh r Hd Hr Ht)
    as [d' -> ->|e ->|h r1 db ib ab r2 sec Hdec Hcut Hb Hr2 Hlt Htw ->]; [done..|].
  destruct Hd as (_ & _ & _ & _ & Hc). destruct Hb.
  pose proof (decode_window_safe (contents:=fun x : bytes => x) h sec s true
    (StreamDecoder.copy_buf d) out (StreamDecoder.acache d)) as Hsafe.
  destruct (decode_window_with_cache h sec s true (StreamDecoder.copy_buf d) out (StreamDecoder.acache d))
    as [[[[out' s'] buf'] c']| | |]; cbn [bind safe]; [|done|by apply Hsafe..].
  destruct Hsafe as (_ & Hc' & chunk & -> & Hlen & Hck); try done.
  exists h, r1, db, ib, ab, r2, chunk. do 3 (split; [done|]).
  split; [split; [done|intros k Hk; by apply Hck]|]. split; [lia|]. by split_and!.
Qed.

Lemma stream_windows_safe fuel : forall tfuel d fh r (s out : bytes),
  ready d fh true r -> wf_bytes r -> (length r < fuel)%nat -> (length r < tfuel)%nat ->
  tame_windows tfuel (FileHeader.secondary_id fh) r = true ->
  lenZ out + HARD_MAX_WINSIZE * lenZ r < 2 ^ 61 ->
  safe (fun '(_, _, out') => exists hs chunks, framed r hs /\ out' = out ++ concat chunks /\
          Forall2 as_announced hs chunks)
    (StreamDecoder.decode_windows fuel d s out).
Proof.
  induction fuel as [|fuel IH]; intros [|tfuel] d fh r s out Hd Hr Hf Htf Ht Hl; try lia.
  cbn [StreamDecoder.decode_windows]. unfold HARD_MAX_WINSIZE in Hl. pose proof (lenZ_nonneg r).
  eapply safe_bind; [apply (stream_window_safe tfuel d fh r s out Hd Hr Ht); lia|].
  intros [[[more d'] s'] out'] Hmore. destruct more.
  - destruct Hmore as (h & r1 & sd & si & sa & r2 & chunk & Hh & Hcut & -> & Hann & Hcl & Hd' & Hr2 & Hlt & Ht').
    unfold HARD_MAX_WINSIZE in Hcl. unfold lenZ in Hlt.
    eapply safe_weaken; [apply (IH tfuel d' fh r2 s' (out ++ chunk)); auto; try lia|].
    + rewrite lenZ_app. unfold HARD_MAX_WINSIZE, lenZ in *. lia.
    + intros [[? ?] o] (hs & chunks & Hfr & -> & Hall). exists (h :: hs), (chunk :: chunks).
      split_and!; [by econstructor|by rewrite <- app_assoc|by constructor].
  - destruct Hmore as [-> ->]. exists [], []. split_and!; [constructor|by rewrite app_nil_r|constructor].
Qed.

(** The first window reads the file header. *)
Lemma first_window delta (s out : bytes) :
  StreamDecoder.decode_window (StreamDecoder.new delta true) s out
  = let* (fh, r) := map_err Io (FileHeader.decode delta) in
    StreamDecoder.decode_window (after_header fh true r) s out.
Proof.
  unfold StreamDecoder.decode_window at 1, StreamDecoder.ensure_header.
  cbn [StreamDecoder.file_header StreamDecoder.reader StreamDecoder.new].
  by destruct (FileHeader.decode delta) as [[fh r]| | |].
Qed.

(** The bytes behind the file header. *)
Lemma header_rest delta fh r :
  wf_bytes delta -> FileHeader.decode delta = Ok (fh, r) -> wf_bytes r /\ (length r <= length delta)%nat.
Proof.
  intros Hwf Hdec. destruct (file_header_decode_suffix delta fh r Hwf Hdec) as [pre ->].
  apply wf_bytes_app in Hwf as [_ ?]. split; [done|]. rewrite length_app. lia.
Qed.
End Stream.

(** ** Theorem *)

(** C9: decoding arbitrary bytes is safe.  Take any delta of less than 64 GiB,
    valid, damaged or hostile, that is [tame]: it announces an application
    header below 2^63 bytes, section lengths and copy window fields below 2^61
    and, once decompressed, INST sections of at most 2^28 bytes and DATA and
    ADDR sections below 2^62.  Over any source, [decode_memory] neither panics,
    nor overflows, nor reads out of bounds, nor loops; it returns an error or a
    result.  A result accounts for
    every byte of the delta: the bytes behind the file header are exactly a
    sequence of windows, and the output is one chunk for each, of the length
    its header announces and with the checksum its header carries. *)
Theorem decode_safe {B : Build} `{Adler32} `{Codecs} (delta source : bytes) :
  codecs_typed -> wf_bytes delta -> lenZ delta < 2 ^ 36 -> tame delta = true ->
  match decode_memory delta source with
  | Ok out => exists fh r hs chunks, FileHeader.decode delta = Ok (fh, r) /\ framed r hs /\
                out = concat chunks /\ Forall2 as_announced hs chunks
  | Err _ => True
  | Panic | Diverge => False
  end.
Proof.
  intros Hct Hwf Hl [Happ Ht]%andb_true_iff. pose proof (file_header_safe delta Happ) as Hh.
  unfold decode_memory, StreamDecoder.decode_all. cbn [StreamDecoder.reader StreamDecoder.new].
  destruct (FileHeader.decode delta) as [[fh r]| | |] eqn:Hdec; try done.
  - destruct (header_rest delta fh r Hwf Hdec) as [Hr Hlr].
    pose proof (stream_windows_safe Hct (S (length delta)) (S (length r)) (after_header fh true r) fh r source []
      (ready_after_header fh true r) Hr ltac:(lia) ltac:(lia) Ht) as Hs.
    assert (StreamDecoder.decode_windows (S (length delta)) (StreamDecoder.new delta true) source []
      = StreamDecoder.decode_windows (S (length delta)) (after_header fh true r) source []) as Heq
      by (cbn [StreamDecoder.decode_windows]; by rewrite first_window, Hdec).
    rewrite Heq. unfold HARD_MAX_WINSIZE, lenZ in *.
    destruct (StreamDecoder.decode_windows _ _ _ _) as [[[d' s'] out]| | |]; cbn [bind];
      [|done|apply Hs; simpl; lia..].
    destruct Hs as (hs & chunks & Hfr & Hout & Hall); [simpl; lia|]. exists fh, r, hs, chunks.
    by split_and!.
  - cbn [StreamDecoder.decode_windows]. by rewrite first_window, Hdec.
Qed.

(** A window that copies from nowhere, and a second one cut short. *)
Lemma decode_safe_witness :
  let delta := [214; 195; 196; 0; 0; 0; 9; 3; 0; 3; 1; 0; 5; 5; 6; 4; 0; 9; 4; 0; 0; 3; 1; 20; 255] in
  match decode_memory (B:={| debug_build := true |}) (H:=adler32_fallback) (H0:=zeros_codecs) delta [1; 2] with
  | Ok out => exists fh r hs chunks, FileHeader.decode delta = Ok (fh, r) /\
                framed (B:={| debug_build := true |}) r hs /\ out = concat chunks /\
                Forall2 (as_announced (H:=adler32_fallback)) hs chunks
  | Err _ => True
  | Panic | Diverge => False
  end.
Proof.
  apply (decode_safe (B:={| debug_build := true |}) (H:=adler32_fallback) (H0:=zeros_codecs)
    [214; 195; 196; 0; 0; 0; 9; 3; 0; 3; 1; 0; 5; 5; 6; 4; 0; 9; 4; 0; 0; 3; 1; 20; 255] [1; 2]).
  - exact zeros_typed.
  - by apply in_range_list.
  - reflexivity.
  - vm_compute. reflexivity.
Defined.
