(* ===== verification/Staging.v ===== *)
(** * The fast path and the staging decoder

    compress/decoder.rs has two decoders.  [decode_all] appends every window to
    one growing vector; [DeltaDecoder::decode_to] decodes a window into a
    staging buffer of its own and hands the buffer to the writer.  Inside a
    window the two differ in everything that depends on how much output came
    before: the base offset, the length of the output, the addresses of target
    copies.  Here they are shown to be the same decoder, on valid and on
    hostile deltas. *)

From stdpp Require Import base numbers list option.
From Stdlib Require Import ZArith Lia.
From S2P Require Import Prelude Varint AddrCache CodeTable Semantics Header WindowEncoder Source.
From S2P Require Import Secondary WindowDecoder WindowRoundtrip StreamRoundtrip Delta DecoderSafety StreamSafety.

Local Open Scope Z_scope.
Local Open Scope rust_scope.

(** ** One window *)

(** The state that has [pre] in front of its output. *)
Definition behind {S} (pre : bytes) (st : DecodeState S) : DecodeState S :=
  dstate (inst_pos st) (data_pos st) (addr_pos st) (acache st) (target_pos st)
         (pre ++ output st) (source st) (copy_buf st).

Definition fmap_ok {E A B} (f : A -> B) (m : result E A) : result E B := let* x := m in Ok (f x).

Section Window.
Context {B : Build} {S : Type} `{SourceProvider S} {contents : S -> bytes} `{!SourceLaws S contents}.
Context (sec : Sections) (cwl cwo : Z) (pre src : bytes).
Context (Hinst : wf_bytes (sec_inst sec)) (Haddr : wf_bytes (sec_addr sec)).
Context (Hdlen : lenZ (sec_data sec) < 2 ^ 62) (Halen : lenZ (sec_addr sec) < 2 ^ 62).
Context (Hilen : lenZ (sec_inst sec) <= 2 ^ 28) (Hpre : lenZ pre < 2 ^ 61).
Context (Hwin : 0 <= cwl < 2 ^ 61 /\ 0 <= cwo < 2 ^ 61).

(** The state of a window decoded into an empty buffer. *)
Local Abbreviation staged := (dec_inv (contents:=contents) sec [] src).

Lemma staged_output st : staged st -> 0 <= target_pos st /\ lenZ (output st) = target_pos st.
Proof. intros Hst. apply (dec_target sec [] src) in Hst as [? Hl]. split; [done|]. rewrite Hl. done. Qed.

Lemma resize_behind out n b : lenZ out <= n -> resize (pre ++ out) (lenZ pre + n) b = pre ++ resize out n b.
Proof.
  intros Hn. replace n with (lenZ out + (n - lenZ out)) by lia.
  rewrite (resize_grow out) by lia.
  replace (lenZ pre + (lenZ out + (n - lenZ out))) with (lenZ (pre ++ out) + (n - lenZ out))
    by (rewrite lenZ_app; lia).
  rewrite resize_grow by lia. by rewrite app_assoc.
Qed.

Lemma run_behind size st :
  staged st -> 0 <= size < 2 ^ 32 -> target_pos st < 2 ^ 62 ->
  execute_run (sec_data sec) size (behind pre st) = fmap_ok (behind pre) (execute_run (sec_data sec) size st).
Proof.
  intros Hst Hs Htp. pose proof (staged_output st Hst) as [Ht Hl]. pose proof (lenZ_nonneg pre).
  unfold execute_run. cbn [data_pos inst_pos addr_pos acache target_pos output source copy_buf behind].
  destruct (lenZ (sec_data sec) <=? data_pos st); [done|].
  destruct (index (sec_data sec) (data_pos st)); [cbn [bind]|done..].
  destruct (add_w 64 (data_pos st) 1); [cbn [bind]|done..].
  rewrite lenZ_app, Hl. rewrite !add_w_ok by (unfold in_range; lia). cbn [bind].
  unfold alloc. rewrite !(proj2 (Z.leb_le _ _)) by lia. cbn [bind fmap_ok]. unfold behind. cbn.
  rewrite <- Z.add_assoc, resize_behind by lia. done.
Qed.

Lemma add_behind size (st : DecodeState S) :
  execute_add (sec_data sec) size (behind pre st) = fmap_ok (behind pre) (execute_add (sec_data sec) size st).
Proof.
  unfold execute_add, fmap_ok. cbn [data_pos inst_pos addr_pos acache target_pos output source copy_buf behind].
  destruct (add_w 64 (data_pos st) size) as [e| | |]; [cbn [bind]|done..].
  destruct (lenZ (sec_data sec) <? e); [done|].
  destruct (slice (sec_data sec) (data_pos st) e); [cbn [bind]|done..].
  destruct (add_w 64 (target_pos st) size); [cbn [bind]|done..].
  unfold behind. cbn. by rewrite <- app_assoc.
Qed.

Definition output_behind (r : bytes * S * bytes) : bytes * S * bytes :=
  let '(out, s, buf) := r in (pre ++ out, s, buf).

Lemma source_copy_behind off size (st : DecodeState S) :
  copy_from_source off size (behind pre st) = fmap_ok output_behind (copy_from_source off size st).
Proof.
  unfold copy_from_source, fmap_ok. cbn [output source copy_buf behind].
  destruct (source_slice (source st) off size) as [[l|]| | |]; cbn [bind]; [by rewrite <- app_assoc| |done..].
  destruct (read_source (source st) off _) as [[[n buf] s']| | |]; [cbn [bind]|done..].
  destruct (n <? size); [done|].
  destruct (slice buf 0 size); [cbn [bind]|done..]. cbn. by rewrite <- app_assoc.
Qed.

(** The index of a byte behind [pre]. *)
Lemma index_behind {E} out p :
  0 <= p -> index (E:=E) (pre ++ out) (lenZ pre + p) = index out p.
Proof.
  intros Hp. unfold index, lenZ. pose proof (Zle_0_nat (length pre)).
  rewrite !(proj2 (Z.ltb_ge _ _)) by lia.
  rewrite lookup_app_r by lia. by replace (Z.to_nat (Z.of_nat (length pre) + p) - length pre)%nat with (Z.to_nat p) by lia.
Qed.

Lemma for_in_behind {E A} (l : list A) (f g : A -> bytes -> result E bytes) :
  (forall i out, i ∈ l -> g i (pre ++ out) = fmap_ok (app pre) (f i out)) ->
  forall out, for_in l g (pre ++ out) = fmap_ok (app pre) (for_in l f out).
Proof.
  induction l as [|i l IH]; intros Hg out; [done|]. cbn [for_in]. rewrite Hg by (by left).
  destruct (f i out); [cbn [fmap_ok bind]|done..]. apply IH. intros j o Hj. apply Hg. by right.
Qed.

Lemma target_copy_behind {E} off size out :
  0 <= off -> off + size < 2 ^ 62 -> 0 <= size ->
  copy_from_target (E:=E) (lenZ pre + off) size (pre ++ out)
  = fmap_ok (app pre) (copy_from_target off size out).
Proof.
  intros Ho Hs Hs0. unfold copy_from_target. pose proof (lenZ_nonneg pre).
  rewrite !add_w_ok by (unfold in_range; lia). cbn [bind]. rewrite lenZ_app.
  destruct (Z.leb_spec (off + size) (lenZ out)).
  - rewrite (proj2 (Z.leb_le _ _)) by lia. rewrite slice_ok by (rewrite ?lenZ_app; lia).
    rewrite slice_ok by lia. cbn [bind fmap_ok]. unfold sub. rewrite drop_app_ge by (unfold lenZ; lia).
    rewrite <- app_assoc. do 3 f_equal. f_equal; [lia|]. f_equal. unfold lenZ. lia.
  - rewrite (proj2 (Z.leb_gt _ _)) by lia. apply for_in_behind. intros i o Hi.
    apply elem_of_seqZ in Hi. rewrite !add_w_ok by (unfold in_range; lia). cbn [bind].
    rewrite <- Z.add_assoc, index_behind by lia. unfold fmap_ok.
    destruct (index o (off + i)); [cbn [bind]|done..]. by rewrite <- app_assoc.
Qed.

Lemma copy_behind itype size st :
  staged st -> 3 <= itype <= 11 -> 0 <= size < 2 ^ 32 -> target_pos st < 2 ^ 61 ->
  execute_copy itype (sec_addr sec) cwl cwo (lenZ pre) size (behind pre st)
  = fmap_ok (behind pre) (execute_copy itype (sec_addr sec) cwl cwo 0 size st).
Proof.
  intros Hst Hit Hs Htp. pose proof (staged_output st Hst) as [Ht Hl].
  pose proof Hst as [Hi Hd Ha Hc Ho Hsrc]. pose proof (lenZ_nonneg pre).
  unfold execute_copy, XD3_CPY.
  cbn [data_pos inst_pos addr_pos acache target_pos output source copy_buf behind].
  rewrite sub_w_ok by (unfold in_range; lia). cbn [bind].
  rewrite add_w_ok by (unfold in_range; lia). cbn [bind].
  rewrite slice_from_ok by lia. cbn [bind].
  pose proof (address_safe (acache st) (itype - 3) (cwl + target_pos st)
    (drop (Z.to_nat (addr_pos st)) (sec_addr sec)) Hc (Forall_drop _ _ _ Haddr)
    ltac:(unfold in_range; lia) ltac:(lia)) as Hdec.
  destruct (AddressCache.decode _ _ _ _) as [[[a n] c']| | |]; [|done..].
  cbn [map_err bind safe] in *. destruct Hdec as (Har & _ & _).
  destruct (add_w 64 (addr_pos st) n) as [ap| | |]; [cbn [bind]|done..].
  destruct (if a <? cwl then _ else _) as [[|]| | |]; cbn [bind fmap_ok]; try done.
  assert (forall m1 m2 : result DecodeError (bytes * S * bytes), m1 = fmap_ok output_behind m2 ->
    (let* (out, src0, buf) := m1 in let* tp := add_w 64 (target_pos st) size in
     Ok (dstate (inst_pos st) (data_pos st) ap c' tp out src0 buf))
    = fmap_ok (behind pre) (let* (out, src0, buf) := m2 in let* tp := add_w 64 (target_pos st) size in
     Ok (dstate (inst_pos st) (data_pos st) ap c' tp out src0 buf))) as Hk.
  { intros m1 m2 ->. destruct m2 as [[[o s'] b]| | |]; [|done..]. cbn [fmap_ok output_behind bind].
    by destruct (add_w 64 (target_pos st) size). }
  apply Hk. clear Hk. destruct (Z.ltb_spec a cwl).
  - destruct (add_w 64 cwo a); [apply source_copy_behind|done..].
  - rewrite sub_w_ok by (unfold in_range; lia). cbn [bind].
    rewrite !add_w_ok by (unfold in_range; lia). cbn [bind]. rewrite Z.add_0_l, target_copy_behind by lia.
    unfold fmap_ok. by destruct (copy_from_target _ _ _).
Qed.

Lemma half_behind itype table_size st :
  staged st -> 1 <= itype <= 11 -> 0 <= table_size < 256 -> target_pos st < 2 ^ 61 ->
  execute_half_instruction itype table_size sec cwl cwo (lenZ pre) (behind pre st)
  = fmap_ok (behind pre) (execute_half_instruction itype table_size sec cwl cwo 0 st).
Proof.
  intros Hst Hit Hts Htp. unfold execute_half_instruction. cbn [inst_pos behind].
  pose proof (resolve_size_safe sec [] src Hinst Hilen st table_size Hst Hts) as Hr.
  destruct (resolve_size _ _ _) as [[size p]| | |]; [|done..]. cbn [bind safe] in *.
  destruct Hr as [Hs Hp].
  assert (staged (set_inst_pos st p)) as Hst'.
  { destruct Hst as [? ? ? ? ? ?]. constructor; simpl; (done || lia). }
  change (set_inst_pos (behind pre st) p) with (behind pre (set_inst_pos st p)).
  unfold execute_sized, XD3_RUN, XD3_ADD.
  destruct (Z.eqb_spec itype 2); [apply run_behind; simpl; (done || lia)|].
  destruct (Z.eqb_spec itype 1); [apply add_behind|]. apply copy_behind; simpl; (done || lia).
Qed.

(** A half-instruction that may be absent. *)
Lemma optional_half itype table_size st :
  staged st -> 0 <= itype <= 11 -> 0 <= table_size < 256 -> target_pos st < 2 ^ 61 ->
  let half base st := if negb (itype =? XD3_NOOP)
    then execute_half_instruction itype table_size sec cwl cwo base st else Ok st in
  half (lenZ pre) (behind pre st) = fmap_ok (behind pre) (half 0 st) /\
  safe (fun st' => staged st' /\ inst_pos st <= inst_pos st' /\
          target_pos st <= target_pos st' < target_pos st + 2 ^ 32) (half 0 st).
Proof.
  intros Hst Hit Hts Htp. unfold XD3_NOOP. destruct (Z.eqb_spec itype 0); cbn [negb].
  - split; [done|]. simpl. split; [done|lia].
  - split; [apply half_behind; (done || lia)|].
    apply (execute_half_safe sec cwl cwo [] src); (done || simpl; lia).
Qed.

Lemma loop_behind fuel st :
  staged st -> target_pos st <= 2 ^ 33 * inst_pos st ->
  decode_loop fuel sec cwl cwo (lenZ pre) (behind pre st)
  = fmap_ok (behind pre) (decode_loop fuel sec cwl cwo 0 st).
Proof.
  revert st. induction fuel as [|fuel IH]; intros st Hst Htp; [done|]. pose proof Hst as [Hi _ _ _ _ _].
  cbn [decode_loop]. cbn [inst_pos behind].
  destruct (Z.ltb_spec (inst_pos st) (lenZ (sec_inst sec))); [|done].
  destruct (index_ok (E:=DecodeError) (sec_inst sec) (inst_pos st)) as (op & Hop & ->); [lia|]. cbn [bind].
  rewrite add_w_ok by (unfold in_range; lia). cbn [bind].
  pose proof (Forall_lookup_1 _ _ _ _ Hinst Hop) as Hu. unfold in_range in Hu.
  rewrite table_index by lia. cbn [bind].
  destruct (table_entry_safe op) as (H1 & H2 & H3 & H4); [lia|]. set (e := rfc_entry op) in *.
  change (set_inst_pos (behind pre st) (inst_pos st + 1)) with (behind pre (set_inst_pos st (inst_pos st + 1))).
  assert (staged (set_inst_pos st (inst_pos st + 1))) as Hst1.
  { destruct Hst as [? ? ? ? ? ?]. constructor; simpl; (done || lia). }
  set (st1 := set_inst_pos st (inst_pos st + 1)) in *.
  assert (inst_pos st1 = inst_pos st + 1 /\ target_pos st1 = target_pos st) as [Hi1 Ht1] by done.
  destruct (optional_half (type1 e) (size1 e) st1) as [Hb1 Hs1]; [done|lia..|]. cbv zeta in Hb1, Hs1.
  rewrite Hb1. clear Hb1. destruct (if negb (type1 e =? XD3_NOOP) then _ else _) as [st2| | |]; [|done..].
  cbn [fmap_ok bind safe] in *. destruct Hs1 as (Hst2 & Hi2 & Ht2).
  destruct (optional_half (type2 e) (size2 e) st2) as [Hb2 Hs2]; [done|lia..|]. cbv zeta in Hb2, Hs2.
  rewrite Hb2. clear Hb2. destruct (if negb (type2 e =? XD3_NOOP) then _ else _) as [st3| | |]; [|done..].
  cbn [fmap_ok bind safe] in *. destruct Hs2 as (Hst3 & Hi3 & Ht3). apply IH; [done|lia].
Qed.
End Window.

Definition written_behind {S} (pre : bytes) (r : bytes * S * bytes * AddressCache.t) :=
  let '(out, s, buf, c) := r in (pre ++ out, s, buf, c).

(** A window decoded after [pre] is the window decoded alone, behind [pre]. *)
Lemma window_behind {B : Build} {S : Type} `{SourceProvider S} {contents : S -> bytes}
    `{!SourceLaws S contents} `{Adler32} h sec (s : S) verify buf pre c :
  window_bounds h sec -> lenZ pre < 2 ^ 61 -> reusable c ->
  decode_window_with_cache h sec s verify buf pre c
  = fmap_ok (written_behind pre) (decode_window_with_cache h sec s verify buf [] c).
Proof.
  intros [Hi Ha Hdl Hal Hil Htl Hcl Hco] Hpre Hc. unfold decode_window_with_cache, HARD_MAX_WINSIZE in *.
  pose proof (lenZ_nonneg pre). change (lenZ (@nil Z)) with 0.
  rewrite !add_w_ok by (unfold in_range; lia). cbn [bind].
  unfold alloc. rewrite !(proj2 (Z.leb_le _ _)) by lia. cbn [bind]. rewrite init_reusable by done.
  set (st0 := dstate 0 0 0 AddressCache.new 0 [] s buf).
  assert (dec_inv (contents:=contents) sec [] (contents s) st0) as Hst0.
  { constructor; simpl; try done; try (split; [lia|apply lenZ_nonneg]); [apply new_reusable|]. by exists []. }
  replace (dstate 0 0 0 AddressCache.new 0 pre s buf) with (behind pre st0)
    by (unfold behind; simpl; by rewrite app_nil_r).
  rewrite (loop_behind sec _ _ pre (contents s)) by (done || simpl; lia).
  pose proof (decode_loop_safe sec (WindowHeader.copy_window_len h) (WindowHeader.copy_window_offset h)
    [] (contents s) Hi Ha Hdl Hal Hil ltac:(done) (conj Hcl Hco) (Datatypes.S (length (sec_inst sec))) st0 Hst0
    ltac:(simpl; lia) ltac:(simpl; unfold lenZ; lia)) as Hloop.
  change (lenZ (@nil Z)) with 0 in Hloop.
  destruct (decode_loop _ _ _ _ _ _) as [st| | |]; [|done..]. cbn [fmap_ok bind safe] in *.
  destruct Hloop as [Hst Htp]. pose proof (dec_target sec [] (contents s) st Hst) as [Ht Hl].
  change (lenZ (@nil Z)) with 0 in Hl. cbn [output source copy_buf acache behind]. rewrite lenZ_app.
  rewrite !sub_w_ok by (unfold in_range; lia). cbn [bind].
  replace (lenZ pre + lenZ (output st) - lenZ pre) with (lenZ (output st) - 0) by lia.
  destruct (negb _); [done|]. rewrite slice_from_app.
  pose proof (slice_from_app (E:=DecodeError) [] (output st) : slice_from (output st) 0 = _) as ->.
  destruct (WindowHeader.adler32 h) as [k|]; [|done]. destruct verify; [|done]. cbn [bind].
  by destruct (negb _).
Qed.

(** ** The stream *)

Section Stream.
Context {B : Build} `{Adler32} `{Codecs} (Hct : codecs_typed).

Definition appended {D S} (pre : bytes) (r : bool * D * S * bytes) :=
  let '(more, d, s, out) := r in (more, d, s, pre ++ out).

Lemma stream_window_behind fuel d fh r (s pre : bytes) :
  ready d fh true r -> wf_bytes r -> tame_windows (S fuel) (FileHeader.secondary_id fh) r = true ->
  lenZ pre < 2 ^ 61 ->
  StreamDecoder.decode_window d s pre = fmap_ok (appended pre) (StreamDecoder.decode_window d s []).
Proof.
  intros Hd Hr Ht Hpre.
  destruct (window_read_cases Hct fuel d fh r Hd Hr Ht)
    as [d' _ Hw|e Hw|h r1 db ib ab r2 sec _ _ Hb _ _ _ Hw]; rewrite !Hw.
  - cbn. by rewrite app_nil_r.
  - done.
  - destruct Hd as (_ & _ & _ & _ & Hc).
    rewrite (window_behind (contents:=fun x : bytes => x)) by done. unfold fmap_ok.
    by destruct (decode_window_with_cache _ _ _ _ _ _ _) as [[[[o s'] b] c]| | |].
Qed.

(** The bytes [r] start with windows with the headers [hs]. *)
Inductive leading : bytes -> list WindowHeader.t -> Prop :=
  | leading_nil r : leading r []
  | leading_cons r h r1 d i a r2 hs :
      WindowHeader.decode r = Ok (Some h, r1) -> cut_sections h r1 = Ok (d, i, a, r2) ->
      leading r2 hs -> leading r (h :: hs).

(** The two decoders on the windows [r], with [out] written before: the same
    result, or the same error, and then the writer has got the windows in
    front of the one that failed, each as its header announces it. *)
Definition in_step (a : result DecodeError (StreamDecoder.t * bytes * bytes))
    (b : result (DecodeError * bytes) (DeltaDecoder.t * bytes * bytes)) (r out : bytes) : Prop :=
  match a, b with
  | Ok (d, s, out'), Ok (dd, s', w) =>
      DeltaDecoder.inner dd = d /\ s' = s /\ w = out' /\ DeltaDecoder.bytes_decoded dd = lenZ out'
  | Err e, Err (e', w) => e' = e /\ exists hs chunks, leading r hs /\ w = out ++ concat chunks /\
      Forall2 as_announced hs chunks
  | _, _ => False
  end.

Lemma windows_agree fuel : forall tfuel d fh r (s out : bytes) k buf,
  ready d fh true r -> wf_bytes r -> (length r < fuel)%nat -> (length r < tfuel)%nat ->
  tame_windows tfuel (FileHeader.secondary_id fh) r = true ->
  lenZ out + HARD_MAX_WINSIZE * lenZ r < 2 ^ 61 -> 0 <= k -> k + lenZ r < 2 ^ 61 ->
  in_step (StreamDecoder.decode_windows fuel d s out)
    (DeltaDecoder.decode_loop fuel (DeltaDecoder.mk d (lenZ out) k buf) s out) r out.
Proof.
  induction fuel as [|fuel IH]; intros [|tfuel] d fh r s out k buf Hd Hr Hf Htf Ht Hl Hk Hkl; try lia.
  cbn [StreamDecoder.decode_windows DeltaDecoder.decode_loop]. unfold HARD_MAX_WINSIZE in Hl.
  pose proof (lenZ_nonneg r). pose proof (lenZ_nonneg out).
  rewrite (stream_window_behind tfuel d fh r s out) by (done || lia).
  pose proof (stream_window_safe Hct tfuel d fh r s [] Hd Hr Ht ltac:(done)) as Hsafe.
  unfold DeltaDecoder.decode_window_to. cbn [DeltaDecoder.inner DeltaDecoder.bytes_decoded DeltaDecoder.windows_decoded].
  destruct (StreamDecoder.decode_window d s []) as [[[[[|] d'] s'] w]| | |]; cbn [safe] in Hsafe; try done.
  - destruct Hsafe as (h & r1 & sd & si & sa & r2 & chunk & Hh & Hcut & -> & Hann & Hcl & Hd' & Hr2 & Hlt & Ht').
    unfold HARD_MAX_WINSIZE in Hcl. cbn [fmap_ok appended bind map_err negb app].
    pose proof (lenZ_nonneg chunk).
    rewrite !add_w_ok by (unfold in_range; lia). cbn [bind]. rewrite <- lenZ_app.
    assert (length r2 < length r)%nat as Hlt' by (unfold lenZ in Hlt; lia).
    specialize (IH tfuel d' fh r2 s' (out ++ chunk) (k + 1) chunk Hd' Hr2 ltac:(lia) ltac:(lia) Ht').
    rewrite lenZ_app in IH. unfold HARD_MAX_WINSIZE in IH.
    specialize (IH ltac:(lia) ltac:(lia) ltac:(lia)). rewrite lenZ_app. revert IH. unfold in_step.
    destruct (StreamDecoder.decode_windows _ _ _ _) as [[[? ?] ?]|?| |]; [done| |done..].
    destruct (DeltaDecoder.decode_loop _ _ _ _) as [[[? ?] ?]|[? ?]| |]; [done| |done..].
    intros [-> (hs & chunks & Hlead & -> & Hall)]. split; [done|]. exists (h :: hs), (chunk :: chunks).
    split_and!; [by econstructor|by rewrite <- app_assoc|by constructor].
  - destruct Hsafe as [_ ->]. cbn [fmap_ok appended bind map_err negb]. rewrite app_nil_r. by split_and!.
  - cbn. split; [done|]. exists [], []. split_and!; [constructor|by rewrite app_nil_r|constructor].
Qed.
End Stream.

(** The two decoders on a whole delta. *)
Lemma staging_agrees {B : Build} `{Adler32} `{Codecs} (delta source : bytes) :
  codecs_typed -> wf_bytes delta -> lenZ delta < 2 ^ 36 -> tame delta = true ->
  match decode_all source delta, DeltaDecoder.decode_to (DeltaDecoder.new delta) source [] with
  | Ok out, Ok (n, dd, _, written) =>
      written = out /\ n = lenZ out /\ DeltaDecoder.bytes_decoded dd = n
  | Err e, Err (e', written) => e' = e /\
      ((exists e0, FileHeader.decode delta = Err e0) /\ written = [] \/
       exists fh r hs chunks, FileHeader.decode delta = Ok (fh, r) /\ leading r hs /\
         written = concat chunks /\ Forall2 as_announced hs chunks)
  | _, _ => False
  end.
Proof.
  intros Hct Hwf Hl [Happ Ht]%andb_true_iff. pose proof (file_header_safe delta Happ) as Hh.
  unfold decode_all, decode_memory, StreamDecoder.decode_all, DeltaDecoder.decode_to.
  cbn [StreamDecoder.reader StreamDecoder.new DeltaDecoder.inner DeltaDecoder.new DeltaDecoder.with_checksum].
  destruct (FileHeader.decode delta) as [[fh r]|e| |] eqn:Hdec; try done.
  - destruct (header_rest delta fh r Hwf Hdec) as [Hr Hlr].
    pose proof (windows_agree Hct (S (length delta)) (S (length r)) (after_header fh true r) fh r source [] 0 []
      (ready_after_header fh true r) Hr ltac:(lia) ltac:(lia) Ht) as Hs.
    unfold HARD_MAX_WINSIZE, lenZ in Hs, Hl. specialize (Hs ltac:(simpl; lia) ltac:(lia) ltac:(lia)).
    change (Z.of_nat (length (@nil Z))) with 0 in Hs. revert Hs. unfold DeltaDecoder.new, DeltaDecoder.with_checksum.
    cbn [StreamDecoder.decode_windows DeltaDecoder.decode_loop]. unfold DeltaDecoder.decode_window_to.
    cbn [DeltaDecoder.inner]. rewrite !first_window, Hdec. cbn [map_err bind].
    destruct (bind (StreamDecoder.decode_window _ _ _) _) as [[[d s'] out]|e| |];
      destruct (bind (bind _ _) _) as [[[dd s''] w]|[e' w]| |]; try done; cbn [in_step bind].
    + by intros (_ & _ & -> & ->).
    + intros (-> & hs & chunks & Hlead & -> & Hall). split; [done|]. right. exists fh, r, hs, chunks.
      by split_and!.
  - cbn [StreamDecoder.decode_windows DeltaDecoder.decode_loop]. unfold DeltaDecoder.decode_window_to.
    cbn [DeltaDecoder.inner DeltaDecoder.new DeltaDecoder.with_checksum]. rewrite !first_window, Hdec.
    cbn. split; [done|]. left. by split; [exists e|].
Qed.

(** Hence the staging decoder, too, ends with a result or an error. *)
Lemma decode_to_safe {B : Build} `{Adler32} `{Codecs} (delta source : bytes) :
  codecs_typed -> wf_bytes delta -> lenZ delta < 2 ^ 36 -> tame delta = true ->
  match DeltaDecoder.decode_to (DeltaDecoder.new delta) source [] with Panic | Diverge => False | _ => True end.
Proof.
  intros Hct Hwf Hl Ht. pose proof (staging_agrees delta source Hct Hwf Hl Ht) as Hs.
  destruct (decode_all source delta) as [?|?| |], (DeltaDecoder.decode_to _ _ _) as [?|?| |]; (done || by destruct Hs).
Qed.

(** ** Theorem *)

(** C10: the fast path of [decode_all] is [DeltaDecoder::decode_to].  On any
    delta of less than 64 GiB that is [tame], valid, damaged or hostile, and
    over any source, appending all the windows to one vector and decoding each
    into a staging buffer end the same way.  Both succeed, the writer has got
    the same bytes, and [decode_to] returns their number; or both fail with the
    same error, and the writer has got exactly the windows in front of the one
    that failed, each of the length and the checksum its header announces.
    [tame] bounds what the delta announces: an application header below 2^63
    bytes, section lengths and copy window fields below 2^61, and, once
    decompressed, an INST section of at most 2^28 bytes and DATA and ADDR
    sections below 2^62 bytes in every window. *)
Theorem decoders_agree {B : Build} `{Adler32} `{Codecs} (delta source : bytes) :
  codecs_typed -> wf_bytes delta -> lenZ delta < 2 ^ 36 -> tame delta = true ->
  match decode_all source delta, DeltaDecoder.decode_to (DeltaDecoder.new delta) source [] with
  | Ok out, Ok (n, dd, _, written) =>
      written = out /\ n = lenZ out /\ DeltaDecoder.bytes_decoded dd = n
  | Err e, Err (e', written) => e' = e /\
      ((exists e0, FileHeader.decode delta = Err e0) /\ written = [] \/
       exists fh r hs chunks, FileHeader.decode delta = Ok (fh, r) /\ leading r hs /\
         written = concat chunks /\ Forall2 as_announced hs chunks)
  | _, _ => False
  end.
Proof. exact (staging_agrees delta source). Qed.

(** Three bytes; a window that runs a byte on by copying from itself; and a
    window cut short. *)
Definition staged_delta : bytes :=
  [214; 195; 196; 0; 0;
   0; 9; 3; 0; 3; 1; 0; 5; 5; 6; 4;
   0; 9; 6; 0; 1; 2; 1; 7; 2; 21; 0;
   0; 9; 4; 0; 0; 3; 1; 20; 255].

Lemma decoders_agree_witness :
  match decode_all (B:={| debug_build := true |}) (H:=adler32_fallback) (H0:=zeros_codecs) [1; 2] staged_delta,
    DeltaDecoder.decode_to (B:={| debug_build := true |})
      (H:=slice_source (B:={| debug_build := true |})) (H0:=adler32_fallback) (H1:=zeros_codecs)
      (DeltaDecoder.new staged_delta) [1; 2] [] with
  | Ok out, Ok (n, dd, _, written) =>
      written = out /\ n = lenZ out /\ DeltaDecoder.bytes_decoded dd = n
  | Err e, Err (e', written) => e' = e /\
      ((exists e0, FileHeader.decode staged_delta = Err e0) /\ written = [] \/
       exists fh r hs chunks, FileHeader.decode staged_delta = Ok (fh, r) /\
         leading (B:={| debug_build := true |}) r hs /\
         written = concat chunks /\ Forall2 (as_announced (H:=adler32_fallback)) hs chunks)
  | _, _ => False
  end.
Proof.
  apply (decoders_agree (B:={| debug_build := true |}) (H:=adler32_fallback) (H0:=zeros_codecs)
    staged_delta [1; 2]).
  - exact zeros_typed.
  - unfold staged_delta. by apply in_range_list.
  - reflexivity.
  - vm_compute. reflexivity.
Defined.

(** Both fail on the last window; the writer has got the first two. *)
Example staged_delta_written :
  match DeltaDecoder.decode_to (B:={| debug_build := true |})
      (H:=slice_source (B:={| debug_build := true |})) (H0:=adler32_fallback) (H1:=zeros_codecs)
      (DeltaDecoder.new staged_delta) [1; 2] [] with
  | Err (_, written) => written = [5; 5; 6; 7; 7; 7; 7; 7; 7]
  | _ => False
  end.
Proof. vm_compute. reflexivity. Qed.
