(* ===== verification/Files.v ===== *)
(** * Files, standard streams and the operating system

    The state the file-level API ([src/src/io.rs]) and the command line
    ([src/src/cli.rs]) work on.  A [World] maps paths to contents and holds the
    bytes of standard input and output; different paths name different files.
    What the operating system decides is a class: which paths can be opened or
    created, and how many bytes a [read] returns.  [OsLaws] is what
    [std::io::Read] documents of the latter.  A computation that fails returns
    its error with the world it leaves, so that what was written before an
    error is part of the model.  Writes to an open file do not fail. *)

From stdpp Require Import base numbers list option strings gmap.
From Stdlib Require Import ZArith Lia.
From S2P Require Import Prelude.

Local Open Scope Z_scope.
Local Open Scope rust_scope.

Abbreviation path := string.

Inductive os_error := NotFound | OsFailure (code : Z).

Record World := world {
  files : gmap path bytes;
  stdin : bytes;
  stdout : bytes
}.

(** [os_open] and [os_create] are the errors of opening and creating a path;
    [os_read n rest] is the outcome of a [read] into a buffer of [n] bytes when
    [rest] is left. *)
Class Os := {
  os_open : path -> option os_error;
  os_create : path -> option os_error;
  os_read : Z -> bytes -> result os_error Z
}.

(** A [read] returns at most the buffer's size, and 0 at the end only. *)
Class OsLaws `{Os} : Prop := {
  os_read_count n rest k :
    0 < n -> os_read n rest = Ok k ->
    0 <= k <= n /\ k <= lenZ rest /\ (k = 0 -> rest = [])
}.

(** No operation fails by itself: existing files open, every path can be
    created, every [read] succeeds. *)
Class OsWorks `{Os} : Prop := {
  os_opens p : os_open p = None;
  os_creates p : os_create p = None;
  os_reads n rest : exists k, os_read n rest = Ok k
}.

(** The next byte at a time, and as much as fits. *)
Definition one_byte_os : Os := {|
  os_open _ := None;
  os_create _ := None;
  os_read n rest := Ok (Z.min 1 (Z.min n (lenZ rest)))
|}.

Definition full_reads_os : Os := {|
  os_open _ := None;
  os_create _ := None;
  os_read n rest := Ok (Z.min n (lenZ rest))
|}.

Lemma lenZ_zero {A} (l : list A) : lenZ l = 0 -> l = [].
Proof. destruct l; [done|]. rewrite lenZ_cons. pose proof (lenZ_nonneg l). lia. Qed.

Lemma one_byte_os_laws : OsLaws (H:=one_byte_os).
Proof.
  constructor. intros n rest k Hn [= <-]. pose proof (lenZ_nonneg rest).
  split_and!; try lia. intros. apply lenZ_zero. lia.
Qed.

Lemma full_reads_os_laws : OsLaws (H:=full_reads_os).
Proof.
  constructor. intros n rest k Hn [= <-]. pose proof (lenZ_nonneg rest).
  split_and!; try lia. intros. apply lenZ_zero. lia.
Qed.

Lemma one_byte_os_works : OsWorks (H:=one_byte_os).
Proof. constructor; [done|done|]. intros. by eexists. Qed.

Lemma full_reads_os_works : OsWorks (H:=full_reads_os).
Proof. constructor; [done|done|]. intros. by eexists. Qed.

(** ** Operations *)

Definition set_file (w : World) (p : path) (b : bytes) : World :=
  world (<[p := b]> (files w)) (stdin w) (stdout w).

Definition write_stdout (w : World) (b : bytes) : World :=
  world (files w) (stdin w) (stdout w ++ b).

(** What an open file holds; a file that was opened exists. *)
Definition file_bytes (w : World) (p : path) : bytes := unwrap_or (files w !! p) [].

(** [Path::exists]. *)
Definition path_exists (w : World) (p : path) : bool := bool_decide (is_Some (files w !! p)).

Section Operations.
Context `{Os}.

(** [File::open]: the handle is the path. *)
Definition file_open (w : World) (p : path) : result os_error path :=
  match os_open p with
  | Some e => Err e
  | None => if path_exists w p then Ok p else Err NotFound
  end.

(** [std::fs::read]. *)
Definition fs_read (w : World) (p : path) : result os_error bytes :=
  let* f := file_open w p in Ok (file_bytes w f).

(** [File::create] truncates an existing file. *)
Definition file_create (w : World) (p : path) : result os_error World :=
  match os_create p with
  | Some e => Err e
  | None => Ok (set_file w p [])
  end.
End Operations.

(** The buffers successive [read]s of at most [n] bytes fill until the end; each
    takes at least one byte, so the length is fuel enough. *)
Fixpoint read_pieces `{Os} (fuel : nat) (n : Z) (rest : bytes) : result os_error (list bytes) :=
  match fuel with
  | O => Diverge
  | S fuel =>
      let* k := os_read n rest in
      if k =? 0 then Ok []
      else
        let* ps := read_pieces fuel n (drop (Z.to_nat k) rest) in
        Ok (take (Z.to_nat k) rest :: ps)
  end.

(** ** Lemmas *)

Lemma file_bytes_set w p b : file_bytes (set_file w p b) p = b.
Proof. unfold file_bytes, set_file. simpl. by rewrite lookup_insert_eq. Qed.

Lemma file_bytes_set_ne w p q b : p <> q -> file_bytes (set_file w p b) q = file_bytes w q.
Proof. intros. unfold file_bytes, set_file. simpl. by rewrite lookup_insert_ne. Qed.

Lemma files_set w p b : files (set_file w p b) !! p = Some b.
Proof. apply lookup_insert_eq. Qed.

Lemma files_set_ne w p q b : p <> q -> files (set_file w p b) !! q = files w !! q.
Proof. apply lookup_insert_ne. Qed.

Lemma set_file_twice w p b b' : set_file (set_file w p b) p b' = set_file w p b'.
Proof. unfold set_file. simpl. by rewrite insert_insert_eq. Qed.

Lemma file_bytes_lookup w p b : files w !! p = Some b -> file_bytes w p = b.
Proof. unfold file_bytes. by intros ->. Qed.

Lemma path_exists_lookup w p b : files w !! p = Some b -> path_exists w p = true.
Proof. intros Hp. apply bool_decide_eq_true_2. by rewrite Hp. Qed.

Lemma path_exists_missing w p : files w !! p = None -> path_exists w p = false.
Proof. intros Hp. apply bool_decide_eq_false_2. rewrite Hp. by intros []. Qed.

Section OperationsOk.
Context `{OsWorks}.

Lemma file_open_ok w p b : files w !! p = Some b -> file_open w p = Ok p.
Proof. intros Hp. unfold file_open. by rewrite os_opens, (path_exists_lookup w p b). Qed.

Lemma fs_read_ok w p b : files w !! p = Some b -> fs_read w p = Ok b.
Proof.
  intros Hp. unfold fs_read. rewrite (file_open_ok w p b) by done. cbn [bind].
  by rewrite (file_bytes_lookup w p b).
Qed.

Lemma file_create_ok w p : file_create w p = Ok (set_file w p []).
Proof. unfold file_create. by rewrite os_creates. Qed.
Lemma read_pieces_ok `{!OsLaws} n : 0 < n -> forall fuel rest,
  (length rest < fuel)%nat -> exists ps, read_pieces fuel n rest = Ok ps /\ concat ps = rest.
Proof.
  intros Hn. induction fuel as [|fuel IH]; intros rest Hf; [lia|]. cbn [read_pieces].
  destruct (os_reads n rest) as [k Hk]. pose proof (os_read_count n rest k Hn Hk) as (Hkn & Hkl & Hk0).
  rewrite Hk. cbn [bind]. destruct (Z.eqb_spec k 0) as [Hz|Hz].
  - exists []. by rewrite (Hk0 Hz).
  - destruct (IH (drop (Z.to_nat k) rest)) as (ps & -> & Hps).
    + rewrite length_drop. unfold lenZ in Hkl. lia.
    + eexists. split; [done|]. cbn [concat]. by rewrite Hps, take_drop.
Qed.
End OperationsOk.

(** Opening what is not there fails, whatever the system. *)
Lemma file_open_missing `{Os} w p :
  files w !! p = None -> exists e, file_open w p = Err e.
Proof.
  intros Hp. unfold file_open. rewrite path_exists_missing by done. destruct (os_open p); eauto.
Qed.

Create Rewrite HintDb files.
#[export] Hint Rewrite file_bytes_set files_set set_file_twice : files.
#[export] Hint Rewrite file_bytes_set_ne files_set_ne using congruence : files.
