(* ===== verification/FileIo.v ===== *)
(** * The file-level API ([src/src/io.rs])

    [encode_file] and [decode_file] over a [World]: the source is read whole,
    the other input is opened, then the output is created (and truncated)
    before the input's first byte is read, so an input that is also the output
    is read as empty.  The encoder is fed whatever pieces the reads return.
    The SHA-256 crate is a parameter; a hasher is the bytes it was fed. *)

From stdpp Require Import base numbers list option strings gmap.
From Stdlib Require Import ZArith Lia.
From S2P Require Import Prelude Header WindowEncoder Source Secondary WindowDecoder StreamRoundtrip.
From S2P Require Import DecoderSafety StreamSafety Staging Kernels Delta DeltaCorrect Files.

Local Open Scope Z_scope.
Local Open Scope rust_scope.

(** The feature [file-io] and the digest of the [sha2] crate. *)
Class Sha256 := {
  file_io : bool;
  sha256 : bytes -> bytes
}.

(** ** Statistics and errors *)

Record EncodeStats := encode_stats {
  source_size : Z;
  target_size : Z;
  delta_size : Z;
  windows_encoded : Z;
  source_sha256 : option bytes;
  target_sha256 : option bytes
}.

Record DecodeStats := decode_stats {
  d_source_size : Z;
  d_delta_size : Z;
  output_size : Z;
  windows_decoded : Z;
  output_sha256 : option bytes
}.

Inductive IoError :=
  | IoOs (e : os_error)
  | IoEncode (e : EncodeError)
  | IoDecode (e : DecodeError).

Definition BUF_SIZE : Z := 64 * 1024.

(** An error of the operating system, with the world it leaves. *)
Definition os_at {A} (w : World) (m : result os_error A) : result (IoError * World) A :=
  map_err (fun e => (IoOs e, w)) m.

(** An error with what the output at [p] holds: the buffered writer is flushed
    when it is dropped. *)
Definition left_at {A} (w : World) (p : path) (m : result (IoError * bytes) A)
    : result (IoError * World) A :=
  map_err (fun '(e, written) => (e, set_file w p written)) m.

Definition encode_err (e : EncodeError * bytes) : IoError * bytes := (IoEncode e.1, e.2).
Definition decode_err (e : DecodeError * bytes) : IoError * bytes := (IoDecode e.1, e.2).

Section FileIo.
Context {B : Build} `{Adler32} `{Codecs} `{Sha256} `{Os} (c : cpu).

Definition digest (fed : bytes) : option bytes :=
  if file_io then Some (sha256 fed) else None.

(** The [loop] of [encode_file]: read, hash, encode. *)
Fixpoint encode_loop (fuel : nat) (encoder : DeltaEncoder.t) (rest hashed : bytes)
  : result (IoError * bytes) (DeltaEncoder.t * bytes) :=
  match fuel with
  | O => Diverge
  | S fuel =>
      let* n := map_err (fun e => (IoOs e, StreamEncoder.writer (DeltaEncoder.stream encoder)))
                  (os_read BUF_SIZE rest) in
      if n =? 0 then Ok (encoder, hashed)
      else
        let buf := take (Z.to_nat n) rest in
        let* encoder := map_err encode_err (DeltaEncoder.write_target c encoder buf) in
        encode_loop fuel encoder (drop (Z.to_nat n) rest) (hashed ++ buf)
  end.

Definition encode_file (w : World) (source_path target_path delta_path : path)
    (opts : CompressOptions) : result (IoError * World) (EncodeStats * World) :=
  let* source := os_at w (fs_read w source_path) in
  let* target_file := os_at w (file_open w target_path) in
  let target_size := lenZ (file_bytes w target_file) in
  let* w := os_at w (file_create w delta_path) in
  let target := file_bytes w target_file in
  left_at w delta_path
    (let* encoder := map_err encode_err (DeltaEncoder.new c [] source opts) in
     let* (encoder, hashed) := encode_loop (S (length target)) encoder target [] in
     let* (delta, windows) := map_err encode_err (DeltaEncoder.finish c encoder) in
     Ok (encode_stats (lenZ source) target_size (lenZ delta) windows
           (digest source) (digest hashed), set_file w delta_path delta)).

(** The writer that hashes passes on and hashes the same bytes. *)
Definition decode_file (w : World) (source_path delta_path output_path : path)
    : result (IoError * World) (DecodeStats * World) :=
  let* source := os_at w (fs_read w source_path) in
  let* delta_file := os_at w (file_open w delta_path) in
  let delta_size := lenZ (file_bytes w delta_file) in
  let* w := os_at w (file_create w output_path) in
  let delta := file_bytes w delta_file in
  left_at w output_path
    (let decoder := DeltaDecoder.new delta in
     let* (output_size, decoder, _, output) :=
       map_err decode_err (DeltaDecoder.decode_to decoder source []) in
     Ok (decode_stats (lenZ source) delta_size output_size (DeltaDecoder.windows_decoded decoder)
           (digest output), set_file w output_path output)).
End FileIo.

(** ** What the calls do *)

Section Correct.
Context {B : Build} `{Adler32Laws} `{CodecLaws} `{Sha256} `{OsLaws} `{!OsWorks} (c : cpu).

Lemma encode_loop_pieces fuel : forall rest ps enc enc' hashed,
  read_pieces fuel BUF_SIZE rest = Ok ps ->
  for_in ps (fun p d => DeltaEncoder.write_target c d p) enc = Ok enc' ->
  encode_loop c fuel enc rest hashed = Ok (enc', hashed ++ concat ps).
Proof.
  induction fuel as [|fuel IH]; intros rest ps enc enc' hashed Hps Hfor; [done|].
  cbn [read_pieces encode_loop] in *.
  apply bind_ok_inv in Hps as (k & -> & Hps). cbn [map_err bind]. destruct (k =? 0).
  - injection Hps as <-. injection Hfor as <-. by rewrite app_nil_r.
  - apply bind_ok_inv in Hps as (ps' & Hps & Heq). injection Heq as <-. cbn [for_in] in Hfor.
    apply bind_ok_inv in Hfor as (enc1 & -> & Hfor). cbn [map_err bind].
    rewrite (IH _ _ _ _ _ Hps Hfor). cbn [concat]. by rewrite app_assoc.
Qed.

(** The target is what the file holds once the output is created. *)
Lemma encode_file_ok w sp tp dp opts s t0 :
  let t := file_bytes (set_file w dp []) tp in
  files w !! sp = Some s -> files w !! tp = Some t0 ->
  wf_bytes s -> lenZ s < 2 ^ 62 -> wf_bytes t -> lenZ t < 2 ^ 62 -> options_ok opts ->
  merges_safe c s opts t = true ->
  exists delta n,
    encode_file c w sp tp dp opts
    = Ok (encode_stats (lenZ s) (lenZ t0) (lenZ delta) n (digest s) (digest t), set_file w dp delta) /\
    delta_of s opts delta t n.
Proof.
  intros t Hs Ht0 Hsw Hsl Htw Htl Hoo Hsafe. unfold encode_file.
  rewrite (fs_read_ok w sp s Hs), (file_open_ok w tp t0 Ht0), file_create_ok.
  cbn [os_at map_err bind]. rewrite (file_bytes_lookup w tp t0 Ht0). fold t.
  destruct (read_pieces_ok BUF_SIZE ltac:(done) (S (length t)) t ltac:(lia)) as (ps & Hps & Hcat).
  assert (Forall wf_bytes ps) as Hpw by (rewrite <- Hcat in Htw; by apply Forall_concat).
  destruct (encode_pieces_ok c s opts ps) as (delta & n & Henc & Hd); rewrite ?Hcat; try done.
  rewrite Hcat in Hd. unfold encode_pieces in Henc.
  apply bind_ok_inv in Henc as (d0 & -> & Henc). apply bind_ok_inv in Henc as (d1 & Hfor & Hfin).
  cbn [map_err bind]. rewrite (encode_loop_pieces _ _ _ _ _ [] Hps Hfor). cbn [bind].
  rewrite Hfin. cbn [map_err bind]. rewrite Hcat, set_file_twice. eauto.
Qed.

Lemma decode_file_ok w sp dp op opts s delta t n :
  files w !! sp = Some s -> files w !! dp = Some delta -> dp <> op ->
  options_ok opts -> lenZ t < 2 ^ 62 -> delta_of s opts delta t n ->
  decode_file w sp dp op
  = Ok (decode_stats (lenZ s) (lenZ delta) (lenZ t) (Z.max 1 n) (digest t), set_file w op t).
Proof.
  intros Hs Hdp Hne Hoo Htl Hd. unfold decode_file.
  rewrite (fs_read_ok w sp s Hs), (file_open_ok w dp delta Hdp), file_create_ok.
  cbn [os_at map_err bind]. autorewrite with files.
  rewrite (file_bytes_lookup w dp delta Hdp).
  destruct (delta_decodes s opts delta t n Hoo Htl Hd) as (_ & Hdec).
  destruct (Hdec true) as (d' & Hd' & Hk). unfold DeltaDecoder.new. rewrite Hd'. cbn [map_err bind].
  by rewrite Hk, set_file_twice.
Qed.
End Correct.

(** ** Theorems *)

Section Theorems.
Context {B : Build} `{Adler32Laws} `{CodecLaws} `{Sha256} `{OsLaws} `{!OsWorks} (c : cpu).


(** [encode_file] with the target's path as its output destroys the target.
    The output is created before the first byte of the target is read: the call
    succeeds and reports the target's size, but the file now holds the delta of
    an empty target. *)
Theorem encode_over_target w sp p opts s t :
  files w !! sp = Some s -> files w !! p = Some t -> sp <> p ->
  wf_bytes s -> lenZ s < 2 ^ 62 -> options_ok opts ->
  exists es w1 delta, encode_file c w sp p p opts = Ok (es, w1) /\ target_size es = lenZ t /\
    files w1 !! p = Some delta /\ decode_all s delta = Ok [].
Proof.
  intros Hs Hp Hne Hsw Hsl Hoo.
  assert (file_bytes (set_file w p []) p = []) as Hrd by apply file_bytes_set.
  destruct (encode_file_ok c w sp p p opts s t) as (delta & n & Henc & Hd); rewrite ?Hrd; try done;
    [apply wf_bytes_nil|by apply merges_safe_nil|]. rewrite Hrd in *.
  eexists _, _, delta. split; [exact Henc|]. split; [done|]. split; [apply files_set|].
  by destruct (delta_decodes s opts delta [] n Hoo ltac:(done) Hd).
Qed.
End Theorems.

Section Corrupted.
Context {B : Build} `{Adler32} `{Codecs} `{Sha256} `{OsWorks}.

(** C24: damage to a delta file does not reach back.  Whatever follows the good
    windows at the front of a delta file below 64 GiB, truncated or hostile,
    [decode_file] neither panics nor loops: it succeeds or returns an error,
    leaves an output file that starts with exactly the bytes of the good
    windows, and touches no other file.  The condition is that the delta is
    [tame]: it announces an application header below 2^63 bytes, section
    lengths and copy window fields below 2^61 and, once decompressed, INST
    sections of at most 2^28 bytes and DATA and ADDR sections below 2^62. *)
Theorem decode_file_prefix w sp dp op fh ws ts rest s :
  let delta := file_header_bytes fh ++ concat ws ++ rest in
  files w !! sp = Some s -> files w !! dp = Some delta ->
  dp <> op -> file_header_wf fh ->
  Forall2 (decodes_to (contents:=fun x : bytes => x) fh true s) ws ts ->
  lenZ (concat ts) < 2 ^ 63 -> lenZ ts < 2 ^ 63 ->
  codecs_typed -> wf_bytes delta -> lenZ delta < 2 ^ 36 -> tame delta = true ->
  match decode_file w sp dp op with
  | Ok (_, w') | Err (_, w') =>
      (exists written, files w' !! op = Some written /\ concat ts `prefix_of` written) /\
      forall p, p <> op -> files w' !! p = files w !! p
  | Panic | Diverge => False
  end.
Proof.
  intros delta Hs Hdp Hne Hfh Hws Hl Hk Hct Hwf Hdl Ht. unfold decode_file.
  rewrite (fs_read_ok w sp s Hs), (file_open_ok w dp _ Hdp), file_create_ok.
  cbn [os_at map_err bind]. autorewrite with files. rewrite (file_bytes_lookup w dp _ Hdp).
  pose proof (decode_to_prefix (contents:=fun x : bytes => x) fh true s ws ts rest s
    Hfh Hws eq_refl Hl Hk) as Hp.
  pose proof (decode_to_safe delta s Hct Hwf Hdl Ht) as Hsafe. unfold DeltaDecoder.new in *. subst delta.
  destruct (DeltaDecoder.decode_to _ _ _) as [[[[n d] s'] written]|[e written]| |];
    cbn [map_err bind left_at decode_err fst snd left_on] in *; try done;
    rewrite set_file_twice; (split; [exists written; by rewrite files_set|]);
    intros p Hpne; by rewrite files_set_ne by congruence.
Qed.
End Corrupted.

(** ** Witnesses *)

Section Witnesses.
#[local] Instance sample_build : Build := {| debug_build := true |}.
#[local] Instance sample_adler : Adler32 := adler32_fallback.
#[local] Instance sample_adler_laws : Adler32Laws := adler32_fallback_laws.
#[local] Instance sample_codecs : Codecs := zeros_codecs.
#[local] Instance sample_codec_laws : CodecLaws := zeros_codec_laws.
#[local] Instance sample_os : Os := one_byte_os.
#[local] Instance sample_os_laws : OsLaws := one_byte_os_laws.
#[local] Instance sample_os_works : OsWorks := one_byte_os_works.
#[local] Instance sample_sha : Sha256 := {| file_io := true; sha256 b := take 32 b |}.

Local Open Scope string_scope.

Definition sample_world : World :=
  world (<["old" := seqZ 1 40]> (<["new" := seqZ 5 30]> (<["other" := [7]]> ∅))) [] [].


Lemma encode_over_target_witness :
  exists es w1 delta, encode_file X86_avx2 sample_world "old" "new" "new" (sample_options 6) = Ok (es, w1) /\
    target_size es = lenZ (seqZ 5 30) /\ files w1 !! "new" = Some delta /\
    decode_all (seqZ 1 40) delta = Ok [].
Proof.
  apply (encode_over_target X86_avx2 sample_world "old" "new" (sample_options 6) (seqZ 1 40) (seqZ 5 30));
    try done; try (by apply in_range_list). by apply sample_options_ok.
Defined.

(** The sample stream, followed by a byte that starts no window. *)
Lemma decode_file_prefix_witness :
  exists ws, match decode_file (set_file (set_file sample_world "old" StreamRoundtrip.sample_source) "delta"
                    (file_header_bytes FileHeader.default ++ concat ws ++ [255])) "old" "delta" "out" with
  | Ok (_, w') | Err (_, w') =>
      (exists written, files w' !! "out" = Some written /\ concat sample_targets `prefix_of` written) /\
      forall p, p <> "out" -> files w' !! p = files (set_file (set_file sample_world "old"
          StreamRoundtrip.sample_source) "delta" (file_header_bytes FileHeader.default ++ concat ws ++ [255])) !! p
  | Panic | Diverge => False
  end.
Proof.
  destruct (encode_jobs_ok (E:=unit) (contents:=fun x : bytes => x) true StreamRoundtrip.sample_source
    sample_jobs sample_targets sample_jobs_ok _ _ (wrote_new true)) as (st & ws & Henc & Hst & Hws).
  vm_compute in Henc. injection Henc as <-. destruct Hst as (_ & _ & Hw).
  cbn [StreamEncoder.header_written StreamEncoder.writer app] in Hw.
  exists ws. apply (decode_file_prefix _ "old" "delta" "out" FileHeader.default ws sample_targets [255]
    StreamRoundtrip.sample_source); try done; [apply default_header_wf|exact zeros_typed| | |];
    rewrite app_assoc, <- Hw; [by apply in_range_list|reflexivity|vm_compute; reflexivity].
Defined.
End Witnesses.
