(* ===== verification/ByteSize.v ===== *)
(** * Byte sizes of the command line ([src/src/cli.rs], [parse_byte_size])

    A string is the list of its Unicode scalar values.  [str::trim],
    [u64::from_str] and [checked_mul] are written out; the theorem says which
    strings are sizes, and of how many bytes. *)

From Stdlib Require Import ZArith Lia.
From stdpp Require Import base numbers list option.
From S2P Require Import Prelude.

Local Open Scope Z_scope.
Local Open Scope rust_scope.

Abbreviation str := (list Z).

(** [char::is_whitespace], the Unicode property White_Space. *)
Definition is_whitespace (ch : Z) : bool :=
  ((9 <=? ch) && (ch <=? 13)) || (ch =? 0x20) || (ch =? 0x85) || (ch =? 0xA0) || (ch =? 0x1680) ||
  ((0x2000 <=? ch) && (ch <=? 0x200A)) || (ch =? 0x2028) || (ch =? 0x2029) || (ch =? 0x202F) ||
  (ch =? 0x205F) || (ch =? 0x3000).

Fixpoint trim_start (s : str) : str :=
  match s with
  | ch :: s' => if is_whitespace ch then trim_start s' else s
  | [] => []
  end.

Definition trim (s : str) : str := reverse (trim_start (reverse (trim_start s))).

Inductive int_error := Empty | InvalidDigit | PosOverflow.

Inductive size_error := EmptySize | InvalidSize (e : int_error) | SizeOverflow.

(** [checked_mul] and [checked_add] of [u64]. *)
Definition checked (v : Z) : option Z := if v <? 2 ^ 64 then Some v else None.

Definition is_digit (ch : Z) : bool := (48 <=? ch) && (ch <=? 57).

Fixpoint parse_digits (acc : Z) (s : str) : result int_error Z :=
  match s with
  | [] => Ok acc
  | ch :: s =>
      if is_digit ch then
        match checked (acc * 10) with
        | Some v =>
            match checked (v + (ch - 48)) with
            | Some v => parse_digits v s
            | None => Err PosOverflow
            end
        | None => Err PosOverflow
        end
      else Err InvalidDigit
  end.

(** [u64::from_str]: an optional plus sign and at least one digit. *)
Definition parse_u64 (s : str) : result int_error Z :=
  match s with
  | [] => Err Empty
  | ch :: digits =>
      if ch =? 43 then match digits with [] => Err InvalidDigit | _ => parse_digits 0 digits end
      else parse_digits 0 s
  end.

(** The multiplier of a last byte [k], [K], [m], [M], [g] or [G]. *)
Definition multiplier (ch : Z) : option Z :=
  if (ch =? 107) || (ch =? 75) then Some 1024
  else if (ch =? 109) || (ch =? 77) then Some (1024 * 1024)
  else if (ch =? 103) || (ch =? 71) then Some (1024 * 1024 * 1024)
  else None.

Definition parse_byte_size (s : str) : result size_error Z :=
  let s := trim s in
  match list.last s with
  | None => Err EmptySize
  | Some ch =>
      let '(num_part, mult) :=
        match multiplier ch with
        | Some m => (take (length s - 1) s, m)
        | None => (s, 1)
        end in
      let* num := map_err InvalidSize (parse_u64 (trim num_part)) in
      match checked (num * mult) with
      | Some v => Ok v
      | None => Err SizeOverflow
      end
  end.

(** ** Which strings are sizes *)

Definition blank (s : str) : Prop := Forall (fun ch => is_whitespace ch = true) s.

(** The value of a string of decimal digits. *)
Fixpoint digits_from (acc : Z) (s : str) : Z :=
  match s with
  | [] => acc
  | ch :: s => digits_from (acc * 10 + (ch - 48)) s
  end.

Definition numeral (s : str) (n : Z) : Prop :=
  exists plus ds, s = plus ++ ds /\ (plus = [] \/ plus = [43]) /\ ds <> [] /\
    Forall (fun ch => is_digit ch = true) ds /\ n = digits_from 0 ds.

(** The suffixes and the number of bytes each stands for: kibibytes, mebibytes
    and gibibytes, in either case. *)
Inductive suffix : Z -> Z -> Prop :=
  | suffix_K : suffix 75 (2 ^ 10)
  | suffix_k : suffix 107 (2 ^ 10)
  | suffix_M : suffix 77 (2 ^ 20)
  | suffix_m : suffix 109 (2 ^ 20)
  | suffix_G : suffix 71 (2 ^ 30)
  | suffix_g : suffix 103 (2 ^ 30).

(** Blanks, a numeral, and possibly, after blanks, a suffix. *)
Definition size_string (s : str) (v : Z) : Prop :=
  exists lead num trail n, s = lead ++ num ++ trail /\ blank lead /\ numeral num n /\
    ((blank trail /\ v = n) \/
     exists gap ch rest m, trail = gap ++ ch :: rest /\ blank gap /\ blank rest /\
       suffix ch m /\ v = n * m).

(** *** Trimming *)

(** No blank at either end. *)
Definition trimmed (s : str) : Prop :=
  (forall ch, list.head s = Some ch -> is_whitespace ch = false) /\
  (forall ch, list.last s = Some ch -> is_whitespace ch = false).

Lemma trim_start_split s :
  exists lead, s = lead ++ trim_start s /\ blank lead /\
    forall ch, list.head (trim_start s) = Some ch -> is_whitespace ch = false.
Proof.
  induction s as [|ch s (lead & Hs & Hb & Hh)]; simpl; [by exists []; split_and!; [|constructor|]|].
  destruct (is_whitespace ch) eqn:Hch.
  - exists (ch :: lead). split_and!; [by rewrite Hs at 1|by constructor|done].
  - exists []. split_and!; [done|constructor|]. by intros ? [= <-].
Qed.

Lemma blank_reverse s : blank s -> blank (reverse s).
Proof. unfold blank. by rewrite Forall_reverse. Qed.

Lemma trim_split s :
  exists lead trail, s = lead ++ trim s ++ trail /\ blank lead /\ blank trail /\ trimmed (trim s).
Proof.
  destruct (trim_start_split s) as (lead & Hs & Hb & Hh).
  destruct (trim_start_split (reverse (trim_start s))) as (trail & Hr & Hb' & Hh').
  exists lead, (reverse trail).
  assert (trim_start s = trim s ++ reverse trail) as Hts.
  { rewrite <- (reverse_involutive (trim_start s)), Hr, reverse_app at 1. done. }
  split_and!; [by rewrite <- Hts|done|by apply blank_reverse|].
  split; intros ch Hch.
  - apply Hh. rewrite Hts. by destruct (trim s).
  - apply Hh'. unfold trim in Hch. by rewrite last_reverse in Hch.
Qed.

Lemma trim_start_blank lead s :
  blank lead -> (forall ch, list.head s = Some ch -> is_whitespace ch = false) ->
  trim_start (lead ++ s) = s.
Proof.
  intros Hb Hh. induction Hb as [|ch lead Hch _ IH]; simpl.
  - destruct s as [|ch s]; [done|]. simpl. by rewrite (Hh ch eq_refl).
  - by rewrite Hch.
Qed.

Lemma trim_unique lead s trail :
  blank lead -> blank trail -> trimmed s -> trim (lead ++ s ++ trail) = s.
Proof.
  intros Hb Hb' [Hh Hl]. unfold trim. destruct s as [|c0 s].
  - simpl. rewrite <- (app_nil_r (lead ++ trail)).
    rewrite trim_start_blank; [done| |done]. by apply Forall_app.
  - rewrite trim_start_blank by done. rewrite reverse_app, trim_start_blank.
    + apply reverse_involutive.
    + by apply blank_reverse.
    + intros ch Hch. apply Hl. by rewrite head_reverse in Hch.
Qed.

(** *** Digits *)

Lemma digits_ge acc ds :
  0 <= acc -> Forall (fun ch => is_digit ch = true) ds -> acc <= digits_from acc ds.
Proof.
  intros Ha Hd. revert acc Ha. induction Hd as [|ch ds Hch _ IH]; intros acc Ha; simpl; [lia|].
  unfold is_digit in Hch. etransitivity; [|apply IH]; lia.
Qed.

Lemma parse_digits_spec s : forall acc v, 0 <= acc ->
  parse_digits acc s = Ok v <->
  Forall (fun ch => is_digit ch = true) s /\ v = digits_from acc s /\ (s <> [] -> v < 2 ^ 64).
Proof.
  induction s as [|ch s IH]; intros acc v Ha; cbn [parse_digits digits_from].
  { split; [intros [= <-]; by split_and!|by intros (_ & -> & _)]. }
  destruct (is_digit ch) eqn:Hch; [|split; [done|intros (Hf & _); by inversion Hf; congruence]].
  assert (0 <= ch - 48 <= 9) as Hr by (unfold is_digit in Hch; lia).
  assert (forall w, Forall (fun ch => is_digit ch = true) (ch :: s) /\ w = digits_from (acc * 10 + (ch - 48)) s /\
    (ch :: s <> [] -> w < 2 ^ 64) -> acc * 10 + (ch - 48) < 2 ^ 64) as Hbig.
  { intros w (Hf & -> & Hlt). inversion Hf; subst.
    pose proof (digits_ge (acc * 10 + (ch - 48)) s ltac:(lia) ltac:(done)). specialize (Hlt ltac:(done)). lia. }
  unfold checked. destruct (Z.ltb_spec (acc * 10) (2 ^ 64)).
  - destruct (Z.ltb_spec (acc * 10 + (ch - 48)) (2 ^ 64)).
    + rewrite IH by lia. split.
      * intros (Hf & -> & Hlt). split_and!; [by constructor|done|]. intros _. destruct s; [done|by apply Hlt].
      * intros (Hf & -> & Hlt). inversion Hf; subst. split_and!; auto.
    + split; [done|]. intros Hx. apply Hbig in Hx. lia.
  - split; [done|]. intros Hx. apply Hbig in Hx. lia.
Qed.

Lemma parse_u64_spec s v : parse_u64 s = Ok v <-> numeral s v /\ v < 2 ^ 64.
Proof.
  unfold numeral. assert (forall ds, ds <> [] ->
    parse_digits 0 ds = Ok v <-> Forall (fun ch => is_digit ch = true) ds /\ v = digits_from 0 ds /\ v < 2 ^ 64)
    as Hd by (intros ds Hne; rewrite parse_digits_spec by lia; intuition).
  destruct s as [|c0 s]; [|cbn [parse_u64]; destruct (Z.eqb_spec c0 43) as [->|Hc]; [destruct s as [|c1 s]|]].
  - split; [done|]. intros [(plus & ds & Hs & _ & Hne & _) _]. by destruct plus, ds.
  - split; [done|]. intros [(plus & ds & Hs & [->| ->] & Hne & Hf & _) _]; simpl in Hs.
    + subst ds. by inversion Hf.
    + by injection Hs as <-.
  - rewrite Hd by done. split.
    + intros (Hf & -> & Hl). split; [|done]. exists [43], (c1 :: s). auto 10.
    + intros [(plus & ds & Hs & [->| ->] & Hne & Hf & ->) Hl]; simpl in Hs.
      * subst ds. by inversion Hf.
      * by injection Hs as <-.
  - rewrite Hd by done. split.
    + intros (Hf & -> & Hl). split; [|done]. exists [], (c0 :: s). auto 10.
    + intros [(plus & ds & Hs & [->| ->] & Hne & Hf & ->) Hl]; simpl in Hs; [by subst ds|congruence].
Qed.

(** *** Sizes *)

(** The code's multipliers are the suffixes. *)
Lemma multiplier_suffix ch m : multiplier ch = Some m <-> suffix ch m.
Proof.
  unfold multiplier. split; [|by intros []].
  repeat case_match; intros [= <-]; 
    match goal with H : (_ || _) = true |- _ => apply orb_true_iff in H as [H|H]; apply Z.eqb_eq in H end;
    subst; constructor.
Qed.

Lemma digit_not_blank ch : is_digit ch = true -> is_whitespace ch = false.
Proof. unfold is_digit, is_whitespace. lia. Qed.

Lemma multiplier_not_blank ch m : multiplier ch = Some m -> is_whitespace ch = false.
Proof. unfold multiplier, is_whitespace. repeat case_match; intros; simplify_eq; lia. Qed.

Lemma multiplier_not_digit ch m : multiplier ch = Some m -> is_digit ch = false.
Proof. unfold multiplier, is_digit. repeat case_match; intros; simplify_eq; lia. Qed.

Lemma multiplier_pos ch m : multiplier ch = Some m -> 1 <= m.
Proof. unfold multiplier. repeat case_match; intros [= <-]; lia. Qed.

Lemma numeral_ends s n :
  numeral s n -> trimmed s /\ 0 <= n /\ exists ch, list.last s = Some ch /\ is_digit ch = true.
Proof.
  intros (plus & ds & -> & Hp & Hne & Hf & ->).
  destruct (exists_last Hne) as (ds' & ch & ->). apply Forall_app in Hf as Hf'.
  destruct Hf' as [Hf1 Hf2]. inversion Hf2 as [|? ? Hch _]; subst. rewrite app_assoc, last_snoc.
  split_and!; [split|apply (digits_ge 0); [lia|done]|eauto].
  - intros c0. destruct Hp as [->| ->]; [|by intros [= <-]].
    destruct ds' as [|d ds']; simpl; intros [= <-]; apply digit_not_blank; [done|by inversion Hf1].
  - rewrite last_snoc. intros c0 [= <-]. by apply digit_not_blank.
Qed.

(** What remains in front of the letter, trimmed. *)
Lemma take_before_last (s : str) ch : take (length (s ++ [ch]) - 1) (s ++ [ch]) = s.
Proof. rewrite length_app. simpl. replace (length s + 1 - 1)%nat with (length s) by lia. apply take_app_length. Qed.

Lemma trimmed_prefix s t : trimmed (s ++ t) -> forall lead trail,
  s = lead ++ trim s ++ trail -> blank lead -> trim s <> [] -> lead = [].
Proof.
  intros [Hh _] lead trail Hs Hb Hne. destruct lead as [|c0 lead]; [done|].
  inversion Hb as [|? ? Hc _]; subst. rewrite Hs in Hh. by rewrite (Hh c0 eq_refl) in Hc.
Qed.

(** The two shapes of a trimmed size. *)
Lemma parse_suffixed s lead core ch rest m :
  s = lead ++ (core ++ [ch]) ++ rest -> blank lead -> blank rest -> trimmed (core ++ [ch]) ->
  multiplier ch = Some m ->
  parse_byte_size s =
    let* num := map_err InvalidSize (parse_u64 (trim core)) in
    match checked (num * m) with Some v => Ok v | None => Err SizeOverflow end.
Proof.
  intros -> Hb Hr Ht Hm. unfold parse_byte_size. rewrite trim_unique by done.
  by rewrite last_snoc, Hm, take_before_last.
Qed.

Lemma parse_plain s lead core rest ch :
  s = lead ++ core ++ rest -> blank lead -> blank rest -> trimmed core ->
  list.last core = Some ch -> multiplier ch = None ->
  parse_byte_size s =
    let* num := map_err InvalidSize (parse_u64 core) in
    match checked (num * 1) with Some v => Ok v | None => Err SizeOverflow end.
Proof.
  intros -> Hb Hr Ht Hl Hm. unfold parse_byte_size. rewrite trim_unique by done. rewrite Hl, Hm.
  rewrite <- (app_nil_r core), <- (app_nil_l (core ++ [])) at 1. by rewrite trim_unique by (done || constructor).
Qed.

Lemma checked_ok n m v :
  match checked (n * m) with Some v => Ok v | None => Err SizeOverflow end = Ok v <->
  v = n * m /\ v < 2 ^ 64.
Proof. unfold checked. case_bool; (split; [intros [= <-]|intros [-> ?]]); (done || lia). Qed.

Lemma parsed_size s v : parse_byte_size s = Ok v -> size_string s v /\ v < 2 ^ 64.
Proof.
  destruct (trim_split s) as (lead & rest & Hs & Hb & Hr & Ht). intros Hp.
  destruct (list.last (trim s)) as [ch|] eqn:Hl;
    [|unfold parse_byte_size in Hp; by rewrite Hl in Hp].
  apply last_Some in Hl as Hl'. destruct Hl' as [core Hcore].
  destruct (multiplier ch) as [m|] eqn:Hm.
  - rewrite Hcore in Hs, Ht. rewrite (parse_suffixed s lead core ch rest m Hs Hb Hr Ht Hm) in Hp.
    destruct (parse_u64 (trim core)) as [n| | |] eqn:Hn; try done. cbn [map_err bind] in Hp.
    apply checked_ok in Hp as [-> Hlt]. apply parse_u64_spec in Hn as [Hnum _]. split; [|done].
    destruct (numeral_ends _ _ Hnum) as (_ & _ & d & Hd & _).
    destruct (trim_split core) as (l2 & gap & Hc & Hb2 & Hg & _).
    rewrite (trimmed_prefix core [ch] Ht l2 gap Hc Hb2) in Hc; [|by intros E; rewrite E in Hd].
    exists lead, (trim core), (gap ++ ch :: rest), n. split_and!; [|done|done|right].
    + rewrite Hs. rewrite Hc at 1. by rewrite <- !app_assoc.
    + exists gap, ch, rest, m. rewrite <- multiplier_suffix. by split_and!.
  - rewrite (parse_plain s lead (trim s) rest ch Hs Hb Hr Ht Hl Hm) in Hp.
    destruct (parse_u64 (trim s)) as [n| | |] eqn:Hn; try done. cbn [map_err bind] in Hp.
    apply checked_ok in Hp as [-> Hlt]. apply parse_u64_spec in Hn as [Hnum _]. split; [|done].
    exists lead, (trim s), rest, n. split_and!; [done|done|done|left; split; [done|lia]].
Qed.

Lemma accepted_size s v : size_string s v -> v < 2 ^ 64 -> parse_byte_size s = Ok v.
Proof.
  intros (lead & num & trail & n & Hs & Hb & Hnum & Hcase) Hlt.
  destruct (numeral_ends _ _ Hnum) as (Ht & Hn0 & d & Hd & Hdig).
  destruct Hcase as [[Hr ->]|(gap & ch & rest & m & -> & Hg & Hr & Hm%multiplier_suffix & ->)].
  - assert (multiplier d = None) as Hmd
      by (destruct (multiplier d) eqn:E; [apply multiplier_not_digit in E; congruence|done]).
    rewrite (parse_plain s lead num trail d Hs Hb Hr Ht Hd Hmd).
    assert (parse_u64 num = Ok n) as -> by (by apply parse_u64_spec).
    cbn [map_err bind]. apply checked_ok. lia.
  - pose proof (multiplier_pos _ _ Hm).
    rewrite (parse_suffixed s lead (num ++ gap) ch rest m); [|rewrite Hs; by rewrite <- !app_assoc|done|done| |done].
    + rewrite (trim_unique [] num gap (Forall_nil_2 _) Hg Ht : trim (num ++ gap) = num).
      assert (parse_u64 num = Ok n) as -> by (apply parse_u64_spec; split; [done|nia]).
      cbn [map_err bind]. by apply checked_ok.
    + split; [|rewrite last_snoc; intros ? [= <-]; by apply (multiplier_not_blank _ m)].
      intros c0 Hc0. apply (proj1 Ht). destruct num; [discriminate Hd|exact Hc0].
Qed.

(** C35: [parse_byte_size] accepts exactly the sizes that fit in 64 bits: an
    optional plus sign and decimal digits, possibly followed by one of the
    letters K, M and G in either case, with Unicode blanks around the parts; it
    returns the number times 2^10, 2^20 or 2^30, and every other string, an
    overflowing size included, is an error. *)
Theorem parse_byte_size_exact (s : str) (v : Z) :
  parse_byte_size s = Ok v <-> size_string s v /\ v < 2 ^ 64.
Proof. split; [apply parsed_size|]. intros []. by apply accepted_size. Qed.
