(* ===== verification/CliOptions.v ===== *)
(** * Command-line options ([src/src/cli.rs])

    The arguments as the [clap] structures hold them, the flat [Options] that
    [resolve_options] makes of them, and the compression options of a command.
    Parsing the argument vector into these structures is [clap]'s. *)

From stdpp Require Import base numbers list option strings.
From Stdlib Require Import ZArith Lia.
From S2P Require Import Prelude Header Secondary Delta DeltaCorrect Files.

Local Open Scope Z_scope.

Definition XD3_DEFAULT_LEVEL : Z := 6.
Definition XD3_DEFAULT_WINSIZE : Z := Z.shiftl 1 23.
Definition XD3_DEFAULT_SRCWINSZ : Z := Z.shiftl 1 26.
Definition XD3_DEFAULT_IOPT_SIZE : Z := Z.shiftl 1 15.
Definition XD3_DEFAULT_SPREVSZ : Z := Z.shiftl 1 18.
Definition XD3_HARDMAXWINSIZE : Z := Z.shiftl 1 24.

(** ** Arguments *)

Inductive SecondaryArg := SecNone | SecLzma | SecZlib | SecDjw | SecFgk.

Record EncodeTuningArgs := tuning_args {
  ta_level : Z;
  ta_input_window_size : Z;
  ta_source_window_size : Z;
  ta_sprevsz : Z;
  ta_iopt_size : Z;
  ta_secondary : SecondaryArg;
  ta_no_compress : bool;
  ta_no_checksum : bool
}.

Record EncodeArgs := encode_args {
  ea_source : option path;
  ea_input : option path;
  ea_output : option path;
  ea_stdout : bool;
  ea_no_output : bool;
  ea_tuning : EncodeTuningArgs;
  ea_input_pos : option path;
  ea_output_pos : option path
}.

Record DecodeArgs := decode_args {
  da_source : option path;
  da_input : option path;
  da_output : option path;
  da_stdout : bool;
  da_no_checksum : bool;
  da_no_output : bool;
  da_input_pos : option path;
  da_output_pos : option path
}.

Record PrintArgs := print_args { pa_input : path }.

(** The header is the UTF-8 bytes of the string. *)
Record RecodeArgs := recode_args {
  ra_input : option path;
  ra_output : option path;
  ra_stdout : bool;
  ra_secondary : SecondaryArg;
  ra_app_header : option bytes;
  ra_drop_app_header : bool;
  ra_input_pos : option path;
  ra_output_pos : option path
}.

Record MergeArgs := merge_args {
  ma_source : option path;
  ma_patches : list path;
  ma_last_patch : option path;
  ma_output : option path;
  ma_output_pos : option path;
  ma_stdout : bool;
  ma_tuning : EncodeTuningArgs
}.

Inductive Cmd :=
  | CmdEncode (args : EncodeArgs)
  | CmdDecode (args : DecodeArgs)
  | CmdConfig
  | CmdHeader (args : PrintArgs)
  | CmdHeaders (args : PrintArgs)
  | CmdDelta (args : PrintArgs)
  | CmdRecode (args : RecodeArgs)
  | CmdMerge (args : MergeArgs).

Record Cli := cli {
  cli_command : Cmd;
  cli_force : bool;
  cli_quiet : bool;
  cli_verbose : Z;
  cli_json_output : bool
}.

(** ** Options *)

Inductive Command :=
  | Encode | Decode | Config | PrintHdr | PrintHdrs | PrintDelta | Recode | Merge.

#[export] Instance Command_eq_dec : EqDecision Command.
Proof. solve_decision. Defined.

Module Options.
Record t := mk {
  command : Command;
  use_stdout : bool;
  force : bool;
  quiet : bool;
  verbose : Z;
  level : Z;
  no_compress : bool;
  no_checksum : bool;
  no_output : bool;
  use_secondary : bool;
  secondary_name : option string;
  use_appheader : bool;
  appheader : option bytes;
  source_window_size : Z;
  input_window_size : Z;
  iopt_size : Z;
  sprevsz : Z;
  source_file : option path;
  input_file : option path;
  output_file : option path;
  merge_files : list path;
  json_output : bool
}.

(** The options of a command that only takes an input. *)
Definition plain (command : Command) (force quiet : bool) (verbose : Z) (input_file : option path)
    (json_output : bool) : t :=
  mk command false force quiet verbose XD3_DEFAULT_LEVEL false false false false None true None
     XD3_DEFAULT_SRCWINSZ XD3_DEFAULT_WINSIZE XD3_DEFAULT_IOPT_SIZE XD3_DEFAULT_SPREVSZ
     None input_file None [] json_output.

(** [opts.output_file = None]. *)
Definition clear_output (o : t) : t :=
  mk (command o) (use_stdout o) (force o) (quiet o) (verbose o) (level o) (no_compress o)
     (no_checksum o) (no_output o) (use_secondary o) (secondary_name o) (use_appheader o)
     (appheader o) (source_window_size o) (input_window_size o) (iopt_size o) (sprevsz o)
     (source_file o) (input_file o) None (merge_files o) (json_output o).
End Options.

Definition secondary_name (sec : SecondaryArg) : option string :=
  match sec with
  | SecNone => None
  | SecLzma => Some "lzma"
  | SecZlib => Some "zlib"
  | SecDjw => Some "djw"
  | SecFgk => Some "fgk"
  end.

(** [Option::or]. *)
Definition or_else {A} (a b : option A) : option A :=
  match a with Some _ => a | None => b end.

(** The casts to [usize] keep 64 bits. *)
(** The arms of [resolve_options] for [recode] and [merge]. *)
Definition recode_options (cli : Cli) (args : RecodeArgs) : Options.t :=
  let name := secondary_name (ra_secondary args) in
  let '(use_appheader, appheader) :=
    if ra_drop_app_header args then (false, None)
    else match ra_app_header args with
         | Some app => (true, Some app)
         | None => (true, None)
         end in
  Options.mk Recode (ra_stdout args) (cli_force cli) (cli_quiet cli) (Z.min (cli_verbose cli) 2)
    XD3_DEFAULT_LEVEL false false false (is_some name) name use_appheader appheader
    XD3_DEFAULT_SRCWINSZ XD3_DEFAULT_WINSIZE XD3_DEFAULT_IOPT_SIZE XD3_DEFAULT_SPREVSZ None
    (or_else (ra_input args) (ra_input_pos args))
    (or_else (ra_output args) (ra_output_pos args)) [] (cli_json_output cli).

Definition merge_options (cli : Cli) (args : MergeArgs) : Options.t :=
  let tuning := ma_tuning args in
  let name := secondary_name (ta_secondary tuning) in
  Options.mk Merge (ma_stdout args) (cli_force cli) (cli_quiet cli) (Z.min (cli_verbose cli) 2)
    (ta_level tuning) (ta_no_compress tuning) (ta_no_checksum tuning) false (is_some name) name
    true None (ta_source_window_size tuning) (ta_input_window_size tuning) (ta_iopt_size tuning)
    (ta_sprevsz tuning) (ma_source args) (ma_last_patch args)
    (or_else (ma_output args) (ma_output_pos args)) (ma_patches args) (cli_json_output cli).

Definition resolve_options (cli : Cli) : Options.t :=
  let quiet := cli_quiet cli in
  let verbose := Z.min (cli_verbose cli) 2 in
  let force := cli_force cli in
  let json_output := cli_json_output cli in
  match cli_command cli with
  | CmdEncode args =>
      let tuning := ea_tuning args in
      let name := secondary_name (ta_secondary tuning) in
      Options.mk Encode (ea_stdout args) force quiet verbose (ta_level tuning)
        (ta_no_compress tuning) (ta_no_checksum tuning) (ea_no_output args) (is_some name) name
        true None (ta_source_window_size tuning) (ta_input_window_size tuning)
        (ta_iopt_size tuning) (ta_sprevsz tuning) (ea_source args)
        (or_else (ea_input args) (ea_input_pos args))
        (or_else (ea_output args) (ea_output_pos args)) [] json_output
  | CmdDecode args =>
      Options.mk Decode (da_stdout args) force quiet verbose XD3_DEFAULT_LEVEL false
        (da_no_checksum args) (da_no_output args) false None true None XD3_DEFAULT_SRCWINSZ
        XD3_DEFAULT_WINSIZE XD3_DEFAULT_IOPT_SIZE XD3_DEFAULT_SPREVSZ (da_source args)
        (or_else (da_input args) (da_input_pos args))
        (or_else (da_output args) (da_output_pos args)) [] json_output
  | CmdConfig => Options.plain Config force quiet verbose None json_output
  | CmdHeader args => Options.plain PrintHdr force quiet verbose (Some (pa_input args)) json_output
  | CmdHeaders args => Options.plain PrintHdrs force quiet verbose (Some (pa_input args)) json_output
  | CmdDelta args => Options.plain PrintDelta force quiet verbose (Some (pa_input args)) json_output
  | CmdRecode args => recode_options cli args
  | CmdMerge args => merge_options cli args
  end.

(** ** Compression options *)

(** An unknown name, or one whose feature is off, is a warning and no
    compression. *)
Definition build_compress_options `{Codecs} (opts : Options.t) : CompressOptions :=
  let secondary :=
    if Options.use_secondary opts then
      match Options.secondary_name opts with
      | Some name =>
          if bool_decide (name = "lzma") && lzma_secondary then Lzma
          else if bool_decide (name = "zlib") && zlib_secondary then Zlib (Options.level opts)
          else NoSecondary
      | None => if lzma_secondary then Lzma else NoSecondary
      end
    else NoSecondary in
  compress_options (Options.level opts) (Options.input_window_size opts)
    (negb (Options.no_checksum opts)) secondary.

(** ** The options a command encodes with *)

(** In-memory compression does not fail. *)
Definition codecs_total `{Codecs} : Prop :=
  (forall d, exists c, lzma_compress d = Ok c) /\ (forall l d, exists c, zlib_compress l d = Ok c).

(** Only compressors that are compiled in are chosen, so the build decodes
    what it encodes. *)
Lemma build_secondary_ok `{Codecs} opts :
  codecs_total ->
  secondary_ok (secondary (build_compress_options opts)) /\
  secondary_total (secondary (build_compress_options opts)).
Proof.
  intros [Hl Hz]. unfold build_compress_options. cbn [secondary].
  destruct lzma_secondary eqn:E1, zlib_secondary eqn:E2;
    destruct (Options.use_secondary opts), (Options.secondary_name opts) as [name|]; simpl;
    repeat match goal with |- context [bool_decide ?P] => destruct (bool_decide P) end; simpl;
    (split; [done|]); intros be Hbe; simpl in Hbe; try done; injection Hbe as <-; simpl; auto.
Qed.

Lemma build_options_ok `{Codecs} opts :
  codecs_total -> 0 <= Options.level opts -> 1 <= Options.input_window_size opts <= XD3_HARDMAXWINSIZE ->
  options_ok (build_compress_options opts).
Proof.
  intros Hc Hl Hw. destruct (build_secondary_ok opts Hc). constructor; simpl; done.
Qed.
