(* ===== verification/CliCommands.v ===== *)
(** * The commands encode, decode, merge and config ([src/src/cli.rs])

    A command runs on a [World] and ends with exit code 0, which is [Ok], or 1,
    which is [Err], with the world it leaves.  Messages and statistics go to
    standard error and are left out.  As in the file-level API, the output is
    opened, and truncated, before the input's first byte is read. *)

From stdpp Require Import base numbers list option strings gmap.
From Stdlib Require Import ZArith Lia.
From S2P Require Import Prelude Header WindowEncoder Source Secondary WindowDecoder StreamRoundtrip.
From S2P Require Import Kernels Delta DeltaCorrect Files FileIo CliOptions.

Local Open Scope Z_scope.
Local Open Scope rust_scope.

(** [return 1] in the world [w]. *)
Definition exit_1 {E A} (w : World) (m : result E A) : result World A :=
  map_err (fun _ => w) m.

(** ** Inputs and outputs *)

(** The source file, read whole; no source is an empty one. *)
Definition read_source `{Os} (w : World) (source_file : option path) : result World bytes :=
  match source_file with
  | Some p => exit_1 w (fs_read w p)
  | None => Ok []
  end.

Inductive input := FromFile (p : path) | FromStdin.

Definition open_input `{Os} (w : World) (input_file : option path) : result World input :=
  match input_file with
  | Some p => let* f := exit_1 w (file_open w p) in Ok (FromFile f)
  | None => Ok FromStdin
  end.

Definition input_bytes (w : World) (i : input) : bytes :=
  match i with FromFile p => file_bytes w p | FromStdin => stdin w end.

Inductive output := ToFile (p : path) | ToStdout | ToSink.

Definition open_output `{Os} (w : World) (opts : Options.t) : result World (output * World) :=
  match Options.use_stdout opts, Options.output_file opts with
  | true, _ | _, None => Ok (ToStdout, w)
  | false, Some p =>
      if path_exists w p && negb (Options.force opts) then Err w
      else let* w := exit_1 w (file_create w p) in Ok (ToFile p, w)
  end.

(** What was written to the output is there when the writer is flushed or
    dropped. *)
Definition write_output (w : World) (o : output) (b : bytes) : World :=
  match o with
  | ToFile p => set_file w p b
  | ToStdout => write_stdout w b
  | ToSink => w
  end.

Definition exit_1_writing {E A} (w : World) (o : output) (m : result (E * bytes) A)
    : result World A :=
  map_err (fun '(_, written) => write_output w o written) m.

Section Commands.
Context {B : Build} `{Adler32} `{Codecs} `{Os} (c : cpu).

(** ** Encode *)

(** The loop of [--check-only]: read to the end. *)
Fixpoint count_loop (fuel : nat) (rest : bytes) : result os_error unit :=
  match fuel with
  | O => Diverge
  | S fuel =>
      let* n := os_read BUF_SIZE rest in
      if n =? 0 then Ok tt else count_loop fuel (drop (Z.to_nat n) rest)
  end.

Fixpoint encode_loop (fuel : nat) (encoder : DeltaEncoder.t) (rest : bytes)
  : result (IoError * bytes) DeltaEncoder.t :=
  match fuel with
  | O => Diverge
  | S fuel =>
      let* n := map_err (fun e => (IoOs e, StreamEncoder.writer (DeltaEncoder.stream encoder)))
                  (os_read BUF_SIZE rest) in
      if n =? 0 then Ok encoder
      else
        let* encoder :=
          map_err encode_err (DeltaEncoder.write_target c encoder (take (Z.to_nat n) rest)) in
        encode_loop fuel encoder (drop (Z.to_nat n) rest)
  end.

Definition cmd_encode (opts : Options.t) (w : World) : result World World :=
  let compress_opts := build_compress_options opts in
  let* source := read_source w (Options.source_file opts) in
  let* target_reader := open_input w (Options.input_file opts) in
  let* (out, w) := open_output w opts in
  let target := input_bytes w target_reader in
  if Options.no_output opts then
    let* _ := exit_1 w (count_loop (S (length target)) target) in Ok w
  else
    let* delta :=
      exit_1_writing w out
        (let* encoder := map_err encode_err (DeltaEncoder.new c [] source compress_opts) in
         let* encoder := encode_loop (S (length target)) encoder target in
         let* (delta, _) := map_err encode_err (DeltaEncoder.finish c encoder) in
         Ok delta) in
    Ok (write_output w out delta).

(** ** Decode *)

Definition open_decode_output (w : World) (opts : Options.t) : result World (output * World) :=
  if Options.no_output opts then Ok (ToSink, w) else open_output w opts.

Definition cmd_decode (opts : Options.t) (w : World) : result World World :=
  let* source := read_source w (Options.source_file opts) in
  let* delta_reader := open_input w (Options.input_file opts) in
  let* (out, w) := open_decode_output w opts in
  let delta := input_bytes w delta_reader in
  let decoder := DeltaDecoder.with_checksum delta (negb (Options.no_checksum opts)) in
  let* (_, _, _, written) := exit_1_writing w out (DeltaDecoder.decode_to decoder source []) in
  Ok (write_output w out written).

(** ** Merge *)

(** Apply the patches in order, the first to the source. *)
Fixpoint apply_patches (w : World) (first : bool) (source_file : option path) (patches : list path)
    (current_source : bytes) : result World bytes :=
  match patches with
  | [] => Ok current_source
  | patch_path :: patches =>
      let* delta_data := exit_1 w (fs_read w patch_path) in
      let* source_for_decode :=
        if first then
          match source_file with
          | Some p => exit_1 w (fs_read w p)
          | None => Ok current_source
          end
        else Ok current_source in
      let* decoded := exit_1 w (decode_memory delta_data source_for_decode) in
      apply_patches w false source_file patches decoded
  end.

Definition all_patches (opts : Options.t) : list path :=
  Options.merge_files opts ++
  match Options.input_file opts with Some p => [p] | None => [] end.

Definition cmd_merge (opts : Options.t) (w : World) : result World World :=
  let patches := all_patches opts in
  if lenZ patches <? 2 then Err w
  else
    let* output_path :=
      match Options.output_file opts with
      | Some p => Ok (Some p)
      | None => if Options.use_stdout opts then Ok None else Err w
      end in
    let* final_target := apply_patches w true (Options.source_file opts) patches [] in
    let* original_source := read_source w (Options.source_file opts) in
    let compress_opts := build_compress_options opts in
    let* delta_output :=
      exit_1 w
        (let* encoder := DeltaEncoder.new c [] original_source compress_opts in
         let* encoder := DeltaEncoder.write_target c encoder final_target in
         let* (delta, _) := DeltaEncoder.finish c encoder in
         Ok delta) in
    match output_path with
    | Some p =>
        if path_exists w p && negb (Options.force opts) then Err w
        else let* w := exit_1 w (file_create w p) in Ok (set_file w p delta_output)
    | None => Ok (write_stdout w delta_output)
    end.

(** ** Config: standard error only *)

Definition cmd_config (w : World) : result World World := Ok w.
End Commands.
