(* ===== verification/Recode.v ===== *)
(** * The command recode ([src/src/cli.rs], [cmd_recode])

    Recoding rewrites a delta with another secondary compression and
    application header without decoding its instructions.  The theorem: the
    new delta decodes to what the old one decodes to, over every source.  The
    proof runs the decoder on both in step. *)

From stdpp Require Import base numbers list option strings gmap.
From Stdlib Require Import ZArith Lia.
From S2P Require Import Prelude Varint AddrCache Header WindowEncoder Source Secondary WindowDecoder.
From S2P Require Import WindowRoundtrip StreamRoundtrip Kernels Delta DeltaCorrect Files CliOptions CliCommands.

Local Open Scope Z_scope.
Local Open Scope rust_scope.

(** [return 1] with what was written. *)
Definition exit_with {E A} (written : bytes) (m : result E A) : result bytes A :=
  map_err (fun _ => written) m.

Section Recode.
Context {B : Build} `{Codecs}.

Definition recode_header (opts : Options.t) (in_hdr : FileHeader.t)
    (new_secondary : option CompressBackend) : FileHeader.t :=
  let out_hdr := FileHeader.default in
  let out_hdr :=
    match new_secondary with
    | Some be => FileHeader.mk (Z.lor (FileHeader.hdr_ind out_hdr) VCD_SECONDARY) (Some (be_id be))
                   (FileHeader.app_header out_hdr)
    | None => out_hdr
    end in
  let with_app ah :=
    FileHeader.mk (Z.lor (FileHeader.hdr_ind out_hdr) VCD_APPHEADER)
      (FileHeader.secondary_id out_hdr) (Some ah) in
  if Options.use_appheader opts then
    match Options.appheader opts with
    | Some ah => with_app ah
    | None =>
        match FileHeader.app_header in_hdr with
        | Some orig_ah => with_app orig_ah
        | None => out_hdr
        end
    end
  else out_hdr.

(** The header of a recoded window, before [enc_len] is known. *)
Definition recoded_window (wh : WindowHeader.t) (out_data out_inst out_addr : bytes) (del_ind : Z)
    (enc_len : Z) : WindowHeader.t :=
  WindowHeader.mk (WindowHeader.win_ind wh) (WindowHeader.copy_window_len wh)
    (WindowHeader.copy_window_offset wh) enc_len (WindowHeader.target_window_len wh) del_ind
    (lenZ out_data) (lenZ out_inst) (lenZ out_addr) (WindowHeader.adler32 wh).

(** The sections as they are stored, or compressed anew. *)
Definition recode_sections (in_hdr : FileHeader.t) (new_secondary : option CompressBackend)
    (wh : WindowHeader.t) (data_buf inst_buf addr_buf written : bytes)
    : result bytes (bytes * bytes * bytes * Z) :=
  let* (raw_data, raw_inst, raw_addr) :=
    if negb (WindowHeader.del_ind wh =? 0) then
      exit_with written (decompress_sections data_buf inst_buf addr_buf (WindowHeader.del_ind wh)
                           (FileHeader.secondary_id in_hdr))
    else Ok (data_buf, inst_buf, addr_buf) in
  match new_secondary with
  | Some be => exit_with written (compress_sections be raw_data raw_inst raw_addr)
  | None => Ok (raw_data, raw_inst, raw_addr, 0)
  end.

(** The [loop] over windows; a window takes at least a byte of the reader. *)
Fixpoint recode_loop (fuel : nat) (in_hdr : FileHeader.t) (new_secondary : option CompressBackend)
    (reader written : bytes) : result bytes bytes :=
  match fuel with
  | O => Diverge
  | S fuel =>
      let* (owh, reader) := exit_with written (WindowHeader.decode reader) in
      match owh with
      | None => Ok written
      | Some wh =>
          let* _ := alloc (WindowHeader.data_len wh) in
          let* _ := alloc (WindowHeader.inst_len wh) in
          let* _ := alloc (WindowHeader.addr_len wh) in
          let* (data_buf, reader) := exit_with written (read_exact (WindowHeader.data_len wh) reader) in
          let* (inst_buf, reader) := exit_with written (read_exact (WindowHeader.inst_len wh) reader) in
          let* (addr_buf, reader) := exit_with written (read_exact (WindowHeader.addr_len wh) reader) in
          let* (out_data, out_inst, out_addr, new_del_ind) :=
            recode_sections in_hdr new_secondary wh data_buf inst_buf addr_buf written in
          let* enc_len :=
            WindowHeader.compute_enc_len (recoded_window wh out_data out_inst out_addr new_del_ind 0) in
          let* written :=
            WindowHeader.encode (recoded_window wh out_data out_inst out_addr new_del_ind enc_len) written in
          recode_loop fuel in_hdr new_secondary reader (written ++ out_data ++ out_inst ++ out_addr)
      end
  end.

(** From the reader's bytes to the writer's. *)
Definition recode (opts : Options.t) (reader : bytes) : result bytes bytes :=
  let* (in_hdr, reader) := exit_with [] (FileHeader.decode reader) in
  let new_secondary := backend (secondary (build_compress_options opts)) in
  let* written := FileHeader.encode (recode_header opts in_hdr new_secondary) [] in
  recode_loop (S (length reader)) in_hdr new_secondary reader written.

Definition cmd_recode `{Os} (opts : Options.t) (w : World) : result World World :=
  match Options.input_file opts with
  | None => Err w
  | Some input_file =>
      let* f := exit_1 w (file_open w input_file) in
      let* (out, w) := open_output w opts in
      let* written := map_err (write_output w out) (recode opts (file_bytes w f)) in
      Ok (write_output w out written)
  end.
End Recode.

(** ** Windows in step *)

(** Decoding the sections depends on these fields of the header only. *)
Lemma decode_with_cache_header {B : Build} {S : Type} `{SourceProvider S} `{Adler32}
    (h h' : WindowHeader.t) sec (s : S) verify buf out c :
  WindowHeader.copy_window_len h' = WindowHeader.copy_window_len h ->
  WindowHeader.copy_window_offset h' = WindowHeader.copy_window_offset h ->
  WindowHeader.target_window_len h' = WindowHeader.target_window_len h ->
  WindowHeader.adler32 h' = WindowHeader.adler32 h ->
  decode_window_with_cache h' sec s verify buf out c = decode_window_with_cache h sec s verify buf out c.
Proof. intros E1 E2 E3 E4. unfold decode_window_with_cache. by rewrite E1, E2, E3, E4. Qed.

(** Decompressed sections stay within the address space. *)
Definition sections_below `{Codecs} (stored bound : Z) : Prop :=
  forall d i a del id d' i' a',
    wf_bytes d -> wf_bytes i -> wf_bytes a -> lenZ d + lenZ i + lenZ a <= stored ->
    decompress_sections d i a del id = Ok (d', i', a') ->
    lenZ d' + lenZ i' + lenZ a' < bound.

Section Step.
Context {B : Build} `{CodecLaws}.

Lemma recoded_window_wf wh d i a del n :
  window_fields_wf wh -> 0 <= del < 8 -> lenZ d + lenZ i + lenZ a < 2 ^ 62 ->
  window_fields_wf (recoded_window wh d i a del n) /\
  delta_length (recoded_window wh d i a del n) < 2 ^ 64.
Proof.
  intros Hwh Hdel Hl. pose proof (lenZ_nonneg d). pose proof (lenZ_nonneg i). pose proof (lenZ_nonneg a).
  assert (window_fields_wf (recoded_window wh d i a del n)) as Hwf.
  { destruct Hwh. constructor; simpl; auto; unfold in_range; lia. }
  split; [done|]. unfold delta_length, window_header_tail. autorewrite with lenz. simpl.
  assert (forall x, is_u64 x -> lenZ (varint x) <= 10) as Hv by (intros; by apply varint_length_le).
  pose proof (Hv _ (target_u64 _ Hwf)). pose proof (Hv _ (wh_data _ Hwf)).
  pose proof (Hv _ (wh_inst _ Hwf)). pose proof (Hv _ (wh_addr _ Hwf)). simpl in *.
  destruct (WindowHeader.adler32 wh); rewrite ?lenZ_to_be_bytes, ?(lenZ_nil (A:=Z)); lia.
Qed.

(** What the decoder makes of the stored sections. *)
Definition stored_sections (d i a : bytes) (del : Z) (id : option Z)
    : result DecodeError (bytes * bytes * bytes) :=
  if negb (del =? 0) then decompress_sections d i a del id else Ok (d, i, a).

Context (new_secondary : option CompressBackend).
Context (Hsec : forall be, new_secondary = Some be ->
           decodable be /\ forall d, exists c, be_compress be d = Ok c).

Definition new_id : option Z :=
  match new_secondary with Some be => Some (be_id be) | None => None end.

Lemma recode_sections_ok in_hdr wh d i a data inst addr written :
  stored_sections d i a (WindowHeader.del_ind wh) (FileHeader.secondary_id in_hdr)
    = Ok (data, inst, addr) ->
  exists d' i' a' del, recode_sections in_hdr new_secondary wh d i a written = Ok (d', i', a', del) /\
    0 <= del < 8 /\ stored_sections d' i' a' del new_id = Ok (data, inst, addr) /\
    lenZ d' + lenZ i' + lenZ a' <= lenZ data + lenZ inst + lenZ addr.
Proof.
  intros Hst. unfold recode_sections, new_id, stored_sections in *.
  assert ((if negb (WindowHeader.del_ind wh =? 0)
    then exit_with written (decompress_sections d i a (WindowHeader.del_ind wh) (FileHeader.secondary_id in_hdr))
    else Ok (d, i, a)) = Ok (data, inst, addr)) as ->.
  { destruct (negb _); [by rewrite Hst|]. by injection Hst as -> -> ->. }
  cbn [bind]. destruct new_secondary as [be|].
  - destruct (Hsec be eq_refl) as [Hdec Htot].
    destruct (compress_sections_total be data inst addr Htot) as (d' & i' & a' & del & Hcs).
    exists d', i', a', del. rewrite Hcs. split; [done|].
    pose proof (decompress_compress be _ _ _ _ _ _ _ Hdec Hcs) as Hinv.
    pose proof (compress_sections_inv _ _ _ _ _ _ _ _ Hcs) as (Hdel & [_ Hd] & [_ Hi] & [_ Ha]).
    assert (forall x y, compress_section be y = Ok x -> lenZ x <= lenZ y) as Hle.
    { intros x y Hxy. apply compress_section_ok in Hxy as [[? _]| ->]; lia. }
    apply Hle in Hd, Hi, Ha. split_and!; try lia.
    destruct (Z.eqb_spec del 0) as [->|]; [|exact Hinv]. exact Hinv.
  - exists data, inst, addr, 0. split_and!; (done || lia).
Qed.

(** Two decoders past their headers, about to read the same windows stored
    differently. *)
Record in_step (d1 d2 : StreamDecoder.t) : Prop := {
  is_header1 : is_Some (StreamDecoder.file_header d1);
  is_header2 : is_Some (StreamDecoder.file_header d2);
  is_verify : StreamDecoder.verify_checksum d2 = StreamDecoder.verify_checksum d1;
  is_copy_buf : StreamDecoder.copy_buf d2 = StreamDecoder.copy_buf d1;
  is_acache : StreamDecoder.acache d2 = StreamDecoder.acache d1;
  is_new_id : StreamDecoder.secondary_id d2 = new_id
}.

Lemma read_section_inv n r l r' :
  StreamDecoder.read_section n r = Ok (l, r') -> 0 <= n ->
  alloc (E:=bytes) n = Ok tt /\ read_exact n r = Ok (l, r') /\ r = l ++ r' /\ lenZ l = n /\ n < 2 ^ 63.
Proof.
  unfold StreamDecoder.read_section, alloc. intros Hr Hn.
  destruct (Z.leb_spec n (2 ^ 63 - 1)); [|done]. cbn [bind] in Hr.
  destruct (read_exact n r) as [[l1 r1]| | |] eqn:Hre; try done. injection Hr as -> ->.
  apply read_exact_inv in Hre as Hx; [|done]. destruct Hx as [-> <-]. split_and!; (done || lia).
Qed.
End Step.

Section Loop.
Context {B : Build} {S : Type} `{SourceProvider S} `{Adler32} `{CodecLaws}.

(** What a successful [decode_window] on a decoder past its header has done. *)
Record decoded_window (d : StreamDecoder.t) (s : S) (out : bytes) (d' : StreamDecoder.t) (s' : S)
    (out' : bytes) (wh : WindowHeader.t) (dbuf ibuf abuf data inst addr buf : bytes)
    (c : AddressCache.t) : Prop := {
  dw_header : WindowHeader.decode (StreamDecoder.reader d)
    = Ok (Some wh, dbuf ++ ibuf ++ abuf ++ StreamDecoder.reader d');
  dw_target : WindowHeader.has_target wh = false;
  dw_data : lenZ dbuf = WindowHeader.data_len wh /\ lenZ dbuf < 2 ^ 63;
  dw_inst : lenZ ibuf = WindowHeader.inst_len wh /\ lenZ ibuf < 2 ^ 63;
  dw_addr : lenZ abuf = WindowHeader.addr_len wh /\ lenZ abuf < 2 ^ 63;
  dw_sections : stored_sections dbuf ibuf abuf (WindowHeader.del_ind wh) (StreamDecoder.secondary_id d)
    = Ok (data, inst, addr);
  dw_cache : decode_window_with_cache wh (sections data inst addr) s
    (StreamDecoder.verify_checksum d) (StreamDecoder.copy_buf d) out (StreamDecoder.acache d)
    = Ok (out', s', buf, c);
  dw_state : d' = StreamDecoder.mk (StreamDecoder.reader d') (StreamDecoder.file_header d)
    (StreamDecoder.verify_checksum d) (StreamDecoder.secondary_id d) dbuf ibuf abuf buf c
}.

Lemma decode_window_inv d s out more d' s' out' :
  is_Some (StreamDecoder.file_header d) -> wf_bytes (StreamDecoder.reader d) ->
  StreamDecoder.decode_window d s out = Ok (more, d', s', out') ->
  (more = false /\ WindowHeader.decode (StreamDecoder.reader d) = Ok (None, StreamDecoder.reader d') /\
   s' = s /\ out' = out) \/
  (more = true /\ exists wh dbuf ibuf abuf data inst addr buf c,
     decoded_window d s out d' s' out' wh dbuf ibuf abuf data inst addr buf c).
Proof.
  intros [fh Hfh] Hr. unfold StreamDecoder.decode_window, StreamDecoder.ensure_header. rewrite Hfh.
  cbn [bind]. destruct (WindowHeader.decode (StreamDecoder.reader d)) as [[[wh|] r]| | |] eqn:Hwh;
    cbn [map_err bind]; try done.
  2:{ intros [= <- <- <- <-]. left. by split_and!. }
  destruct (window_header_decode_wf _ _ _ Hr Hwh) as ((Hwf & _ & _) & Hrest & _).
  destruct (has (WindowHeader.win_ind wh) VCD_TARGET) eqn:Ht; [done|]. intros Hx.
  pose proof (wh_data _ Hwf) as Hnd. pose proof (wh_inst _ Hwf) as Hni. pose proof (wh_addr _ Hwf) as Hna.
  unfold in_range in *.
  apply bind_ok_inv in Hx as ([dbuf r1] & Hrd & Hx).
  apply read_section_inv in Hrd as (_ & _ & -> & Hd & Hd63); [|lia].
  apply bind_ok_inv in Hx as ([ibuf r2] & Hri & Hx).
  apply read_section_inv in Hri as (_ & _ & -> & Hi & Hi63); [|lia].
  apply bind_ok_inv in Hx as ([abuf r3] & Hra & Hx).
  apply read_section_inv in Hra as (_ & _ & -> & Ha & Ha63); [|lia].
  apply bind_ok_inv in Hx as ([[data inst] addr] & Hst & Hx).
  apply bind_ok_inv in Hx as ([[[out1 s1] buf] c] & Hc & Hx). injection Hx as <- <- <- <-.
  right. split; [done|]. exists wh, dbuf, ibuf, abuf, data, inst, addr, buf, c.
  constructor; simpl; try done; [rewrite Hd|rewrite Hi|rewrite Ha]; done.
Qed.

(** A well-formed header and its sections at the front of the reader. *)
Lemma decode_window_intro d s out wh dbuf ibuf abuf rest data inst addr out' s' buf c :
  is_Some (StreamDecoder.file_header d) ->
  StreamDecoder.reader d = window_header_bytes wh ++ dbuf ++ ibuf ++ abuf ++ rest ->
  window_header_wf wh -> WindowHeader.has_target wh = false ->
  WindowHeader.data_len wh = lenZ dbuf -> WindowHeader.inst_len wh = lenZ ibuf ->
  WindowHeader.addr_len wh = lenZ abuf ->
  lenZ dbuf < 2 ^ 63 -> lenZ ibuf < 2 ^ 63 -> lenZ abuf < 2 ^ 63 ->
  stored_sections dbuf ibuf abuf (WindowHeader.del_ind wh) (StreamDecoder.secondary_id d)
    = Ok (data, inst, addr) ->
  decode_window_with_cache wh (sections data inst addr) s (StreamDecoder.verify_checksum d)
    (StreamDecoder.copy_buf d) out (StreamDecoder.acache d) = Ok (out', s', buf, c) ->
  StreamDecoder.decode_window d s out
  = Ok (true, StreamDecoder.mk rest (StreamDecoder.file_header d) (StreamDecoder.verify_checksum d)
          (StreamDecoder.secondary_id d) dbuf ibuf abuf buf c, s', out').
Proof.
  intros [fh Hfh] Hr Hwh Ht Hd Hi Ha Hd63 Hi63 Ha63 Hst Hc.
  unfold StreamDecoder.decode_window, StreamDecoder.ensure_header. rewrite Hfh. cbn [bind].
  rewrite Hr, window_header_decode_ok by done. cbn [map_err bind].
  unfold WindowHeader.has_target in Ht. rewrite Ht, Hd, Hi, Ha.
  do 3 (rewrite read_section_app by done; cbn [bind]).
  unfold stored_sections in Hst. rewrite Hst. cbn [bind]. rewrite Hc. cbn [bind]. by rewrite Hfh.
Qed.

Lemma window_decode_empty r : WindowHeader.decode [] = Ok (None, r) -> r = [].
Proof. by intros [= <-]. Qed.

Context (new_secondary : option CompressBackend).
Context (Hsec : forall be, new_secondary = Some be ->
           decodable be /\ forall d, exists c, be_compress be d = Ok c).
Context (stored : Z) (Hbelow : sections_below stored (2 ^ 62)) (Hstored : stored < 2 ^ 62).

(** One window, recoded: what is written for it decodes as the original did. *)
Lemma recode_window in_hdr d1 s out d1' s' out' wh dbuf ibuf abuf data inst addr buf c fuel written :
  wf_bytes (StreamDecoder.reader d1) -> lenZ (StreamDecoder.reader d1) <= stored ->
  StreamDecoder.secondary_id d1 = FileHeader.secondary_id in_hdr ->
  decoded_window d1 s out d1' s' out' wh dbuf ibuf abuf data inst addr buf c ->
  exists w, w <> [] /\
    recode_loop (Datatypes.S fuel) in_hdr new_secondary (StreamDecoder.reader d1) written
    = recode_loop fuel in_hdr new_secondary (StreamDecoder.reader d1') (written ++ w) /\
    forall d2 rest, in_step new_secondary d1 d2 -> StreamDecoder.reader d2 = w ++ rest ->
      exists d2', StreamDecoder.decode_window d2 s out = Ok (true, d2', s', out') /\
        in_step new_secondary d1' d2' /\ StreamDecoder.reader d2' = rest.
Proof.
  intros Hr Hl Hid [Hhd Ht [Hd Hd63] [Hi Hi63] [Ha Ha63] Hst Hc Hd1'].
  destruct (window_header_decode_wf _ _ _ Hr Hhd) as ((Hwf & _ & _) & Hrest & Hshort).
  rewrite !wf_bytes_app in Hrest. destruct Hrest as (Hwd & Hwi & Hwa & _). rewrite !lenZ_app in Hshort.
  pose proof (lenZ_nonneg (StreamDecoder.reader d1')). pose proof (lenZ_nonneg data).
  pose proof (lenZ_nonneg inst). pose proof (lenZ_nonneg addr).
  assert (lenZ data + lenZ inst + lenZ addr < 2 ^ 62) as Hbig.
  { unfold stored_sections in Hst. destruct (negb _); [|injection Hst as <- <- <-; lia].
    apply (Hbelow dbuf ibuf abuf _ _ _ _ _ Hwd Hwi Hwa ltac:(lia) Hst). }
  rewrite Hid in Hst.
  destruct (recode_sections_ok new_secondary Hsec in_hdr wh dbuf ibuf abuf data inst addr written Hst)
    as (d & i & a & del & Hrs & Hdel & Hst' & Hle).
  pose proof (lenZ_nonneg d). pose proof (lenZ_nonneg i). pose proof (lenZ_nonneg a).
  assert (forall n, window_fields_wf (recoded_window wh d i a del n) /\
    delta_length (recoded_window wh d i a del n) < 2 ^ 64) as Hrw
    by (intros n; apply recoded_window_wf; (done || lia)).
  set (n := delta_length (recoded_window wh d i a del 0)).
  assert (compute_enc_len_n : forall E, WindowHeader.compute_enc_len (E:=E) (recoded_window wh d i a del 0) = Ok n)
    by (intros E; by apply compute_enc_len_ok; apply Hrw).
  assert (is_u64 n) as Hn by (apply delta_length_u64; apply Hrw).
  set (wh' := recoded_window wh d i a del n).
  exists (window_header_bytes wh' ++ d ++ i ++ a). split; [done|]. split.
  - cbn [recode_loop]. rewrite Hhd. cbn [exit_with map_err bind]. rewrite <- Hd, <- Hi, <- Ha.
    unfold alloc. rewrite !(proj2 (Z.leb_le _ (2 ^ 63 - 1))) by lia. cbn [bind].
    do 3 (rewrite read_exact_app by done; cbn [exit_with map_err bind]).
    rewrite Hrs. cbn [bind]. rewrite compute_enc_len_n. cbn [bind]. fold wh'.
    rewrite window_header_encode_ok by (done || apply Hrw). cbn [bind]. by rewrite <- !app_assoc.
  - intros d2 rest [Hh1 Hh2 Hv Hb Hca Hnid] Hr2. rewrite <- !app_assoc in Hr2.
    assert (window_header_wf wh') as Hwf'.
    { split; [apply Hrw|]. split; [done|]. exact (compute_enc_len_n io_kind). }
    eexists. split; [eapply (decode_window_intro d2 s out wh' d i a rest data inst addr out' s' buf c);
      try done; try lia|].
    + by rewrite Hnid.
    + rewrite Hv, Hb, Hca. rewrite <- Hc. by apply decode_with_cache_header.
    + rewrite Hd1'. by split.
Qed.

Lemma recode_loop_ok in_hdr fuel : forall d1 s out d1' s' out' fuel2 written,
  StreamDecoder.decode_windows fuel d1 s out = Ok (d1', s', out') ->
  is_Some (StreamDecoder.file_header d1) ->
  wf_bytes (StreamDecoder.reader d1) -> lenZ (StreamDecoder.reader d1) <= stored ->
  StreamDecoder.secondary_id d1 = FileHeader.secondary_id in_hdr ->
  (length (StreamDecoder.reader d1) < fuel2)%nat ->
  exists new, recode_loop fuel2 in_hdr new_secondary (StreamDecoder.reader d1) written = Ok (written ++ new) /\
    forall d2 fuel3, in_step new_secondary d1 d2 -> StreamDecoder.reader d2 = new ->
      (length new < fuel3)%nat ->
      exists d2', StreamDecoder.decode_windows fuel3 d2 s out = Ok (d2', s', out').
Proof.
  induction fuel as [|fuel IH]; intros d1 s out d1' s' out' fuel2 written Hdec Hh Hr Hl Hid Hf; [done|].
  cbn [StreamDecoder.decode_windows] in Hdec.
  apply bind_ok_inv in Hdec as ([[[more d3] s3] out3] & Hw & Hdec).
  destruct fuel2 as [|fuel2]; [lia|].
  destruct (decode_window_inv _ _ _ _ _ _ _ Hh Hr Hw)
    as [(-> & Hnone & -> & ->)|(-> & wh & dbuf & ibuf & abuf & data & inst & addr & buf & c & Hdw)].
  - injection Hdec as <- <- <-. exists []. rewrite app_nil_r. cbn [recode_loop]. rewrite Hnone.
    split; [done|]. intros d2 [|fuel3] [_ [fh Hh2] _ _ _ _] Hr2 Hf3; [simpl in Hf3; lia|].
    cbn [StreamDecoder.decode_windows]. unfold StreamDecoder.decode_window, StreamDecoder.ensure_header.
    rewrite Hh2. cbn [bind]. rewrite Hr2. cbn. eauto.
  - destruct (recode_window in_hdr d1 s out d3 s3 out3 wh dbuf ibuf abuf data inst addr buf c fuel2 written
      Hr Hl Hid Hdw) as (w & Hne & -> & Hstep).
    pose proof Hdw as [Hhd _ _ _ _ _ _ Hd3].
    destruct (window_header_decode_wf _ _ _ Hr Hhd) as (_ & Hrest & Hshort).
    rewrite !wf_bytes_app in Hrest. destruct Hrest as (_ & _ & _ & Hr3). rewrite !lenZ_app in Hshort.
    pose proof (lenZ_nonneg dbuf). pose proof (lenZ_nonneg ibuf). pose proof (lenZ_nonneg abuf).
    destruct (IH d3 s3 out3 d1' s' out' fuel2 (written ++ w) Hdec) as (new & Hrec & Hnew);
      [by rewrite Hd3|done|lia|by rewrite Hd3|unfold lenZ in *; lia|].
    exists (w ++ new). rewrite Hrec, <- app_assoc. split; [done|].
    intros d2 [|fuel3] Hst Hr2 Hf3; [lia|]. cbn [StreamDecoder.decode_windows].
    destruct (Hstep d2 new Hst Hr2) as (d2' & -> & Hst' & Hr2'). cbn [bind].
    apply (Hnew d2' fuel3 Hst' Hr2'). rewrite length_app in Hf3.
    destruct w; [done|]. simpl in Hf3. lia.
Qed.
End Loop.

(** ** Whole deltas *)

Section Whole.
Context {B : Build} `{Adler32} `{CodecLaws}.

(** The file header is read before the first window. *)
Lemma decode_windows_header delta verify hdr r (s : bytes) out fuel :
  FileHeader.decode delta = Ok (hdr, r) ->
  StreamDecoder.decode_windows (S fuel) (StreamDecoder.new delta verify) s out
  = StreamDecoder.decode_windows (S fuel) (after_header hdr verify r) s out.
Proof.
  intros Hh. cbn [StreamDecoder.decode_windows].
  unfold StreamDecoder.decode_window, StreamDecoder.ensure_header, StreamDecoder.new.
  cbn [StreamDecoder.file_header StreamDecoder.reader]. by rewrite Hh.
Qed.

Lemma decode_memory_header delta src t :
  wf_bytes delta -> decode_memory delta src = Ok t ->
  exists hdr pre r d' s', FileHeader.decode delta = Ok (hdr, r) /\ file_header_wf hdr /\ delta = pre ++ r /\
    StreamDecoder.decode_windows (S (length delta)) (after_header hdr true r) src [] = Ok (d', s', t).
Proof.
  intros Hw Hdec. unfold decode_memory in Hdec.
  apply bind_ok_inv in Hdec as ([[d' s'] t'] & Hdec & Heq). injection Heq as ->.
  unfold StreamDecoder.decode_all in Hdec. cbn [StreamDecoder.reader StreamDecoder.new] in Hdec.
  destruct (FileHeader.decode delta) as [[hdr r]| | |] eqn:Hh.
  - destruct (file_header_decode_suffix _ _ _ Hw Hh) as [pre Hpre].
    exists hdr, pre, r, d', s'. split_and!; [done|by apply (file_header_decode_wf delta hdr r)|done|].
    by rewrite <- (decode_windows_header delta true hdr r) by done.
  - cbn [StreamDecoder.decode_windows] in Hdec. unfold StreamDecoder.decode_window, StreamDecoder.ensure_header in Hdec.
    cbn in Hdec. by rewrite Hh in Hdec.
  - cbn [StreamDecoder.decode_windows] in Hdec. unfold StreamDecoder.decode_window, StreamDecoder.ensure_header in Hdec.
    cbn in Hdec. by rewrite Hh in Hdec.
  - cbn [StreamDecoder.decode_windows] in Hdec. unfold StreamDecoder.decode_window, StreamDecoder.ensure_header in Hdec.
    cbn in Hdec. by rewrite Hh in Hdec.
Qed.

(** The header that recoding writes. *)
Lemma recode_header_wf opts in_hdr sec :
  file_header_wf in_hdr -> (forall be, sec = Some be -> is_u8 (be_id be)) ->
  (forall ah, Options.appheader opts = Some ah -> wf_bytes ah /\ lenZ ah <= 2 ^ 63 - 1) ->
  file_header_wf (recode_header opts in_hdr sec) /\
  FileHeader.secondary_id (recode_header opts in_hdr sec) = new_id sec.
Proof.
  intros Hin Hbe Hah. pose proof (fh_app_wf _ Hin) as Hin_ah. unfold recode_header, new_id.
  destruct sec as [be|], (Options.use_appheader opts), (Options.appheader opts) as [ah|],
    (FileHeader.app_header in_hdr) as [ah'|]; simpl;
    (split; [|done]); constructor; simpl; try done;
    try (split; [by intros []|done]); try (by intros ? [= <-]; auto).
Qed.

(** Recoding succeeds on a delta that decodes, and keeps what it decodes to. *)
Lemma recode_ok opts delta src t stored :
  codecs_total -> wf_bytes delta -> lenZ delta <= stored -> stored < 2 ^ 62 -> sections_below stored (2 ^ 62) ->
  (forall ah, Options.appheader opts = Some ah -> wf_bytes ah /\ lenZ ah <= 2 ^ 63 - 1) ->
  decode_memory delta src = Ok t ->
  exists delta', recode opts delta = Ok delta' /\ decode_memory delta' src = Ok t.
Proof.
  intros Hct Hw Hl Hst Hbelow Hah Hdec.
  destruct (decode_memory_header delta src t Hw Hdec) as (hdr & pre & r & d' & s' & Hh & Hfh & -> & Hwin).
  apply wf_bytes_app in Hw as [_ Hr]. rewrite lenZ_app in Hl. pose proof (lenZ_nonneg pre).
  set (sec := backend (secondary (build_compress_options opts))).
  destruct (build_secondary_ok opts Hct) as [Hsok Htot].
  assert (forall be, sec = Some be -> is_u8 (be_id be) /\ decodable be) as Hdecb
    by (intros be Hbe; by apply (secondary_decodable (secondary (build_compress_options opts)))).
  destruct (recode_header_wf opts hdr sec Hfh) as [Hout Hid]; [by intros; apply Hdecb|done|].
  destruct (recode_loop_ok (S:=bytes) sec ltac:(intros be Hbe; split; [by apply Hdecb|by apply Htot]) stored Hbelow Hst
    hdr _ (after_header hdr true r) src [] d' s' t (S (length r)) (file_header_bytes (recode_header opts hdr sec))
    Hwin) as (new & Hrec & Hnew); [done|done|cbn; lia|done|cbn; lia|].
  exists (file_header_bytes (recode_header opts hdr sec) ++ new). split.
  - unfold recode. rewrite Hh. cbn [exit_with map_err bind]. fold sec.
    rewrite file_header_encode_ok by done. cbn [bind app]. exact Hrec.
  - unfold decode_memory, StreamDecoder.decode_all. cbn [StreamDecoder.reader StreamDecoder.new].
    rewrite (decode_windows_header _ true (recode_header opts hdr sec) new)
      by (by apply file_header_decode_ok).
    destruct (Hnew (after_header (recode_header opts hdr sec) true new)
      (S (length (file_header_bytes (recode_header opts hdr sec) ++ new)))) as (d2 & ->);
      [|done|rewrite length_app; lia|done].
    by constructor.
Qed.
End Whole.

(** ** The command *)

(** C11: recoding preserves what a delta means.  On any file that decodes against
    some source, [recode] to another file or to standard output, with any
    secondary compressor and application header, ends with code 0, and what it
    writes decodes against every source to what the file decodes to.  The
    conditions: the compressors return and invert ([codecs_total], [CodecLaws]),
    the file and the sections it decompresses to stay below 2^62 bytes, and the
    output is not the input file itself. *)
Theorem recode_preserves {B : Build} `{Adler32} `{CodecLaws} `{OsWorks} (opts : Options.t) (w w1 : World)
    (p : path) (out : output) (delta src0 t0 : bytes) (stored : Z) :
  Options.input_file opts = Some p -> files w !! p = Some delta ->
  open_output w opts = Ok (out, w1) -> out <> ToFile p ->
  (forall ah, Options.appheader opts = Some ah -> wf_bytes ah /\ lenZ ah <= 2 ^ 63 - 1) ->
  codecs_total -> wf_bytes delta -> lenZ delta <= stored -> stored < 2 ^ 62 ->
  sections_below stored (2 ^ 62) -> decode_memory delta src0 = Ok t0 ->
  exists delta', cmd_recode opts w = Ok (write_output w1 out delta') /\
    forall src t, decode_memory delta src = Ok t -> decode_memory delta' src = Ok t.
Proof.
  intros Hin Hp Hopen Hne Hah Hct Hw Hl Hst Hbelow Hdec.
  destruct (recode_ok opts delta src0 t0 stored) as (delta' & Hrec & _); [done..|].
  exists delta'. split.
  - unfold cmd_recode. rewrite Hin, (file_open_ok w p delta Hp). cbn [exit_1 map_err bind].
    rewrite Hopen. cbn [bind].
    assert (file_bytes w1 p = delta) as ->; [|by rewrite Hrec].
    rewrite <- (file_bytes_lookup w p delta Hp). revert Hopen. unfold open_output.
    destruct (Options.use_stdout opts); [by intros [= _ <-]|].
    destruct (Options.output_file opts) as [q|]; [|by intros [= _ <-]].
    destruct (_ && _); [done|]. rewrite file_create_ok. cbn [exit_1 map_err bind]. intros [= <- <-].
    apply file_bytes_set_ne. congruence.
  - intros src t Hd. destruct (recode_ok opts delta src t stored) as (delta'' & Hrec' & Hd'); [done..|].
    rewrite Hrec in Hrec'. by injection Hrec' as <-.
Qed.

(** ** Witness *)

Section Witness.
#[local] Instance sample_build : Build := {| debug_build := true |}.
#[local] Instance sample_adler : Adler32 := adler32_fallback.
#[local] Instance sample_codecs : Codecs := zeros_codecs.
#[local] Instance sample_codec_laws : CodecLaws := zeros_codec_laws.
#[local] Instance sample_os : Os := full_reads_os.
#[local] Instance sample_os_works : OsWorks := full_reads_os_works.

Lemma zeros_total : codecs_total.
Proof.
  split; intros; simpl; unfold zeros_compress; destruct (strip_zeros 255 d); eauto.
Qed.

(** The sample codec restores at most 255 zeros in each section. *)
Lemma zeros_below n : sections_below n (n + 1000).
Proof.
  assert (forall c d, wf_bytes c -> zeros_decompress c = Some d -> lenZ d <= lenZ c + 255) as Hz.
  { intros [|k c] d Hc; [done|]. apply wf_bytes_cons in Hc as [Hk _]. unfold in_range in Hk. simpl.
    intros Hd. assert (lenZ d <= k + lenZ c) as Hle; [|rewrite lenZ_cons; lia].
    revert Hd. repeat case_match; intros [= <-]; rewrite ?lenZ_app, ?lenZ_replicate; lia. }
  assert (forall be c d, backend_for_id (Some VCD_LZMA_ID) = Ok be \/ backend_for_id (Some VCD_ZLIB_ID) = Ok be ->
    wf_bytes c -> be_decompress be c = Ok d -> lenZ d <= lenZ c + 255) as Hbe.
  { intros be c d [Hb|Hb] Hc Hd; injection Hb as <-; simpl in Hd; unfold ok_or_failed in Hd;
      destruct (zeros_decompress c) eqn:E; try done; injection Hd as <-; by apply Hz. }
  intros d i a del id d' i' a' Hd Hi Ha Hl. unfold decompress_sections.
  destruct (del =? 0); [intros [= <- <- <-]; lia|]. intros Hx.
  apply bind_ok_inv in Hx as (be & Hb & Hx).
  assert (forall f c x, wf_bytes c -> (if f : bool then decompress_section be c else Ok c) = Ok x ->
    lenZ x <= lenZ c + 255) as Hone.
  { intros f c x Hc. destruct f; [|intros [= <-]; lia]. apply Hbe; [|done].
    unfold backend_for_id in *. destruct id as [id|]; [|done].
    destruct (id =? VCD_LZMA_ID); [by left|]. destruct (id =? VCD_ZLIB_ID); [by right|done]. }
  apply bind_ok_inv in Hx as (x & Hx1 & Hx). apply bind_ok_inv in Hx as (y & Hy & Hx).
  apply bind_ok_inv in Hx as (z & Hz1 & Hx). injection Hx as <- <- <-.
  apply Hone in Hx1, Hy, Hz1; try done. lia.
Qed.

Local Open Scope string_scope.

(** A compressed delta of fifty zeros, recoded without compression and with an
    application header. *)
Definition sample_delta : bytes :=
  match encode_all X86_sse2 [] [] (replicate 50 0) (compress_options 0 64 true Lzma) with
  | Ok d => d
  | _ => []
  end.

Definition sample_recode : Options.t :=
  resolve_options (cli (CmdRecode (recode_args (Some "in") (Some "out") false SecNone
    (Some [104; 105]) false None None)) false false 0 false).

Lemma recode_preserves_witness :
  let w := world (<["in" := sample_delta]> ∅) [] [] in
  decode_memory sample_delta [] = Ok (replicate 50 0) /\
  exists delta', cmd_recode sample_recode w = Ok (set_file (set_file w "out" []) "out" delta') /\
    forall src t, decode_memory sample_delta src = Ok t -> decode_memory delta' src = Ok t.
Proof.
  assert (decode_memory sample_delta [] = Ok (replicate 50 0)) as Hd by (vm_compute; reflexivity).
  split; [exact Hd|].
  apply (recode_preserves sample_recode _ _ "in" (ToFile "out") sample_delta [] (replicate 50 0) 1000).
  - reflexivity.
  - apply lookup_insert_eq.
  - reflexivity.
  - discriminate.
  - intros ah [= <-]. split; [by apply in_range_list|done].
  - apply zeros_total.
  - apply in_range_list. vm_compute. reflexivity.
  - vm_compute. discriminate.
  - reflexivity.
  - intros d i a del id d' i' a' H1 H2 H3 H4 H5.
    pose proof (zeros_below 1000 d i a del id d' i' a' H1 H2 H3 H4 H5). lia.
  - exact Hd.
Defined.
End Witness.
