(* ===== verification/Adler.v ===== *)
(** * Checksums ([compute_adler32] of [src/src/vcdiff/decoder.rs],
      [adler32_simple] of [src/src/vcdiff/encoder.rs])

    The source has two copies of the fallback for builds without the SIMD
    crate.  Both are the Adler-32 of RFC 1950: two sums modulo 65521, here in
    closed form.  From the closed form: a change of one byte, or of two bytes
    less than 65521 apart, changes the checksum, so that a decoder that
    verifies never returns such a near miss of the target. *)

From stdpp Require Import base numbers list option.
From Stdlib Require Import ZArith Lia.
From S2P Require Import Prelude Varint AddrCache CodeTable Semantics Header WindowEncoder Source.
From S2P Require Import Secondary WindowDecoder.

Local Open Scope Z_scope.
Local Open Scope rust_scope.

(** ** The decoder's copy, with the overflow checks of its profile *)

Section Scalar.
Context {B : Build} {E : Type}.

Definition compute_adler32_step (byte : Z) (s : Z * Z) : result E (Z * Z) :=
  let '(a, b) := s in
  let* x := add_w 32 a byte in
  let a := x mod MOD_ADLER in
  let* y := add_w 32 b a in
  Ok (a, y mod MOD_ADLER).

Definition compute_adler32_scalar (data : bytes) : result E Z :=
  let* (a, b) := for_in data compute_adler32_step (1, 0) in
  Ok (Z.lor (wrap 32 (Z.shiftl b 16)) a).

Lemma scalar_loop data : wf_bytes data -> forall a b,
  0 <= a < MOD_ADLER -> 0 <= b < MOD_ADLER ->
  for_in data compute_adler32_step (a, b) = Ok (fold_left adler_step data (a, b)).
Proof.
  unfold MOD_ADLER. induction 1 as [|x data Hx _ IH]; intros a b Ha Hb; cbn [for_in fold_left]; [done|].
  unfold compute_adler32_step at 1, adler_step at 2, MOD_ADLER. unfold in_range in Hx.
  pose proof (Z.mod_pos_bound (a + x) 65521 ltac:(lia)).
  rewrite !add_w_ok by (unfold in_range; lia). cbn [bind].
  rewrite add_w_ok by (unfold in_range; lia). cbn [bind]. apply IH; by apply Z.mod_pos_bound.
Qed.

(** Neither addition overflows, and the two copies agree. *)
Lemma scalar_simple data : wf_bytes data -> compute_adler32_scalar data = Ok (adler32_simple data).
Proof.
  intros Hd. unfold compute_adler32_scalar, adler32_simple.
  rewrite scalar_loop by (done || unfold MOD_ADLER; lia). cbn [bind].
  by destruct (fold_left adler_step data (1, 0)).
Qed.
End Scalar.

(** ** RFC 1950 *)

(** The sum of the bytes, and the sum of its values after each byte. *)
Definition byte_sum (data : bytes) : Z := foldr Z.add 0 data.

Fixpoint weighted_sum (data : bytes) : Z :=
  match data with
  | [] => 0
  | x :: data => lenZ (x :: data) * x + weighted_sum data
  end.

Lemma adler_fold data : forall a b, 0 <= a < MOD_ADLER -> 0 <= b < MOD_ADLER ->
  fold_left adler_step data (a, b)
  = ((a + byte_sum data) mod MOD_ADLER, (b + lenZ data * a + weighted_sum data) mod MOD_ADLER).
Proof.
  unfold MOD_ADLER. induction data as [|x data IH]; intros a b Ha Hb; cbn [fold_left].
  - change (lenZ (@nil Z)) with 0. cbn [byte_sum foldr weighted_sum]. f_equal; rewrite Z.mod_small; lia.
  - unfold adler_step at 2, MOD_ADLER. cbv zeta. rewrite IH; [|apply Z.mod_pos_bound; lia..].
    change (byte_sum (x :: data)) with (x + byte_sum data). cbn [weighted_sum]. rewrite lenZ_cons.
    set (q1 := (a + x) / 65521). set (r := (a + x) mod 65521).
    assert (r = a + x - q1 * 65521) as -> by (unfold q1, r; rewrite Z.mod_eq by lia; lia).
    set (q2 := (b + (a + x - q1 * 65521)) / 65521).
    rewrite (Z.mod_eq (b + _)) by lia. fold q2. f_equal.
    + rewrite <- (Z.mod_add (a + (x + byte_sum data)) (- q1)) by lia. f_equal. lia.
    + rewrite <- (Z.mod_add (b + (1 + lenZ data) * a + _) (- (q1 + q2 + lenZ data * q1))) by lia.
      f_equal. ring.
Qed.

(** The checksum is the two sums side by side. *)
Lemma adler32_closed data :
  adler32_simple data
  = ((lenZ data + weighted_sum data) mod MOD_ADLER) * 2 ^ 16 + (1 + byte_sum data) mod MOD_ADLER.
Proof.
  pose proof (adler32_simple_value data) as Hv. rewrite adler_fold in Hv by (unfold MOD_ADLER; lia).
  destruct Hv as [-> _]. by rewrite Z.add_0_l, Z.mul_1_r.
Qed.

Lemma adler32_inj data data' :
  adler32_simple data = adler32_simple data' ->
  (lenZ data + weighted_sum data) mod MOD_ADLER = (lenZ data' + weighted_sum data') mod MOD_ADLER /\
  (1 + byte_sum data) mod MOD_ADLER = (1 + byte_sum data') mod MOD_ADLER.
Proof.
  rewrite !adler32_closed. unfold MOD_ADLER.
  pose proof (Z.mod_pos_bound (1 + byte_sum data) 65521 ltac:(lia)).
  pose proof (Z.mod_pos_bound (1 + byte_sum data') 65521 ltac:(lia)). lia.
Qed.

Lemma byte_sum_app l k : byte_sum (l ++ k) = byte_sum l + byte_sum k.
Proof. unfold byte_sum. induction l as [|x l IH]; simpl; lia. Qed.

Lemma weighted_sum_app l k : weighted_sum (l ++ k) = weighted_sum l + lenZ k * byte_sum l + weighted_sum k.
Proof.
  induction l as [|x l IH]; cbn [app weighted_sum]; [unfold byte_sum; simpl; lia|].
  change (byte_sum (x :: l)) with (x + byte_sum l). rewrite IH, !lenZ_cons, lenZ_app. ring.
Qed.

(** ** Near misses *)

(** [t'] is [t] with one byte changed, or two bytes less than 65521 apart. *)
Inductive near_miss : bytes -> bytes -> Prop :=
  | miss_one l x x' r :
      is_u8 x -> is_u8 x' -> x <> x' -> near_miss (l ++ x :: r) (l ++ x' :: r)
  | miss_two l x x' m y y' r :
      is_u8 x -> is_u8 x' -> is_u8 y -> is_u8 y' -> x <> x' -> y <> y' -> lenZ m < 65520 ->
      near_miss (l ++ x :: m ++ y :: r) (l ++ x' :: m ++ y' :: r).

Lemma mod_diff a b : a mod MOD_ADLER = b mod MOD_ADLER -> (MOD_ADLER | a - b).
Proof.
  intros Hab. exists (a / MOD_ADLER - b / MOD_ADLER).
  rewrite (Z.div_mod a MOD_ADLER), (Z.div_mod b MOD_ADLER), Hab at 1 by done. unfold MOD_ADLER. lia.
Qed.

Lemma small_multiple d : (MOD_ADLER | d) -> - MOD_ADLER < d < MOD_ADLER -> d = 0.
Proof. intros [k ->]. unfold MOD_ADLER. nia. Qed.

(** 65521 has no factor below 256. *)
Lemma coprime_byte d : 1 <= d <= 255 -> Z.gcd MOD_ADLER d = 1.
Proof.
  intros Hd. assert (forallb (fun d => Z.gcd MOD_ADLER d =? 1) (seqZ 1 255) = true) as Hall by reflexivity.
  rewrite forallb_forall in Hall. apply Z.eqb_eq, Hall, list_elem_of_In, elem_of_seqZ. lia.
Qed.

Lemma near_miss_detected t t' : near_miss t t' -> adler32_simple t <> adler32_simple t'.
Proof.
  intros Hnm Heq. apply adler32_inj in Heq as [Hw Hs]. apply mod_diff in Hw, Hs.
  destruct Hnm as [l x x' r Hx Hx' Hne|l x x' m y y' r Hx Hx' Hy Hy' Hne Hne' Hm]; unfold in_range in *.
  - rewrite !byte_sum_app in Hs. cbn [byte_sum foldr] in Hs.
    apply small_multiple in Hs; unfold MOD_ADLER; lia.
  - rewrite !byte_sum_app in Hs. cbn [byte_sum foldr] in Hs. fold (byte_sum (m ++ y :: r)) in Hs.
    fold (byte_sum (m ++ y' :: r)) in Hs. rewrite !byte_sum_app in Hs. cbn [byte_sum foldr] in Hs.
    apply small_multiple in Hs; [|unfold MOD_ADLER; lia].
    assert (y' - y = x - x') as Hd by lia.
    rewrite !weighted_sum_app, !lenZ_app, !lenZ_cons in Hw. cbn [weighted_sum] in Hw.
    rewrite !weighted_sum_app, !lenZ_cons, !lenZ_app, !lenZ_cons in Hw. cbn [weighted_sum] in Hw.
    rewrite !lenZ_cons in Hw. pose proof (lenZ_nonneg m).
    match type of Hw with (_ | ?d) => replace d with ((x - x') * (1 + lenZ m)) in Hw by nia end.
    assert (Z.gcd MOD_ADLER (x - x') = 1) as Hg.
    { destruct (Z.lt_ge_cases x x').
      - rewrite <- Z.gcd_opp_r. apply coprime_byte. lia.
      - apply coprime_byte. lia. }
    apply Z.gauss in Hw; [|done]. apply small_multiple in Hw; unfold MOD_ADLER; lia.
Qed.

(** ** The decoder *)

(** The crate computes Adler-32. *)
Class Adler32Spec `{Adler32} : Prop := {
  adler32_spec : forall data, wf_bytes data -> compute_adler32 data = adler32_simple data
}.

(** A verified window has the announced checksum, whatever its sections. *)
Lemma accepted_checksum {B : Build} {S : Type} `{SourceProvider S} `{Adler32}
    (h : WindowHeader.t) (sec : Sections) (s : S) buf out c out' s' buf' c' k :
  WindowHeader.adler32 h = Some k ->
  decode_window_with_cache h sec s true buf out c = Ok (out', s', buf', c') ->
  compute_adler32 (drop (length out) out') = k.
Proof.
  intros Hk Hd. unfold decode_window_with_cache in Hd. rewrite Hk in Hd.
  apply bind_ok_inv in Hd as (n & _ & Hd). apply bind_ok_inv in Hd as (u & _ & Hd).
  apply bind_ok_inv in Hd as (st & _ & Hd). apply bind_ok_inv in Hd as (w & _ & Hd).
  destruct (negb (w =? _)); [done|]. apply bind_ok_inv in Hd as (v & Hv & [= <- _ _ _]).
  apply bind_ok_inv in Hv as (x & Hx & Hv). destruct (Z.eqb_spec (compute_adler32 x) k) as [Hxk|]; [|done].
  unfold slice_from, slice in Hx. destruct (_ && _ && _) eqn:Hb in Hx; [|done].
  rewrite !andb_true_iff, !Z.leb_le in Hb. injection Hx as Hx. rewrite lenZ_to_nat, take_ge in Hx;
    [by rewrite Hx|]. rewrite length_drop. unfold lenZ in *. lia.
Qed.

(** C20: a verified decode never returns a near miss.  When a window's header
    carries the checksum of a target, then whatever its sections and the source
    are, damaged or not, decoding it does not succeed with that target changed
    in one byte, or in two bytes less than 65521 apart. *)
Theorem near_miss_rejected {B : Build} {S : Type} `{SourceProvider S} `{Adler32Spec}
    (h : WindowHeader.t) (sec : Sections) (s : S) buf out c target w :
  WindowHeader.adler32 h = Some (compute_adler32 target) ->
  wf_bytes target -> wf_bytes w -> near_miss target w ->
  forall s' buf' c', decode_window_with_cache h sec s true buf out c <> Ok (out ++ w, s', buf', c').
Proof.
  intros Hh Ht Hw Hnm s' buf' c' Hd. apply (accepted_checksum _ _ _ _ _ _ _ _ _ _ _ Hh) in Hd.
  rewrite drop_app_length, !adler32_spec in Hd by done. by apply (near_miss_detected target w).
Qed.

Lemma adler32_fallback_spec : Adler32Spec (H:=adler32_fallback).
Proof. by constructor. Qed.

(** A window of three literal bytes, the last one damaged. *)
Definition damaged_header : WindowHeader.t :=
  WindowHeader.mk VCD_ADLER32 0 0 13 3 0 3 1 0 (Some (adler32_simple [7; 8; 9])).

#[local] Instance checked_build : Build := {| debug_build := true |}.

Lemma near_miss_rejected_witness :
  near_miss [7; 8; 9] [7; 8; 10] /\
  (forall s' buf' c', decode_window_with_cache (S:=bytes) (H0:=adler32_fallback) damaged_header
    (sections [7; 8; 10] [4] []) [] true [] [] AddressCache.new <> Ok ([] ++ [7; 8; 10], s', buf', c')).
Proof.
  assert (near_miss [7; 8; 9] [7; 8; 10]) as Hm by (by apply (miss_one [7; 8] 9 10 [])).
  split; [exact Hm|].
  apply (near_miss_rejected (S:=bytes) (H0:=adler32_fallback) (H1:=adler32_fallback_spec) damaged_header
    (sections [7; 8; 10] [4] []) [] [] [] AddressCache.new [7; 8; 9] [7; 8; 10]);
    [reflexivity|by apply in_range_list|by apply in_range_list|exact Hm].
Defined.
