(* ===== verification/Iterator.v ===== *)
(** * The instruction iterator ([src/src/vcdiff/decoder.rs], [InstructionIterator])

    The iterator lists a window's instructions without executing them.  On the
    sections the encoder makes of a list of operations it yields, in order,
    exactly those operations, and then ends. *)

From stdpp Require Import base numbers list option.
From Stdlib Require Import ZArith Lia.
From S2P Require Import Prelude Varint AddrCache CodeTable Semantics Header WindowEncoder Source.
From S2P Require Import WindowDecoder WindowRoundtrip.

Local Open Scope Z_scope.
Local Open Scope rust_scope.

Import InstructionIterator.

(** [iter.collect::<Result<Vec<_>, _>>()].  Every opcode has at most two halves,
    so twice the section's length is fuel enough. *)
Fixpoint drain {B : Build} (fuel : nat) (it : t) : result DecodeError (list Instruction) :=
  match fuel with
  | O => Diverge
  | S fuel =>
      let* o := next (S (S (2 * length (inst_data it)))) it in
      match o with
      | None => Ok []
      | Some (inst, it) => let* l := drain fuel it in Ok (inst :: l)
      end
  end.

(** The instruction the iterator yields for an operation. *)
Definition shows (i : Instruction) (o : op) : Prop :=
  match i, o with
  | Add n, OpAdd d => n = lenZ d
  | Copy n a _, OpCopy len addr => n = len /\ a = addr
  | Run n, OpRun len _ => n = len
  | _, _ => False
  end.

Section Iterate.
Context {B : Build} (inst_all addr_all : bytes) (srclen : Z).
Context (Hinst : lenZ inst_all < 2 ^ 64) (Haddr : lenZ addr_all < 2 ^ 64) (Hsrc : 0 <= srclen).

(** The iterator is in front of the bytes [inst] and [addr], with the cache [c],
    after [pos] bytes of the target. *)
Record iter_at (it : t) (c : AddressCache.t) (pos : Z) (inst addr : bytes)
    (pending : option (Z * Z)) : Prop := {
  ia_data : inst_data it = inst_all /\ addr_data it = addr_all;
  ia_inst : exists pre, inst_all = pre ++ inst /\ it_inst_pos it = lenZ pre;
  ia_addr : exists pre, addr_all = pre ++ addr /\ it_addr_pos it = lenZ pre;
  ia_cache : it_acache it = c;
  ia_pos : it_target_pos it = pos;
  ia_len : it_copy_window_len it = srclen;
  ia_pending : pending_second it = pending
}.

(** What is left to list. *)
Record left_to_list (it : t) (ops : list op) (l : list InstructionInfo) (inst : bytes)
    (pending : option (Z * Z)) : Prop := {
  ll_at : exists c pos addr data c', iter_at it c pos inst addr pending /\
    emits srclen c pos ops l data addr c' /\ ops_fit srclen pos ops /\
    0 <= pos /\ srclen + pos + ops_len ops < 2 ^ 64
}.

(** The size of an instruction, in the opcode or behind it. *)
Lemma resolve_size_ok it c pos i s szb inst addr pending :
  iter_at it c pos (szb ++ inst) addr pending -> is_u32 (size i) ->
  (s = 0 /\ szb = varint (size i)) \/ (s = size i /\ s <> 0 /\ szb = []) ->
  exists pre, resolve_size (inst_data it) (it_inst_pos it) s = Ok (size i, lenZ pre) /\
    inst_all = pre ++ inst.
Proof.
  intros [[Hd _] (pre & Hall & Hp) _ _ _ _ _] Hi Hs. unfold resolve_size. rewrite Hd, Hp.
  destruct Hs as [[-> ->]|(-> & Hne & ->)].
  - exists (pre ++ varint (size i)). rewrite Z.eqb_refl, Hall, slice_from_app. cbn [bind].
    rewrite read_u32_varint by done. cbn [map_err bind]. rewrite Hall, !lenZ_app in Hinst.
    pose proof (lenZ_nonneg pre). pose proof (lenZ_nonneg inst). pose proof (lenZ_nonneg (varint (size i))).
    u64_step. by rewrite lenZ_app, <- app_assoc.
  - exists pre. by rewrite (proj2 (Z.eqb_neq _ _)).
Qed.

Lemma resolve_half_ok it ops i l s szb inst pending :
  left_to_list it ops (i :: l) (szb ++ inst) pending -> info_ok i ->
  (s = 0 /\ szb = varint (size i)) \/ (s = size i /\ s <> 0 /\ szb = []) ->
  exists o ops' x it', ops = o :: ops' /\ resolve_half it (itype i) s = Ok (Some x, it') /\
    shows x o /\ left_to_list it' ops' l inst pending.
Proof.
  intros [(c & pos & addr & data & c' & Hat & He & Hok & Hpos & Hlt)] Hi Hs.
  pose proof (info_not_noop i Hi) as Hnoop. apply negb_true_iff in Hnoop.
  assert (is_u32 (size i)) as Hu by (destruct Hi; unfold in_range; lia).
  destruct (resolve_size_ok it c pos i s szb inst addr pending Hat Hu Hs) as (pre & Hsz & Hall).
  destruct Hat as [Hd _ Hadr Hc Hp Hl Hpend]. unfold resolve_half. rewrite Hnoop, Hsz. cbn [bind].
  inversion He as [|? ? dat ops' ? data' ? ? He'|? ? len b ops' ? data' ? ? He'
    |? ? len ad mode bs ops' ? ? addr' ? Hm Hb Hdec He']; subst; simpl in Hok; destruct Hok as [Ho Hok];
    pose proof (ops_fit_nonneg _ _ _ Hok); pose proof (proj1 Ho) as Hlen; simpl in Hlen, Hlt;
    unfold ops_len in Hlt; simpl in Hlt; fold (ops_len ops') in Hlt; cbn [itype size].
  - change (XD3_ADD =? XD3_RUN) with false. rewrite Z.eqb_refl. cbn [bind]. u64_step.
    eexists (OpAdd dat), ops', _, _. split_and!; [done|done|done|]. constructor.
    exists (it_acache it), (it_target_pos it + lenZ dat), addr, data', c'.
    split_and!; try done; [|lia|lia]. constructor; simpl; eauto.
  - rewrite Z.eqb_refl. cbn [bind]. u64_step.
    eexists (OpRun len b), ops', _, _. split_and!; [done|done|done|]. constructor.
    exists (it_acache it), (it_target_pos it + len), addr, data', c'.
    split_and!; try done; [|lia|lia]. constructor; simpl; eauto.
  - unfold XD3_RUN, XD3_ADD, XD3_CPY, CPY_MODES, NEAR_MODES, SAME_MODES in *. rewrite !(proj2 (Z.eqb_neq _ _)) by lia.
    rewrite sub_w_ok by (unfold in_range; lia). cbn [bind]. u64_step.
    destruct Hd as [Hd1 Hd2], Hadr as (prea & Ha & Hpa). rewrite Hd2, Hpa, Ha, slice_from_app. cbn [bind].
    replace (3 + mode - 3) with mode by lia. rewrite Hl, Hdec. cbn [map_err bind].
    rewrite Ha, !lenZ_app in Haddr. pose proof (lenZ_nonneg prea). pose proof (lenZ_nonneg bs).
    pose proof (lenZ_nonneg addr'). u64_step. u64_step.
    eexists (OpCopy len ad), ops', _, _. split_and!; [done|done|done|]. constructor.
    exists (upd (it_acache it) ad), (it_target_pos it + len), addr', data, c'.
    split_and!; try done; [|lia|lia]. constructor; simpl; eauto.
    exists (prea ++ bs). rewrite lenZ_app. by rewrite <- app_assoc.
Qed.

(** Reading an opcode: the second half, if there is one, is kept for later. *)
Lemma next_fetch n it ops l cd rest :
  left_to_list it ops l (cd :: rest) None -> 0 <= cd < 256 ->
  let e := rfc_entry cd in
  exists it', left_to_list it' ops l rest
      (if negb (type2 e =? XD3_NOOP) then Some (type2 e, size2 e) else None) /\
    next (S n) it = let* (o, it) := resolve_half it' (type1 e) (size1 e) in
      match o with Some inst => Ok (Some (inst, it)) | None => next n it end.
Proof.
  intros [(c & pos & addr & data & c' & [[Hd1 Hd2] (pre & Hall & Hp) Hadr Hc Hpos Hl Hpend] & Hrest)] Hcd e.
  simpl. rewrite Hpend, Hd1, Hp. rewrite Hall in Hinst |- *. rewrite lenZ_app, lenZ_cons in *.
  pose proof (lenZ_nonneg pre). pose proof (lenZ_nonneg rest).
  rewrite (proj2 (Z.leb_gt _ _)) by lia. rewrite index_app. cbn [bind]. u64_step.
  rewrite table_index by done. cbn [bind]. eexists. split; [|reflexivity]. constructor.
  exists c, pos, addr, data, c'. split; [|done]. fold e.
  destruct (negb (type2 e =? XD3_NOOP)); constructor; simpl; auto; exists (pre ++ [cd]);
    rewrite lenZ_app, <- app_assoc; auto.
Qed.

Lemma next_pending n it ops i l inst :
  left_to_list it ops (i :: l) inst (Some (itype i, size i)) -> info_ok i ->
  exists o ops' x it', ops = o :: ops' /\ next (S n) it = Ok (Some (x, it')) /\
    shows x o /\ left_to_list it' ops' l inst None.
Proof.
  intros [(c & pos & addr & data & c' & [Hd Hin Hadr Hc Hpos Hl Hpend] & Hrest)] Hi. simpl.
  rewrite Hpend.
  destruct (resolve_half_ok (set_pending_second it None) ops i l (size i) [] inst None)
    as (o & ops' & x & it' & -> & Hr & Hx & Hleft); auto.
  - constructor. exists c, pos, addr, data, c'. split; [|done]. by constructor.
  - right. destruct Hi. split_and!; auto; lia.
  - exists o, ops', x, it'. by rewrite Hr.
Qed.

Lemma next_done n it ops :
  left_to_list it ops [] [] None -> next (S n) it = Ok None /\ ops = [].
Proof.
  intros [(c & pos & addr & data & c' & [[Hd _] (pre & Hall & Hp) _ _ _ _ Hpend] & He & _)].
  simpl. rewrite Hpend, Hd, Hp, Hall, app_nil_r, Z.leb_refl. by inversion He.
Qed.

Lemma drain_ok l inst :
  packs l inst -> forall fuel it ops, left_to_list it ops l inst None -> (length l < fuel)%nat ->
  exists insts, drain fuel it = Ok insts /\ Forall2 shows insts ops.
Proof.
  induction 1 as [|i cd l bs Hi [Hcd (s & He & Hs)] Hl IH|p i cd l bs Hp Hi [Hcd He] Hl IH];
    intros [|fuel] it ops Hleft Hf; try (simpl in Hf; lia).
  - cbn [drain]. destruct (next_done (S (2 * length (inst_data it))) _ _ Hleft) as [-> ->].
    by exists [].
  - destruct (next_fetch (S (2 * length (inst_data it))) _ _ _ _ _ Hleft Hcd) as (it1 & Hleft1 & Hn).
    cbn [drain]. rewrite Hn, He. rewrite He in Hleft1. cbn [type1 size1 type2 size2] in *.
    change (negb (XD3_NOOP =? XD3_NOOP)) with false in Hleft1. cbv iota in Hleft1.
    destruct (resolve_half_ok it1 ops i l s (size_bytes cd i) bs None Hleft1 Hi)
      as (o & ops' & x & it2 & -> & -> & Hx & Hleft2).
    { unfold size_bytes. rewrite He. simpl. destruct (Z.eqb_spec s 0); [by left|right].
      destruct Hs; [done|]. by subst. }
    cbn [bind]. destruct (IH fuel it2 ops' Hleft2) as (insts & -> & Hf2); [simpl in Hf; lia|].
    exists (x :: insts). by split; [|constructor].
  - destruct (next_fetch (S (2 * length (inst_data it))) _ _ _ _ _ Hleft Hcd) as (it1 & Hleft1 & Hn).
    cbn [drain]. rewrite Hn, He. rewrite He in Hleft1. cbn [type1 size1 type2 size2] in *.
    rewrite info_not_noop in Hleft1 by done.
    destruct (resolve_half_ok it1 ops p (i :: l) (size p) [] bs _ Hleft1 Hp)
      as (o & ops1 & x & it2 & -> & -> & Hx & Hleft2).
    { right. destruct Hp. split_and!; auto; lia. }
    cbn [bind]. destruct fuel as [|fuel]; [simpl in Hf; lia|]. cbn [drain].
    destruct (next_pending (S (2 * length (inst_data it2))) it2 ops1 i l bs Hleft2 Hi)
      as (o2 & ops2 & x2 & it3 & -> & -> & Hx2 & Hleft3).
    cbn [bind]. destruct (IH fuel it3 ops2 Hleft3) as (insts & -> & Hf2); [simpl in Hf; lia|].
    exists (x :: x2 :: insts). split; [done|]. by repeat constructor.
Qed.
End Iterate.

Lemma packs_count l bs : packs l bs -> (length l <= 2 * length bs)%nat.
Proof. induction 1; simpl; rewrite ?length_app; lia. Qed.

(** Sections that denote operations are listed as these operations. *)
Lemma iterate_ok {B : Build} srclen ops l data inst addr c :
  packs l inst -> emits srclen AddressCache.new 0 ops l data addr c ->
  ops_fit srclen 0 ops -> 0 <= srclen -> srclen + ops_len ops < 2 ^ 64 ->
  lenZ inst < 2 ^ 64 -> lenZ addr < 2 ^ 64 ->
  exists insts, drain (S (2 * length inst)) (new inst addr srclen) = Ok insts /\
    Forall2 shows insts ops.
Proof.
  intros Hp He Hok Hs Hlt Hi Ha.
  apply (drain_ok inst addr srclen Hi Ha Hs l inst Hp); [|pose proof (packs_count _ _ Hp); lia].
  constructor. exists AddressCache.new, 0, addr, data, c. split_and!; auto; try lia.
  constructor; simpl; auto; by exists [].
Qed.

(** The instruction iterator lists what was encoded.  Give the window
    encoder any operations the format can express: the iterator over the INST
    and ADDR sections it makes ends, without an error, and has yielded these
    operations in order: the size of each and the address of every COPY, also
    where two of them share an opcode. *)
Theorem iterator_lists {B : Build} `{Adler32} (sw : option SourceWindow) (ck : bool)
    (ops : list op) (td : option bytes) :
  0 <= win_len sw < 2 ^ 63 -> ops_ok (win_len sw) 0 ops -> ops_len ops <= HARD_MAX_WINSIZE ->
  exists we ws insts, steps (E:=DecodeError) (WindowEncoder.new sw ck) ops = Ok we /\
    WindowEncoder.finish_sections (E:=DecodeError) we td = Ok ws /\
    drain (S (2 * length (WindowSections.inst_section ws)))
      (new (WindowSections.inst_section ws) (WindowSections.addr_section ws) (win_len sw)) = Ok insts /\
    Forall2 shows insts ops.
Proof.
  intros Hw Hok Hl. pose proof (ops_len_nonneg _ _ _ Hok). unfold HARD_MAX_WINSIZE in Hl.
  destruct (steps_ok (E:=DecodeError) (WindowEncoder.new sw ck) [] ops) as (we & Hst & He & Hs & _);
    [apply encoded_new|by apply ops_ok_fit|change (ops_len []) with 0; simpl; lia|simpl; lia|].
  destruct (finish_sections_ok (E:=DecodeError) we ops td He) as (l & data & inst & addr & c & Hf & Hp & Hem).
  simpl in Hs. rewrite Hs in Hem. pose proof (packs_length _ _ Hp).
  pose proof (emits_length _ _ _ _ _ _ _ _ Hem (ops_ok_fit _ _ _ Hok)) as (? & ? & ?).
  destruct (iterate_ok (win_len sw) ops l data inst addr c) as (insts & Hd & Hf2); auto using ops_ok_fit; [lia..|].
  eexists we, _, insts. split_and!; [exact Hst|exact Hf|exact Hd|exact Hf2].
Qed.

Lemma iterator_lists_witness :
  let ops := [OpAdd [1; 2]; OpCopy 4 1; OpRun 3 9; OpCopy 7 8] in
  exists we ws insts,
    steps (B:={| debug_build := true |}) (E:=DecodeError)
      (WindowEncoder.new (Some (source_win 6 2)) false) ops = Ok we /\
    WindowEncoder.finish_sections (H:=adler32_fallback)
      (E:=DecodeError) we None = Ok ws /\
    drain (B:={| debug_build := true |}) (S (2 * length (WindowSections.inst_section ws)))
      (new (WindowSections.inst_section ws) (WindowSections.addr_section ws) 6) = Ok insts /\
    Forall2 shows insts ops.
Proof.
  apply (iterator_lists (B:={| debug_build := true |}) (H:=adler32_fallback) (Some (source_win 6 2))
           false [OpAdd [1; 2]; OpCopy 4 1; OpRun 3 9; OpCopy 7 8] None).
  - simpl. lia.
  - repeat split; try done; try lia. all: repeat constructor; done.
  - unfold HARD_MAX_WINSIZE. vm_compute. discriminate.
Defined.
