(* ===== verification/Print.v ===== *)
(** * The commands header, headers and delta ([src/src/cli.rs], [cmd_print])

    They print a delta's headers and, for [delta], its instructions, to
    standard output.  The text is the bytes the [print!] and [println!] calls
    write, with the formatting they use written out; an error ends the command
    with code 1 and what was printed before it.  What is printed of a delta the
    encoders made is in [Listing.v]. *)

From stdpp Require Import base numbers list option strings gmap.
From Stdlib Require Import ZArith Lia.
From S2P Require Import Prelude Varint AddrCache CodeTable Header Source Secondary WindowDecoder.
From S2P Require Import Files FileIo CliOptions CliCommands.

Local Open Scope Z_scope.
Local Open Scope rust_scope.

(** ** Formatting *)

Definition text (s : string) : bytes :=
  map (fun a => Z.of_N (Ascii.N_of_ascii a)) (String.list_ascii_of_string s).

Definition newline : bytes := [10].

(** [{}] of an integer of at most 64 bits. *)
Fixpoint dec_loop (fuel : nat) (n : Z) (acc : bytes) : bytes :=
  match fuel with
  | O => acc
  | S fuel =>
      let acc := 48 + n mod 10 :: acc in
      if n <? 10 then acc else dec_loop fuel (n / 10) acc
  end.

Definition dec (n : Z) : bytes := dec_loop 20 n [].

(** [{:06}], [{:6}] and [{:<6}]. *)
Definition zero_pad (n : nat) (s : bytes) : bytes := replicate (n - length s) 48 ++ s.
Definition pad_left (n : nat) (s : bytes) : bytes := replicate (n - length s) 32 ++ s.
Definition pad_right (n : nat) (s : bytes) : bytes := s ++ replicate (n - length s) 32.

(** [{:08X}] of a [u32]. *)
Definition hex_digit (d : Z) : Z := if d <? 10 then 48 + d else 55 + d.
Definition hex8 (n : Z) : bytes :=
  map (fun k => hex_digit (Z.land (Z.shiftr n k) 15)) [28; 24; 20; 16; 12; 8; 4; 0].

(** [String::from_utf8_lossy]: how many bytes at the front are one character,
    or the longest prefix of one, which is replaced by U+FFFD. *)
Definition cont (l : bytes) (i : nat) (lo hi : Z) : bool :=
  match l !! i with Some b => (lo <=? b) && (b <=? hi) | None => false end.

Definition utf8_step (b : Z) (l : bytes) : bool * nat :=
  let tail := 0x80 in
  if b <? 0x80 then (true, 1%nat)
  else if (0xC2 <=? b) && (b <=? 0xDF) then
    if cont l 0 tail 0xBF then (true, 2%nat) else (false, 1%nat)
  else if (0xE0 <=? b) && (b <=? 0xEF) then
    let lo := if b =? 0xE0 then 0xA0 else 0x80 in
    let hi := if b =? 0xED then 0x9F else 0xBF in
    if negb (cont l 0 lo hi) then (false, 1%nat)
    else if negb (cont l 1 tail 0xBF) then (false, 2%nat)
    else (true, 3%nat)
  else if (0xF0 <=? b) && (b <=? 0xF4) then
    let lo := if b =? 0xF0 then 0x90 else 0x80 in
    let hi := if b =? 0xF4 then 0x8F else 0xBF in
    if negb (cont l 0 lo hi) then (false, 1%nat)
    else if negb (cont l 1 tail 0xBF) then (false, 2%nat)
    else if negb (cont l 2 tail 0xBF) then (false, 3%nat)
    else (true, 4%nat)
  else (false, 1%nat).

Fixpoint utf8_lossy (fuel : nat) (l : bytes) : bytes :=
  match fuel, l with
  | S fuel, b :: rest =>
      let '(valid, n) := utf8_step b rest in
      (if valid then take n l else [0xEF; 0xBF; 0xBD]) ++ utf8_lossy fuel (drop n l)
  | _, _ => []
  end.

(** ** The file header *)

Local Open Scope string_scope.

Definition header_size (h : FileHeader.t) : Z :=
  let hdr_size := 5 in
  let hdr_size := if has (FileHeader.hdr_ind h) VCD_SECONDARY then hdr_size + 1 else hdr_size in
  if has (FileHeader.hdr_ind h) VCD_APPHEADER then
    match FileHeader.app_header h with
    | Some data => hdr_size + (sizeof_u64 (lenZ data) + lenZ data)
    | None => hdr_size + 1
    end
  else hdr_size.

(** The names of the flags that are set, or [none]. *)
Definition flags (ind : Z) (names : list (Z * string)) : bytes :=
  concat (map (fun '(f, name) => if has ind f then text name else []) names).

Definition flags_or_none (ind : Z) (names : list (Z * string)) : bytes :=
  if existsb (fun '(f, _) => has ind f) names then flags ind names else text "none".

Definition secondary_line (id : option Z) : bytes :=
  let name s := (text "VCDIFF secondary compressor:  " ++ text s ++ newline)%list in
  match id with
  | None => name "none"
  | Some id =>
      if (id =? VCD_LZMA_ID)%Z then name "lzma"
      else if (id =? VCD_DJW_ID)%Z then name "djw"
      else if (id =? VCD_FGK_ID)%Z then name "fgk"
      else if (id =? 3)%Z then name "zlib"
      else (text "VCDIFF secondary compressor:  unknown (id=" ++ dec id ++ text ")" ++ newline)%list
  end.

Definition app_header_line (h : FileHeader.t) : bytes :=
  if has (FileHeader.hdr_ind h) VCD_APPHEADER then
    match FileHeader.app_header h with
    | Some ((_ :: _) as data) =>
        (text "VCDIFF application header:    " ++ utf8_lossy (length data) data ++ newline)%list
    | _ => []
    end
  else [].

Definition print_file_header (h : FileHeader.t) : bytes :=
  (text "VCDIFF version:               0" ++ newline ++
   text "VCDIFF header size:           " ++ dec (header_size h) ++ newline ++
   text "VCDIFF header indicator:      " ++
   flags_or_none (FileHeader.hdr_ind h)
     [(VCD_SECONDARY, "VCD_SECONDARY "); (VCD_CODETABLE, "VCD_CODETABLE ");
      (VCD_APPHEADER, "VCD_APPHEADER ")] ++ newline ++
   secondary_line (FileHeader.secondary_id h) ++ app_header_line h)%list.

(** ** A window's header *)

Definition field (name : string) (value : bytes) : bytes := (text name ++ value ++ newline)%list.

Definition print_window_header (window_num target_offset : Z) (wh : WindowHeader.t) : bytes :=
  ((if (0 <? window_num)%Z then newline else []) ++
   field "VCDIFF window number:         " (dec window_num) ++
   field "VCDIFF window indicator:      "
     (flags_or_none (WindowHeader.win_ind wh)
        [(VCD_SOURCE, "VCD_SOURCE "); (VCD_TARGET, "VCD_TARGET "); (VCD_ADLER32, "VCD_ADLER32 ")]) ++
   match WindowHeader.adler32 wh with
   | Some cksum => field "VCDIFF adler32 checksum:      " (hex8 cksum)
   | None => []
   end ++
   (if negb (WindowHeader.del_ind wh =? 0)%Z then
      field "VCDIFF delta indicator:       "
        (flags (WindowHeader.del_ind wh)
           [(VCD_DATACOMP, "VCD_DATACOMP "); (VCD_INSTCOMP, "VCD_INSTCOMP ");
            (VCD_ADDRCOMP, "VCD_ADDRCOMP ")])
    else []) ++
   (if (0 <? target_offset)%Z then field "VCDIFF window at offset:      " (dec target_offset) else []) ++
   (if WindowHeader.has_source wh || WindowHeader.has_target wh then
      field "VCDIFF copy window length:    " (dec (WindowHeader.copy_window_len wh)) ++
      field "VCDIFF copy window offset:    " (dec (WindowHeader.copy_window_offset wh))
    else []) ++
   field "VCDIFF delta encoding length: " (dec (WindowHeader.enc_len wh)) ++
   field "VCDIFF target window length:  " (dec (WindowHeader.target_window_len wh)) ++
   field "VCDIFF data section length:   " (dec (WindowHeader.data_len wh)) ++
   field "VCDIFF inst section length:   " (dec (WindowHeader.inst_len wh)) ++
   field "VCDIFF addr section length:   " (dec (WindowHeader.addr_len wh)))%list.

(** ** A window's instructions *)

(** [return 1] with what was printed. *)
Definition exit_printed {E A} (printed : bytes) (m : result E A) : result bytes A :=
  map_err (fun _ => printed) m.

Section Print.
Context {B : Build} `{Codecs}.

Definition print_inst (wh : WindowHeader.t) (copy_window_len offset : Z) (inst : Instruction)
    : result bytes bytes :=
  let line kind rest :=
    (text "  " ++ zero_pad 6 (dec offset) ++ text "     " ++ text kind ++ text "  " ++ rest ++ newline)%list in
  match inst with
  | Add len => Ok (line "ADD" (pad_left 6 (dec len)))
  | Copy len addr _ =>
      let* addr_str :=
        if (copy_window_len <=? addr)%Z then Ok (text "T@" ++ pad_right 6 (dec (addr - copy_window_len)))%list
        else
          let* a := add_w 64 (WindowHeader.copy_window_offset wh) addr in
          Ok (text "S@" ++ pad_right 6 (dec a))%list in
      Ok (line "CPY" (pad_left 6 (dec len) ++ text " " ++ addr_str)%list)
  | Run len => Ok (line "RUN" (pad_left 6 (dec len)))
  end.

Definition inst_size (inst : Instruction) : Z :=
  match inst with Add len => len | Copy len _ _ => len | Run len => len end.

(** [for result in iter]: an opcode has at most two halves. *)
Fixpoint print_insts (fuel : nat) (wh : WindowHeader.t) (copy_window_len : Z)
    (iter : InstructionIterator.t) (offset : Z) (printed : bytes) : result bytes bytes :=
  match fuel with
  | O => Diverge
  | S fuel =>
      let* o := exit_printed printed
        (InstructionIterator.next (S (S (2 * length (InstructionIterator.inst_data iter)))) iter) in
      match o with
      | None => Ok printed
      | Some (inst, iter) =>
          let* line := print_inst wh copy_window_len offset inst in
          let* offset := add_w 64 offset (inst_size inst) in
          print_insts fuel wh copy_window_len iter offset (printed ++ line)%list
      end
  end.

Definition print_delta (secondary_id : option Z) (wh : WindowHeader.t) (target_offset : Z)
    (reader printed : bytes) : result bytes (bytes * bytes) :=
  let* _ := alloc (WindowHeader.data_len wh) in
  let* _ := alloc (WindowHeader.inst_len wh) in
  let* _ := alloc (WindowHeader.addr_len wh) in
  let* (data_buf, reader) := exit_printed printed (read_exact (WindowHeader.data_len wh) reader) in
  let* (inst_buf, reader) := exit_printed printed (read_exact (WindowHeader.inst_len wh) reader) in
  let* (addr_buf, reader) := exit_printed printed (read_exact (WindowHeader.addr_len wh) reader) in
  let* (inst_ref, addr_ref) :=
    if negb (WindowHeader.del_ind wh =? 0)%Z then
      let* (_, i, a) := exit_printed printed
        (decompress_sections data_buf inst_buf addr_buf (WindowHeader.del_ind wh) secondary_id) in
      Ok (i, a)
    else Ok (inst_buf, addr_buf) in
  let printed :=
    (printed ++ text "  Offset Code Type1 Size1  @Addr1 + Type2 Size2 @Addr2" ++ newline)%list in
  let copy_window_len :=
    if WindowHeader.has_source wh || WindowHeader.has_target wh
    then WindowHeader.copy_window_len wh else 0%Z in
  let iter := InstructionIterator.new inst_ref addr_ref copy_window_len in
  let* printed := print_insts (S (2 * length inst_ref)) wh copy_window_len iter target_offset printed in
  Ok (reader, printed).

(** ** Skipping the sections *)

Fixpoint skip_loop (fuel : nat) (remaining buf_len : Z) (reader printed : bytes) : result bytes bytes :=
  match fuel with
  | O => Diverge
  | S fuel =>
      if (0 <? remaining)%Z then
        let to_read := Z.min remaining buf_len in
        let* (_, reader) := exit_printed printed (read_exact to_read reader) in
        let* remaining := sub_w 64 remaining to_read in
        skip_loop fuel remaining buf_len reader printed
      else Ok reader
  end.

Definition skip_sections (wh : WindowHeader.t) (reader printed : bytes) : result bytes bytes :=
  let* t := add_w 64 (WindowHeader.data_len wh) (WindowHeader.inst_len wh) in
  let* section_total := add_w 64 t (WindowHeader.addr_len wh) in
  skip_loop (S (length reader)) section_total (Z.min section_total BUF_SIZE) reader printed.

(** ** The command *)

Fixpoint print_loop (fuel : nat) (command : Command) (secondary_id : option Z)
    (window_num target_offset : Z) (reader printed : bytes) : result bytes bytes :=
  match fuel with
  | O => Diverge
  | S fuel =>
      let* (owh, reader) := exit_printed printed (WindowHeader.decode reader) in
      match owh with
      | None => Ok printed
      | Some wh =>
          let printed := (printed ++ print_window_header window_num target_offset wh)%list in
          let* (reader, printed) :=
            if bool_decide (command = PrintDelta)
            then print_delta secondary_id wh target_offset reader printed
            else let* reader := skip_sections wh reader printed in Ok (reader, printed) in
          let* target_offset := add_w 64 target_offset (WindowHeader.target_window_len wh) in
          let* window_num := add_w 64 window_num 1 in
          if bool_decide (command = PrintHdr) then Ok printed
          else print_loop fuel command secondary_id window_num target_offset reader printed
      end
  end.

Definition print_file (command : Command) (reader : bytes) : result bytes bytes :=
  let* (file_hdr, reader) := exit_printed [] (FileHeader.decode reader) in
  print_loop (S (length reader)) command (FileHeader.secondary_id file_hdr) 0 0 reader
    (print_file_header file_hdr).

Definition cmd_print `{Os} (opts : Options.t) (w : World) : result World World :=
  match Options.input_file opts with
  | None => Err w
  | Some input_file =>
      let* f := exit_1 w (file_open w input_file) in
      let* printed := map_err (write_stdout w) (print_file (Options.command opts) (file_bytes w f)) in
      Ok (write_stdout w printed)
  end.
End Print.

(** ** The layout of the headers *)

Definition lines (l : list string) : bytes := concat (map (fun s => (text s ++ newline)%list) l).

Example file_header_layout :
  print_file_header (FileHeader.mk (Z.lor VCD_SECONDARY VCD_APPHEADER) (Some VCD_LZMA_ID) (Some (text "a.tar")))
  = lines ["VCDIFF version:               0"; "VCDIFF header size:           12";
           "VCDIFF header indicator:      VCD_SECONDARY VCD_APPHEADER ";
           "VCDIFF secondary compressor:  lzma"; "VCDIFF application header:    a.tar"].
Proof. vm_compute. reflexivity. Qed.

Example window_header_layout :
  print_window_header 1 96
    (WindowHeader.mk (Z.lor VCD_SOURCE VCD_ADLER32) 40 7 29 32 VCD_INSTCOMP 10 9 8 (Some 0x00abcdef))
  = lines [""; "VCDIFF window number:         1"; "VCDIFF window indicator:      VCD_SOURCE VCD_ADLER32 ";
           "VCDIFF adler32 checksum:      00ABCDEF"; "VCDIFF delta indicator:       VCD_INSTCOMP ";
           "VCDIFF window at offset:      96"; "VCDIFF copy window length:    40";
           "VCDIFF copy window offset:    7"; "VCDIFF delta encoding length: 29";
           "VCDIFF target window length:  32"; "VCDIFF data section length:   10";
           "VCDIFF inst section length:   9"; "VCDIFF addr section length:   8"].
Proof. vm_compute. reflexivity. Qed.

Example instructions_layout :
  let B := {| debug_build := true |} in
  let wh := WindowHeader.mk VCD_SOURCE 40 7 29 32 0 10 9 8 None in
  map (print_inst wh 40 96) [Add 5; Copy 4 3 0; Copy 12 50 0; Run 1000]
  = [Ok (lines ["  000096     ADD       5"]); Ok (lines ["  000096     CPY       4 S@10    "]);
     Ok (lines ["  000096     CPY      12 T@10    "]); Ok (lines ["  000096     RUN    1000"])].
Proof. vm_compute. reflexivity. Qed.
