(* ===== verification/Listing.v ===== *)
(** * What the commands headers and delta print ([src/src/cli.rs], [cmd_print])

    On a delta the two encoders made of lists of operations, [headers] prints
    every window's header and [delta] also every operation, at its offset in
    the target, with its address in the source or in the target. *)

From stdpp Require Import base numbers list option strings gmap.
From Stdlib Require Import ZArith Lia.
From S2P Require Import Prelude Varint AddrCache CodeTable Semantics Header WindowEncoder Source.
From S2P Require Import Secondary WindowDecoder WindowRoundtrip StreamRoundtrip Iterator.
From S2P Require Import Files FileIo CliOptions CliCommands Print.

Local Open Scope Z_scope.
Local Open Scope rust_scope.

(** ** The expected text *)

(** The operation [o] of a window over [sw], at [offset] of the target. *)
Definition op_text (sw : option SourceWindow) (o : op) : bytes :=
  match o with
  | OpAdd d => text "ADD" ++ text "  " ++ pad_left 6 (dec (lenZ d))
  | OpRun len _ => text "RUN" ++ text "  " ++ pad_left 6 (dec len)
  | OpCopy len a =>
      text "CPY" ++ text "  " ++ pad_left 6 (dec len) ++ text " " ++
      if win_len sw <=? a then text "T@" ++ pad_right 6 (dec (a - win_len sw))
      else text "S@" ++ pad_right 6 (dec (window_start sw + a))
  end.

Fixpoint op_lines (sw : option SourceWindow) (offset : Z) (ops : list op) : bytes :=
  match ops with
  | [] => []
  | o :: ops =>
      text "  " ++ zero_pad 6 (dec offset) ++ text "     " ++ op_text sw o ++ newline ++
      op_lines sw (offset + op_len o) ops
  end.

Definition table_heading : bytes :=
  text "  Offset Code Type1 Size1  @Addr1 + Type2 Size2 @Addr2" ++ newline.

Fixpoint listing (with_ops : bool) (n offset : Z) (whs : list WindowHeader.t) (js : list job) : bytes :=
  match whs, js with
  | wh :: whs, j :: js =>
      print_window_header n offset wh ++
      (if with_ops then table_heading ++ op_lines (j_source j) offset (j_ops j) else []) ++
      listing with_ops (n + 1) (offset + ops_len (j_ops j)) whs js
  | _, _ => []
  end.

(** ** One window *)

Section Windows.
Context {B : Build} `{Adler32Laws} `{Codecs}.

(** The header of the window of a job, which is not compressed. *)
Definition describes_job (wh : WindowHeader.t) (j : job) (t : bytes) : Prop :=
  describes wh (j_source j) (j_checksum j) (ops_len (j_ops j)) t /\ WindowHeader.del_ind wh = 0.

(** The bytes [w] are the window [wh] with sections that list the operations. *)
Record lists (j : job) (t w : bytes) (wh : WindowHeader.t) : Prop := {
  ls_describes : describes_job wh j t;
  ls_sections : exists d i a insts, w = window_header_bytes wh ++ d ++ i ++ a /\
    WindowHeader.data_len wh = lenZ d /\ WindowHeader.inst_len wh = lenZ i /\
    WindowHeader.addr_len wh = lenZ a /\ lenZ d + lenZ i + lenZ a < 2 ^ 63 /\
    drain (S (2 * length i)) (InstructionIterator.new i a (win_len (j_source j))) = Ok insts /\
    Forall2 shows insts (j_ops j)
}.

(** A window without secondary compression is listed as what it carries. *)
Lemma carries_lists fh sw ck ops t w :
  FileHeader.secondary_id fh = None -> carries fh sw ck ops t w ->
  0 <= win_len sw < 2 ^ 63 -> ops_len ops <= HARD_MAX_WINSIZE ->
  exists wh, lists {| j_source := sw; j_checksum := ck; j_ops := ops |} t w wh.
Proof.
  intros Hid (wh & d & i & a & sd & si & sa & l & c & -> & Hds & (Hd & Hi & Ha) & Hle & Hdec & Hp & Hem & Hfit)
    Hw Hl.
  pose proof (sections_length _ _ _ _ _ _ _ Hp Hem Hfit Hl) as (? & ? & ? & ? & ?).
  unfold HARD_MAX_WINSIZE in Hl. unfold decompress_sections in Hdec. rewrite Hid in Hdec.
  destruct (Z.eqb_spec (WindowHeader.del_ind wh) 0); [|done]. injection Hdec as -> -> ->.
  destruct (iterate_ok (win_len sw) ops l sd si sa c) as (insts & Hdr & Hf2); auto; [lia..|].
  exists wh. constructor; [by split|]. exists sd, si, sa, insts. simpl. split_and!; auto; lia.
Qed.

Lemma encode_job_lists {E} src st ws j t :
  wrote st FileHeader.default ws -> job_ok src j t ->
  exists st' w wh, encode_job (E:=E) st j t = Ok st' /\
    wrote st' FileHeader.default (ws ++ [w]) /\ lists j t w wh.
Proof.
  intros Hst (Hsw & Hok & Hl & Hex). unfold encode_job, HARD_MAX_WINSIZE in *.
  pose proof (ops_len_nonneg _ _ _ Hok). pose proof (lenZ_nonneg src). pose proof Hsw as [Hsrc Hin].
  assert (0 <= win_len (j_source j) <= lenZ src) as Hwl
    by (destruct (j_source j) as [w|]; simpl; [destruct (Hin w eq_refl) as (? & ? & ?)|]; lia).
  destruct (steps_ok (E:=E) (WindowEncoder.new (j_source j) (j_checksum j)) [] (j_ops j))
    as (we & -> & He & Hs & Hc);
    [apply encoded_new|by apply ops_ok_fit|change (ops_len []) with 0; simpl; lia|simpl; lia|].
  cbn [bind]. simpl in He, Hs, Hc.
  destruct (finish_carries (E:=E) FileHeader.default src we (j_ops j) t) as (w & Hfin & Hcar);
    rewrite ?Hs; auto.
  rewrite Hs, Hc in Hcar. rewrite (write_window_raw _ _ _ _ _ _ Hst Hfin).
  destruct (write_raw_window_ok (E:=E) st _ _ w Hst) as (st' & Hw & Hst').
  destruct (carries_lists FileHeader.default (j_source j) (j_checksum j) (j_ops j) t w) as (wh & Hls); try done.
  { lia. }
  exists st', w, wh. split_and!; [done..|]. by destruct j.
Qed.

Lemma encode_jobs_list {E} src js ts :
  Forall2 (job_ok src) js ts -> forall st ws,
  wrote st FileHeader.default ws ->
  exists st' ws' whs, encode_jobs (E:=E) st js ts = Ok st' /\
    wrote st' FileHeader.default (ws ++ ws') /\
    Forall3 (fun jt w wh => lists (jt.1) (jt.2) w wh) (zip js ts) ws' whs.
Proof.
  induction 1 as [|j t js ts Hj _ IH]; intros st ws Hst; simpl.
  - exists st, [], []. rewrite app_nil_r. split_and!; [done..|constructor].
  - destruct (encode_job_lists (E:=E) src st ws j t Hst Hj) as (st1 & w & wh & -> & Hst1 & Hw).
    cbn [bind]. destruct (IH st1 _ Hst1) as (st2 & ws' & whs & -> & Hst2 & Hws).
    exists st2, (w :: ws'), (wh :: whs). rewrite <- app_assoc in Hst2. split_and!; [done..|].
    by constructor.
Qed.

Lemma job_target_len src j t : job_ok src j t -> lenZ t = ops_len (j_ops j).
Proof.
  intros ([_ Hin] & Hok & _ & Hex).
  destruct (exec_ops_ok (selected (j_source j) src) [] (j_ops j)) as (t' & Ht' & Hl').
  - change (lenZ (@nil Z)) with 0. destruct (j_source j) as [w|]; simpl in *; [|done].
    destruct (Hin w eq_refl) as (? & ? & ?). by rewrite sub_length by lia.
  - rewrite Hex in Ht'. by injection Ht' as ->.
Qed.

Lemma print_inst_ok wh sw off pos x o :
  shows x o -> op_ok (win_len sw) pos o -> 0 <= window_start sw ->
  window_start sw + win_len sw < 2 ^ 64 -> WindowHeader.copy_window_offset wh = window_start sw ->
  print_inst wh (win_len sw) off x
    = Ok (text "  " ++ zero_pad 6 (dec off) ++ text "     " ++ op_text sw o ++ newline) /\
  inst_size x = op_len o.
Proof.
  intros Hx [_ Ho] Hs Hlt Hwh. unfold print_inst.
  destruct x as [n|n a m|n], o as [d|len addr|len b]; simpl in Hx; try done; subst; cbn [op_text].
  - by rewrite <- ?app_assoc.
  - destruct Hx as [-> ->]. rewrite Hwh. case_bool.
    + cbn [bind]. by rewrite <- ?app_assoc.
    + rewrite add_w_ok by (unfold in_range; lia). cbn [bind]. by rewrite <- ?app_assoc.
  - by rewrite <- ?app_assoc.
Qed.

Lemma print_insts_ok wh sw fuel :
  0 <= window_start sw -> window_start sw + win_len sw < 2 ^ 64 ->
  WindowHeader.copy_window_offset wh = window_start sw ->
  forall it insts ops off pos printed,
  drain fuel it = Ok insts -> Forall2 shows insts ops -> ops_ok (win_len sw) pos ops ->
  0 <= off -> off + ops_len ops < 2 ^ 64 ->
  print_insts fuel wh (win_len sw) it off printed = Ok (printed ++ op_lines sw off ops).
Proof.
  intros Hs Hlt Hwh. induction fuel as [|fuel IH]; [done|].
  intros it insts ops off pos printed Hd Hf Hok Hoff Hl. cbn [drain print_insts] in *.
  destruct (InstructionIterator.next _ it) as [[[x it1]|]| | |]; try done; cbn [bind exit_printed map_err] in *.
  - apply bind_ok_inv in Hd as (insts' & Hd & [= <-]).
    apply Forall2_cons_inv_l in Hf as (o & ops' & Hx & Hf & ->). destruct Hok as [Ho Hok].
    destruct (print_inst_ok wh sw off pos x o Hx Ho Hs Hlt Hwh) as [-> ->]. cbn [bind].
    pose proof (ops_len_nonneg _ _ _ Hok). pose proof (proj1 Ho).
    change (ops_len (o :: ops')) with (op_len o + ops_len ops') in Hl.
    rewrite add_w_ok by (unfold in_range; lia). cbn [bind].
    rewrite (IH it1 insts' ops' _ _ _ Hd Hf Hok) by lia. simpl op_lines.
    by rewrite <- !app_assoc.
  - injection Hd as <-. apply Forall2_nil_inv_l in Hf as ->. by rewrite app_nil_r.
Qed.

Lemma print_delta_ok sid src j t d i a insts wh off rest printed :
  job_ok src j t -> describes_job wh j t ->
  WindowHeader.data_len wh = lenZ d -> WindowHeader.inst_len wh = lenZ i ->
  WindowHeader.addr_len wh = lenZ a -> lenZ d + lenZ i + lenZ a < 2 ^ 63 ->
  drain (S (2 * length i)) (InstructionIterator.new i a (win_len (j_source j))) = Ok insts ->
  Forall2 shows insts (j_ops j) -> 0 <= off -> off + ops_len (j_ops j) < 2 ^ 64 ->
  print_delta sid wh off (d ++ i ++ a ++ rest) printed
    = Ok (rest, printed ++ table_heading ++ op_lines (j_source j) off (j_ops j)).
Proof.
  intros ([Hsrc Hin] & Hok & _ & _) [[_ Hs Ht Hcl Hco _ _] Hdel] Hd Hi Ha Hl Hdr Hf Hoff Hlt.
  pose proof (lenZ_nonneg d). pose proof (lenZ_nonneg i). pose proof (lenZ_nonneg a).
  pose proof (lenZ_nonneg src).
  unfold print_delta, alloc. rewrite Hd, Hi, Ha.
  do 3 (rewrite (proj2 (Z.leb_le _ _)) by lia; cbn [bind]).
  do 3 (rewrite read_exact_app by done; cbn [exit_printed map_err bind]).
  rewrite Hdel. cbn [Z.eqb negb bind]. rewrite Hs, Ht, Hcl, orb_false_r.
  assert ((if is_some (j_source j) then win_len (j_source j) else 0) = win_len (j_source j)) as ->
    by (by destruct (j_source j)).
  rewrite (print_insts_ok wh (j_source j) _) with (insts := insts) (ops := j_ops j) (pos := 0); auto.
  - cbn [bind]. unfold table_heading. by rewrite <- !app_assoc.
  - destruct (j_source j) as [w|]; simpl; [destruct (Hin w eq_refl) as (? & ? & ?)|]; lia.
  - destruct (j_source j) as [w|]; simpl; [destruct (Hin w eq_refl) as (? & ? & ?)|]; lia.
Qed.

(** Skipping reads the sections and nothing else. *)
Lemma skip_loop_ok buf_len rest printed fuel :
  forall l, (length l < fuel)%nat -> lenZ l < 2 ^ 64 -> (l <> [] -> 0 < buf_len) ->
  skip_loop fuel (lenZ l) buf_len (l ++ rest) printed = Ok rest.
Proof.
  induction fuel as [|fuel IH]; intros l Hf Hl Hb; [lia|]. cbn [skip_loop].
  destruct l as [|b l]; [done|]. specialize (Hb ltac:(done)). set (k := b :: l) in *.
  assert (0 < lenZ k) as Hk by (unfold k; rewrite lenZ_cons; pose proof (lenZ_nonneg l); lia).
  rewrite (proj2 (Z.ltb_lt _ _)) by done. set (n := Z.min (lenZ k) buf_len).
  rewrite <- (take_drop (Z.to_nat n) k), <- app_assoc, read_exact_app
    by (unfold lenZ in *; rewrite length_take; lia).
  cbn [exit_printed map_err bind]. rewrite take_drop.
  rewrite sub_w_ok by (unfold in_range; lia). cbn [bind].
  replace (lenZ k - n) with (lenZ (drop (Z.to_nat n) k))
    by (unfold lenZ in *; rewrite length_drop; lia).
  assert ((length (drop (Z.to_nat n) k) < length k)%nat) by (rewrite length_drop; unfold lenZ in *; lia).
  apply IH; [lia|unfold lenZ in *; lia|done].
Qed.

Lemma skip_sections_ok wh d i a rest printed :
  WindowHeader.data_len wh = lenZ d -> WindowHeader.inst_len wh = lenZ i ->
  WindowHeader.addr_len wh = lenZ a -> lenZ d + lenZ i + lenZ a < 2 ^ 63 ->
  skip_sections wh (d ++ i ++ a ++ rest) printed = Ok rest.
Proof.
  intros Hd Hi Ha Hl. unfold skip_sections. rewrite Hd, Hi, Ha.
  pose proof (lenZ_nonneg d). pose proof (lenZ_nonneg i). pose proof (lenZ_nonneg a).
  rewrite add_w_ok by (unfold in_range; lia). cbn [bind].
  rewrite add_w_ok by (unfold in_range; lia). cbn [bind].
  replace (lenZ d + lenZ i + lenZ a) with (lenZ (d ++ i ++ a)) by (rewrite !lenZ_app; lia).
  replace (d ++ i ++ a ++ rest) with ((d ++ i ++ a) ++ rest) by (by rewrite <- !app_assoc).
  apply skip_loop_ok; [rewrite (length_app _ rest); lia|rewrite !lenZ_app; lia|].
  intros Hne. assert (0 < lenZ (d ++ i ++ a)); [|unfold BUF_SIZE; lia].
  destruct (d ++ i ++ a); [done|]. rewrite lenZ_cons. pose proof (lenZ_nonneg l). lia.
Qed.

Lemma print_loop_ok command sid src js ts ws whs :
  command <> PrintHdr -> Forall2 (job_ok src) js ts ->
  Forall3 (fun jt w wh => lists (jt.1) (jt.2) w wh) (zip js ts) ws whs ->
  forall fuel n off printed, (length ws < fuel)%nat -> 0 <= n -> n + lenZ ws < 2 ^ 64 ->
  0 <= off -> off + lenZ (concat ts) < 2 ^ 63 ->
  print_loop fuel command sid n off (concat ws) printed
    = Ok (printed ++ listing (bool_decide (command = PrintDelta)) n off whs js).
Proof.
  intros Hcmd Hjs. revert ws whs.
  induction Hjs as [|j t js ts Hj Hjs IH]; intros ws whs Hws [|fuel] n off printed Hf Hn Hnl Ho Hol;
    try (simpl in Hf; lia); simpl zip in Hws; inversion Hws as [|? w wh ? ws' whs' Hw Hws']; subst.
  { by rewrite app_nil_r. }
  destruct Hw as [Hds (d & i & a & insts & -> & Hd & Hi & Ha & Hl & Hdr & Hsh)].
  cbn [fst snd concat print_loop listing length] in *.
  pose proof (job_target_len src j t Hj) as Htl. pose proof (lenZ_nonneg t).
  rewrite lenZ_app in Hol. rewrite lenZ_cons in Hnl. pose proof (lenZ_nonneg (concat ts)).
  pose proof (lenZ_nonneg ws').
  rewrite <- !app_assoc, window_header_decode_ok by apply Hds. cbn [exit_printed map_err bind].
  assert (forall p, (if bool_decide (command = PrintDelta)
      then print_delta sid wh off (d ++ i ++ a ++ concat ws') p
      else let* reader := skip_sections wh (d ++ i ++ a ++ concat ws') p in Ok (reader, p))
    = Ok (concat ws', p ++ if bool_decide (command = PrintDelta)
                           then table_heading ++ op_lines (j_source j) off (j_ops j) else [])) as Hbody.
  { intros p. case_bool_decide.
    - by apply (print_delta_ok sid src j t d i a insts); auto; lia.
    - rewrite skip_sections_ok by done. cbn [bind]. by rewrite app_nil_r. }
  rewrite Hbody. cbn [bind]. rewrite (ds_window_len _ _ _ _ _ (proj1 Hds)).
  rewrite add_w_ok by (unfold in_range; lia). cbn [bind].
  rewrite add_w_ok by (unfold in_range; lia). cbn [bind].
  rewrite (bool_decide_eq_false_2 (command = PrintHdr)) by done.
  rewrite (IH ws' whs' Hws') by lia. by rewrite <- !app_assoc.
Qed.

Lemma lists_describe js ts ws whs :
  length js = length ts ->
  Forall3 (fun jt w wh => lists (jt.1) (jt.2) w wh) (zip js ts) ws whs ->
  Forall3 describes_job whs js ts /\ length ws = length js /\ (length ws <= length (concat ws))%nat.
Proof.
  revert ts ws whs. induction js as [|j js IH]; intros [|t ts] ws whs Hl Hws; try done;
    inversion Hws as [|? w wh ? ws' whs' [Hd (d & i & a & insts & -> & _)] Hws']; subst.
  - split_and!; [constructor|done..].
  - destruct (IH ts ws' whs') as (Hd1 & Hd2 & Hd3); [simpl in Hl; lia|done|].
    split_and!; [by constructor|simpl; lia|]. cbn [concat length]. rewrite length_app. simpl. lia.
Qed.
End Windows.

(** ** Theorem *)

(** C15: what [headers] and [delta] print.  Make a delta of any operations the
    format can express, window by window.  On a file that holds it the command
    ends with code 0 and has printed the file header, every window's header in
    order, and for [delta] every operation: its kind and size, its offset in
    the target, and for a COPY where it reads, in the source file or in the
    target window. *)
Theorem print_lists {B : Build} `{Adler32Laws} `{Codecs} `{OsWorks} (command : Command)
    (src : bytes) (js : list job) (ts : list bytes) :
  command = PrintHdrs \/ command = PrintDelta ->
  Forall2 (job_ok src) js ts -> lenZ (concat ts) < 2 ^ 63 -> lenZ js < 2 ^ 64 ->
  exists delta whs, encode_stream (E:=DecodeError) js ts = Ok delta /\
    Forall3 describes_job whs js ts /\
    forall (w : World) (opts : Options.t) (p : path),
      Options.command opts = command -> Options.input_file opts = Some p ->
      files w !! p = Some delta ->
      cmd_print opts w = Ok (write_stdout w (print_file_header FileHeader.default ++
        listing (bool_decide (command = PrintDelta)) 0 0 whs js)).
Proof.
  intros Hcmd Hjs Hl Hn.
  destruct (encode_jobs_list (E:=DecodeError) src js ts Hjs _ _ (wrote_new true))
    as (st & ws & whs & Henc & Hst & Hws).
  destruct (lists_describe js ts ws whs (Forall2_length _ _ _ Hjs) Hws) as (Hds & Hlen & Hcount).
  exists (file_header_bytes FileHeader.default ++ concat ws), whs. split_and!; auto.
  - unfold encode_stream. rewrite Henc. cbn [bind]. by apply stream_finish_ok.
  - intros w opts p Hc Hp Hf. unfold cmd_print. rewrite Hp, (file_open_ok w p _ Hf).
    cbn [exit_1 map_err bind]. rewrite (file_bytes_lookup _ _ _ Hf), Hc. unfold print_file.
    rewrite file_header_decode_ok by apply default_header_wf. cbn [exit_printed map_err bind].
    rewrite (print_loop_ok command _ src js ts ws whs);
      [done|destruct Hcmd; congruence|done|done|lia|lia|unfold lenZ in *; lia|lia|done].
Qed.

Lemma print_lists_witness :
  let B := {| debug_build := true |} in
  exists delta whs,
    encode_stream (H:=adler32_fallback) (E:=DecodeError) sample_jobs sample_targets = Ok delta /\
    Forall3 (describes_job (H:=adler32_fallback)) whs sample_jobs sample_targets /\
    forall w opts p, Options.command opts = PrintDelta -> Options.input_file opts = Some p ->
      files w !! p = Some delta ->
      cmd_print (H:=zeros_codecs) (H0:=one_byte_os) opts w = Ok (write_stdout w
        (print_file_header FileHeader.default ++ listing true 0 0 whs sample_jobs)).
Proof.
  exact (print_lists (B:={| debug_build := true |}) (H:=adler32_fallback) (H0:=adler32_fallback_laws)
           (H1:=zeros_codecs) (H2:=one_byte_os) (H3:=one_byte_os_works) PrintDelta sample_source
           sample_jobs sample_targets (or_intror eq_refl) sample_jobs_ok eq_refl eq_refl).
Defined.
