(* ===== verification/Run.v ===== *)
(** * The command line ([src/src/cli.rs], [run])

    The entry point behind argument parsing: options are resolved and checked,
    the command is dispatched, and the outcome is the exit code and the world
    the process leaves.  The theorems compose the commands: what [encode]
    writes [decode] turns back into the target, whether the bytes go through
    files or pipes; [merge] writes a delta of the whole chain of patches; and
    two places where an option does not do what its help says. *)

From stdpp Require Import base numbers list option strings gmap.
From Stdlib Require Import ZArith Lia.
From S2P Require Import Prelude Header WindowEncoder Source Secondary WindowDecoder StreamRoundtrip.
From S2P Require Import Kernels Delta DeltaCorrect Files FileIo CliOptions CliCommands Recode Print.

Local Open Scope Z_scope.
Local Open Scope rust_scope.

(** [-c] overrides an output file, unless the process is quiet. *)
Definition override_output (opts : Options.t) : Options.t :=
  if Options.use_stdout opts && is_some (Options.output_file opts) && negb (Options.quiet opts)
  then Options.clear_output opts else opts.

Definition run {B : Build} `{Adler32} `{Codecs} `{Os} (c : cpu) (cli : Cli) (w : World)
    : result World World :=
  let opts := resolve_options cli in
  if XD3_HARDMAXWINSIZE <? Options.input_window_size opts then Err w
  else
    let opts := override_output opts in
    match Options.command opts with
    | Encode => cmd_encode c opts w
    | Decode => cmd_decode opts w
    | Config => cmd_config w
    | PrintHdr | PrintHdrs | PrintDelta => cmd_print opts w
    | Recode => cmd_recode opts w
    | Merge => cmd_merge c opts w
    end.

(** ** Inputs and outputs of a command *)

(** What a source or an input holds: no source is an empty one, no input is
    standard input. *)
Definition source_is (w : World) (source_file : option path) (s : bytes) : Prop :=
  match source_file with Some p => files w !! p = Some s | None => s = [] end.

Definition input_is (w : World) (input_file : option path) (t : bytes) : Prop :=
  match input_file with Some p => files w !! p = Some t | None => t = stdin w end.

Definition destination (use_stdout : bool) (output_file : option path) : output :=
  match use_stdout, output_file with
  | true, _ | _, None => ToStdout
  | false, Some p => ToFile p
  end.

(** An output file is new or may be overwritten, and is not the input. *)
Definition writable (w : World) (force : bool) (input_file : option path) (o : output) : Prop :=
  match o with
  | ToFile p => (force = true \/ files w !! p = None) /\ input_file <> Some p
  | _ => True
  end.

(** The world once the output is open. *)
Definition opened (w : World) (o : output) : World :=
  match o with ToFile p => set_file w p [] | _ => w end.

Lemma write_opened w o b : write_output (opened w o) o b = write_output w o b.
Proof. destruct o; simpl; [apply set_file_twice|done..]. Qed.

Section Plumbing.
Context `{OsWorks}.

Lemma read_source_ok w p s : source_is w p s -> read_source w p = Ok s.
Proof.
  destruct p as [p|]; simpl; [|by intros ->]. intros Hp. by rewrite (fs_read_ok w p s).
Qed.

Lemma creatable w force p :
  force = true \/ files w !! p = None -> path_exists w p && negb force = false.
Proof.
  intros [-> |Hp]; [apply andb_false_r|]. by rewrite path_exists_missing.
Qed.

Lemma open_output_ok w opts input :
  let o := destination (Options.use_stdout opts) (Options.output_file opts) in
  writable w (Options.force opts) input o -> open_output w opts = Ok (o, opened w o).
Proof.
  unfold open_output, destination.
  destruct (Options.use_stdout opts), (Options.output_file opts) as [p|]; simpl; try done.
  intros [Hf _]. by rewrite creatable, file_create_ok.
Qed.

(** Opening the output leaves the input as it was. *)
Lemma open_input_ok w input force t o :
  input_is w input t -> writable w force input o ->
  exists r, open_input w input = Ok r /\ input_bytes (opened w o) r = t.
Proof.
  destruct input as [p|]; simpl.
  - intros Hp Hw. rewrite (file_open_ok w p t Hp). exists (FromFile p). split; [done|]. simpl.
    rewrite <- (file_bytes_lookup w p t Hp).
    destruct o as [q| |]; simpl in *; [|done..]. apply file_bytes_set_ne. destruct Hw. congruence.
  - intros -> _. exists FromStdin. split; [done|]. by destruct o.
Qed.
End Plumbing.

(** Dropping the output file changes no other option, and not the destination of
    a command that looks at [-c] first. *)
Record same_command (o o' : Options.t) : Prop := {
  sc_command : Options.command o' = Options.command o;
  sc_source : Options.source_file o' = Options.source_file o;
  sc_input : Options.input_file o' = Options.input_file o;
  sc_force : Options.force o' = Options.force o;
  sc_no_output : Options.no_output o' = Options.no_output o;
  sc_patches : all_patches o' = all_patches o;
  sc_compress `{Codecs} : build_compress_options o' = build_compress_options o;
  sc_destination : destination (Options.use_stdout o') (Options.output_file o')
                   = destination (Options.use_stdout o) (Options.output_file o)
}.

Lemma override_same opts : same_command opts (override_output opts).
Proof.
  unfold override_output. destruct (Options.use_stdout opts) eqn:Hu; [|by constructor].
  destruct (is_some _), (negb _); constructor; try done; simpl; by rewrite Hu.
Qed.

(** ** Encode and decode *)

Section Commands.
Context {B : Build} `{Adler32Laws} `{CodecLaws} `{OsLaws} `{!OsWorks} (c : cpu).

Lemma cli_loop_pieces fuel : forall rest ps enc enc',
  read_pieces fuel BUF_SIZE rest = Ok ps ->
  for_in ps (fun p d => DeltaEncoder.write_target c d p) enc = Ok enc' ->
  encode_loop c fuel enc rest = Ok enc'.
Proof.
  induction fuel as [|fuel IH]; intros rest ps enc enc' Hps Hfor; [done|].
  cbn [read_pieces encode_loop] in *.
  apply bind_ok_inv in Hps as (k & -> & Hps). cbn [map_err bind]. destruct (k =? 0).
  - injection Hps as <-. by injection Hfor as <-.
  - apply bind_ok_inv in Hps as (ps' & Hps & Heq). injection Heq as <-. cbn [for_in] in Hfor.
    apply bind_ok_inv in Hfor as (enc1 & -> & Hfor). cbn [map_err bind]. eauto.
Qed.

Lemma count_loop_ok fuel : forall rest, (length rest < fuel)%nat -> count_loop fuel rest = Ok tt.
Proof.
  induction fuel as [|fuel IH]; intros rest Hf; [lia|]. cbn [count_loop].
  destruct (os_reads BUF_SIZE rest) as [k Hk]. rewrite Hk. cbn [bind].
  destruct (os_read_count BUF_SIZE rest k ltac:(done) Hk) as (Hk1 & Hk2 & _).
  destruct (Z.eqb_spec k 0); [done|]. apply IH. rewrite length_drop. unfold lenZ in *. lia.
Qed.

Lemma cmd_encode_ok opts w s t :
  let o := destination (Options.use_stdout opts) (Options.output_file opts) in
  let copts := build_compress_options opts in
  Options.no_output opts = false ->
  source_is w (Options.source_file opts) s -> input_is w (Options.input_file opts) t ->
  writable w (Options.force opts) (Options.input_file opts) o ->
  wf_bytes s -> lenZ s < 2 ^ 62 -> wf_bytes t -> lenZ t < 2 ^ 62 -> options_ok copts ->
  merges_safe c s copts t = true ->
  exists delta n, cmd_encode c opts w = Ok (write_output w o delta) /\ delta_of s copts delta t n.
Proof.
  intros o copts Hno Hs Ht Hw Hsw Hsl Htw Htl Hoo Hsafe. unfold cmd_encode.
  rewrite (read_source_ok _ _ _ Hs). cbn [bind].
  destruct (open_input_ok w _ _ t o Ht Hw) as (r & -> & Hr). cbn [bind].
  rewrite (open_output_ok w opts _ Hw). fold o. cbn [bind]. rewrite Hno, Hr.
  destruct (read_pieces_ok BUF_SIZE ltac:(done) (S (length t)) t ltac:(lia)) as (ps & Hps & Hcat).
  assert (Forall wf_bytes ps) as Hpw by (rewrite <- Hcat in Htw; by apply Forall_concat).
  destruct (encode_pieces_ok c s copts ps) as (delta & n & Henc & Hd); rewrite ?Hcat; try done.
  rewrite Hcat in Hd. unfold encode_pieces in Henc.
  apply bind_ok_inv in Henc as (d0 & Hnew & Henc). apply bind_ok_inv in Henc as (d1 & Hfor & Hfin).
  fold copts. rewrite Hnew. cbn [map_err bind]. rewrite (cli_loop_pieces _ _ _ _ _ Hps Hfor). cbn [bind].
  rewrite Hfin. cbn [map_err bind exit_1_writing]. rewrite write_opened. eauto.
Qed.

Lemma cmd_decode_ok opts w s copts delta t n :
  let o := if Options.no_output opts then ToSink
           else destination (Options.use_stdout opts) (Options.output_file opts) in
  source_is w (Options.source_file opts) s -> input_is w (Options.input_file opts) delta ->
  writable w (Options.force opts) (Options.input_file opts) o ->
  options_ok copts -> lenZ t < 2 ^ 62 -> delta_of s copts delta t n ->
  cmd_decode opts w = Ok (write_output w o t).
Proof.
  intros o Hs Ht Hw Hoo Htl Hd. unfold cmd_decode.
  rewrite (read_source_ok _ _ _ Hs). cbn [bind].
  destruct (open_input_ok w _ _ delta o Ht Hw) as (r & -> & Hr). cbn [bind].
  assert (open_decode_output w opts = Ok (o, opened w o)) as ->.
  { unfold open_decode_output. destruct (Options.no_output opts); [done|]. by apply (open_output_ok w opts _ Hw). }
  cbn [bind]. rewrite Hr.
  destruct (delta_decodes s copts delta t n Hoo Htl Hd) as (_ & Hdec).
  destruct (Hdec (negb (Options.no_checksum opts))) as (d' & -> & _).
  cbn [exit_1_writing map_err bind]. by rewrite write_opened.
Qed.
End Commands.

(** ** Merge *)

(** The patches [ps] turn [s] into [t], one after the other. *)
Fixpoint patched {B : Build} `{Adler32} `{Codecs} (w : World) (s : bytes) (ps : list path) (t : bytes) : Prop :=
  match ps with
  | [] => s = t
  | p :: ps => exists delta t1, files w !! p = Some delta /\ decode_memory delta s = Ok t1 /\
                 patched w t1 ps t
  end.

(** [merge] looks at the output file first, and a quiet process keeps it. *)
Definition merge_destination (quiet use_stdout : bool) (output_file : option path) : option output :=
  match output_file with
  | Some p => if use_stdout && negb quiet then Some ToStdout else Some (ToFile p)
  | None => if use_stdout then Some ToStdout else None
  end.

Definition overwritable (w : World) (force : bool) (o : output) : Prop :=
  match o with ToFile p => force = true \/ files w !! p = None | _ => True end.

Section MergeOk.
Context {B : Build} `{Adler32Laws} `{CodecLaws} `{OsLaws} `{!OsWorks} (c : cpu).

Lemma apply_patches_ok w source_file ps : forall (first : bool) s s0 t,
  patched w s ps t -> ps <> [] -> (if first then source_is w source_file s /\ s0 = [] else s0 = s) ->
  apply_patches w first source_file ps s0 = Ok t.
Proof.
  induction ps as [|p ps IH]; intros first s s0 t Hp Hne Hs; [done|].
  destruct Hp as (delta & t1 & Hf & Hd & Hp). cbn [apply_patches].
  rewrite (fs_read_ok _ _ _ Hf). cbn [exit_1 map_err bind].
  assert ((if first then match source_file with
            | Some p => exit_1 w (fs_read w p) | None => Ok s0 end else Ok s0) = Ok s) as ->.
  { destruct first; [|by subst]. destruct Hs as [Hs ->]. destruct source_file as [q|]; simpl in Hs.
    - by rewrite (fs_read_ok _ _ _ Hs).
    - by subst. }
  cbn [bind]. rewrite Hd. cbn [exit_1 map_err bind].
  destruct ps as [|q ps]; [by simpl in *; subst|]. by apply (IH false t1).
Qed.

Lemma cmd_merge_ok opts w s t o :
  let copts := build_compress_options opts in
  2 <= lenZ (all_patches opts) -> source_is w (Options.source_file opts) s ->
  patched w s (all_patches opts) t ->
  merge_destination true (Options.use_stdout opts) (Options.output_file opts) = Some o ->
  overwritable w (Options.force opts) o ->
  wf_bytes s -> lenZ s < 2 ^ 62 -> wf_bytes t -> lenZ t < 2 ^ 62 -> options_ok copts ->
  merges_safe c s copts t = true ->
  exists delta, cmd_merge c opts w = Ok (write_output w o delta) /\ decode_all s delta = Ok t.
Proof.
  intros copts Hn Hs Hp Hdest Hw Hsw Hsl Htw Htl Hoo Hsafe. unfold cmd_merge.
  rewrite (proj2 (Z.ltb_ge _ _)) by done.
  assert (all_patches opts <> []) as Hne by (intros Hnil; rewrite Hnil in Hn; by vm_compute in Hn).
  destruct (encode_pieces_ok c s copts [t]) as (delta & n & Henc & Hd);
    rewrite ?concat_cons, ?app_nil_r in *; try done; [by constructor|by simpl; rewrite app_nil_r..|].
  unfold encode_pieces in Henc. cbn [for_in] in Henc.
  assert ((let* encoder := DeltaEncoder.new c [] s copts in
           let* encoder := DeltaEncoder.write_target c encoder t in
           let* (delta, _) := DeltaEncoder.finish c encoder in Ok delta) = Ok delta) as Hall.
  { apply bind_ok_inv in Henc as (d0 & -> & Henc). cbn [bind].
    apply bind_ok_inv in Henc as (d1 & Hw1 & Henc). apply bind_ok_inv in Hw1 as (d2 & -> & [= ->]).
    cbn [bind]. by rewrite Henc. }
  destruct (delta_decodes s copts delta t n Hoo Htl Hd) as (Hdec & _).
  exists delta. split; [|done]. unfold merge_destination in Hdest. rewrite andb_false_r in Hdest.
  destruct (Options.output_file opts) as [p|]; [|destruct (Options.use_stdout opts); [|done]];
    injection Hdest as <-; cbn [bind];
    rewrite (apply_patches_ok w _ _ true s [] t) by done; cbn [bind];
    rewrite (read_source_ok _ _ _ Hs); cbn [bind]; fold copts; rewrite Hall; cbn [exit_1 map_err bind].
  - rewrite creatable, file_create_ok by done. cbn [exit_1 map_err bind]. by rewrite set_file_twice.
  - done.
Qed.
End MergeOk.

(** ** Theorems *)

(** The compression options of an [encode] or [merge] command. *)
Definition tuning_options `{Codecs} (cli : Cli) : CompressOptions :=
  build_compress_options (resolve_options cli).

Definition tuning_ok (ta : EncodeTuningArgs) : Prop :=
  0 <= ta_level ta /\ 1 <= ta_input_window_size ta <= XD3_HARDMAXWINSIZE.

Section Theorems.
Context {B : Build} `{Adler32Laws} `{CodecLaws} `{OsLaws} `{!OsWorks} (c : cpu).

Lemma run_encode cli args w :
  cli_command cli = CmdEncode args -> ta_input_window_size (ea_tuning args) <= XD3_HARDMAXWINSIZE ->
  run c cli w = cmd_encode c (override_output (resolve_options cli)) w.
Proof.
  intros Hc Hw. unfold run. unfold resolve_options at 1. rewrite Hc. cbn [Options.input_window_size].
  rewrite (proj2 (Z.ltb_ge _ _)) by done. rewrite (sc_command _ _ (override_same _)).
  unfold resolve_options at 1. by rewrite Hc.
Qed.

Lemma run_decode cli args w :
  cli_command cli = CmdDecode args ->
  run c cli w = cmd_decode (override_output (resolve_options cli)) w.
Proof.
  intros Hc. unfold run. unfold resolve_options at 1. rewrite Hc.
  change (XD3_HARDMAXWINSIZE <? _) with false. cbv iota.
  rewrite (sc_command _ _ (override_same _)). unfold resolve_options at 1. by rewrite Hc.
Qed.

Lemma run_merge cli args w :
  cli_command cli = CmdMerge args -> ta_input_window_size (ma_tuning args) <= XD3_HARDMAXWINSIZE ->
  run c cli w = cmd_merge c (override_output (resolve_options cli)) w.
Proof.
  intros Hc Hw. unfold run. unfold resolve_options at 1. rewrite Hc. cbn [Options.input_window_size].
  rewrite (proj2 (Z.ltb_ge _ _)) by done. rewrite (sc_command _ _ (override_same _)).
  unfold resolve_options at 1. by rewrite Hc.
Qed.

Lemma encode_fields cli args :
  cli_command cli = CmdEncode args ->
  let o := override_output (resolve_options cli) in
  Options.source_file o = ea_source args /\
  Options.input_file o = or_else (ea_input args) (ea_input_pos args) /\
  Options.force o = cli_force cli /\ Options.no_output o = ea_no_output args /\
  destination (Options.use_stdout o) (Options.output_file o)
  = destination (ea_stdout args) (or_else (ea_output args) (ea_output_pos args)).
Proof.
  intros Hc o. destruct (override_same (resolve_options cli)) as [_ Es Ei Ef En _ _ Ed].
  fold o in Es, Ei, Ef, En, Ed. rewrite Es, Ei, Ef, En, Ed. unfold resolve_options. by rewrite Hc.
Qed.

Lemma decode_fields cli args :
  cli_command cli = CmdDecode args ->
  let o := override_output (resolve_options cli) in
  Options.source_file o = da_source args /\
  Options.input_file o = or_else (da_input args) (da_input_pos args) /\
  Options.force o = cli_force cli /\ Options.no_output o = da_no_output args /\
  destination (Options.use_stdout o) (Options.output_file o)
  = destination (da_stdout args) (or_else (da_output args) (da_output_pos args)).
Proof.
  intros Hc o. destruct (override_same (resolve_options cli)) as [_ Es Ei Ef En _ _ Ed].
  fold o in Es, Ei, Ef, En, Ed. rewrite Es, Ei, Ef, En, Ed. unfold resolve_options. by rewrite Hc.
Qed.

(** C5: the command line round trip.  Run [encode] on a source file, or none,
    and a target from a file or from standard input: the process exits with 0
    and writes one delta to the output file, or to standard output.  Any later
    run of [decode] that is given this delta, by file or by pipe, and the same
    source exits with 0 and writes exactly the target, with its checksums
    verified or ignored, and changes nothing else.  The conditions: the level
    is not negative and the window 1 byte to 16 MiB ([tuning_ok]), the codecs compress
    whatever they are given ([codecs_total]), source and target are below 2^62
    bytes, the paths can be read and written, and on this target the optimizer
    merges nothing it should not ([merges_safe]). *)
Theorem cli_roundtrip cli_e ea cli_d da w s t :
  let input_e := or_else (ea_input ea) (ea_input_pos ea) in
  let input_d := or_else (da_input da) (da_input_pos da) in
  let out_e := destination (ea_stdout ea) (or_else (ea_output ea) (ea_output_pos ea)) in
  let out_d := destination (da_stdout da) (or_else (da_output da) (da_output_pos da)) in
  cli_command cli_e = CmdEncode ea -> ea_no_output ea = false -> tuning_ok (ea_tuning ea) ->
  source_is w (ea_source ea) s -> input_is w input_e t -> writable w (cli_force cli_e) input_e out_e ->
  wf_bytes s -> lenZ s < 2 ^ 62 -> wf_bytes t -> lenZ t < 2 ^ 62 -> codecs_total ->
  merges_safe c s (tuning_options cli_e) t = true ->
  cli_command cli_d = CmdDecode da -> da_no_output da = false ->
  exists delta, run c cli_e w = Ok (write_output w out_e delta) /\
    forall w', source_is w' (da_source da) s -> input_is w' input_d delta ->
      writable w' (cli_force cli_d) input_d out_d ->
      run c cli_d w' = Ok (write_output w' out_d t).
Proof.
  intros input_e input_d out_e out_d He Hno [Hlv Hwin] Hs Ht Hw Hsw Hsl Htw Htl Hct Hsafe Hd Hnd.
  assert (options_ok (tuning_options cli_e)) as Hoo
    by (apply build_options_ok; [done|unfold resolve_options; by rewrite He..]).
  destruct (encode_fields cli_e ea He) as (Es & Ei & Ef & En & Ed).
  destruct (cmd_encode_ok c (override_output (resolve_options cli_e)) w s t) as (delta & n & Hrun & Hdelta);
    rewrite ?(sc_compress _ _ (override_same _)), ?Es, ?Ei, ?Ef, ?En, ?Ed; try done.
  rewrite (sc_compress _ _ (override_same _)) in Hdelta. rewrite Ed in Hrun.
  exists delta. rewrite (run_encode cli_e ea) by (done || lia). split; [done|].
  intros w' Hs' Hi' Hw'. rewrite (run_decode cli_d da) by done.
  destruct (decode_fields cli_d da Hd) as (Ds & Di & Df & Dn & Dd).
  erewrite cmd_decode_ok; [|rewrite ?Ds, ?Di, ?Df, ?Dn, ?Dd, ?Hnd; done..].
  by rewrite Dn, Hnd, Dd.
Qed.

(** C18: [merge] composes patches.  Given the source and at least two patches,
    each of which decodes over what the previous ones produce, the process exits
    with 0 and writes one delta, to the output file or to standard output, that
    decodes from the source straight to the end of the chain.  The conditions
    are those of [encode] on the source and the end of the chain: a level not
    negative and a window of 1 byte to 16 MiB ([tuning_ok]), codecs that compress
    whatever they are given ([codecs_total]), both below 2^62 bytes, an output
    that may be written, and a final target on which the optimizer merges
    nothing it should not ([merges_safe]). *)
Theorem merge_composes cli args w s t o :
  let ps := ma_patches args ++ match ma_last_patch args with Some p => [p] | None => [] end in
  cli_command cli = CmdMerge args -> tuning_ok (ma_tuning args) -> 2 <= lenZ ps ->
  source_is w (ma_source args) s -> patched w s ps t ->
  merge_destination (cli_quiet cli) (ma_stdout args) (or_else (ma_output args) (ma_output_pos args)) = Some o ->
  overwritable w (cli_force cli) o ->
  wf_bytes s -> lenZ s < 2 ^ 62 -> wf_bytes t -> lenZ t < 2 ^ 62 -> codecs_total ->
  merges_safe c s (tuning_options cli) t = true ->
  exists delta, run c cli w = Ok (write_output w o delta) /\ decode_all s delta = Ok t.
Proof.
  intros ps Hc [Hlv Hwin] Hn Hs Hp Hdest Hw Hsw Hsl Htw Htl Hct Hsafe.
  assert (options_ok (tuning_options cli)) as Hoo
    by (apply build_options_ok; [done|unfold resolve_options; by rewrite Hc..]).
  rewrite (run_merge cli args) by (done || lia).
  destruct (override_same (resolve_options cli)) as [_ Es _ Ef _ Ep Ec _].
  apply cmd_merge_ok; rewrite ?Es, ?Ef, ?Ep, ?Ec; try done.
  1-3, 5: unfold resolve_options; by rewrite Hc.
  unfold override_output, resolve_options. rewrite Hc. cbn [merge_options Options.use_stdout Options.output_file Options.quiet].
  unfold merge_destination in *. destruct (ma_stdout args) eqn:E1, (or_else _ _) eqn:E2, (cli_quiet cli);
    simpl in *; rewrite ?E1, ?E2; done.
Qed.

(** C40: [encode --check-only] does write.  The help says that the option does
    not write output, but the output file is created, or emptied with [--force],
    before the option is looked at; the run exits with 0. *)
Theorem check_only_truncates cli args w p s t :
  cli_command cli = CmdEncode args -> ea_no_output args = true ->
  ta_input_window_size (ea_tuning args) <= XD3_HARDMAXWINSIZE ->
  ea_stdout args = false -> or_else (ea_output args) (ea_output_pos args) = Some p ->
  source_is w (ea_source args) s -> input_is w (or_else (ea_input args) (ea_input_pos args)) t ->
  cli_force cli = true \/ files w !! p = None ->
  run c cli w = Ok (set_file w p []).
Proof.
  intros Hc Hno Hwin Hout Hp Hs Ht Hw. rewrite (run_encode cli args) by done.
  destruct (encode_fields cli args Hc) as (Es & Ei & Ef & En & Ed). unfold cmd_encode.
  rewrite Es, (read_source_ok _ _ _ Hs). cbn [bind]. rewrite Ei.
  destruct (open_input_ok w _ true t ToStdout Ht I) as (r & -> & _). cbn [bind].
  rewrite (open_output_ok w _ None), Ed, Hout, Hp by (rewrite Ed, Hout, Hp, Ef; done).
  cbn [bind destination]. rewrite En, Hno, count_loop_ok by lia. done.
Qed.
End Theorems.

(** [merge -c] with an output file goes to standard output, as for the
    other commands, only when the process is not quiet: with [-q] the same
    arguments write the file and nothing to standard output. *)
Theorem merge_stdout_when_quiet {B : Build} `{Adler32} `{Codecs} `{Os} (c : cpu) cli args p w w' :
  cli_command cli = CmdMerge args -> ma_stdout args = true ->
  or_else (ma_output args) (ma_output_pos args) = Some p -> run c cli w = Ok w' ->
  exists delta, w' = if cli_quiet cli then set_file w p delta else write_stdout w delta.
Proof.
  intros Hc Hout Hp. unfold run. destruct (XD3_HARDMAXWINSIZE <? _); [done|].
  rewrite (sc_command _ _ (override_same _)). unfold override_output, resolve_options.
  rewrite Hc. unfold merge_options. cbn [Options.command Options.use_stdout Options.output_file Options.quiet].
  rewrite Hout, Hp. unfold cmd_merge. destruct (_ <? 2); [done|].
  destruct (cli_quiet cli); cbn [andb is_some negb Options.output_file Options.use_stdout Options.clear_output bind];
    intros Hrun; repeat (apply bind_ok_inv in Hrun as (? & _ & Hrun)).
  - destruct (_ && _); [done|]. apply bind_ok_inv in Hrun as (w1 & Hw1 & Hrun).
    unfold file_create in Hw1. destruct (os_create p); [done|]. injection Hw1 as <-.
    injection Hrun as <-. rewrite set_file_twice. eauto.
  - injection Hrun as <-. eauto.
Qed.

(** ** Witnesses *)

Section Witnesses.
#[local] Instance run_build : Build := {| debug_build := true |}.
#[local] Instance run_adler : Adler32 := adler32_fallback.
#[local] Instance run_adler_laws : Adler32Laws := adler32_fallback_laws.
#[local] Instance run_codecs : Codecs := zeros_codecs.
#[local] Instance run_codec_laws : CodecLaws := zeros_codec_laws.
#[local] Instance run_os : Os := one_byte_os.
#[local] Instance run_os_laws : OsLaws := one_byte_os_laws.
#[local] Instance run_os_works : OsWorks := one_byte_os_works.

Local Open Scope string_scope.

Definition sample_tuning : EncodeTuningArgs := tuning_args 6 16 0 0 0 SecLzma false false.

(** [encode -s old -i new -c], [decode -s old copy < delta]. *)
Definition sample_encode (check_only : bool) (output_file : option path) : EncodeArgs :=
  encode_args (Some "old") (Some "new") output_file (negb (is_some output_file)) check_only sample_tuning None None.
Definition sample_decode : DecodeArgs :=
  decode_args (Some "old") None (Some "copy") false false false None None.

Definition sample_delta (s t : bytes) : bytes :=
  match encode_pieces X86_avx2 s (sample_options 6) [t] with Ok (delta, _) => delta | _ => [] end.

Definition sample_files : World :=
  world (<["old" := seqZ 1 40]> (<["new" := seqZ 5 30]>
        (<["p1" := sample_delta (seqZ 1 40) (seqZ 5 30)]>
        (<["p2" := sample_delta (seqZ 5 30) (seqZ 10 20)]> ∅)))) [] [].

(** [merge -s old -p p1 p2 -c -o out]. *)
Definition sample_merge : MergeArgs :=
  merge_args (Some "old") ["p1"] (Some "p2") (Some "out") None true sample_tuning.

Lemma cli_roundtrip_witness :
  exists delta,
    run X86_avx2 (cli (CmdEncode (sample_encode false None)) false true 0 false) sample_files
      = Ok (write_stdout sample_files delta) /\
    run X86_avx2 (cli (CmdDecode sample_decode) false true 0 false) (world (files sample_files) delta [])
      = Ok (set_file (world (files sample_files) delta []) "copy" (seqZ 5 30)).
Proof.
  destruct (cli_roundtrip X86_avx2 (cli (CmdEncode (sample_encode false None)) false true 0 false)
    (sample_encode false None) (cli (CmdDecode sample_decode) false true 0 false) sample_decode
    sample_files (seqZ 1 40) (seqZ 5 30)) as (delta & He & Hd).
  - reflexivity.
  - reflexivity.
  - split; [|split]; vm_compute; discriminate.
  - vm_compute. reflexivity.
  - vm_compute. reflexivity.
  - exact I.
  - by apply in_range_list.
  - reflexivity.
  - by apply in_range_list.
  - reflexivity.
  - apply zeros_total.
  - vm_compute. reflexivity.
  - reflexivity.
  - reflexivity.
  - exists delta. split; [exact He|]. apply (Hd (world (files sample_files) delta [])).
    + vm_compute. reflexivity.
    + reflexivity.
    + split; [right; vm_compute; reflexivity|discriminate].
Defined.

Lemma sample_patched : patched sample_files (seqZ 1 40) ["p1"; "p2"] (seqZ 10 20).
Proof.
  exists (sample_delta (seqZ 1 40) (seqZ 5 30)), (seqZ 5 30).
  split; [vm_compute; reflexivity|]. split; [vm_compute; reflexivity|].
  exists (sample_delta (seqZ 5 30) (seqZ 10 20)), (seqZ 10 20).
  split; [vm_compute; reflexivity|]. split; [vm_compute; reflexivity|]. reflexivity.
Qed.

Lemma merge_composes_witness :
  exists delta,
    run X86_avx2 (cli (CmdMerge sample_merge) false false 0 false) sample_files
      = Ok (write_stdout sample_files delta) /\
    decode_all (seqZ 1 40) delta = Ok (seqZ 10 20).
Proof.
  apply (merge_composes X86_avx2 (cli (CmdMerge sample_merge) false false 0 false) sample_merge
    sample_files (seqZ 1 40) (seqZ 10 20) ToStdout).
  - reflexivity.
  - split; [|split]; vm_compute; discriminate.
  - vm_compute. discriminate.
  - vm_compute. reflexivity.
  - exact sample_patched.
  - reflexivity.
  - exact I.
  - by apply in_range_list.
  - reflexivity.
  - by apply in_range_list.
  - reflexivity.
  - apply zeros_total.
  - vm_compute. reflexivity.
Defined.

Lemma check_only_truncates_witness :
  run X86_avx2 (cli (CmdEncode (sample_encode true (Some "p1"))) true false 0 false) sample_files
  = Ok (set_file sample_files "p1" []).
Proof.
  apply (check_only_truncates X86_avx2 (cli (CmdEncode (sample_encode true (Some "p1"))) true false 0 false)
    (sample_encode true (Some "p1")) sample_files "p1" (seqZ 1 40) (seqZ 5 30)).
  - reflexivity.
  - reflexivity.
  - vm_compute. discriminate.
  - reflexivity.
  - reflexivity.
  - vm_compute. reflexivity.
  - vm_compute. reflexivity.
  - by left.
Defined.

Definition sample_merged : World :=
  match run X86_avx2 (cli (CmdMerge sample_merge) false true 0 false) sample_files with
  | Ok w => w | _ => sample_files
  end.

Lemma merge_stdout_when_quiet_witness : exists delta, sample_merged = set_file sample_files "out" delta.
Proof.
  apply (merge_stdout_when_quiet X86_avx2 (cli (CmdMerge sample_merge) false true 0 false) sample_merge
    "out" sample_files sample_merged).
  - reflexivity.
  - reflexivity.
  - reflexivity.
  - vm_compute. reflexivity.
Defined.
End Witnesses.
