(* ===== verification/Termination.v ===== *)
(** * Every command that reads a delta ends

    [ends m]: the computation returns, fails or panics; it does not run
    forever.  A loop of the decoder, of [recode] and of the printing commands
    takes at least a byte of its input, or an opcode of the section, per turn,
    so no file makes them loop, however hostile.  Nothing is assumed of the
    bytes. *)

From stdpp Require Import base numbers list option strings gmap.
From Stdlib Require Import ZArith Lia.
From S2P Require Import Prelude Varint AddrCache CodeTable Header WindowEncoder Source Secondary.
From S2P Require Import WindowDecoder Kernels Delta DeltaCorrect Files FileIo CliOptions CliCommands.
From S2P Require Import Recode Print Run.

Local Open Scope Z_scope.
Local Open Scope rust_scope.

Definition ends {E A} (m : result E A) : Prop := m <> Diverge.

Lemma ends_bind {E A C} (m : result E A) (k : A -> result E C) :
  ends m -> (forall a, m = Ok a -> ends (k a)) -> ends (bind m k).
Proof. unfold ends. destruct m; simpl; auto. Qed.

Lemma ends_map_err {E F A} (f : E -> F) (m : result E A) : ends m -> ends (map_err f m).
Proof. unfold ends. by destruct m. Qed.

Lemma map_err_ok {E F A} (f : E -> F) (m : result E A) a : map_err f m = Ok a -> m = Ok a.
Proof. destruct m; simpl; congruence. Qed.

Create HintDb ends.

(** Walk through a computation; what is left are its loops and primitives. *)
Ltac ends_step :=
  match goal with
  | |- ends (Ok _) => done
  | |- ends (Err _) => done
  | |- ends Panic => done
  | |- ends (bind _ _) => apply ends_bind; [|intros ? ?]
  | |- ends (map_err _ _) => apply ends_map_err
  | |- ends (if ?b then _ else _) => destruct b eqn:?
  | |- ends (match ?x with _ => _ end) => destruct x eqn:?
  | |- ends _ => solve [eauto with ends]
  end.
Ltac ends_auto := repeat ends_step.

(** ** Primitives *)

Section Primitives.
Context {B : Build}.

Lemma narrow_ends {E} w z : ends (narrow (E:=E) w z).
Proof. unfold narrow. ends_auto. Qed.

Lemma add_w_ends {E} w a b : ends (add_w (E:=E) w a b).
Proof. apply narrow_ends. Qed.

Lemma sub_w_ends {E} w a b : ends (sub_w (E:=E) w a b).
Proof. apply narrow_ends. Qed.

Lemma index_ends {E A} (l : list A) i : ends (index (E:=E) l i).
Proof. unfold index. ends_auto. Qed.

Lemma store_ends {E A} (l : list A) i x : ends (store (E:=E) l i x).
Proof. unfold store. ends_auto. Qed.

Lemma slice_ends {E A} (l : list A) a b : ends (slice (E:=E) l a b).
Proof. unfold slice. ends_auto. Qed.

Lemma slice_from_ends {E A} (l : list A) a : ends (slice_from (E:=E) l a).
Proof. apply slice_ends. Qed.

Lemma alloc_ends {E} n : ends (alloc (E:=E) n).
Proof. unfold alloc. ends_auto. Qed.

Lemma for_in_ends {E A C} (l : list A) (body : A -> C -> result E C) s :
  (forall x s, ends (body x s)) -> ends (for_in l body s).
Proof. intros Hb. revert s. induction l; intros s; simpl; ends_auto. Qed.

Lemma read_exact_ends n r : ends (read_exact n r).
Proof. unfold read_exact. ends_auto. Qed.

Lemma read_byte_ends r : ends (read_byte r).
Proof. destruct r; done. Qed.

Lemma read_loop_ends w mask data : forall val i, ends (read_loop w mask val i data).
Proof. induction data; intros val i; simpl; ends_auto. Qed.

Lemma read_u32_ends data : ends (read_u32 data).
Proof. apply read_loop_ends. Qed.

Lemma read_u64_ends data : ends (read_u64 data).
Proof. apply read_loop_ends. Qed.

Lemma stream_read_u64_ends r : ends (stream_read_u64 r).
Proof.
  unfold stream_read_u64. generalize 0. induction r; intros val; simpl; ends_auto.
Qed.

Lemma encode_u64_ends {E} n buf : ends (encode_u64 (E:=E) n buf).
Proof.
  unfold encode_u64. apply ends_bind.
  - revert n buf. induction (Z.to_nat MAX_VARINT_LEN) as [|i IH]; intros n buf; simpl; ends_auto.
    apply store_ends.
  - intros [i b] _. apply ends_bind; [apply index_ends|intros ? _].
    apply ends_bind; [apply store_ends|done].
Qed.
End Primitives.

#[export] Hint Resolve add_w_ends sub_w_ends index_ends store_ends slice_ends slice_from_ends
  alloc_ends read_exact_ends read_byte_ends read_u32_ends read_u64_ends stream_read_u64_ends
  encode_u64_ends : ends.

(** ** Headers *)

(** A reader does not grow. *)
Lemma read_exact_length n r l r' :
  read_exact n r = Ok (l, r') -> (length r' <= length r)%nat /\ (0 < n -> (length r' < length r)%nat) /\
  lenZ l = Z.max 0 n.
Proof.
  unfold read_exact. destruct (Z.leb_spec n (lenZ r)); [|done]. intros [= <- <-].
  unfold lenZ in *. rewrite length_drop, length_take. lia.
Qed.

Lemma read_byte_length r b r' : read_byte r = Ok (b, r') -> (length r' < length r)%nat.
Proof. intros ->%read_byte_inv. simpl. lia. Qed.

Lemma stream_read_length r v r' : stream_read_u64 r = Ok (v, r') -> (length r' < length r)%nat.
Proof.
  unfold stream_read_u64. generalize 0. induction r as [|b r IH]; intros val; simpl; [done|].
  destruct (negb _); [done|]. destruct (_ =? 0); [by intros [= _ <-]; lia|]. intros Hr%IH. lia.
Qed.

Lemma write_u64_ends {E} w n : ends (write_u64 (E:=E) w n).
Proof. unfold write_u64. ends_auto. Qed.

Lemma write_usize_ends {E} w n : ends (write_usize (E:=E) w n).
Proof. unfold write_usize. ends_auto. Qed.
#[export] Hint Resolve write_u64_ends write_usize_ends : ends.

Lemma file_header_decode_ends r : ends (FileHeader.decode r).
Proof. unfold FileHeader.decode, stream_read_usize. ends_auto. Qed.

Lemma file_header_encode_ends {E} h w : ends (FileHeader.encode (E:=E) h w).
Proof. unfold FileHeader.encode. ends_auto. Qed.

Lemma file_header_length r h r' : FileHeader.decode r = Ok (h, r') -> (length r' <= length r)%nat.
Proof.
  unfold FileHeader.decode. intros Hd.
  apply bind_ok_inv in Hd as ([magic r1] & (H1 & _)%read_exact_length & Hd).
  destruct (negb (bool_decide _)); [done|]. destruct (negb (_ =? 0)); [done|].
  apply bind_ok_inv in Hd as ([ind r2] & H2%read_byte_length & Hd). destruct (has ind VCD_INVHDR); [done|].
  apply bind_ok_inv in Hd as ([id r3] & H3 & Hd).
  assert (length r3 <= length r2)%nat.
  { destruct (has ind VCD_SECONDARY); [|injection H3 as _ <-; lia].
    apply bind_ok_inv in H3 as ([? ra] & Ha%read_byte_length & H3). injection H3 as _ <-. lia. }
  destruct (has ind VCD_CODETABLE); [done|]. apply bind_ok_inv in Hd as ([app r4] & H4 & Hd).
  injection Hd as _ <-. assert (length r4 <= length r3)%nat; [|lia].
  destruct (has ind VCD_APPHEADER); [|injection H4 as _ <-; lia].
  apply bind_ok_inv in H4 as ([n rb] & Hb & H4). unfold stream_read_usize in Hb.
  apply bind_ok_inv in Hb as ([v rc] & Hc%stream_read_length & Hb).
  destruct (in_rangeb 64 v); [|done]. injection Hb as _ <-. apply bind_ok_inv in H4 as (? & _ & H4).
  apply bind_ok_inv in H4 as ([? rd] & (Hd' & _)%read_exact_length & H4). injection H4 as _ <-. lia.
Qed.

Section Headers.
Context {B : Build}.

Lemma compute_enc_len_ends {E} h : ends (WindowHeader.compute_enc_len (E:=E) h).
Proof. unfold WindowHeader.compute_enc_len. ends_auto. Qed.

Lemma window_header_encode_ends {E} h w : ends (WindowHeader.encode (E:=E) h w).
Proof. unfold WindowHeader.encode. ends_auto. Qed.
#[local] Hint Resolve compute_enc_len_ends : ends.

Lemma window_header_decode_ends r : ends (WindowHeader.decode r).
Proof.
  unfold WindowHeader.decode. destruct r as [|b r]; [done|]. simpl read_byte. cbv iota. ends_auto.
Qed.

(** A window's header takes at least its indicator byte. *)
Lemma window_header_shrinks r h r' :
  WindowHeader.decode r = Ok (Some h, r') -> (length r' < length r)%nat.
Proof.
  unfold WindowHeader.decode. destruct r as [|b r]; [done|]. simpl read_byte. cbv iota.
  destruct (has b _); [done|]. destruct (_ && _); [done|]. intros Hd.
  apply bind_ok_inv in Hd as ([[cl co] r1] & H1 & Hd).
  assert (length r1 <= length r)%nat as Hr1.
  { destruct (has b (Z.lor VCD_SOURCE VCD_TARGET)); [|injection H1 as _ _ <-; lia].
    apply bind_ok_inv in H1 as ([? ra] & Ha%stream_read_length & H1).
    apply bind_ok_inv in H1 as ([? rb] & Hb%stream_read_length & H1). injection H1 as _ _ <-. lia. }
  apply bind_ok_inv in Hd as ([? r2] & H2%stream_read_length & Hd).
  apply bind_ok_inv in Hd as ([? r3] & H3%stream_read_length & Hd).
  destruct (_ <? _); [done|]. apply bind_ok_inv in Hd as ([del r4] & H4%read_byte_length & Hd).
  destruct (has del _); [done|].
  apply bind_ok_inv in Hd as ([? r5] & H5%stream_read_length & Hd).
  apply bind_ok_inv in Hd as ([? r6] & H6%stream_read_length & Hd).
  apply bind_ok_inv in Hd as ([? r7] & H7%stream_read_length & Hd).
  apply bind_ok_inv in Hd as ([? r8] & H8 & Hd).
  assert (length r8 <= length r7)%nat.
  { destruct (has b VCD_ADLER32); [|injection H8 as _ <-; lia].
    apply bind_ok_inv in H8 as ([? rc] & Hc%read_exact_length & H8). injection H8 as _ <-. lia. }
  apply bind_ok_inv in Hd as (? & _ & Hd). destruct (negb _); [done|].
  injection Hd as _ <-. simpl. lia.
Qed.
End Headers.

#[export] Hint Resolve file_header_decode_ends file_header_encode_ends compute_enc_len_ends
  window_header_encode_ends window_header_decode_ends : ends.

(** ** A window *)

Lemma read_loop_count w mask data : forall val i v n,
  read_loop w mask val i data = Ok (v, n) -> i < n <= i + lenZ data.
Proof.
  induction data as [|b data IH]; intros val i v n; simpl; [done|]. rewrite lenZ_cons.
  destruct (negb _); [done|]. pose proof (lenZ_nonneg data).
  destruct (_ =? 0); [intros [= _ <-]; lia|]. intros Hn%IH. lia.
Qed.

Section Window.
Context {B : Build}.

Lemma address_decode_ends c mode data here : ends (AddressCache.decode c mode data here).
Proof. unfold AddressCache.decode, AddressCache.raw_addr, AddressCache.update. ends_auto. Qed.

Lemma resolve_size_ends inst pos s : ends (resolve_size inst pos s).
Proof. unfold resolve_size. ends_auto. Qed.

(** Reading a size moves forward. *)
Lemma resolve_size_forward inst pos s size p :
  lenZ inst < 2 ^ 64 -> 0 <= pos <= lenZ inst -> resolve_size inst pos s = Ok (size, p) ->
  pos <= p <= lenZ inst.
Proof.
  unfold resolve_size. intros Hl Hp. destruct (s =? 0); [|intros [= _ <-]; lia]. intros Hr.
  rewrite slice_from_ok in Hr by lia. cbn [bind] in Hr.
  apply bind_ok_inv in Hr as ([v n] & Hn%map_err_ok%read_loop_count & Hr).
  rewrite lenZ_drop in Hn by lia. rewrite add_w_ok in Hr by (unfold in_range; lia).
  injection Hr as _ <-. lia.
Qed.
#[local] Hint Resolve address_decode_ends resolve_size_ends : ends.

Context {S : Type} `{SourceProvider S}.

(** The source provider answers. *)
Definition source_ends : Prop :=
  (forall s off buf, ends (Source.read_source s off buf)) /\ (forall s off len, ends (source_slice s off len)).

Lemma copy_from_source_ends off size st : source_ends -> ends (copy_from_source off size st).
Proof. intros [Hr Hs]. unfold copy_from_source. ends_auto. Qed.

Lemma copy_from_target_ends {E} off size out : ends (copy_from_target (E:=E) off size out).
Proof.
  unfold copy_from_target. ends_auto. apply for_in_ends. intros. ends_auto.
Qed.
#[local] Hint Resolve copy_from_source_ends copy_from_target_ends : ends.

Lemma execute_sized_ends itype sec cwl cwo base size st :
  source_ends -> ends (execute_sized itype sec cwl cwo base size st).
Proof. intros Hs. unfold execute_sized, execute_run, execute_add, execute_copy. ends_auto. Qed.

(** Only the size moves the INST position. *)
Lemma execute_sized_inst itype sec cwl cwo base size st st' :
  execute_sized itype sec cwl cwo base size st = Ok st' -> inst_pos st' = inst_pos st.
Proof.
  unfold execute_sized, execute_run, execute_add, execute_copy. intros He.
  repeat match type of He with
  | bind _ _ = Ok _ => let x := fresh in apply bind_ok_inv in He as (x & _ & He)
  | (if ?b then _ else _) = Ok _ => destruct b
  | (let '(_, _) := ?x in _) = Ok _ => destruct x
  | Err _ = Ok _ => discriminate
  | Ok _ = Ok _ => by injection He as <-
  end.
Qed.

Lemma half_ends itype s sec cwl cwo base st :
  source_ends -> ends (execute_half_instruction itype s sec cwl cwo base st).
Proof.
  intros Hs. unfold execute_half_instruction. ends_auto. by apply execute_sized_ends.
Qed.

Lemma half_forward itype s sec cwl cwo base st st' :
  lenZ (sec_inst sec) < 2 ^ 64 -> 0 <= inst_pos st <= lenZ (sec_inst sec) ->
  execute_half_instruction itype s sec cwl cwo base st = Ok st' ->
  inst_pos st <= inst_pos st' <= lenZ (sec_inst sec).
Proof.
  intros Hl Hp He. unfold execute_half_instruction in He.
  apply bind_ok_inv in He as ([size p] & Hs & He). apply execute_sized_inst in He. rewrite He. simpl.
  by apply (resolve_size_forward (sec_inst sec) (inst_pos st) s size p).
Qed.

Lemma decode_loop_ends sec cwl cwo base fuel :
  source_ends -> lenZ (sec_inst sec) < 2 ^ 64 ->
  forall st, 0 <= inst_pos st <= lenZ (sec_inst sec) -> lenZ (sec_inst sec) - inst_pos st < Z.of_nat fuel ->
  ends (decode_loop fuel sec cwl cwo base st).
Proof.
  intros Hs Hl. induction fuel as [|fuel IH]; intros st Hp Hf; [lia|]. cbn [decode_loop].
  destruct (Z.ltb_spec (inst_pos st) (lenZ (sec_inst sec))); [|done].
  apply ends_bind; [apply index_ends|intros op _]. rewrite add_w_ok by (unfold in_range; lia). cbn [bind].
  apply ends_bind; [apply index_ends|intros e _].
  set (st1 := set_inst_pos st (inst_pos st + 1)).
  apply ends_bind; [destruct (negb (type1 e =? XD3_NOOP)); [by apply half_ends|done]|intros st2 H2].
  assert (inst_pos st1 <= inst_pos st2 <= lenZ (sec_inst sec)) as Hp2.
  { destruct (negb (type1 e =? XD3_NOOP)); [|injection H2 as <-; simpl; lia].
    apply half_forward in H2; [lia|done|simpl; lia]. }
  apply ends_bind; [destruct (negb (type2 e =? XD3_NOOP)); [by apply half_ends|done]|intros st3 H3].
  assert (inst_pos st2 <= inst_pos st3 <= lenZ (sec_inst sec)) as Hp3.
  { simpl in Hp2. destruct (negb (type2 e =? XD3_NOOP)); [|injection H3 as <-; simpl; lia].
    apply half_forward in H3; [lia|done|simpl; lia]. }
  simpl in Hp2. apply IH; lia.
Qed.

Lemma decode_with_cache_ends `{Adler32} h sec s verify buf out c :
  source_ends -> lenZ (sec_inst sec) < 2 ^ 64 -> ends (decode_window_with_cache h sec s verify buf out c).
Proof.
  intros Hs Hl. unfold decode_window_with_cache. ends_auto.
  apply decode_loop_ends; auto; simpl; [pose proof (lenZ_nonneg (sec_inst sec))|unfold lenZ]; lia.
Qed.
End Window.

(** ** Sections *)

(** The decompressors return vectors. *)
Definition codecs_fit `{Codecs} : Prop :=
  (forall c d, lzma_decompress c = Some d -> lenZ d < 2 ^ 63) /\
  (forall c d, zlib_decompress c = Some d -> lenZ d < 2 ^ 63).

Section Sections.
Context {B : Build} `{Codecs}.

Lemma decompress_ends d i a del id : ends (decompress_sections d i a del id).
Proof.
  unfold decompress_sections. destruct (_ =? 0); [done|]. apply ends_bind.
  { unfold backend_for_id. ends_auto. }
  intros be Hbe. assert (forall x, ends (decompress_section be x)) as Hb.
  { intros x. unfold backend_for_id in Hbe.
    repeat match type of Hbe with
    | match ?x with _ => _ end = Ok _ => destruct x
    end; try discriminate; injection Hbe as <-; unfold decompress_section; simpl;
      unfold ok_or_failed; ends_auto. }
  ends_auto.
Qed.

Lemma decompress_inst_fits d i a del id d' i' a' :
  codecs_fit -> lenZ i < 2 ^ 63 -> decompress_sections d i a del id = Ok (d', i', a') -> lenZ i' < 2 ^ 63.
Proof.
  intros [Hlz Hz] Hi. unfold decompress_sections. destruct (_ =? 0); [by intros [= _ <- _]|].
  intros Hd. apply bind_ok_inv in Hd as (be & Hbe & Hd). apply bind_ok_inv in Hd as (x & _ & Hd).
  apply bind_ok_inv in Hd as (y & Hy & Hd). apply bind_ok_inv in Hd as (z & _ & Hd).
  injection Hd as _ <- _. destruct (has del VCD_INSTCOMP); [|by injection Hy as <-].
  unfold backend_for_id in Hbe.
  repeat match type of Hbe with
  | match ?x with _ => _ end = Ok _ => destruct x
  end; try discriminate; injection Hbe as <-; unfold decompress_section in Hy; simpl in Hy;
    unfold ok_or_failed in Hy.
  - destruct (lzma_decompress i) eqn:E; [|done]. injection Hy as <-. by apply (Hlz i).
  - destruct (zlib_decompress i) eqn:E; [|done]. injection Hy as <-. by apply (Hz i).
Qed.

Lemma compress_ends be d i a :
  (forall x, exists c, be_compress be x = Ok c) -> ends (compress_sections be d i a).
Proof.
  intros Hc. assert (forall x, ends (compress_section be x)) as Hs.
  { intros x. unfold compress_section. destruct (Hc x) as [c ->]. ends_auto. }
  unfold compress_sections. apply ends_bind; [apply Hs|intros ? _].
  apply ends_bind; [apply Hs|intros ? _]. apply ends_bind; [apply Hs|done].
Qed.

(** ** The decoders *)

(** A section that was read is a vector. *)
Lemma read_section_length n r l r' :
  StreamDecoder.read_section n r = Ok (l, r') -> (length r' <= length r)%nat /\ lenZ l < 2 ^ 63.
Proof.
  unfold StreamDecoder.read_section, alloc. destruct (Z.leb_spec n (2 ^ 63 - 1)); [|done].
  cbn [bind]. intros (Hr & _ & ->)%map_err_ok%read_exact_length. split; [done|lia].
Qed.

Lemma read_section_ends n r : ends (StreamDecoder.read_section n r).
Proof. unfold StreamDecoder.read_section. ends_auto. Qed.
#[local] Hint Resolve read_section_ends decompress_ends : ends.

Context {S : Type} `{SourceProvider S} `{Adler32}.

Lemma ensure_header_length d d' :
  StreamDecoder.ensure_header d = Ok d' ->
  (length (StreamDecoder.reader d') <= length (StreamDecoder.reader d))%nat.
Proof.
  unfold StreamDecoder.ensure_header. destruct (StreamDecoder.file_header d); [by intros [= <-]|].
  intros Hd. apply bind_ok_inv in Hd as ([h r] & Hh%map_err_ok & Hd). injection Hd as <-. simpl.
  by apply file_header_length in Hh.
Qed.

Lemma decode_window_ends d s out :
  codecs_fit -> source_ends (S:=S) -> ends (StreamDecoder.decode_window d s out).
Proof.
  intros Hf Hs. unfold StreamDecoder.decode_window, StreamDecoder.ensure_header.
  apply ends_bind; [ends_auto|intros d1 _]. apply ends_bind; [ends_auto|intros [owh r] _].
  destruct owh as [wh|]; [|done]. destruct (has _ _); [done|].
  apply ends_bind; [ends_auto|intros [db r1] _].
  apply ends_bind; [ends_auto|intros [ib r2] [_ Hib]%read_section_length].
  apply ends_bind; [ends_auto|intros [ab r3] _].
  apply ends_bind; [destruct (negb _); ends_auto|intros [[sd si] sa] Hsec].
  apply ends_bind; [|intros [[[? ?] ?] ?] _; done].
  apply decode_with_cache_ends; [done|]. simpl.
  destruct (negb _); [apply decompress_inst_fits in Hsec; [lia|done..]|injection Hsec as _ <- _; lia].
Qed.

Lemma decode_window_length d s out d' s' out' :
  StreamDecoder.decode_window d s out = Ok (true, d', s', out') ->
  (length (StreamDecoder.reader d') < length (StreamDecoder.reader d))%nat.
Proof.
  unfold StreamDecoder.decode_window. intros Hd.
  apply bind_ok_inv in Hd as (d1 & Hl1%ensure_header_length & Hd).
  apply bind_ok_inv in Hd as ([owh r] & Hw%map_err_ok & Hd). destruct owh as [wh|]; [|done].
  apply window_header_shrinks in Hw. destruct (has _ _); [done|].
  apply bind_ok_inv in Hd as ([db r1] & [Hl2 _]%read_section_length & Hd).
  apply bind_ok_inv in Hd as ([ib r2] & [Hl3 _]%read_section_length & Hd).
  apply bind_ok_inv in Hd as ([ab r3] & [Hl4 _]%read_section_length & Hd).
  apply bind_ok_inv in Hd as ([[? ?] ?] & _ & Hd).
  apply bind_ok_inv in Hd as ([[[? ?] ?] ?] & _ & Hd). injection Hd as <- _ _. simpl. lia.
Qed.

Lemma decode_windows_end fuel : codecs_fit -> source_ends (S:=S) -> forall d s out,
  (length (StreamDecoder.reader d) < fuel)%nat -> ends (StreamDecoder.decode_windows fuel d s out).
Proof.
  intros Hf Hs. induction fuel as [|fuel IH]; intros d s out Hl; [lia|]. cbn [StreamDecoder.decode_windows].
  apply ends_bind; [by apply decode_window_ends|]. intros [[[more d'] s'] out'] Hw.
  destruct more; [|done]. apply decode_window_length in Hw. apply IH. lia.
Qed.

Lemma decode_to_ends d s out :
  codecs_fit -> source_ends (S:=S) -> ends (DeltaDecoder.decode_to d s out).
Proof.
  intros Hf Hs. unfold DeltaDecoder.decode_to. apply ends_bind; [|intros [[? ?] ?] _; done].
  assert (length (StreamDecoder.reader (DeltaDecoder.inner d))
    < Datatypes.S (length (StreamDecoder.reader (DeltaDecoder.inner d))))%nat as Hl by lia.
  revert Hl. generalize (Datatypes.S (length (StreamDecoder.reader (DeltaDecoder.inner d)))) as fuel.
  intros fuel. revert d s out. induction fuel as [|fuel IH]; intros d s out Hl; [lia|].
  cbn [DeltaDecoder.decode_loop]. unfold DeltaDecoder.decode_window_to.
  destruct (StreamDecoder.decode_window (DeltaDecoder.inner d) s []) as [[[[more d'] s'] buf]| | |] eqn:Hw;
    [|done|done|by destruct (decode_window_ends (DeltaDecoder.inner d) s [] Hf Hs)].
  cbn [map_err bind]. destruct more; [|done]. apply decode_window_length in Hw. cbn [negb].
  apply ends_bind; [ends_auto|]. intros [[[o d1] s1] w1] Hd.
  apply bind_ok_inv in Hd as (n & _ & Hd). apply bind_ok_inv in Hd as (k & _ & Hd).
  injection Hd as <- <- <- <-. apply IH. simpl. lia.
Qed.
End Sections.

Lemma slice_source_ends {B : Build} : source_ends (S:=bytes).
Proof.
  split; intros; simpl; unfold slice_read_source, slice_source_slice; ends_auto.
Qed.

(** ** Recode *)

Section Recode.
Context {B : Build} `{Codecs}.

Lemma recode_loop_ends in_hdr be fuel :
  (forall b, be = Some b -> forall x, exists c, be_compress b x = Ok c) ->
  forall reader written, (length reader < fuel)%nat -> ends (recode_loop fuel in_hdr be reader written).
Proof.
  intros Hbe. induction fuel as [|fuel IH]; intros reader written Hf; [lia|]. cbn [recode_loop].
  apply ends_bind; [unfold exit_with; ends_auto|intros [owh r] Hw%map_err_ok].
  destruct owh as [wh|]; [|done]. apply window_header_shrinks in Hw.
  do 3 (apply ends_bind; [apply alloc_ends|intros ? _]). unfold exit_with.
  apply ends_bind; [ends_auto|intros [db r1] (H1 & _)%map_err_ok%read_exact_length].
  apply ends_bind; [ends_auto|intros [ib r2] (H2 & _)%map_err_ok%read_exact_length].
  apply ends_bind; [ends_auto|intros [ab r3] (H3 & _)%map_err_ok%read_exact_length].
  apply ends_bind; [unfold recode_sections, exit_with|intros [[[? ?] ?] ?] _].
  - apply ends_bind.
    { destruct (negb _); [apply ends_map_err, decompress_ends|done]. }
    intros [[? ?] ?] _. destruct be as [b|]; [|done].
    apply ends_map_err, compress_ends, (Hbe b eq_refl).
  - apply ends_bind; [ends_auto|intros ? _]. apply ends_bind; [ends_auto|intros ? _].
    apply IH. lia.
Qed.

Lemma recode_ends opts reader : codecs_total -> ends (recode opts reader).
Proof.
  intros Hc. unfold recode, exit_with. apply ends_bind; [ends_auto|intros [h r] _].
  apply ends_bind; [ends_auto|intros ? _]. apply recode_loop_ends; [|lia].
  intros b Hb. by apply (build_secondary_ok opts Hc).
Qed.
End Recode.

(** ** Printing *)

Section Print.
Context {B : Build} `{Codecs}.
Import InstructionIterator.

(** Two halves an opcode, and the one that is pending. *)
Definition halves (it : t) : Z :=
  2 * (lenZ (inst_data it) - it_inst_pos it) + match pending_second it with Some _ => 1 | None => 0 end.

Record iter_ok (inst : bytes) (it : t) : Prop := {
  io_data : inst_data it = inst;
  io_len : lenZ inst < 2 ^ 64;
  io_pos : 0 <= it_inst_pos it <= lenZ inst
}.

Lemma resolve_half_ends it itype s : ends (resolve_half it itype s).
Proof.
  unfold resolve_half. pose proof (fun c m d h => address_decode_ends c m d h).
  pose proof (fun i p s => resolve_size_ends i p s). ends_auto.
Qed.

Lemma resolve_half_forward inst it itype s o it' :
  iter_ok inst it -> resolve_half it itype s = Ok (o, it') -> iter_ok inst it' /\ halves it' <= halves it.
Proof.
  intros [Hd Hl Hp]. unfold resolve_half. destruct (itype =? XD3_NOOP).
  { intros [= _ <-]. split; [by constructor|lia]. }
  intros Hr. apply bind_ok_inv in Hr as ([size p] & Hs & Hr). rewrite Hd in Hs.
  apply resolve_size_forward in Hs; [|done..].
  apply bind_ok_inv in Hr as ([[x ap] c] & _ & Hr). apply bind_ok_inv in Hr as (tp & _ & Hr).
  injection Hr as _ <-. split; [constructor; simpl; auto; lia|]. unfold halves. simpl. rewrite Hd.
  destruct (pending_second it); lia.
Qed.

Lemma next_ends inst fuel : forall it,
  iter_ok inst it -> halves it < Z.of_nat fuel -> ends (next fuel it).
Proof.
  induction fuel as [|fuel IH]; intros it Hit Hf.
  { destruct Hit as [Hd _ Hp]. unfold halves in Hf. rewrite Hd in Hf. destruct (pending_second it); lia. }
  cbn [next]. destruct (pending_second it) as [[t2 s2]|] eqn:Hpend.
  - apply ends_bind; [apply resolve_half_ends|intros [[x|] it1] Hr; [done|]].
    apply (resolve_half_forward inst) in Hr as [Hi Hh]; [|by destruct Hit].
    apply IH; [done|]. unfold halves in *. simpl in Hh. rewrite Hpend in Hf. lia.
  - destruct Hit as [Hd Hl Hp]. rewrite Hd. destruct (Z.leb_spec (lenZ inst) (it_inst_pos it)); [done|].
    apply ends_bind; [apply index_ends|intros op _]. rewrite add_w_ok by (unfold in_range; lia). cbn [bind].
    apply ends_bind; [apply index_ends|intros e _].
    apply ends_bind; [apply resolve_half_ends|intros [[x|] it1] Hr; [done|]].
    apply (resolve_half_forward inst) in Hr as [Hi Hh];
      [|destruct (negb _); constructor; simpl; auto; lia].
    apply IH; [done|]. unfold halves in *. rewrite Hd, ?Hpend in *.
    destruct (negb _); simpl in Hh; rewrite ?Hpend in Hh; lia.
Qed.

(** An instruction takes one half at least. *)
Lemma next_forward inst fuel : forall it x it',
  iter_ok inst it -> next fuel it = Ok (Some (x, it')) -> iter_ok inst it' /\ halves it' < halves it.
Proof.
  induction fuel as [|fuel IH]; intros it x it' Hit; cbn [next]; [done|].
  destruct (pending_second it) as [[t2 s2]|] eqn:Hpend; intros Hn.
  - apply bind_ok_inv in Hn as ([o it1] & Hr & Hn).
    apply (resolve_half_forward inst) in Hr as [Hi Hh]; [|by destruct Hit].
    assert (halves (set_pending_second it None) < halves it) by (unfold halves; simpl; rewrite Hpend; lia).
    destruct o as [y|]; [injection Hn as _ <-; split; [done|lia]|].
    destruct (IH _ _ _ Hi Hn). split; [done|lia].
  - destruct Hit as [Hd Hl Hp]. rewrite Hd in Hn.
    destruct (Z.leb_spec (lenZ inst) (it_inst_pos it)); [done|].
    apply bind_ok_inv in Hn as (op & _ & Hn). rewrite add_w_ok in Hn by (unfold in_range; lia).
    cbn [bind] in Hn. apply bind_ok_inv in Hn as (e & _ & Hn).
    apply bind_ok_inv in Hn as ([o it1] & Hr & Hn).
    apply (resolve_half_forward inst) in Hr as [Hi Hh];
      [|destruct (negb _); constructor; simpl; auto; lia].
    assert (halves it1 < halves it) as Hlt.
    { unfold halves in *. rewrite Hd, ?Hpend in *.
      destruct (negb _); simpl in Hh; rewrite ?Hpend in Hh; lia. }
    destruct o as [y|]; [injection Hn as _ <-; split; [done|lia]|].
    destruct (IH _ _ _ Hi Hn). split; [done|lia].
Qed.

Lemma print_insts_end inst wh cwl fuel : forall it off printed,
  iter_ok inst it -> halves it < Z.of_nat fuel -> ends (print_insts fuel wh cwl it off printed).
Proof.
  induction fuel as [|fuel IH]; intros it off printed Hit Hf.
  { destruct Hit as [Hd _ Hp]. unfold halves in Hf. rewrite Hd in Hf. destruct (pending_second it); lia. }
  cbn [print_insts]. unfold exit_printed. apply ends_bind.
  - apply ends_map_err, (next_ends inst); [done|]. destruct Hit as [Hd _ Hp]. unfold halves.
    rewrite Hd. unfold lenZ in *. destruct (pending_second it); lia.
  - intros [[x it1]|] Hn%map_err_ok; [|done]. apply (next_forward inst) in Hn as [Hi Hh]; [|done].
    apply ends_bind; [unfold print_inst; ends_auto|intros line _].
    apply ends_bind; [apply add_w_ends|intros off' _]. apply IH; [done|lia].
Qed.

Lemma print_delta_ends id wh off reader printed :
  codecs_fit -> ends (print_delta id wh off reader printed).
Proof.
  intros Hf. unfold print_delta, exit_printed, alloc.
  apply ends_bind; [ends_auto|intros ? _].
  destruct (Z.leb_spec (WindowHeader.inst_len wh) (2 ^ 63 - 1)); [|done]. cbn [bind].
  apply ends_bind; [ends_auto|intros ? _]. apply ends_bind; [ends_auto|intros [db r1] _].
  apply ends_bind; [ends_auto|intros [ib r2] (_ & _ & Hl)%map_err_ok%read_exact_length].
  apply ends_bind; [ends_auto|intros [ab r3] _].
  apply ends_bind.
  { destruct (negb _); [|done]. apply ends_bind; [apply ends_map_err, decompress_ends|].
    intros [[? ?] ?] _. done. }
  intros [si sa] Hi. assert (lenZ si < 2 ^ 63) as Hil.
  { destruct (negb _); [|injection Hi as <- _; lia].
    apply bind_ok_inv in Hi as ([[d' i'] a'] & Hd%map_err_ok & Hi). injection Hi as <- _.
    apply decompress_inst_fits in Hd; [done|done|lia]. }
  apply ends_bind; [|done]. apply (print_insts_end si).
  - constructor; simpl; [done|lia|]. pose proof (lenZ_nonneg si). lia.
  - unfold halves, lenZ. simpl. lia.
Qed.

Lemma print_delta_length id wh off reader printed r p :
  print_delta id wh off reader printed = Ok (r, p) -> (length r <= length reader)%nat.
Proof.
  unfold print_delta, exit_printed. intros Hd. do 3 (apply bind_ok_inv in Hd as (? & _ & Hd)).
  apply bind_ok_inv in Hd as ([? r1] & (Hl1 & _)%map_err_ok%read_exact_length & Hd).
  apply bind_ok_inv in Hd as ([? r2] & (Hl2 & _)%map_err_ok%read_exact_length & Hd).
  apply bind_ok_inv in Hd as ([? r3] & (Hl3 & _)%map_err_ok%read_exact_length & Hd).
  apply bind_ok_inv in Hd as ([? ?] & _ & Hd). apply bind_ok_inv in Hd as (? & _ & Hd).
  injection Hd as <- _. lia.
Qed.

Lemma skip_loop_ends buf_len printed fuel : forall remaining reader,
  (0 < remaining -> 0 < buf_len) -> (length reader < fuel)%nat ->
  ends (skip_loop fuel remaining buf_len reader printed) /\
  forall r, skip_loop fuel remaining buf_len reader printed = Ok r -> (length r <= length reader)%nat.
Proof.
  induction fuel as [|fuel IH]; intros remaining reader Hb Hf; [lia|]. cbn [skip_loop].
  destruct (Z.ltb_spec 0 remaining); [|split; [done|by intros r [= <-]]]. unfold exit_printed.
  destruct (read_exact (Z.min remaining buf_len) reader) as [[l r1]| | |] eqn:Hr;
    [|by split..|by destruct (read_exact_ends (Z.min remaining buf_len) reader)].
  apply read_exact_length in Hr as (_ & Hlt & _). specialize (Hb ltac:(done)). cbn [map_err bind].
  destruct (sub_w 64 remaining (Z.min remaining buf_len)) as [n| | |] eqn:Hs; [|by split..|].
  - cbn [bind]. destruct (IH n r1) as [He Hl]; [done|lia|]. split; [done|]. intros r Hk%Hl. lia.
  - by destruct (sub_w_ends (E:=bytes) 64 remaining (Z.min remaining buf_len)).
Qed.

Lemma skip_sections_ends wh reader printed :
  ends (skip_sections wh reader printed) /\
  forall r, skip_sections wh reader printed = Ok r -> (length r <= length reader)%nat.
Proof.
  unfold skip_sections. destruct (add_w 64 (WindowHeader.data_len wh) _) as [n| | |] eqn:E1;
    [|by split..|by destruct (add_w_ends (E:=bytes) 64 (WindowHeader.data_len wh) (WindowHeader.inst_len wh))].
  cbn [bind]. destruct (add_w 64 n _) as [m| | |] eqn:E2;
    [|by split..|by destruct (add_w_ends (E:=bytes) 64 n (WindowHeader.addr_len wh))].
  cbn [bind]. apply skip_loop_ends; [|lia]. unfold BUF_SIZE. lia.
Qed.

Lemma print_loop_ends command id fuel : codecs_fit -> forall n off reader printed,
  (length reader < fuel)%nat -> ends (print_loop fuel command id n off reader printed).
Proof.
  intros Hf. induction fuel as [|fuel IH]; intros n off reader printed Hl; [lia|]. cbn [print_loop].
  unfold exit_printed. apply ends_bind; [ends_auto|intros [owh r] Hw%map_err_ok].
  destruct owh as [wh|]; [|done]. apply window_header_shrinks in Hw.
  destruct (skip_sections_ends wh r (printed ++ print_window_header n off wh)) as [Hse Hsl].
  apply ends_bind.
  { destruct (bool_decide (command = PrintDelta)); [by apply print_delta_ends|]. apply ends_bind; done. }
  intros [r' p'] Hr. assert (length r' <= length r)%nat.
  { destruct (bool_decide (command = PrintDelta)); [by apply print_delta_length in Hr|].
    apply bind_ok_inv in Hr as (r1 & H1%Hsl & Hr). by injection Hr as <- _. }
  apply ends_bind; [apply add_w_ends|intros ? _]. apply ends_bind; [apply add_w_ends|intros ? _].
  destruct (bool_decide (command = PrintHdr)); [done|]. apply IH. lia.
Qed.
End Print.

(** ** The process *)

(** C14: every command that reads a delta ends.  Whatever the files hold, and
    whatever the options, a run of [decode], [header], [headers], [delta],
    [recode] or [config] does not loop forever: it exits with 0 or 1, or
    panics.  Of the compression libraries it is assumed that they return. *)
Theorem readers_end {B : Build} `{Adler32} `{Codecs} `{Os} (c : cpu) (cli : Cli) (w : World) :
  codecs_total -> codecs_fit ->
  match cli_command cli with CmdEncode _ | CmdMerge _ => False | _ => True end ->
  run c cli w <> Diverge.
Proof.
  intros Ht Hf Hc. change (ends (run c cli w)). unfold run. destruct (_ <? _); [done|].
  rewrite (sc_command _ _ (override_same _)). set (opts := override_output _).
  assert (forall i, ends (open_input w i)) as Hin by (intros; unfold open_input, exit_1, file_open; ends_auto).
  assert (ends (open_output w opts)) as Hout by (unfold open_output, exit_1, file_create; ends_auto).
  assert (ends (cmd_print opts w)) as Hprint.
  { unfold cmd_print, exit_1, file_open, print_file, exit_printed. ends_auto. apply print_loop_ends; [done|lia]. }
  unfold resolve_options, recode_options, merge_options. destruct (cli_command cli) as [| | | | | |a|]; try done; cbn [Options.command Options.plain].
  - unfold cmd_decode. apply ends_bind; [unfold read_source, exit_1, fs_read, file_open; ends_auto|intros s _].
    apply ends_bind; [apply Hin|intros r _].
    apply ends_bind; [unfold open_decode_output; ends_auto|intros [o w'] _].
    apply ends_bind; [apply ends_map_err, decode_to_ends; [done|apply slice_source_ends]|].
    intros [[[? ?] ?] ?] _. done.
  - destruct (ra_drop_app_header a); [|destruct (ra_app_header a)]; cbn [Options.command];
      (unfold cmd_recode; destruct (Options.input_file opts); [|done];
       apply ends_bind; [unfold exit_1, file_open; ends_auto|intros f _];
       apply ends_bind; [apply Hout|intros [o w'] _]; apply ends_bind; [|done];
       by apply ends_map_err, recode_ends).
Qed.

(** The sample codec with vectors for its results. *)
Definition vector_codecs : Codecs :=
  let fit o := match o with Some d => if lenZ d <? 2 ^ 63 then Some d else None | None => None end in
  {| lzma_secondary := true;
     zlib_secondary := true;
     lzma_compress := zeros_compress;
     lzma_decompress c := fit (zeros_decompress c);
     zlib_compress _ := zeros_compress;
     zlib_decompress c := fit (zeros_decompress c) |}.

Lemma vector_codecs_fit : codecs_fit (H:=vector_codecs).
Proof.
  split; intros c d; simpl; destruct (zeros_decompress c) as [x|]; try done;
    destruct (Z.ltb_spec (lenZ x) (2 ^ 63)); try done; by intros [= <-].
Qed.

Lemma readers_end_witness :
  run (B:={| debug_build := false |}) (H:=adler32_fallback) (H0:=vector_codecs) (H1:=one_byte_os) X86_avx2
    (cli (CmdDelta (print_args "p"%string)) false false 0 false)
    (world {["p"%string := [214; 195; 196; 0; 0; 1; 255; 255; 255]]} [] []) <> Diverge.
Proof.
  apply (readers_end (B:={| debug_build := false |}) (H:=adler32_fallback) (H0:=vector_codecs)
    (H1:=one_byte_os) X86_avx2 (cli (CmdDelta (print_args "p"%string)) false false 0 false)
    (world {["p"%string := [214; 195; 196; 0; 0; 1; 255; 255; 255]]} [] [])).
  - exact zeros_total.
  - exact vector_codecs_fit.
  - exact I.
Defined.
