(* ===== verification/Fuzz.v ===== *)
(** * Fuzz targets ([src/fuzz/fuzz_targets])

    A fuzz target is a function of arbitrary bytes that must not panic; an
    assertion that fails and an [unwrap] of an error are panics.
    [roundtrip_fuzz] passes on every input up to the largest window;
    [decode_fuzz], whose comment says that the decoder must never panic, does
    not. *)

From stdpp Require Import base numbers list option.
From Stdlib Require Import ZArith Lia.
From S2P Require Import Prelude Varint Semantics Header WindowEncoder Source Secondary WindowDecoder.
From S2P Require Import StreamRoundtrip.

Local Open Scope Z_scope.
Local Open Scope rust_scope.

(** [Result::unwrap]. *)
Definition unwrap {E F A} (m : result E A) : result F A :=
  match m with
  | Ok a => Ok a
  | Err _ => Panic
  | Panic => Panic
  | Diverge => Diverge
  end.

(** [let _ = m]: an error is dropped, a panic is not. *)
Definition ignore {E F A} (m : result E A) : result F unit :=
  match m with
  | Ok _ | Err _ => Ok tt
  | Panic => Panic
  | Diverge => Diverge
  end.

Section Targets.
Context {B : Build} `{Adler32} `{Codecs} {E : Type}.

Definition decode_fuzz (data : bytes) : result E unit :=
  let* _ := ignore (decode_memory data []) in
  if 2 <=? lenZ data then
    let split := lenZ data / 2 in
    let* source := slice data 0 split in
    let* delta := slice_from data split in
    ignore (decode_memory delta source)
  else Ok tt.

Definition roundtrip_fuzz (data : bytes) : result E unit :=
  if lenZ data <? 2 then Ok tt
  else
    let* flags := index data 0 in
    let* payload := slice_from data 1 in
    let use_source := negb (Z.land flags 1 =? 0) in
    let split := lenZ payload / 2 in
    let* (source_data, target_data) :=
      if use_source && (0 <? split) then
        let* s := slice payload 0 split in
        let* t := slice_from payload split in
        Ok (s, t)
      else Ok ([], payload) in
    if lenZ target_data =? 0 then Ok tt
    else
      let src_win :=
        if lenZ source_data =? 0 then None else Some (source_win (lenZ source_data) 0) in
      let we := WindowEncoder.new src_win true in
      let* we := WindowEncoder.add we target_data in
      let enc := StreamEncoder.new [] true in
      let* enc := unwrap (StreamEncoder.write_window (E:=DecodeError) enc we (Some target_data)) in
      let* delta := unwrap (StreamEncoder.finish (E:=DecodeError) enc) in
      let* decoded := unwrap (decode_memory delta source_data) in
      if bool_decide (decoded = target_data) then Ok tt else Panic.
End Targets.

(** One ADD of the whole target, over the source as copy window. *)
Lemma add_window_decodes {B : Build} `{Adler32Laws} `{Codecs} {E} (s t : bytes) :
  wf_bytes t -> 1 <= lenZ t <= HARD_MAX_WINSIZE -> lenZ s < 2 ^ 62 ->
  let sw := if lenZ s =? 0 then None else Some (source_win (lenZ s) 0) in
  exists we st delta, WindowEncoder.add (E:=E) (WindowEncoder.new sw true) t = Ok we /\
    StreamEncoder.write_window (E:=DecodeError) (StreamEncoder.new [] true) we (Some t) = Ok st /\
    StreamEncoder.finish (E:=DecodeError) st = Ok delta /\ decode_memory delta s = Ok t.
Proof.
  intros Ht Hl Hs sw. unfold HARD_MAX_WINSIZE in Hl. pose proof (lenZ_nonneg s).
  assert (0 <= win_len sw < 2 ^ 62) as Hw by (unfold sw; destruct (_ =? 0); simpl; lia).
  assert (source_window_ok sw s) as Hsw.
  { split; [lia|]. intros w. unfold sw. destruct (_ =? 0); [done|]. intros [= <-]. simpl. lia. }
  assert (op_ok (win_len sw) 0 (OpAdd t)) as Ho by (split; [simpl; lia|done]).
  destruct (step_ok (E:=E) (WindowEncoder.new sw true) [] (OpAdd t)) as (we & Hwe & He & Hsame & _);
    [apply encoded_new|by apply op_ok_fits|change (ops_len []) with 0; simpl; lia|simpl; lia|].
  simpl in Hsame.
  destruct (finish_decodes (E:=DecodeError) (contents:=fun x : bytes => x) FileHeader.default true s we
    [OpAdd t] t) as (w & Hfin & Hd); rewrite ?Hsame; auto.
  - unfold HARD_MAX_WINSIZE, ops_len. simpl. lia.
  - pose proof (wrote_new true) as Hst.
    destruct (write_raw_window_ok (E:=DecodeError) _ _ _ w Hst) as (st & Hst1 & Hst').
    exists we, st, (file_header_bytes FileHeader.default ++ concat [w]). split_and!; auto.
    + by rewrite (write_window_raw _ _ _ _ _ _ Hst Hfin).
    + by apply (stream_finish_ok (E:=DecodeError) st _ _ Hst').
    + rewrite (decode_memory_ok FileHeader.default s [w] [t] default_header_wf);
        [simpl; by rewrite app_nil_r|by constructor|simpl; rewrite app_nil_r; lia].
Qed.

(** ** Theorems *)

(** The round-trip fuzz target passes on every input of at most 16 MiB: no
    step panics, no [unwrap] meets an error, and the assertion holds. *)
Theorem roundtrip_fuzz_passes {B : Build} `{Adler32Laws} `{Codecs} {E} (data : bytes) :
  wf_bytes data -> lenZ data <= HARD_MAX_WINSIZE -> roundtrip_fuzz (E:=E) data = Ok tt.
Proof.
  intros Hd Hl. unfold roundtrip_fuzz, HARD_MAX_WINSIZE in *.
  destruct (Z.ltb_spec (lenZ data) 2) as [|Hge]; [done|]. destruct data as [|flags payload]; [done|].
  apply wf_bytes_cons in Hd as [_ Hp]. rewrite lenZ_cons in *.
  change (index (flags :: payload) 0) with (Ok (E:=E) flags). cbn [bind].
  rewrite slice_from_ok by (rewrite lenZ_cons; lia). cbn [bind]. change (drop (Z.to_nat 1) (flags :: payload)) with payload.
  assert (exists s t, (if negb (Z.land flags 1 =? 0) && (0 <? lenZ payload / 2) then
      let* s := slice payload 0 (lenZ payload / 2) in
      let* t := slice_from payload (lenZ payload / 2) in Ok (s, t)
    else Ok ([], payload)) = Ok (E:=E) (s, t) /\
    wf_bytes t /\ lenZ s <= lenZ payload /\ lenZ t <= lenZ payload) as (s & t & -> & Ht & Hsl & Htl).
  { pose proof (Z.div_le_upper_bound (lenZ payload) 2 (lenZ payload) ltac:(lia) ltac:(lia)).
    destruct (_ && _) eqn:Hb; [|eexists _, _; split_and!; [done|done|change (lenZ (@nil Z)) with 0; lia|lia]].
    apply andb_true_iff in Hb as [_ Hb%Z.ltb_lt].
    rewrite slice_ok, slice_from_ok by lia. cbn [bind]. eexists _, _. split; [done|].
    split; [by apply Forall_drop|]. split; [|rewrite lenZ_drop; lia].
    rewrite sub_length; lia. }
  cbn [bind]. destruct (Z.eqb_spec (lenZ t) 0); [done|]. pose proof (lenZ_nonneg t).
  destruct (add_window_decodes (E:=E) s t) as (we & st & delta & -> & Hst & Hfin & Hdec);
    [done|unfold HARD_MAX_WINSIZE; lia|lia|].
  cbn [bind]. rewrite Hst. cbn [unwrap bind]. rewrite Hfin. cbn [unwrap bind].
  rewrite Hdec. cbn [unwrap bind]. by rewrite bool_decide_eq_true_2.
Qed.

(** The decoder's fuzz target panics, in both build profiles, on the header
    of an application header of 2^63 bytes; its comment says that the decoder
    must never panic. *)
Theorem decode_fuzz_panics {B : Build} `{Adler32} `{Codecs} {E} :
  decode_fuzz (E:=E) (VCDIFF_MAGIC ++ [VCD_APPHEADER] ++ varint (2 ^ 63)) = Panic.
Proof. destruct B as [[|]]; vm_compute; reflexivity. Qed.

(** ** Witness *)

Lemma roundtrip_fuzz_passes_witness :
  roundtrip_fuzz (B:={| debug_build := true |}) (H:=adler32_fallback) (H0:=zeros_codecs) (E:=unit)
    [1; 10; 11; 12; 13; 14] = Ok tt.
Proof.
  apply (roundtrip_fuzz_passes (B:={| debug_build := true |}) (H:=adler32_fallback)
    (H0:=adler32_fallback_laws) (H1:=zeros_codecs) (E:=unit) [1; 10; 11; 12; 13; 14]).
  - by apply in_range_list.
  - vm_compute. discriminate.
Defined.
