(* ===== verification/Pieces.v ===== *)
(** * Feeding the streaming encoder ([src/src/compress/encoder.rs])

    A client of [DeltaEncoder] calls [write_target] as often as it likes.  The
    states it can reach are an inductive relation; by induction on it, a state
    depends on the bytes fed so far and not on how they were cut: the windows
    encoded are the full windows of what was fed, and the buffer is the rest.
    So the delta does not depend on the pieces either, nor does an error. *)

From stdpp Require Import base numbers list option.
From Stdlib Require Import ZArith Lia.
From S2P Require Import Prelude Varint AddrCache CodeTable Semantics Header WindowEncoder Source.
From S2P Require Import Secondary WindowDecoder StreamRoundtrip Kernels HashTables Matching.
From S2P Require Import MatchingCorrect Emit Pipeline Delta DeltaCorrect.

Local Open Scope Z_scope.
Local Open Scope rust_scope.

(** ** Cutting bytes in windows *)

(** [l] is the full windows [ws] and the rest [r]. *)
Definition cuts (n : Z) (l : bytes) (ws : list bytes) (r : bytes) : Prop :=
  l = concat ws ++ r /\ Forall (fun w => lenZ w = n) ws /\ lenZ r < n.

Lemma cuts_nil n r : lenZ r < n -> cuts n r [] r.
Proof. intros. unfold cuts. by split_and!. Qed.

Lemma cuts_cons n w l ws r : lenZ w = n -> cuts n l ws r -> cuts n (w ++ l) (w :: ws) r.
Proof. intros Hw (-> & Hws & Hr). unfold cuts. split_and!; [simpl; by rewrite app_assoc|by constructor|done]. Qed.

Lemma cuts_app n l k ws r ws' r' :
  cuts n l ws r -> cuts n (r ++ k) ws' r' -> cuts n (l ++ k) (ws ++ ws') r'.
Proof.
  intros (-> & Hws & _) (Heq & Hws' & Hr'). unfold cuts. split_and!; [|by apply Forall_app|done].
  by rewrite <- app_assoc, Heq, concat_app, app_assoc.
Qed.

Lemma cuts_exist n l : 0 < n -> exists ws r, cuts n l ws r.
Proof.
  intros Hn. remember (length l) as k eqn:Hk. revert l Hk.
  induction k as [k IH] using lt_wf_ind. intros l ->.
  destruct (Z.lt_ge_cases (lenZ l) n); [exists [], l; by apply cuts_nil|].
  destruct (IH (length (drop (Z.to_nat n) l))) with (l := drop (Z.to_nat n) l) as (ws & r & Hc); [|done|].
  { rewrite length_drop. unfold lenZ in *. lia. }
  exists (take (Z.to_nat n) l :: ws), r. rewrite <- (take_drop (Z.to_nat n) l) at 1.
  apply cuts_cons; [|done]. unfold lenZ in *. rewrite length_take. lia.
Qed.

Lemma cuts_full_inv n w l ws r :
  lenZ w = n -> cuts n (w ++ l) ws r -> exists ws', ws = w :: ws' /\ cuts n l ws' r.
Proof.
  intros Hw (Heq & Hws & Hr). destruct Hws as [|w' ws Hw' Hws].
  - simpl in Heq. subst r. rewrite lenZ_app in Hr. pose proof (lenZ_nonneg l). lia.
  - cbn [concat] in Heq. rewrite <- app_assoc in Heq.
    apply app_inj_1 in Heq as [-> ->]; [|unfold lenZ in *; lia]. exists ws. by unfold cuts.
Qed.

Lemma cuts_short_inv n l ws r : 0 < n -> lenZ l < n -> cuts n l ws r -> ws = [] /\ r = l.
Proof.
  intros Hn Hl (-> & Hws & Hr). destruct Hws as [|w ws Hw Hws]; [done|].
  cbn [concat] in Hl. rewrite !lenZ_app in Hl. pose proof (lenZ_nonneg (concat ws)).
  pose proof (lenZ_nonneg r). lia.
Qed.

Lemma full_length n (ws : list bytes) :
  Forall (fun w => lenZ w = n) ws -> lenZ (concat ws) = lenZ ws * n.
Proof. induction 1 as [|w ws Hw _ IH]; [done|]. cbn [concat]. rewrite lenZ_app, lenZ_cons. lia. Qed.

Lemma cuts_count n l ws r : 0 < n -> cuts n l ws r -> lenZ ws = lenZ l / n.
Proof.
  intros Hn (-> & Hws & Hr). rewrite lenZ_app.
  rewrite (full_length n ws Hws), Z.div_add_l, Z.div_small by (pose proof (lenZ_nonneg r); lia). lia.
Qed.

Section Frame.
Context {B : Build} `{Adler32} `{Codecs} (c : cpu).

(** ** Encoding a window leaves the rest of the state alone *)

(** [d] with another buffer and byte count. *)
Definition frame (d : DeltaEncoder.t) (b : bytes) (n : Z) : DeltaEncoder.t :=
  DeltaEncoder.set_bytes_in (DeltaEncoder.set_buffer d b) n.

Lemma window_instructions_frame d b n w :
  DeltaEncoder.window_instructions c (frame d b n) w
  = let* (d', insts) := DeltaEncoder.window_instructions c d w in Ok (frame d' b n, insts).
Proof.
  unfold DeltaEncoder.window_instructions, DeltaEncoder.find_matches. simpl.
  destruct (level (DeltaEncoder.opts d) =? 0); [done|].
  destruct (DeltaEncoder.engine d) as [e|]; [|done].
  destruct (match DeltaEncoder.source d with [] => _ | _ => _ end) as [[e' raw]| | |]; try done.
  cbn [bind]. by destruct (optimize c raw w).
Qed.

Lemma encode_window_frame d b n w :
  DeltaEncoder.encode_window c (frame d b n) w
  = let* d' := DeltaEncoder.encode_window c d w in Ok (frame d' b n).
Proof.
  unfold DeltaEncoder.encode_window. rewrite window_instructions_frame.
  destruct (DeltaEncoder.window_instructions c d w) as [[d1 insts]| | |]; try done. cbn [bind].
  destruct d1. unfold frame, DeltaEncoder.set_bytes_in, DeltaEncoder.set_buffer.
  cbn [DeltaEncoder.source DeltaEncoder.opts DeltaEncoder.stream DeltaEncoder.windows_written
       DeltaEncoder.last_data_size DeltaEncoder.last_inst_size DeltaEncoder.last_addr_size].
  destruct (emit_instructions _ w insts) as [we| | |]; try done. cbn [bind].
  destruct (WindowEncoder.finish_sections we (Some w)) as [secs| | |]; try done. cbn [bind].
  destruct (match backend _ with Some _ => _ | None => _ end) as [enc| | |]; try done. cbn [bind].
  destruct (StreamEncoder.write_raw_window _ enc) as [st| | |]; try done.
  cbn [bind]. by destruct (add_w 64 _ 1).
Qed.

Lemma encode_window_keeps d w d' :
  DeltaEncoder.encode_window c d w = Ok d' ->
  DeltaEncoder.opts d' = DeltaEncoder.opts d /\ DeltaEncoder.buffer d' = DeltaEncoder.buffer d /\
  DeltaEncoder.bytes_in d' = DeltaEncoder.bytes_in d /\
  add_w (E:=EncodeError * bytes) 64 (DeltaEncoder.windows_written d) 1 = Ok (DeltaEncoder.windows_written d').
Proof.
  unfold DeltaEncoder.encode_window. intros Henc. apply bind_ok_inv in Henc as ([d1 insts] & Hwi & Henc).
  assert (exists e, d1 = DeltaEncoder.set_engine d e) as [e ->].
  { unfold DeltaEncoder.window_instructions, DeltaEncoder.find_matches in Hwi.
    destruct (level (DeltaEncoder.opts d) =? 0); [exists (DeltaEncoder.engine d); destruct d; by inversion Hwi|].
    destruct (DeltaEncoder.engine d); [|done]. apply bind_ok_inv in Hwi as ([d2 raw] & Hfm & Hwi).
    apply bind_ok_inv in Hfm as ([e' raw'] & _ & Hfm). injection Hfm as <- <-.
    apply bind_ok_inv in Hwi as (i & _ & Hwi). injection Hwi as <- <-. eauto. }
  inv_bind Henc. injection Henc as <-. simpl in *. by split_and!.
Qed.

(** [for w in ws]. *)
Definition encode_windows (ws : list bytes) (d : DeltaEncoder.t) : R DeltaEncoder.t :=
  for_in ws (fun w d => DeltaEncoder.encode_window c d w) d.

Lemma encode_windows_frame ws b n : forall d,
  encode_windows ws (frame d b n) = let* d' := encode_windows ws d in Ok (frame d' b n).
Proof.
  induction ws as [|w ws IH]; intros d; [done|]. unfold encode_windows in *. cbn [for_in].
  rewrite encode_window_frame. destruct (DeltaEncoder.encode_window c d w); cbn [bind]; [apply IH|done..].
Qed.

Lemma encode_windows_keeps ws : forall d d', encode_windows ws d = Ok d' ->
  DeltaEncoder.opts d' = DeltaEncoder.opts d /\ DeltaEncoder.buffer d' = DeltaEncoder.buffer d /\
  DeltaEncoder.bytes_in d' = DeltaEncoder.bytes_in d.
Proof.
  unfold encode_windows. induction ws as [|w ws IH]; intros d d'; cbn [for_in]; [by intros [= ->]|].
  intros Hf. apply bind_ok_inv in Hf as (d1 & Hd1 & Hf).
  apply encode_window_keeps in Hd1 as (<- & <- & <- & _). by apply IH.
Qed.

Lemma encode_windows_app ws ws' d :
  encode_windows (ws ++ ws') d = let* d' := encode_windows ws d in encode_windows ws' d'.
Proof.
  revert d. unfold encode_windows. induction ws as [|w ws IH]; intros d; [done|]. cbn [for_in app].
  destruct (DeltaEncoder.encode_window c d w); cbn [bind]; [apply IH|done..].
Qed.

(** ** What [write_target] does *)

(** A state between two calls. *)
Record resting (d : DeltaEncoder.t) : Prop := {
  re_window : 0 < window_size (DeltaEncoder.opts d) < 2 ^ 62;
  re_short : lenZ (DeltaEncoder.buffer d) < window_size (DeltaEncoder.opts d);
  re_bytes : 0 <= DeltaEncoder.bytes_in d
}.

(** Encode the full windows of [data] from [off] on and buffer the rest. *)
Lemma write_windows_cuts data ws r : forall fuel d off,
  let n := window_size (DeltaEncoder.opts d) in
  0 < n < 2 ^ 62 -> lenZ data < 2 ^ 62 -> 0 <= off <= lenZ data -> lenZ data - off < Z.of_nat fuel ->
  DeltaEncoder.buffer d = [] -> cuts n (drop (Z.to_nat off) data) ws r ->
  DeltaEncoder.write_windows c fuel d data off
  = let* d' := encode_windows ws d in Ok (DeltaEncoder.set_buffer d' r).
Proof.
  induction ws as [|w ws IH]; intros fuel d off n Hn Hl Hoff Hf Hb (Hcat & Hws & Hr);
    (destruct fuel as [|fuel]; [lia|]); cbn [DeltaEncoder.write_windows]; fold n;
    rewrite add_w_ok by (unfold in_range; lia); cbn [bind];
    pose proof (lenZ_drop data off ltac:(lia)) as Hdl; rewrite Hcat in Hdl.
  - simpl in Hcat, Hdl. rewrite (proj2 (Z.leb_gt _ _)) by lia. unfold encode_windows. cbn [for_in bind].
    destruct (Z.ltb_spec off (lenZ data)).
    + rewrite slice_from_ok by lia. cbn [bind]. by rewrite Hb, Hcat.
    + destruct r; [|rewrite lenZ_cons in Hdl; pose proof (lenZ_nonneg r); lia]. rewrite <- Hb. by destruct d.
  - inversion Hws as [|? ? Hw Hws']; subst. cbn [concat] in *. rewrite !lenZ_app in Hdl.
    pose proof (lenZ_nonneg (concat ws)). pose proof (lenZ_nonneg r).
    rewrite (proj2 (Z.leb_le _ _)), slice_ok by lia. cbn [bind].
    replace (off + n - off) with n by lia.
    assert (sub data off n = w) as ->.
    { unfold sub. rewrite Hcat, <- Hw, lenZ_to_nat, <- app_assoc. apply take_app_length. }
    unfold encode_windows. cbn [for_in].
    destruct (DeltaEncoder.encode_window c d w) as [d1| | |] eqn:Henc; cbn [bind]; try done.
    apply encode_window_keeps in Henc as (Ho & Hb1 & _).
    apply (IH fuel d1 (off + n)); rewrite ?Ho; fold n; try done; try lia; [by rewrite Hb1|].
    split_and!; [|done|done]. rewrite Z2Nat.inj_add, <- drop_drop, Hcat, <- app_assoc, <- Hw by lia.
    by rewrite lenZ_to_nat, drop_app_length.
Qed.

Lemma write_target_cuts d data ws r :
  resting d -> lenZ data < 2 ^ 62 -> DeltaEncoder.bytes_in d + lenZ data < 2 ^ 64 ->
  cuts (window_size (DeltaEncoder.opts d)) (DeltaEncoder.buffer d ++ data) ws r ->
  DeltaEncoder.write_target c d data
  = let* d' := encode_windows ws d in Ok (frame d' r (DeltaEncoder.bytes_in d + lenZ data)).
Proof.
  intros [Hn Hs Hby] Hl Hsum Hc. unfold DeltaEncoder.write_target.
  pose proof (lenZ_nonneg data). pose proof (lenZ_nonneg (DeltaEncoder.buffer d)).
  rewrite add_w_ok by (unfold in_range; lia). cbn [bind].
  set (m := DeltaEncoder.bytes_in d + lenZ data). set (n := window_size (DeltaEncoder.opts d)) in *.
  cbn [DeltaEncoder.set_bytes_in DeltaEncoder.buffer DeltaEncoder.opts]. fold n.
  destruct (DeltaEncoder.buffer d) as [|b0 buf0] eqn:Hb.
  { cbn [bind]. assert (DeltaEncoder.set_bytes_in d m = frame d [] m) as -> by (unfold frame; rewrite <- Hb; by destruct d).
    rewrite (write_windows_cuts data ws r), encode_windows_frame by
      (simpl; fold n; rewrite ?Hb; try done; unfold lenZ in *; lia).
    by destruct (encode_windows ws d). }
  set (buf := b0 :: buf0) in *. rewrite sub_w_ok by (unfold in_range; lia). cbn [bind].
  set (tk := Z.min _ _). rewrite slice_ok by lia. cbn [bind]. rewrite Z.sub_0_r.
  change (sub data 0 tk) with (take (Z.to_nat tk) data).
  assert (lenZ (take (Z.to_nat tk) data) = tk) as Htk by (unfold lenZ in *; rewrite length_take; lia).
  cbn [DeltaEncoder.buffer DeltaEncoder.set_buffer DeltaEncoder.set_bytes_in DeltaEncoder.opts].
  fold buf n. rewrite lenZ_app, Htk.
  destruct (Z.eqb_spec (lenZ buf + tk) n) as [Hfull|Hpart].
  - rewrite <- (take_drop (Z.to_nat tk) data), app_assoc in Hc.
    apply cuts_full_inv in Hc as (ws' & -> & Hc); [|rewrite lenZ_app; lia].
    change (DeltaEncoder.set_buffer (DeltaEncoder.set_buffer _ _) []) with (frame d [] m).
    rewrite encode_window_frame. unfold encode_windows. cbn [for_in].
    destruct (DeltaEncoder.encode_window c d _) as [d1| | |] eqn:Henc; cbn [bind]; try done.
    change (DeltaEncoder.set_buffer (frame d1 [] m) []) with (frame d1 [] m).
    apply encode_window_keeps in Henc as (Ho & _).
    rewrite (write_windows_cuts data ws' r), encode_windows_frame by
      (simpl; rewrite ?Ho; fold n; try done; unfold lenZ in *; lia).
    unfold encode_windows. by destruct (for_in ws' _ d1).
  - cbn [bind]. assert (tk = lenZ data) as Htd by lia. rewrite Htd, lenZ_to_nat, firstn_all.
    apply cuts_short_inv in Hc as [-> ->]; [|lia|rewrite lenZ_app; lia].
    cbn [DeltaEncoder.write_windows DeltaEncoder.set_buffer DeltaEncoder.set_bytes_in DeltaEncoder.opts]. fold n.
    rewrite add_w_ok by (unfold in_range; lia). cbn [bind].
    rewrite (proj2 (Z.leb_gt _ _)), (proj2 (Z.ltb_ge _ _)) by lia. done.
Qed.

Lemma write_target_resting d data d' :
  resting d -> lenZ data < 2 ^ 62 -> DeltaEncoder.bytes_in d + lenZ data < 2 ^ 64 ->
  DeltaEncoder.write_target c d data = Ok d' ->
  resting d' /\ DeltaEncoder.opts d' = DeltaEncoder.opts d /\
  DeltaEncoder.bytes_in d' = DeltaEncoder.bytes_in d + lenZ data.
Proof.
  intros Hd Hl Hsum Hw. pose proof Hd as [Hn _ Hby]. pose proof (lenZ_nonneg data).
  destruct (cuts_exist (window_size (DeltaEncoder.opts d)) (DeltaEncoder.buffer d ++ data)) as (ws & r & Hc); [lia|].
  rewrite (write_target_cuts d data ws r) in Hw by done.
  apply bind_ok_inv in Hw as (d1 & Hws & [= <-]). apply encode_windows_keeps in Hws as (Ho & _).
  destruct Hc as (_ & _ & Hr). split; [|done]. constructor; simpl; rewrite ?Ho; lia.
Qed.

(** Two calls are one. *)
Lemma write_target_app d a b :
  resting d -> lenZ (a ++ b) < 2 ^ 62 -> DeltaEncoder.bytes_in d + lenZ (a ++ b) < 2 ^ 64 ->
  DeltaEncoder.write_target c d (a ++ b)
  = let* d' := DeltaEncoder.write_target c d a in DeltaEncoder.write_target c d' b.
Proof.
  intros Hd Hl Hsum. pose proof Hd as [Hn _ Hby]. rewrite lenZ_app in Hl, Hsum.
  pose proof (lenZ_nonneg a). pose proof (lenZ_nonneg b). set (n := window_size (DeltaEncoder.opts d)) in *.
  destruct (cuts_exist n (DeltaEncoder.buffer d ++ a)) as (ws & r & Hc); [lia|].
  destruct (cuts_exist n (r ++ b)) as (ws' & r' & Hc'); [lia|].
  rewrite (write_target_cuts d a ws r) by (done || lia).
  rewrite (write_target_cuts d (a ++ b) (ws ++ ws') r'), encode_windows_app;
    [|done|rewrite lenZ_app; lia|rewrite lenZ_app; lia|rewrite app_assoc; by eapply cuts_app].
  destruct (encode_windows ws d) as [d1| | |] eqn:Hws; cbn [bind]; try done.
  apply encode_windows_keeps in Hws as (Ho & _).
  rewrite (write_target_cuts _ b ws' r'), encode_windows_frame;
    [|constructor; simpl; rewrite ?Ho; fold n; [lia|by destruct Hc as (_ & _ & ?)|lia]|lia|simpl; lia|by simpl; rewrite Ho].
  destruct (encode_windows ws' d1); cbn [bind]; try done.
  simpl. by rewrite lenZ_app, Z.add_assoc.
Qed.

Lemma write_target_nil d : resting d -> DeltaEncoder.bytes_in d < 2 ^ 64 ->
  DeltaEncoder.write_target c d [] = Ok d.
Proof.
  intros Hd Hby. pose proof Hd as [Hn Hs _]. rewrite (write_target_cuts d [] [] (DeltaEncoder.buffer d));
    [|done|done|rewrite lenZ_nil; lia|rewrite app_nil_r; by apply cuts_nil].
  unfold encode_windows, frame. simpl. rewrite lenZ_nil, Z.add_0_r. by destruct d.
Qed.

Lemma feed_concat pieces : forall d,
  resting d -> lenZ (concat pieces) < 2 ^ 62 -> DeltaEncoder.bytes_in d + lenZ (concat pieces) < 2 ^ 64 ->
  for_in pieces (fun p d => DeltaEncoder.write_target c d p) d
  = DeltaEncoder.write_target c d (concat pieces).
Proof.
  induction pieces as [|p pieces IH]; intros d Hd Hl Hsum; cbn [for_in concat] in *.
  - rewrite write_target_nil; [done|done|]. rewrite lenZ_nil in Hsum. lia.
  - rewrite write_target_app by done. rewrite lenZ_app in *.
    pose proof (lenZ_nonneg p). pose proof (lenZ_nonneg (concat pieces)).
    destruct (DeltaEncoder.write_target c d p) as [d1| | |] eqn:Hw; cbn [bind]; try done.
    apply write_target_resting in Hw as (Hd1 & _ & Hb1); [|done|lia|lia]. apply IH; [done|lia|lia].
Qed.

(** ** The states of a client *)

(** The states an encoder can be in, and what was fed to it. *)
Inductive client (source : bytes) (options : CompressOptions) : DeltaEncoder.t -> bytes -> Prop :=
  | client_new d :
      DeltaEncoder.new c [] source options = Ok d -> client source options d []
  | client_write d fed data d' :
      client source options d fed -> DeltaEncoder.write_target c d data = Ok d' ->
      client source options d' (fed ++ data).

Lemma new_state source options d :
  DeltaEncoder.new c [] source options = Ok d ->
  DeltaEncoder.opts d = options /\ DeltaEncoder.buffer d = [] /\ DeltaEncoder.bytes_in d = 0 /\
  DeltaEncoder.windows_written d = 0.
Proof. unfold DeltaEncoder.new. intros Hn. apply bind_ok_inv in Hn as (e & _ & [= <-]). done. Qed.

Lemma new_resting source options d :
  0 < window_size options < 2 ^ 62 -> DeltaEncoder.new c [] source options = Ok d -> resting d.
Proof.
  intros Hn Hd. apply new_state in Hd as (Ho & Hb & Hby & _).
  constructor; rewrite ?Ho, ?Hb, ?Hby, ?lenZ_nil; lia.
Qed.

(** Rule induction: the state is what one call with all the bytes gives. *)
Lemma client_one_call source options d fed :
  0 < window_size options < 2 ^ 62 -> client source options d fed -> lenZ fed < 2 ^ 62 ->
  exists d0, DeltaEncoder.new c [] source options = Ok d0 /\ DeltaEncoder.write_target c d0 fed = Ok d.
Proof.
  intros Hn. induction 1 as [d Hd|d fed data d' _ IH Hw]; intros Hl.
  - exists d. split; [done|]. pose proof (new_state _ _ _ Hd) as (_ & _ & Hby & _).
    apply write_target_nil; [by eapply new_resting|lia].
  - pose proof Hl as Hl'. rewrite lenZ_app in Hl'. pose proof (lenZ_nonneg data).
    destruct IH as (d0 & Hd0 & Hfed); [lia|]. exists d0. split; [done|].
    pose proof (new_state _ _ _ Hd0) as (_ & _ & Hby & _).
    rewrite write_target_app, Hfed; [done|by eapply new_resting|done|lia].
Qed.

Lemma encode_windows_count ws : forall d d', encode_windows ws d = Ok d' ->
  0 <= DeltaEncoder.windows_written d -> DeltaEncoder.windows_written d + lenZ ws < 2 ^ 64 ->
  DeltaEncoder.windows_written d' = DeltaEncoder.windows_written d + lenZ ws.
Proof.
  unfold encode_windows. induction ws as [|w ws IH]; intros d d'; cbn [for_in].
  - intros [= ->]. change (lenZ (@nil bytes)) with 0. lia.
  - intros Hf Hd Hl. rewrite lenZ_cons in *. pose proof (lenZ_nonneg ws).
    apply bind_ok_inv in Hf as (d1 & Hd1 & Hf). apply encode_window_keeps in Hd1 as (_ & _ & _ & Hk).
    rewrite add_w_ok in Hk by (unfold in_range; lia). injection Hk as Hk.
    apply IH in Hf; lia.
Qed.

Lemma cuts_rest n l ws r : 0 < n -> cuts n l ws r -> r = drop (Z.to_nat (lenZ l / n * n)) l.
Proof.
  intros Hn Hc. rewrite <- (cuts_count n l ws r Hn Hc). destruct Hc as (-> & Hws & _).
  by rewrite <- (full_length n ws Hws), lenZ_to_nat, drop_app_length.
Qed.
(** The state after one call with all the bytes. *)
Lemma write_target_state source opts d0 fed d :
  0 < window_size opts < 2 ^ 62 -> lenZ fed < 2 ^ 62 -> DeltaEncoder.new c [] source opts = Ok d0 ->
  DeltaEncoder.write_target c d0 fed = Ok d ->
  DeltaEncoder.bytes_in d = lenZ fed /\
  DeltaEncoder.windows_written d = lenZ fed / window_size opts /\
  DeltaEncoder.buffer d = drop (Z.to_nat (lenZ fed / window_size opts * window_size opts)) fed.
Proof.
  intros Hn Hl Hd0 Hw. pose proof (new_state _ _ _ Hd0) as (Ho & Hb & Hby & Hww).
  destruct (cuts_exist (window_size opts) fed) as (ws & r & Hcut); [lia|].
  rewrite (write_target_cuts d0 fed ws r) in Hw;
    [|by eapply new_resting|done|lia|by rewrite Ho, Hb].
  apply bind_ok_inv in Hw as (d1 & Hws & [= <-]). simpl. rewrite Hby. split_and!; [done| |].
  - pose proof (cuts_count _ _ _ _ (proj1 Hn) Hcut) as Hk.
    assert (lenZ ws <= lenZ fed) by (rewrite Hk; apply Z.div_le_upper_bound; [lia|pose proof (lenZ_nonneg fed); nia]).
    apply encode_windows_count in Hws; lia.
  - exact (cuts_rest _ _ ws r (proj1 Hn) Hcut).
Qed.

(** The windows [finish] reports: the target's length over the window size,
    rounded up. *)
Lemma windows_counted source opts pieces delta n :
  0 < window_size opts < 2 ^ 62 -> lenZ (concat pieces) < 2 ^ 62 ->
  encode_pieces c source opts pieces = Ok (delta, n) ->
  n = (lenZ (concat pieces) + window_size opts - 1) / window_size opts.
Proof.
  intros Hn Hl Henc. set (w := window_size opts) in *. set (t := concat pieces) in *.
  unfold encode_pieces in Henc. apply bind_ok_inv in Henc as (d0 & Hd0 & Henc).
  pose proof (new_state _ _ _ Hd0) as (_ & _ & Hby & _).
  rewrite feed_concat in Henc by (by eapply new_resting || done || (fold t; lia)). fold t in Henc.
  apply bind_ok_inv in Henc as (d1 & Hd1 & Hfin).
  destruct (write_target_state source opts d0 t d1) as (_ & Hww & Hbuf); [done..|]. fold w in Hww, Hbuf.
  pose proof (Z.div_mod (lenZ t) w ltac:(lia)) as Hdm. pose proof (Z.mod_pos_bound (lenZ t) w ltac:(lia)) as Hm.
  pose proof (lenZ_nonneg t). pose proof (Z.div_pos (lenZ t) w ltac:(lia) ltac:(lia)).
  assert (lenZ t / w <= lenZ t) by (apply Z.div_le_upper_bound; nia).
  assert (lenZ (DeltaEncoder.buffer d1) = lenZ t mod w) as Hbl by (rewrite Hbuf, lenZ_drop; lia).
  unfold DeltaEncoder.finish in Hfin. apply bind_ok_inv in Hfin as (d2 & Hd2 & Hfin).
  apply bind_ok_inv in Hfin as (st & _ & Hfin). apply bind_ok_inv in Hfin as (x & _ & [= _ <-]).
  destruct (DeltaEncoder.buffer d1) as [|b l] eqn:Hb.
  - injection Hd2 as <-. change (lenZ (@nil Z)) with 0 in Hbl. rewrite Hww.
    apply (Z.div_unique (lenZ t + w - 1) w (lenZ t / w) (w - 1)); lia.
  - apply encode_window_keeps in Hd2 as (_ & _ & _ & Hk). cbn [DeltaEncoder.windows_written DeltaEncoder.set_buffer] in Hk.
    rewrite lenZ_cons in Hbl. pose proof (lenZ_nonneg l).
    rewrite add_w_ok in Hk by (unfold in_range; lia). injection Hk as <-. rewrite Hww.
    apply (Z.div_unique (lenZ t + w - 1) w (lenZ t / w + 1) (lenZ t mod w - 1)); lia.
Qed.
End Frame.

(** ** Theorems *)

Section Theorems.
Context {B : Build} `{Adler32} `{Codecs} (c : cpu).

(** The pieces do not matter. *)
Lemma pieces_joined (source : bytes) (opts : CompressOptions) (pieces : list bytes) :
  0 < window_size opts < 2 ^ 62 -> lenZ (concat pieces) < 2 ^ 62 ->
  encode_pieces c source opts pieces = encode_pieces c source opts [concat pieces].
Proof.
  intros Hn Hl. unfold encode_pieces.
  destruct (DeltaEncoder.new c [] source opts) as [d| | |] eqn:Hd; cbn [bind]; try done.
  pose proof (new_state c _ _ _ Hd) as (_ & _ & Hby & _).
  rewrite !feed_concat; cbn [concat]; rewrite ?app_nil_r; try done; try lia; by eapply new_resting.
Qed.

(** C12: the delta does not depend on how the target is cut in calls.  Whatever
    the pieces, [DeltaEncoder] has the same outcome as for the whole target in
    one call: the same bytes and the same count of windows, or the same error
    with the same bytes written before it, or the same panic. *)
Theorem pieces_irrelevant (source : bytes) (opts : CompressOptions) (pieces : list bytes) :
  0 < window_size opts < 2 ^ 62 -> lenZ (concat pieces) < 2 ^ 62 ->
  encode_pieces c source opts pieces = encode_pieces c source opts [concat pieces].
Proof. apply pieces_joined. Qed.

(** C22: the states of an encoder.  Every state a client reaches by calls of
    [write_target] is the one that a single call with all the bytes [fed]
    gives; it has counted them, has written a window for each full window size
    of them, and buffers exactly the bytes after those. *)
Theorem encoder_states (source : bytes) (opts : CompressOptions) d fed :
  0 < window_size opts < 2 ^ 62 -> lenZ fed < 2 ^ 62 -> client c source opts d fed ->
  (exists d0, DeltaEncoder.new c [] source opts = Ok d0 /\ DeltaEncoder.write_target c d0 fed = Ok d) /\
  DeltaEncoder.bytes_in d = lenZ fed /\
  DeltaEncoder.windows_written d = lenZ fed / window_size opts /\
  DeltaEncoder.buffer d = drop (Z.to_nat (lenZ fed / window_size opts * window_size opts)) fed.
Proof.
  intros Hn Hl Hc. destruct (client_one_call c source opts d fed Hn Hc Hl) as (d0 & Hd0 & Hw).
  split; [eauto|]. by apply (write_target_state c source opts d0 fed d).
Qed.
End Theorems.

(** ** Witnesses *)

#[local] Instance checked_build : Build := {| debug_build := true |}.
#[local] Instance sample_adler : Adler32 := adler32_fallback.
#[local] Instance sample_codecs : Codecs := zeros_codecs.

Lemma pieces_irrelevant_witness :
  encode_pieces X86_avx2 sample_source (sample_options 6) sample_pieces
  = encode_pieces X86_avx2 sample_source (sample_options 6) [concat sample_pieces].
Proof.
  apply (pieces_irrelevant X86_avx2 sample_source (sample_options 6) sample_pieces); [by split|reflexivity].
Defined.

Lemma encoder_states_witness :
  exists d, DeltaEncoder.bytes_in d = 20 /\ DeltaEncoder.windows_written d = 1 /\
    DeltaEncoder.buffer d = seqZ 17 4.
Proof.
  assert (exists d, client X86_avx2 sample_source (sample_options 0) d (seqZ 1 20)) as [d Hd].
  { assert (exists d, (let* d := DeltaEncoder.new X86_avx2 [] sample_source (sample_options 0) in
      let* d := DeltaEncoder.write_target X86_avx2 d (seqZ 1 9) in
      DeltaEncoder.write_target X86_avx2 d (seqZ 10 11)) = Ok d) as (d & Hd).
    { apply returns_ok. vm_compute. reflexivity. }
    inv_bind Hd. exists d. change (seqZ 1 20) with (([] ++ seqZ 1 9) ++ seqZ 10 11).
    eapply client_write; [eapply client_write; [by apply client_new|done]|done]. }
  destruct (encoder_states X86_avx2 sample_source (sample_options 0) d (seqZ 1 20)) as (_ & Hby & Hw & Hb);
    [by split|done|done|]. exists d. rewrite Hby, Hw, Hb. by split_and!.
Defined.
