(* ===== verification/Portable.v ===== *)
(** * The same delta on every machine

    The comparison kernels differ from CPU to CPU ([src/src/hash/rolling.rs]);
    the search calls them within the bounds in which they agree.  So the
    instructions found, what the optimizer makes of them and the bytes of a
    delta do not depend on which instruction set the dispatch found, on CPUs of
    the same byte order.  (The small checksums are read in native byte order:
    across byte orders the hash chains differ, and the deltas may.) *)

From stdpp Require Import base numbers list option.
From Stdlib Require Import ZArith Lia.
From S2P Require Import Prelude Varint AddrCache CodeTable Semantics Header WindowEncoder Source.
From S2P Require Import Secondary WindowDecoder StreamRoundtrip Kernels HashTables Matching.
From S2P Require Import MatchingCorrect Emit Engine Pipeline Rayon Delta DeltaCorrect Pieces.

Local Open Scope Z_scope.
Local Open Scope rust_scope.

(** ** Inverting the slices that guard a call *)

Lemma bind_ext {E A C} (m : result E A) (k k' : A -> result E C) :
  (forall a, m = Ok a -> k a = k' a) -> bind m k = bind m k'.
Proof. intros Hk. destruct m; simpl; auto. Qed.

Lemma slice_inv {E} (l : bytes) a b s :
  slice (E:=E) l a b = Ok s -> 0 <= a <= b /\ b <= lenZ l /\ s = sub l a (b - a).
Proof.
  unfold slice. destruct ((0 <=? a) && (a <=? b) && (b <=? lenZ l)) eqn:Hb; [|done].
  rewrite !andb_true_iff, !Z.leb_le in Hb. intros [= <-]. split_and!; (done || lia).
Qed.

Lemma slice_from_inv {E} (l : bytes) a s :
  slice_from (E:=E) l a = Ok s -> 0 <= a <= lenZ l /\ s = drop (Z.to_nat a) l.
Proof.
  intros Hs. pose proof Hs as Hs'. unfold slice_from in Hs. apply slice_inv in Hs as (Ha & _ & _).
  rewrite slice_from_ok in Hs' by lia. injection Hs' as <-. split; [lia|done].
Qed.

Lemma narrow_inv {B : Build} {E} w z r : narrow (E:=E) w z = Ok r -> in_range w z -> r = z.
Proof. intros Hn Hz. rewrite narrow_ok in Hn by done. by injection Hn. Qed.

Section Swap.
Context {B : Build} {E : Type} (c' : cpu).

(** [e] on the machine [c']. *)
Definition onto (e : MatchEngine.t) : MatchEngine.t :=
  MatchEngine.mk (MatchEngine.config e) (MatchEngine.large_hash e) (MatchEngine.large_table e)
    (MatchEngine.small_table e) (MatchEngine.sprevsz e) (MatchEngine.match_srcpos e) c'.

(** ** The kernels where they agree *)

Lemma forward_swap c s1 s2 n :
  wf_bytes s1 -> wf_bytes s2 -> 0 <= n -> n <= lenZ s1 -> n <= lenZ s2 ->
  forward_match_fn (E:=E) c' s1 s2 n = forward_match_fn c s1 s2 n.
Proof. intros. by rewrite !forward_kernels. Qed.

Lemma backward_swap c s1 s2 n :
  wf_bytes s1 -> wf_bytes s2 -> 0 <= n -> n <= lenZ s1 -> n <= lenZ s2 ->
  backward_match_fn (E:=E) c' s1 s2 n = backward_match_fn c s1 s2 n.
Proof. intros. by rewrite !backward_kernels. Qed.

Lemma run_swap c data byte n :
  wf_bytes data -> is_u8 byte -> 0 <= n <= lenZ data ->
  run_length_fn (E:=E) c' data byte n = run_length_fn c data byte n.
Proof. intros. by rewrite !run_kernels. Qed.

(** ** The optimizer *)

Section Optimizer.
Context (c : cpu).

(** The run length of a suffix at its first byte. *)
Lemma suffix_run_swap data i b s n :
  wf_bytes data -> lenZ data < 2 ^ 64 -> index (E:=E) data i = Ok b ->
  slice_from (E:=E) data i = Ok s -> sub_w (E:=E) 64 (lenZ data) i = Ok n ->
  run_length_fn (E:=E) c' s b n = run_length_fn c s b n.
Proof.
  intros Hw Hl Hb Hs Hn. apply index_inv in Hb as [Hi Hb]. apply slice_from_inv in Hs as [_ ->].
  apply narrow_inv in Hn as ->; [|unfold in_range; lia].
  apply run_swap; [by apply Forall_drop|by eapply (Forall_lookup_1 is_u8)|rewrite lenZ_drop; lia].
Qed.

Lemma add_end_swap fuel data : wf_bytes data -> lenZ data < 2 ^ 64 -> forall i,
  add_end (E:=E) c' fuel data i = add_end c fuel data i.
Proof.
  intros Hw Hl. induction fuel as [|fuel IH]; intros i; cbn [add_end]; [done|].
  destruct (i <? lenZ data); [|done]. apply bind_ext; intros b Hb. apply bind_ext; intros s Hs.
  apply bind_ext; intros n Hn. rewrite (suffix_run_swap data i b s n) by done.
  apply bind_ext; intros rl _. case_match; [done|]. apply bind_ext; intros j _. apply IH.
Qed.

Lemma split_loop_swap fuel data : wf_bytes data -> lenZ data < 2 ^ 64 -> forall i out,
  split_loop (E:=E) c' fuel data i out = split_loop c fuel data i out.
Proof.
  intros Hw Hl. induction fuel as [|fuel IH]; intros i out; cbn [split_loop]; [done|].
  destruct (i <? lenZ data); [|done]. apply bind_ext; intros n Hn. case_match; [done|].
  apply bind_ext; intros b Hb. apply bind_ext; intros s Hs.
  rewrite (suffix_run_swap data i b s n) by done. apply bind_ext; intros rl _.
  case_match; apply bind_ext; intros j _; [apply IH|]. rewrite add_end_swap by done.
  apply bind_ext; intros k _. apply bind_ext; intros m _. apply IH.
Qed.

Lemma split_step_swap target inst s : wf_bytes target -> lenZ target < 2 ^ 64 ->
  split_step (E:=E) c' target inst s = split_step c target inst s.
Proof.
  intros Hw Hl. unfold split_step. destruct s as [pos out], inst; [|reflexivity..].
  apply bind_ext; intros e _. apply bind_ext; intros data Hd. apply slice_inv in Hd as (? & ? & ->).
  unfold split_add_with_runs. destruct (sub target pos (e - pos)) eqn:Hs; [done|]. rewrite <- Hs.
  rewrite split_loop_swap; [done|by apply sub_wf|rewrite sub_length; lia].
Qed.

Lemma for_in_ext {A S} (l : list A) (f g : A -> S -> result E S) :
  (forall x s, f x s = g x s) -> forall s, for_in l f s = for_in l g s.
Proof.
  intros Hfg. induction l as [|x l IH]; intros s; cbn [for_in]; [done|]. rewrite Hfg.
  apply bind_ext; intros s' _. apply IH.
Qed.

Lemma optimize_swap insts target : wf_bytes target -> lenZ target < 2 ^ 64 ->
  optimize (E:=E) c' insts target = optimize c insts target.
Proof.
  intros Hw Hl. unfold optimize, split_add_runs. destruct insts; [done|]. apply bind_ext; intros l _.
  rewrite (for_in_ext (reverse l) (split_step c' target) (split_step c target)); [done|].
  intros. by apply split_step_swap.
Qed.
End Optimizer.

(** ** Finding one match *)

Lemma small_chain_loop_swap e target pos fuel : wf_bytes target -> lenZ target < 2 ^ 64 ->
  forall base chain best off,
  small_chain_loop (E:=E) fuel (onto e) target pos base chain best off
  = small_chain_loop fuel e target pos base chain best off.
Proof.
  intros Hw Hl. induction fuel as [|fuel IH]; intros base chain best off; cbn [small_chain_loop]; [done|].
  apply bind_ext; intros n Hn. destruct (Z.leb_spec pos base); [done|].
  apply bind_ext; intros s1 Hs1. apply bind_ext; intros s2 Hs2.
  apply slice_from_inv in Hs1 as [Hb ->], Hs2 as [Hp ->].
  apply narrow_inv in Hn as ->; [|unfold in_range; lia]. cbn [onto MatchEngine.kernels].
  rewrite (forward_swap (MatchEngine.kernels e)); [|by apply Forall_drop|by apply Forall_drop|lia|rewrite lenZ_drop; lia..].
  apply bind_ext; intros m _. cbn [MatchEngine.config MatchEngine.small_table].
  destruct (best <? m); [apply bind_ext; intros [] _; [done|]|];
    (apply bind_ext; intros k _; case_match; [done|]; apply bind_ext; intros [p|] _; [apply IH|done]).
Qed.

Lemma small_match_swap e target pos sc mm : wf_bytes target -> lenZ target < 2 ^ 64 ->
  small_match (E:=E) (onto e) target pos sc mm = small_match e target pos sc mm.
Proof.
  intros Hw Hl. unfold small_match. cbn [onto MatchEngine.small_table MatchEngine.config].
  apply bind_ext; intros [head|] _; [|done]. change (MatchEngine.mk _ _ _ _ _ _ c') with (onto e).
  by rewrite small_chain_loop_swap.
Qed.

Lemma extend_slice_swap e target source pos src_pos :
  wf_bytes target -> wf_bytes source -> lenZ target < 2 ^ 64 -> lenZ source < 2 ^ 64 ->
  extend_source_match_slice (E:=E) (onto e) target source pos src_pos
  = extend_source_match_slice e target source pos src_pos.
Proof.
  intros Hw Hs Hl Hsl. unfold extend_source_match_slice. cbn [onto MatchEngine.kernels].
  case_match; [done|]. apply bind_ext; intros tl Htl. apply bind_ext; intros sl Hsl'.
  apply bind_ext; intros s1 Hs1. apply bind_ext; intros s2 Hs2.
  apply slice_from_inv in Hs1 as [Hp1 ->], Hs2 as [Hp2 ->].
  apply narrow_inv in Htl as ->, Hsl' as ->; [|unfold in_range; lia..].
  rewrite (forward_swap (MatchEngine.kernels e)); [|by apply Forall_drop|by apply Forall_drop|lia|rewrite lenZ_drop; lia..].
  apply bind_ext; intros fwd _. case_match; [done|].
  destruct (Z.ltb_spec 0 (Z.min pos src_pos)); [|done]. f_equal.
  apply bind_ext; intros a1 Ha1. apply bind_ext; intros s1 Hs1.
  apply bind_ext; intros a2 Ha2. apply bind_ext; intros s2 Hs2.
  apply narrow_inv in Ha1 as ->, Ha2 as ->; [|unfold in_range; lia..].
  apply slice_inv in Hs1 as (_ & _ & ->), Hs2 as (_ & _ & ->).
  apply backward_swap; [by apply sub_wf|by apply sub_wf|lia|rewrite sub_length; lia..].
Qed.

(** ** The scan *)

Lemma probe_kernels e target (source : option bytes) s e1 s1 :
  probe (E:=E) e target source source s = Ok (e1, s1) -> MatchEngine.kernels e1 = MatchEngine.kernels e.
Proof.
  assert (forall sp fwd, probe_hit (E:=E) e target source e s sp fwd = Ok (e1, s1) ->
    MatchEngine.kernels e1 = MatchEngine.kernels e) as Hhit.
  { unfold probe_hit. intros sp fwd Hp. apply bind_ok_inv in Hp as (e2 & He2 & Hp).
    apply bind_ok_inv in Hp as (s2 & _ & [= <- _]). case_match; [|by injection He2 as <-].
    by apply bind_ok_inv in He2 as (p & _ & [= <-]). }
  unfold probe. destruct source as [src|]; [|by intros [= <- _]].
  case_match; [|by intros [= <- _]]. intros Hp. apply bind_ok_inv in Hp as (n & _ & Hp).
  case_match; [|by injection Hp as <- _]. apply bind_ok_inv in Hp as (x & _ & Hp).
  apply bind_ok_inv in Hp as (f & _ & Hp). case_match; [by eapply Hhit|by injection Hp as <- _].
Qed.

Section Scan.
Context (e : MatchEngine.t) (target : bytes) (source : option bytes).
Context (Htw : wf_bytes target) (Htl : lenZ target < 2 ^ 63).
Context (Hsw : forall l, source = Some l -> wf_bytes l /\ lenZ l < 2 ^ 63).
Context (Hend : little_endian c' = little_endian (MatchEngine.kernels e)).

Lemma rehash_swap s : rehash (E:=E) (onto e) target source s = rehash e target source s.
Proof. unfold rehash. cbn [onto MatchEngine.kernels]. by rewrite Hend. Qed.

Lemma accept_swap s len : accept (E:=E) (onto e) target source s len = accept e target source s len.
Proof.
  unfold accept, skip_match. apply bind_ext; intros b _. destruct b; [done|]. cbn [negb].
  apply bind_ext; intros p _. by rewrite rehash_swap.
Qed.

Lemma try_run_swap s :
  0 <= input_pos s -> input_pos s + slook e <= lenZ target -> 0 <= slook e -> is_u8 (run_c s) ->
  try_run (E:=E) (onto e) target source s = try_run e target source s.
Proof.
  intros Hp Hroom H0 Hc. unfold try_run. change (slook (onto e)) with (slook e).
  destruct (Z.eqb_spec (run_l s) (slook e)) as [->|]; [|done].
  apply bind_ext; intros a Ha. apply bind_ext; intros n Hn. apply bind_ext; intros from Hfrom.
  apply bind_ext; intros rest Hrest. cbn [onto MatchEngine.kernels].
  apply narrow_inv in Ha as ->; [|unfold in_range; lia]. apply narrow_inv in Hn as ->; [|unfold in_range; lia].
  apply narrow_inv in Hfrom as ->; [|unfold in_range; lia]. apply slice_from_inv in Hrest as [Hf ->].
  rewrite (run_swap (MatchEngine.kernels e)); [|by apply Forall_drop|done|rewrite lenZ_drop; lia].
  apply bind_ext; intros k _. apply bind_ext; intros m _. case_match; [apply accept_swap|done].
Qed.

Lemma extend_swap pos src_pos :
  extend (E:=E) (onto e) target source source pos src_pos = extend e target source source pos src_pos.
Proof.
  unfold extend. destruct source as [src|]; [|done]. destruct (Hsw src eq_refl) as [Hs Hl].
  apply extend_slice_swap; (done || lia).
Qed.

Lemma try_large_swap s skip :
  try_large (E:=E) (onto e) target source source s skip = try_large e target source source s skip.
Proof.
  unfold try_large. change (large_room (onto e)) with (large_room (E:=E) (S:=bytes) e).
  apply bind_ext; intros room _. cbn [onto MatchEngine.large_table].
  apply bind_ext; intros [p|] _; [|done]. change (MatchEngine.mk _ _ _ _ _ _ c') with (onto e).
  rewrite extend_swap. apply bind_ext; intros [m|] _; [|done].
  apply bind_ext; intros b _. apply bind_ext; intros f _. case_match; [|done]. apply accept_swap.
Qed.

Lemma try_small_swap s skip :
  try_small (E:=E) (onto e) target source s skip = try_small e target source s skip.
Proof.
  unfold try_small.
  change (MatchEngine.set_small_table (onto e) (table s)) with (onto (MatchEngine.set_small_table e (table s))).
  rewrite small_match_swap by (done || lia). apply bind_ext; intros o _. apply bind_ext; intros t _.
  destruct o as [m|]; [|done]. case_match; [|done]. apply accept_swap.
Qed.

Lemma advance_swap s skip :
  advance (E:=E) (onto e) target source s skip = advance e target source s skip.
Proof. unfold advance. cbn [onto MatchEngine.kernels]. by rewrite Hend. Qed.

Context (He : engine_wf (lenZ (source_bytes (contents:=fun s : bytes => s) source)) e).
Context (Hsb : wf_bytes (source_bytes (contents:=fun s : bytes => s) source)).
Context (Hlen : lenZ (source_bytes (contents:=fun s : bytes => s) source) + lenZ target < 2 ^ 63).

Lemma whole_contiguous : contiguous_ok (contents:=fun s : bytes => s) source source.
Proof. intros l Hl. by rewrite Hl. Qed.

Lemma scan_loop_swap fuel : forall s,
  scan_inv (contents:=fun s : bytes => s) target source s ->
  scan_loop (E:=E) (onto e) target source source fuel s = scan_loop e target source source fuel s.
Proof.
  pose proof whole_contiguous as Hc. pose proof (slook_4 (contents:=fun s : bytes => s) e source He) as H4.
  induction fuel as [|fuel IH]; intros s Hs; pose proof Hs as [[Hp _ _ _] Hr]; [done|]. cbn [scan_loop].
  change (slook (onto e)) with (slook e). rewrite H4, add_w_ok by (unfold in_range; lia). cbn [bind].
  destruct (Z.ltb_spec (lenZ target) (input_pos s + 4)); [done|].
  rewrite try_run_swap by (rewrite ?H4; try lia; by apply (run_byte (contents:=fun s : bytes => s) target source Htw s Hr)).
  destruct (try_run_ok (E:=E) (contents:=fun s : bytes => s) e target source He Htw Hlen s)
    as (f1 & -> & Hf1); [done|lia|]. cbn [bind].
  destruct f1 as [s1|s1 skip1]; cbn [bind]; [apply IH, Hf1|]. destruct Hf1 as [Hs1 Hp1].
  rewrite try_large_swap.
  destruct (try_large_ok (E:=E) (contents:=fun s : bytes => s) e target source source He Hsb Htw Hlen Hc s1 skip1)
    as (f2 & -> & Hf2); [done|]. cbn [bind].
  destruct f2 as [s2|s2 skip2]; cbn [bind]; [apply IH, Hf2|]. destruct Hf2 as [Hs2 Hp2].
  rewrite try_small_swap.
  destruct (try_small_ok (E:=E) (contents:=fun s : bytes => s) e target source He Htw Hlen s2 skip2)
    as (f3 & -> & Hf3); [done|]. cbn [bind].
  destruct f3 as [s3|s3 skip3]; cbn [bind]; [apply IH, Hf3|]. destruct Hf3 as [Hs3 Hp3].
  rewrite advance_swap.
  destruct (advance_ok (E:=E) (contents:=fun s : bytes => s) e target source He Htw Hlen s3 skip3)
    as (s4 & more & -> & _ & Hmore); [done|lia|]. cbn [bind].
  destruct more; [|done]. apply IH. by apply Hmore.
Qed.

(** The probe returns the engine as well. *)
Definition onto_scan (r : MatchEngine.t * Scan) : MatchEngine.t * Scan := (onto r.1, r.2).

Lemma probe_hit_swap s sp fwd :
  probe_hit (E:=E) (onto e) target source (onto e) s sp fwd
  = let* r := probe_hit e target source e s sp fwd in Ok (onto_scan r).
Proof.
  unfold probe_hit. rewrite rehash_swap. destruct (fwd =? lenZ target).
  - destruct (add_w 64 sp fwd); cbn [bind]; try done. by destruct (rehash e target source _).
  - cbn [bind]. by destruct (rehash e target source _).
Qed.

Lemma probe_swap s :
  probe (E:=E) (onto e) target source source s = let* r := probe e target source source s in Ok (onto_scan r).
Proof.
  unfold probe. cbn [onto MatchEngine.match_srcpos MatchEngine.kernels].
  change (MatchEngine.mk _ _ _ _ _ _ c') with (onto e). destruct source as [src|] eqn:Hsrc; [|done].
  destruct (Hsw src eq_refl) as [Hs Hl]. case_match; [|done].
  destruct (sub_w 64 (lenZ src) _) as [n| | |] eqn:Hn; cbn [bind]; try done.
  case_match; [|done]. destruct (slice_from src _) as [s1| | |] eqn:Hs1; cbn [bind]; try done.
  apply slice_from_inv in Hs1 as [Hp ->]. apply narrow_inv in Hn as ->; [|unfold in_range; lia].
  pose proof (lenZ_nonneg target).
  rewrite (forward_swap (MatchEngine.kernels e)); [|by apply Forall_drop|done|lia|rewrite lenZ_drop; lia|lia].
  destruct (forward_match_fn _ _ _ _) as [fwd| | |]; cbn [bind]; try done.
  case_match; [|done]. rewrite <- Hsrc. apply probe_hit_swap.
Qed.
End Scan.

(** The engine a computation returns, moved. *)
Definition onto_engine {A} (r : MatchEngine.t * A) : MatchEngine.t * A := (onto r.1, r.2).

Lemma find_matches_swap e target (source : option bytes) :
  let src := source_bytes (contents:=fun s : bytes => s) source in
  little_endian c' = little_endian (MatchEngine.kernels e) ->
  engine_wf (lenZ src) e -> wf_bytes src -> wf_bytes target -> lenZ src + lenZ target < 2 ^ 63 ->
  find_matches (E:=E) (onto e) target source
  = let* r := find_matches e target source in Ok (onto_engine r).
Proof.
  intros src Hend He Hsw Htw Hlen. unfold find_matches. pose proof (lenZ_nonneg target). pose proof (lenZ_nonneg src).
  assert (match source with Some s => as_slice s 0 (sd_len s) | None => Ok None end = Ok (E:=E) source) as ->.
  { clear He Hsw. subst src. destruct source as [s|]; [|done]. simpl. unfold slice_as_slice. rewrite add_w_ok by (unfold in_range; simpl in *; lia).
    cbn [bind]. rewrite Z.add_0_l, Z.leb_refl, slice_ok by (simpl in *; lia). cbn [bind]. by rewrite Z.sub_0_r, sub_all. }
  cbn [bind]. change (slook (onto e)) with (slook e). change (llook (onto e)) with (llook e).
  cbn [onto MatchEngine.kernels MatchEngine.small_table MatchEngine.large_hash]. rewrite Hend.
  change (MatchEngine.mk _ _ _ _ _ _ c') with (onto e).
  pose proof (slook_4 (contents:=fun s : bytes => s) e source He) as H4. rewrite H4.
  destruct (Z.ltb_spec (lenZ target) 4) as [|Hge]; [done|].
  destruct (small_cksum (E:=E) (little_endian (MatchEngine.kernels e)) target) as [sc| | |]; try done. cbn [bind].
  destruct (comprun_ok (E:=E) target 4) as (n & c & -> & Hrun & Hn & Hn1); [lia..|]. cbn [bind].
  destruct (if do_large source && _ then _ else _) as [lc| | |]; try done. cbn [bind].
  set (s0 := scan 0 MIN_MATCH n c sc lc [] _).
  assert (scan_inv (contents:=fun s : bytes => s) target source s0) as Hs0.
  { split; [constructor; simpl; try done; [unfold MIN_MATCH; lia..|apply small_reset_wf, He]|].
    intros _. simpl. split; [exact Hrun|]. specialize (Hn1 ltac:(lia)). lia. }
  assert (forall l, source = Some l -> wf_bytes l /\ lenZ l < 2 ^ 63) as Hsrc
    by (intros l ->; subst src; simpl in *; split; [done|lia]).
  rewrite probe_swap by (done || lia).
  destruct (probe_ok (E:=E) (contents:=fun s : bytes => s) e target source source He Hsw Htw Hlen
    (whole_contiguous source) s0 Hs0) as (e1 & s1 & Hpr & He1 & Hs1). rewrite Hpr.
  apply probe_kernels in Hpr. cbn [bind onto_scan fst snd].
  rewrite scan_loop_swap; try done; [|lia|by rewrite Hpr]. cbn [bind].
  destruct (scan_loop e1 target source source _ s1) as [s2| | |]; try done. cbn [bind].
  by destruct (matches_to_instructions target _ _).
Qed.

(** ** Building the engine *)

Lemma new_swap c config n w :
  MatchEngine.new (E:=E) c' config n w = let* e := MatchEngine.new c config n w in Ok (onto e).
Proof.
  unfold MatchEngine.new. destruct (if 0 <? n then _ else _) as [slots| | |]; try done. cbn [bind].
  destruct (if (1 <? small_chain config) || _ then _ else _) as [k| | |]; try done. cbn [bind].
  by destruct (SmallTable.new w k).
Qed.

Lemma index_source_swap e (src : bytes) :
  MatchEngine.index_source (E:=E) (onto e) src = let* e1 := MatchEngine.index_source e src in Ok (onto e1).
Proof.
  unfold MatchEngine.index_source. cbn [onto MatchEngine.config MatchEngine.large_table].
  case_match; [done|]. destruct (as_slice src 0 (sd_len src)) as [[l|]| | |]; try done; cbn [bind].
  - change (MatchEngine.index_data (onto e)) with (MatchEngine.index_data (E:=E) e).
    by destruct (MatchEngine.index_data e 0 l _ _).
  - assert (forall fuel n off t, MatchEngine.index_chunks (E:=E) fuel (onto e) src n off t
      = MatchEngine.index_chunks fuel e src n off t) as ->.
    { induction fuel as [|fuel IH]; intros n off t; cbn [MatchEngine.index_chunks]; [done|].
      change (MatchEngine.config (onto e)) with (MatchEngine.config e). case_match; [|done].
      apply bind_ext; intros e0 _. apply bind_ext; intros k _. case_match; [done|].
      apply bind_ext; intros ch _. apply bind_ext; intros t' _. apply IH. }
    by destruct (MatchEngine.index_chunks _ e src _ _ _).
Qed.

(** ** The machine of an engine does not change *)

Lemma index_source_kernels e (src : bytes) e1 :
  MatchEngine.index_source (E:=E) e src = Ok e1 -> MatchEngine.kernels e1 = MatchEngine.kernels e.
Proof.
  unfold MatchEngine.index_source. case_match; [by intros [= <-]|]. intros Hi.
  apply bind_ok_inv in Hi as (o & _ & Hi). by apply bind_ok_inv in Hi as (t & _ & [= <-]).
Qed.

Lemma find_matches_kernels e target (source : option bytes) e1 insts :
  let src := source_bytes (contents:=fun s : bytes => s) source in
  lenZ src < 2 ^ 63 ->
  find_matches (E:=E) e target source = Ok (e1, insts) -> MatchEngine.kernels e1 = MatchEngine.kernels e.
Proof.
  intros src Hl. unfold find_matches. intros Hf. apply bind_ok_inv in Hf as (o & Ho & Hf).
  assert (o = source) as ->.
  { subst src. destruct source as [s|]; [|by injection Ho as <-]. simpl in *. unfold slice_as_slice in Ho.
    pose proof (lenZ_nonneg s). rewrite add_w_ok in Ho by (unfold in_range; lia). cbn [bind] in Ho.
    rewrite Z.add_0_l, Z.leb_refl, slice_ok in Ho by lia. cbn [bind] in Ho. by rewrite Z.sub_0_r, sub_all in Ho; injection Ho. }
  destruct (lenZ target <? slook e); [by injection Hf as <- _|]. apply bind_ok_inv in Hf as (sc & _ & Hf).
  apply bind_ok_inv in Hf as ([rl rc] & _ & Hf). apply bind_ok_inv in Hf as (lc & _ & Hf).
  apply bind_ok_inv in Hf as ([e2 s2] & Hp & Hf). apply bind_ok_inv in Hf as (s3 & _ & Hf).
  apply bind_ok_inv in Hf as (l & _ & [= <- _]). simpl. by apply probe_kernels in Hp.
Qed.
End Swap.

(** ** The one-shot engine *)

Section EngineSwap.
Context {B : Build} `{Adler32} (c c' : cpu).
Context (Hend : little_endian c' = little_endian c).

(** Build, index and search. *)
Lemma search_swap {E} config (src target : bytes) n w (o : option bytes) :
  config_wf config -> 0 <= w <= 2 ^ 63 -> wf_bytes src -> wf_bytes target ->
  lenZ src + lenZ target < 2 ^ 63 -> source_bytes (contents:=fun s : bytes => s) o = src ->
  forall index, index = false \/ o = Some src ->
  let run c :=
    let* e := MatchEngine.new (E:=E) c config n w in
    let* e := if index then MatchEngine.index_source e src else Ok e in
    let* (_, insts) := find_matches e target o in Ok insts in
  run c' = run c.
Proof.
  intros Hcfg Hw Hsw Htw Hlen Ho index Hix run. unfold run. rewrite (new_swap c' c).
  pose proof (lenZ_nonneg src). pose proof (lenZ_nonneg target).
  destruct (engine_new_ok (E:=E) c config n w (lenZ src)) as (e & Hnew & He & _); [done|lia|lia|].
  assert (MatchEngine.kernels e = c) as Hk.
  { unfold MatchEngine.new in Hnew. inv_bind Hnew. by injection Hnew as <-. }
  rewrite Hnew. cbn [bind]. destruct index.
  - rewrite index_source_swap.
    destruct (index_source_ok (E:=E) (contents:=fun s : bytes => s) e src) as (e1 & Hi & He1 & _); [done|done|lia|].
    rewrite Hi. cbn [bind]. apply index_source_kernels in Hi.
    rewrite find_matches_swap by (rewrite ?Ho, ?Hi, ?Hk; done).
    by destruct (find_matches e1 target o) as [[]| | |].
  - cbn [bind]. rewrite find_matches_swap by (rewrite ?Ho, ?Hk; done).
    by destruct (find_matches e target o) as [[]| | |].
Qed.

Lemma engine_chunk_swap source opts t st :
  wf_bytes source -> wf_bytes t -> lenZ source + lenZ t < 2 ^ 62 ->
  Engine.encode_chunk c' source opts t st = Engine.encode_chunk c source opts t st.
Proof.
  intros Hsw Htw Hlen. unfold Engine.encode_chunk. pose proof (lenZ_nonneg t). pose proof (lenZ_nonneg source).
  pose proof (config_for_level_wf (Engine.level opts)) as Hcfg.
  assert (forall a b, a = b -> (let* i := a in
    let* we := Engine.emit_instructions (WindowEncoder.new (whole_source source) (Engine.checksum opts)) t (lenZ source) i in
    StreamEncoder.write_window st we (Some t)) = (let* i := b in
    let* we := Engine.emit_instructions (WindowEncoder.new (whole_source source) (Engine.checksum opts)) t (lenZ source) i in
    StreamEncoder.write_window st we (Some t))) as Hcong by (by intros a b ->).
  apply Hcong. clear Hcong. destruct source as [|b0 s0] eqn:Hs.
  - apply (search_swap (config_for_level (Engine.level opts)) [] t 0 (Z.max (lenZ t) 64) None) with (index := false);
      [done|lia|done|done|lia|done|by left].
  - rewrite <- Hs in *.
    apply (search_swap (config_for_level (Engine.level opts)) source t (lenZ source) (Z.max (lenZ t) 64) (Some source))
      with (index := true); [done|lia|done|done|lia|done|by right].
Qed.

Lemma engine_loop_swap source target opts fuel : wf_bytes source -> wf_bytes target ->
  lenZ source + lenZ target < 2 ^ 62 -> forall off st,
  Engine.encode_loop c' fuel source target opts off st = Engine.encode_loop c fuel source target opts off st.
Proof.
  intros Hsw Htw Hlen. induction fuel as [|fuel IH]; intros off st; cbn [Engine.encode_loop]; [done|].
  case_match; [|done]. apply bind_ext; intros e _. apply bind_ext; intros w Hw.
  apply slice_inv in Hw as (? & ? & ->). pose proof (lenZ_nonneg source).
  rewrite engine_chunk_swap; [|done|by apply sub_wf|rewrite sub_length; lia]. apply bind_ext; intros st' _. apply IH.
Qed.
End EngineSwap.

(** ** The streaming encoder *)

Section DeltaSwap.
Context {B : Build} `{Adler32} `{Codecs} (c c' : cpu) (src : bytes).
Context (Hend : little_endian c' = little_endian c).
Context (Hsw : wf_bytes src) (Hsl : lenZ src < 2 ^ 62).

(** [d] on the machine [c']. *)
Definition moved (d : DeltaEncoder.t) : DeltaEncoder.t :=
  DeltaEncoder.set_engine d (onto c' <$> DeltaEncoder.engine d).

(** The engine, if there is one, is a well-formed one of the machine [c]. *)
Definition on_machine (d : DeltaEncoder.t) : Prop :=
  DeltaEncoder.source d = src /\
  forall e, DeltaEncoder.engine d = Some e -> engine_wf (lenZ src) e /\ MatchEngine.kernels e = c.

Lemma new_moved opts : 0 < window_size opts < 2 ^ 62 ->
  DeltaEncoder.new c' [] src opts = (let* d := DeltaEncoder.new c [] src opts in Ok (moved d)) /\
  forall d, DeltaEncoder.new c [] src opts = Ok d -> on_machine d.
Proof.
  intros Hn. unfold DeltaEncoder.new. pose proof (lenZ_nonneg src).
  pose proof (config_for_level_wf (level opts)) as Hcfg.
  assert (forall n, exists e, MatchEngine.new (E:=EncodeError * bytes) c (config_for_level (level opts)) n
    (Z.max (window_size opts) 64) = Ok e /\ engine_wf (lenZ src) e /\ MatchEngine.kernels e = c) as Hnew.
  { intros n. destruct (engine_new_ok (E:=EncodeError * bytes) c (config_for_level (level opts)) n
      (Z.max (window_size opts) 64) (lenZ src)) as (e & He & Hwf & _); [done|lia|lia|].
    exists e. split_and!; [done|done|]. unfold MatchEngine.new in He. inv_bind He. by injection He as <-. }
  rewrite !(new_swap c' c). destruct ((0 <? level opts) && negb (lenZ src =? 0)).
  - destruct (Hnew (lenZ src)) as (e & -> & He & Hk). cbn [bind]. rewrite index_source_swap.
    destruct (index_source_ok (E:=EncodeError * bytes) (contents:=fun s : bytes => s) e src) as (e1 & Hi & He1 & _);
      [done|done|lia|]. rewrite Hi. cbn [bind]. split; [done|]. intros d [= <-]. split; [done|].
    intros e2 [= <-]. split; [done|]. apply index_source_kernels in Hi. congruence.
  - destruct (0 <? level opts).
    + destruct (Hnew 0) as (e & -> & He & Hk). cbn [bind]. split; [done|]. intros d [= <-].
      split; [done|]. by intros e1 [= <-].
    + cbn [bind]. split; [done|]. intros d [= <-]. by split.
Qed.

Lemma search_moved e t :
  engine_wf (lenZ src) e -> MatchEngine.kernels e = c -> wf_bytes t -> lenZ t < 2 ^ 32 ->
  search (E:=EncodeError * bytes) (onto c' e) src t
    = (let* r := search e src t in Ok (onto_engine c' r)) /\
  forall e1 i, search (E:=EncodeError * bytes) e src t = Ok (e1, i) ->
    engine_wf (lenZ src) e1 /\ MatchEngine.kernels e1 = c.
Proof.
  intros He Hk Ht Hl. pose proof (lenZ_nonneg src). pose proof (lenZ_nonneg t).
  set (o := match src with [] => None | _ => Some src end : option bytes).
  assert (source_bytes (contents:=fun s : bytes => s) o = src) as Ho by (unfold o; by destruct src).
  assert (forall e, search (E:=EncodeError * bytes) e src t = Matching.find_matches e t o) as Hs
    by (intros e0; unfold search, o; by destruct src).
  rewrite !Hs. split; [apply find_matches_swap; rewrite ?Ho, ?Hk; (done || lia)|].
  intros e1 i Hf. pose proof Hf as Hf'. apply find_matches_kernels in Hf'; [|rewrite Ho; lia].
  destruct (find_matches_ok (E:=EncodeError * bytes) (contents:=fun s : bytes => s) e t o) as (e2 & i2 & Hf2 & He2 & _);
    rewrite ?Ho in *; [done|done|done|lia|lia|]. rewrite Hf in Hf2. injection Hf2 as <- _. split; [done|congruence].
Qed.

Lemma window_instructions_moved d w : on_machine d -> wf_bytes w -> lenZ w < 2 ^ 32 ->
  DeltaEncoder.window_instructions c' (moved d) w
    = (let* (d', i) := DeltaEncoder.window_instructions c d w in Ok (moved d', i)) /\
  forall d' i, DeltaEncoder.window_instructions c d w = Ok (d', i) -> on_machine d'.
Proof.
  intros [Hs He] Hw Hl. unfold DeltaEncoder.window_instructions. cbn [moved DeltaEncoder.set_engine DeltaEncoder.opts].
  destruct (level (DeltaEncoder.opts d) =? 0).
  { split; [done|]. intros d' i [= <- _]. by split. }
  assert (forall d0, DeltaEncoder.find_matches d0 w = match DeltaEncoder.engine d0 with
    | None => Panic
    | Some e => let* (e', i) := search e (DeltaEncoder.source d0) w in Ok (DeltaEncoder.set_engine d0 (Some e'), i)
    end) as Hfm by (intros d0; unfold DeltaEncoder.find_matches, search; by destruct (DeltaEncoder.engine d0), (DeltaEncoder.source d0)).
  change (DeltaEncoder.mk _ _ _ _ _ _ _ _ _ _ _) with (moved d). rewrite !Hfm.
  cbn [moved DeltaEncoder.set_engine DeltaEncoder.engine DeltaEncoder.source]. rewrite Hs.
  destruct (DeltaEncoder.engine d) as [e|] eqn:Hde; simpl; [|by split]. destruct (He e eq_refl) as [Hwf Hk].
  destruct (search_moved e w Hwf Hk Hw Hl) as [Hsm Hsr]. rewrite Hsm.
  destruct (search e src w) as [[e1 raw]| | |]; cbn [bind onto_engine fst snd]; try by split.
  destruct (Hsr e1 raw eq_refl) as [Hw1 Hk1]. rewrite (optimize_swap c' c) by (done || lia).
  destruct (optimize c raw w) as [i| | |]; cbn [bind]; try by split. split; [done|].
  intros d' i' [= <- _]. split; [done|]. by intros e2 [= <-].
Qed.

Lemma encode_window_moved d w : on_machine d -> wf_bytes w -> lenZ w < 2 ^ 32 ->
  DeltaEncoder.encode_window c' (moved d) w
    = (let* d' := DeltaEncoder.encode_window c d w in Ok (moved d')) /\
  forall d', DeltaEncoder.encode_window c d w = Ok d' -> on_machine d'.
Proof.
  intros Hd Hw Hl. destruct (window_instructions_moved d w Hd Hw Hl) as [Hwi Hon].
  unfold DeltaEncoder.encode_window. change (DeltaEncoder.source (moved d)) with (DeltaEncoder.source d).
  rewrite Hwi. destruct (DeltaEncoder.window_instructions c d w) as [[d1 i]| | |]; cbn [bind]; try by split.
  specialize (Hon d1 i eq_refl). destruct d1. unfold moved, DeltaEncoder.set_engine.
  cbn [DeltaEncoder.source DeltaEncoder.opts DeltaEncoder.stream DeltaEncoder.windows_written
       DeltaEncoder.engine DeltaEncoder.config DeltaEncoder.buffer DeltaEncoder.bytes_in
       DeltaEncoder.last_data_size DeltaEncoder.last_inst_size DeltaEncoder.last_addr_size].
  destruct (Emit.emit_instructions _ w i) as [we| | |]; cbn [bind]; try by split.
  destruct (WindowEncoder.finish_sections we (Some w)) as [secs| | |]; cbn [bind]; try by split.
  destruct (match backend _ with Some _ => _ | None => _ end) as [enc| | |]; cbn [bind]; try by split.
  destruct (StreamEncoder.write_raw_window _ enc) as [st| | |]; cbn [bind]; try by split.
  destruct (add_w 64 _ 1) as [n| | |]; cbn [bind]; try by split. split; [done|]. intros d' [= <-]. exact Hon.
Qed.

Lemma encode_windows_moved ws : Forall (fun w => wf_bytes w /\ lenZ w < 2 ^ 32) ws -> forall d, on_machine d ->
  encode_windows c' ws (moved d) = (let* d' := encode_windows c ws d in Ok (moved d')) /\
  forall d', encode_windows c ws d = Ok d' -> on_machine d'.
Proof.
  unfold encode_windows. induction 1 as [|w ws [Hw Hl] _ IH]; intros d Hd; cbn [for_in].
  - split; [done|]. by intros d' [= <-].
  - destruct (encode_window_moved d w Hd Hw Hl) as [Hm Hon]. rewrite Hm.
    destruct (DeltaEncoder.encode_window c d w) as [d1| | |]; cbn [bind]; try by split.
    apply IH. by apply Hon.
Qed.

Lemma finish_moved d : on_machine d -> wf_bytes (DeltaEncoder.buffer d) -> lenZ (DeltaEncoder.buffer d) < 2 ^ 32 ->
  DeltaEncoder.finish c' (moved d) = DeltaEncoder.finish c d.
Proof.
  intros Hd Hw Hl. unfold DeltaEncoder.finish. change (DeltaEncoder.buffer (moved d)) with (DeltaEncoder.buffer d).
  destruct (DeltaEncoder.buffer d) as [|b0 b1] eqn:Hb; [done|]. rewrite <- Hb in *.
  change (DeltaEncoder.set_buffer (moved d) []) with (moved (DeltaEncoder.set_buffer d [])).
  destruct (encode_window_moved (DeltaEncoder.set_buffer d []) (DeltaEncoder.buffer d)) as [-> _]; [done|done|done|].
  by destruct (DeltaEncoder.encode_window c _ _).
Qed.

Lemma cuts_wf n l ws r : cuts n l ws r -> wf_bytes l -> Forall (fun w => wf_bytes w /\ lenZ w = n) ws /\ wf_bytes r.
Proof.
  intros (-> & Hws & _) Hl. apply wf_bytes_app in Hl as [Hc Hr]. split; [|done].
  induction Hws as [|w ws Hw _ IH]; [constructor|]. cbn [concat] in Hc. apply wf_bytes_app in Hc as [? ?].
  constructor; auto.
Qed.

Lemma encode_one_moved opts target :
  0 < window_size opts < 2 ^ 32 -> wf_bytes target -> lenZ target < 2 ^ 62 ->
  encode_pieces c' src opts [target] = encode_pieces c src opts [target].
Proof.
  intros Hn Ht Hl. unfold encode_pieces. destruct (new_moved opts) as [-> Hon]; [lia|].
  destruct (DeltaEncoder.new c [] src opts) as [d| | |] eqn:Hd; cbn [bind for_in]; [|reflexivity..].
  specialize (Hon d eq_refl). pose proof (new_state c _ _ _ Hd) as (Ho & Hb & Hby & _).
  assert (0 < window_size opts < 2 ^ 62) as Hn' by lia. pose proof (new_resting c _ _ _ Hn' Hd) as Hres.
  destruct (cuts_exist (window_size opts) target) as (ws & r & Hcut); [lia|].
  destruct (cuts_wf _ _ _ _ Hcut Ht) as [Hws Hr].
  rewrite (write_target_cuts c d target ws r); [|done|done|lia|by rewrite Ho, Hb].
  rewrite (write_target_cuts c' (moved d) target ws r);
    [|by destruct Hres; constructor|done|simpl; lia|simpl; by rewrite Ho, Hb].
  destruct (encode_windows_moved ws) with (d := d) as [Hm Hon']; [|done|].
  { eapply Forall_impl; [|exact Hws]. intros w [? ?]. split; [done|lia]. }
  rewrite Hm. destruct (encode_windows c ws d) as [d1| | |]; cbn [bind]; [|reflexivity..].
  apply (finish_moved (frame d1 r _)); [exact (Hon' d1 eq_refl)|done|].
  destruct Hcut as (_ & _ & ?). simpl. lia.
Qed.
End DeltaSwap.

(** ** Theorem *)

(** C17: deltas do not depend on the CPU.  For two machines of the same byte
    order, whatever instruction sets their kernels use, the one-shot engine and
    the streaming encoder have the same outcome on the same input: the same
    delta byte for byte, or the same failure. *)
Theorem deltas_portable {B : Build} `{Adler32} `{Codecs} (c c' : cpu) (source : bytes) :
  little_endian c = little_endian c' -> wf_bytes source -> lenZ source < 2 ^ 61 ->
  (forall opts target output, wf_bytes target -> lenZ target < 2 ^ 61 ->
     Engine.encode_with_options c source target output opts
     = Engine.encode_with_options c' source target output opts) /\
  (forall opts pieces, Forall wf_bytes pieces -> lenZ (concat pieces) < 2 ^ 61 ->
     0 < window_size opts < 2 ^ 32 ->
     encode_pieces c source opts pieces = encode_pieces c' source opts pieces).
Proof.
  intros Hend Hsw Hsl. split.
  - intros opts target output Htw Htl. unfold Engine.encode_with_options.
    by rewrite (engine_loop_swap c' c) by (done || lia).
  - intros opts pieces Hp Hl Hn. rewrite (pieces_joined c), (pieces_joined c') by lia.
    apply (encode_one_moved c' c source); try done; try lia.
    clear -Hp. induction Hp; [constructor|]. by apply wf_bytes_app.
Qed.

Lemma deltas_portable_witness :
  encode_pieces (B:={| debug_build := true |}) (H:=adler32_fallback) (H1:=zeros_codecs) X86_avx2
    sample_source (sample_options 6) sample_pieces
  = encode_pieces (B:={| debug_build := true |}) (H:=adler32_fallback) (H1:=zeros_codecs) Aarch64
    sample_source (sample_options 6) sample_pieces.
Proof.
  destruct (deltas_portable (B:={| debug_build := true |}) (H:=adler32_fallback) (H0:=zeros_codecs)
    X86_avx2 Aarch64 sample_source) as [_ Hp]; [reflexivity|by apply in_range_list|reflexivity|].
  apply Hp; [apply sample_pieces_wf|reflexivity|by split].
Defined.
