(* ===== verification/Size.v ===== *)
(** * How long a delta gets

    Encoding always ends with a delta, whatever the optimizer merges.  A window
    costs its header, its literals, and for each instruction an opcode, a size
    and an address.  Secondary compression never adds to that.
    Stored data grows by less than a hundred bytes for each window; a searched
    target, in the worst case, by a constant factor. *)

From stdpp Require Import base numbers list option.
From Stdlib Require Import ZArith Lia.
From S2P Require Import Prelude Varint AddrCache CodeTable Semantics Header WindowEncoder Source.
From S2P Require Import Secondary WindowDecoder StreamRoundtrip Kernels HashTables Matching.
From S2P Require Import MatchingCorrect Emit Pipeline Rayon Delta DeltaCorrect.

Local Open Scope Z_scope.
Local Open Scope rust_scope.

Section Size.
Context {B : Build} `{Adler32Laws} `{CodecLaws} (c : cpu).
Context (source : bytes) (opts : CompressOptions).

Lemma header_length : lenZ (file_header_bytes (header_of opts)) <= 6.
Proof. unfold header_of. by destruct (backend (secondary opts)). Qed.

(** The windows together. *)
Lemma windows_length ws ts ms :
  carried source opts ws ts ms ->
  lenZ (concat ws) <= 76 * lenZ ts + lenZ (concat ts)
    + 21 * (if level opts =? 0 then lenZ ts else lenZ (concat ts)).
Proof.
  induction 1 as [|w t m ws ts ms (sw & ops & Hc & _ & Hl & Hm & Hb & _) _ IH]; [by destruct (level opts =? 0)|].
  pose proof (carries_length _ _ _ _ _ _ Hc ltac:(lia)) as Hw. rewrite Hl in Hw. unfold inst_bound in Hb. cbn [concat]. rewrite !lenZ_app, lenZ_cons.
  destruct (level opts =? 0); lia.
Qed.
End Size.

(** C19: encoding always ends with a delta, and a bound on its size.  Feed any
    target in any pieces to a [DeltaEncoder] over any source, with any level,
    window size and secondary compression the decoder accepts: no step panics,
    fails or loops, also where the optimizer's merges are not safe.  The delta
    of [n] windows is at most 6 bytes of file header, 76 bytes
    of header for each window, the target, and 21 bytes for each instruction:
    one for each window at level 0, and at most one for each byte of the target
    when it is searched. *)
Theorem delta_size {B : Build} `{Adler32Laws} `{CodecLaws} (c : cpu) (source : bytes)
    (opts : CompressOptions) (pieces : list bytes) :
  wf_bytes source -> lenZ source < 2 ^ 62 -> Forall wf_bytes pieces ->
  lenZ (concat pieces) < 2 ^ 62 -> options_ok opts ->
  exists delta n, encode_pieces c source opts pieces = Ok (delta, n) /\
    lenZ delta <= 6 + 76 * Z.max 1 n + lenZ (concat pieces)
      + 21 * (if level opts =? 0 then Z.max 1 n else lenZ (concat pieces)).
Proof.
  intros Hsw Hsl Hpw Htl Hoo.
  destruct (encode_pieces_if c source opts pieces) as (delta & n & Henc & Hd); [done..|].
  exists delta, n. split; [done|]. destruct Hd as (ws & -> & Hws & _ & -> & Hts).
  apply windows_length in Hws. destruct (or_empty_pieces (windows opts (concat pieces))) as [Hcat Hn].
  rewrite Hcat, Hn, windows_concat in Hws by done. rewrite windows_concat in Hts by done.
  rewrite lenZ_app. pose proof (header_length opts). destruct (level opts =? 0); lia.
Qed.

#[local] Instance checked_build : Build := {| debug_build := true |}.

(** Two runs next to each other, which the optimizer merges into one. *)
Lemma delta_size_witness :
  merges_safe (H1:=zeros_codecs) Aarch64 [] (sample_options 6) two_runs = false /\
  exists delta n, encode_pieces (H:=adler32_fallback) (H1:=zeros_codecs) Aarch64 []
      (sample_options 6) [two_runs] = Ok (delta, n) /\
    lenZ delta <= 6 + 76 * Z.max 1 n + lenZ (concat [two_runs])
      + 21 * (if level (sample_options 6) =? 0 then Z.max 1 n else lenZ (concat [two_runs])).
Proof.
  split; [vm_compute; reflexivity|].
  apply (delta_size (H0:=adler32_fallback_laws) (H2:=zeros_codec_laws) Aarch64 []
    (sample_options 6) [two_runs]);
    [constructor|reflexivity|repeat constructor; done|reflexivity|by apply sample_options_ok].
Defined.
