(* ===== verification/HashingWriter.v ===== *)
(** * The writer that hashes ([src/src/io.rs], [HashingWriter])

    The decoder writes its windows with [write_all], which calls [write] until
    the bytes are gone: a writer may take fewer bytes than it is given, be
    interrupted, or fail.  The adapter hashes what the writer took, not what it
    was given, so that at every moment, also after an error, the hash is the one
    of the output.  The writer below the adapter is a parameter. *)

From stdpp Require Import base numbers list option.
From Stdlib Require Import ZArith Lia.
From S2P Require Import Prelude Source.

Local Open Scope Z_scope.
Local Open Scope rust_scope.

(** [std::io::Write]: a call changes the writer also when it fails. *)
Inductive write_error := WriteInterrupted | WriteZero | WriteOther.

Class Write (W : Type) := {
  write : W -> bytes -> result write_error Z * W;
  flush : W -> result write_error unit * W
}.

(** What the documentation of [write] promises, for a writer whose content is
    [taken]: the count is of a prefix of the buffer, that prefix was taken, and
    an error took nothing.  Flushing takes nothing either. *)
Class WriteLaws (W : Type) `{Write W} := {
  taken : W -> bytes;
  write_returns : forall w buf, (exists n, (write w buf).1 = Ok n) \/ (exists e, (write w buf).1 = Err e);
  write_takes : forall w buf n w', write w buf = (Ok n, w') ->
    0 <= n <= lenZ buf /\ taken w' = taken w ++ take (Z.to_nat n) buf;
  write_fails : forall w buf e w', write w buf = (Err e, w') -> taken w' = taken w;
  flush_takes : forall w, taken (flush w).2 = taken w
}.

(** [Write::write_all]: [write] until nothing is left. *)
Fixpoint write_all {W} `{Write W} (fuel : nat) (w : W) (buf : bytes) : result write_error unit * W :=
  match fuel with
  | O => (Diverge, w)
  | S fuel =>
      match buf with
      | [] => (Ok tt, w)
      | _ =>
          match write w buf with
          | (Ok n, w) =>
              if n =? 0 then (Err WriteZero, w)
              else
                match slice_from (E:=write_error) buf n with
                | Ok rest => write_all fuel w rest
                | _ => (Panic, w)
                end
          | (Err WriteInterrupted, w) => write_all fuel w buf
          | (Err e, w) => (Err e, w)
          | (Panic, w) => (Panic, w)
          | (Diverge, w) => (Diverge, w)
          end
      end
  end.

(** ** The adapter *)

Module HashingWriter.
Record t (W : Type) := mk {
  inner : W;
  (** the bytes given to [Digest::update] *)
  hasher : bytes
}.
Arguments mk {_}.
Arguments inner {_}.
Arguments hasher {_}.

Section Adapter.
Context {W : Type} `{Write W}.

Definition hashing_write (h : t W) (buf : bytes) : result write_error Z * t W :=
  let (r, w) := write (inner h) buf in
  match r with
  | Ok n =>
      match slice (E:=write_error) buf 0 n with
      | Ok b => (Ok n, mk w (hasher h ++ b))
      | _ => (Panic, mk w (hasher h))
      end
  | Err e => (Err e, mk w (hasher h))
  | Panic => (Panic, mk w (hasher h))
  | Diverge => (Diverge, mk w (hasher h))
  end.

Definition hashing_flush (h : t W) : result write_error unit * t W :=
  let (r, w) := flush (inner h) in (r, mk w (hasher h)).
End Adapter.

End HashingWriter.

#[export] Instance hashing {W} `{Write W} : Write (HashingWriter.t W) :=
  {| write := HashingWriter.hashing_write; flush := HashingWriter.hashing_flush |}.

(** ** What it hashes *)

Section Correct.
Context {W : Type} `{WriteLaws W}.
Implicit Types h : HashingWriter.t W.

Lemma slice_taken (buf : bytes) n :
  0 <= n <= lenZ buf -> slice (E:=write_error) buf 0 n = Ok (take (Z.to_nat n) buf).
Proof. intros Hn. rewrite slice_ok by lia. unfold sub. by rewrite Z.sub_0_r. Qed.

(** The two outcomes of a call, below the adapter and through it. *)
Lemma hashing_outcome h buf :
  (exists n w, write (HashingWriter.inner h) buf = (Ok n, w) /\ 0 <= n <= lenZ buf /\
     taken w = taken (HashingWriter.inner h) ++ take (Z.to_nat n) buf /\
     write h buf = (Ok n, HashingWriter.mk w (HashingWriter.hasher h ++ take (Z.to_nat n) buf))) \/
  (exists e w, write (HashingWriter.inner h) buf = (Err e, w) /\
     taken w = taken (HashingWriter.inner h) /\
     write h buf = (Err e, HashingWriter.mk w (HashingWriter.hasher h))).
Proof.
  cbn [write hashing]. unfold HashingWriter.hashing_write.
  pose proof (write_returns (HashingWriter.inner h) buf) as Hr.
  destruct (write (HashingWriter.inner h) buf) as [r w] eqn:Hw. simpl in Hr.
  destruct Hr as [[n ->]|[e ->]].
  - left. destruct (write_takes _ _ _ _ Hw) as [Hn Ht]. exists n, w. by rewrite slice_taken.
  - right. exists e, w. split_and!; [done|by apply (write_fails _ _ _ _ Hw)|done].
Qed.

(** The adapter is a writer of the same content. *)
#[export] Instance hashing_laws : WriteLaws (HashingWriter.t W).
Proof.
  refine {| taken := fun h => taken (HashingWriter.inner h) |}.
  - intros h buf. destruct (hashing_outcome h buf) as [(n & w & _ & _ & _ & ->)|(e & w & _ & _ & ->)];
      [left|right]; eexists; reflexivity.
  - intros h buf n h' Hw.
    destruct (hashing_outcome h buf) as [(m & w & _ & Hm & Ht & Hh)|(e & w & _ & _ & Hh)];
      rewrite Hh in Hw; [|done]. by injection Hw as <- <-.
  - intros h buf e h' Hw.
    destruct (hashing_outcome h buf) as [(m & w & _ & _ & _ & Hh)|(e' & w & _ & Ht & Hh)];
      rewrite Hh in Hw; [done|]. by injection Hw as <- <-.
  - intros h. cbn [flush hashing]. unfold HashingWriter.hashing_flush.
    pose proof (flush_takes (HashingWriter.inner h)) as Hf.
    by destruct (flush (HashingWriter.inner h)).
Defined.

(** The hash is of what was taken since the adapter was made on [base]. *)
Definition faithful (base : bytes) h : Prop :=
  taken (HashingWriter.inner h) = base ++ HashingWriter.hasher h.

Lemma write_faithful base h buf : faithful base h -> faithful base (write h buf).2.
Proof.
  unfold faithful. intros Hf.
  destruct (hashing_outcome h buf) as [(n & w & _ & _ & Ht & ->)|(e & w & _ & Ht & ->)]; simpl;
    rewrite Ht, Hf; [by rewrite app_assoc|done].
Qed.

Lemma write_all_faithful base fuel : forall h buf,
  faithful base h -> faithful base (write_all fuel h buf).2.
Proof.
  induction fuel as [|fuel IH]; intros h buf Hf; [done|]. cbn [write_all].
  destruct buf as [|x buf]; [done|]. pose proof (write_faithful base h (x :: buf) Hf) as Hf'.
  destruct (write h (x :: buf)) as [[n|e| |] h']; simpl in Hf'; [|destruct e; auto|done..].
  destruct (n =? 0); [done|]. destruct (slice_from _ n); auto.
Qed.
End Correct.

(** What [write_all] leaves when it succeeds: all of the buffer. *)
Lemma write_all_takes {W} `{WriteLaws W} fuel : forall (w : W) buf w',
  write_all fuel w buf = (Ok tt, w') -> taken w' = taken w ++ buf.
Proof.
  induction fuel as [|fuel IH]; intros w buf w'; [done|]. cbn [write_all].
  destruct buf as [|x buf]; [intros [= <-]; by rewrite app_nil_r|].
  destruct (write w (x :: buf)) as [[n|e| |] w1] eqn:Hw; [| |done..].
  - destruct (write_takes _ _ _ _ Hw) as [Hn Ht]. destruct (n =? 0); [done|].
    rewrite slice_from_ok by lia. intros Hall. rewrite (IH _ _ _ Hall), Ht, <- app_assoc.
    by rewrite take_drop.
  - pose proof (write_fails _ _ _ _ Hw) as Ht.
    destruct e; [|done..]. intros Hall. by rewrite (IH _ _ _ Hall), Ht.
Qed.

(** A writer that always takes something makes [write_all] end, in as many
    calls as there are bytes. *)
Definition takes_some (W : Type) `{Write W} : Prop :=
  forall (w : W) buf, buf <> [] -> exists n w', write w buf = (Ok n, w') /\ 1 <= n.

Lemma write_all_ok {W} `{WriteLaws W} : takes_some W -> forall fuel (w : W) buf,
  (length buf < fuel)%nat -> exists w', write_all fuel w buf = (Ok tt, w').
Proof.
  intros Hsome. induction fuel as [|fuel IH]; intros w buf Hl; [lia|]. cbn [write_all].
  destruct buf as [|x buf]; [eauto|].
  destruct (Hsome w (x :: buf)) as (n & w1 & Hw & Hn); [done|]. rewrite Hw.
  destruct (write_takes _ _ _ _ Hw) as [Hle _]. destruct (Z.eqb_spec n 0); [lia|].
  rewrite slice_from_ok by lia. apply IH. unfold lenZ in Hle. rewrite length_drop. simpl in *. lia.
Qed.

Lemma hashing_takes_some {W} `{WriteLaws W} : takes_some W -> takes_some (HashingWriter.t W).
Proof.
  intros Hsome h buf Hb. destruct (Hsome (HashingWriter.inner h) buf Hb) as (n & w & Hw & Hn).
  destruct (hashing_outcome h buf) as [(m & w' & Hw' & _ & _ & Hh)|(e & w' & Hw' & _)];
    rewrite Hw in Hw'; [|done]. injection Hw' as <- <-. by exists n, (HashingWriter.mk w (HashingWriter.hasher h ++ take (Z.to_nat n) buf)).
Qed.

(** ** The decoder's windows through the adapter *)

(** The windows written one after the other, up to the first error. *)
Fixpoint write_windows {W} `{Write W} (fuel : nat) (w : W) (ts : list bytes)
    : result write_error unit * W :=
  match ts with
  | [] => (Ok tt, w)
  | t :: ts =>
      match write_all fuel w t with
      | (Ok _, w) => write_windows fuel w ts
      | other => other
      end
  end.

(** C23: the digest of a decoded file is the digest of what was written.
    Whatever the writer below does (short writes, interruptions, errors half
    way), what the adapter has hashed after any number of windows is exactly
    what that writer has taken.  With a writer that always takes something the
    windows are all written, and the hash is of their concatenation. *)
Theorem hash_of_output {W} `{WriteLaws W} (w : W) (ts : list bytes) (fuel : nat) :
  taken w = [] ->
  let r := write_windows fuel (HashingWriter.mk w []) ts in
  HashingWriter.hasher r.2 = taken (HashingWriter.inner r.2) /\
  (r.1 = Ok tt -> HashingWriter.hasher r.2 = concat ts) /\
  (takes_some W -> Forall (fun t => length t < fuel)%nat ts -> r.1 = Ok tt).
Proof.
  intros Hw. assert (faithful [] (HashingWriter.mk w [])) as Hf by done.
  assert (forall ts (h : HashingWriter.t W), faithful [] h ->
    let r := write_windows fuel h ts in
    faithful [] r.2 /\ (r.1 = Ok tt -> taken (HashingWriter.inner r.2) = taken (HashingWriter.inner h) ++ concat ts) /\
    (takes_some W -> Forall (fun t => length t < fuel)%nat ts -> r.1 = Ok tt)) as Hgen.
  { clear. intros ts. induction ts as [|t ts IH]; intros h Hf; simpl.
    - split_and!; [done|by rewrite app_nil_r|done].
    - pose proof (write_all_faithful [] fuel h t Hf) as Hf'.
      destruct (write_all fuel h t) as [[[]|e| |] h'] eqn:Hall; simpl in Hf'.
      2-4: split_and!; [done|done|]; intros Hs [Hl _]%Forall_cons_1;
        destruct (write_all_ok (hashing_takes_some Hs) fuel h t Hl) as [? Hok]; by rewrite Hok in Hall.
      destruct (IH h' Hf') as (? & Hc & Hs). split_and!; [done| |].
      + intros Hr. pose proof (write_all_takes _ _ _ _ Hall) as Hall'. simpl in Hall'.
        by rewrite (Hc Hr), Hall', app_assoc.
      + intros Hsome [_ Hts]%Forall_cons_1. by apply Hs. }
  destruct (Hgen ts _ Hf) as (Hfr & Hc & Hs). cbv zeta. split_and!; [done| |done].
  intros Hr. specialize (Hc Hr). simpl in Hc. rewrite Hw in Hc. etransitivity; [symmetry; exact Hfr|exact Hc].
Qed.

(** A pipe that takes at most three bytes a call, is interrupted before every
    other call, and is closed after eight bytes. *)
Record pipe := { content : bytes; ready : bool }.

#[export] Instance pipe_write : Write pipe := {|
  write p buf :=
    if ready p then
      if 8 <=? lenZ (content p) then (Err WriteOther, p)
      else (Ok (Z.min 3 (lenZ buf)), {| content := content p ++ take 3 buf; ready := false |})
    else (Err WriteInterrupted, {| content := content p; ready := true |});
  flush p := (Ok tt, p)
|}.

#[export] Instance pipe_laws : WriteLaws pipe.
Proof.
  refine {| taken := content |}.
  - intros [l []] buf; simpl; [destruct (8 <=? lenZ l)|]; eauto.
  - intros [l []] buf n w'; simpl; [|done]. destruct (8 <=? lenZ l); [done|]. intros [= <- <-].
    pose proof (lenZ_nonneg buf). split; [lia|]. simpl. f_equal. unfold lenZ in *.
    destruct (Nat.le_gt_cases (length buf) 3).
    + rewrite !take_ge by lia. done.
    + by replace (Z.to_nat (Z.min 3 (Z.of_nat (length buf)))) with 3%nat by lia.
  - intros [l []] buf e w'; simpl; [destruct (8 <=? lenZ l); [|done]|]; by intros [= <- <-].
  - done.
Defined.

Lemma hash_of_output_witness :
  let run ts := write_windows 20 (HashingWriter.mk {| content := []; ready := true |} []) ts in
  (run [[1; 2; 3; 4]; [5]]).1 = Ok tt /\
  HashingWriter.hasher (run [[1; 2; 3; 4]; [5]]).2 = [1; 2; 3; 4; 5] /\
  (run [[1; 2; 3; 4]; [5; 6; 7]; [8; 9]; [10]]).1 = Err WriteOther /\
  HashingWriter.hasher (run [[1; 2; 3; 4]; [5; 6; 7]; [8; 9]; [10]]).2 = [1; 2; 3; 4; 5; 6; 7; 8; 9].
Proof.
  split; [reflexivity|]. split; [|split; [reflexivity|]].
  - by apply (hash_of_output {| content := []; ready := true |} [[1; 2; 3; 4]; [5]] 20).
  - destruct (hash_of_output {| content := []; ready := true |}
      [[1; 2; 3; 4]; [5; 6; 7]; [8; 9]; [10]] 20) as [Hh _]; [reflexivity|].
    etransitivity; [exact Hh|reflexivity].
Defined.
