(* ===== verification/Total.v ===== *)
(** * What the decoder makes of any delta of the encoder

    The optimizer may merge what should not be merged, and the delta then does
    not mean the target.  [meant] runs the search and the optimizer and says
    what each window means; [verdict] is what the decoder must make of such
    windows: the first one without a meaning, or with a checksum that is not
    that of its meaning, is an error, and otherwise the meanings are the output.
    The decoder returns exactly the verdict, of every delta of the encoder.  The
    condition of the round trips, [merges_safe], is therefore exact, a COPY
    merged across the source's end is always rejected, and the fuzz target that
    runs the encoder and the decoder over each other passes. *)

From stdpp Require Import base numbers list option.
From Stdlib Require Import ZArith Lia.
From S2P Require Import Prelude Varint AddrCache CodeTable Semantics Header WindowEncoder Source.
From S2P Require Import Secondary WindowDecoder WindowRoundtrip StreamRoundtrip.
From S2P Require Import Kernels Matching Pipeline Delta DeltaCorrect Fuzz.

Local Open Scope Z_scope.
Local Open Scope rust_scope.

(** ** The verdict *)

Section Verdict.
Context `{Adler32}.

(** What decoding windows for the pieces [ts] with the meanings [ms] returns. *)
Fixpoint verdict (ck : bool) (ts : list bytes) (ms : list (option bytes)) : result DecodeError bytes :=
  match ts, ms with
  | t :: ts, Some x :: ms =>
      if ck && negb (compute_adler32 x =? compute_adler32 t)
      then Err (ChecksumMismatch (compute_adler32 t) (compute_adler32 x))
      else let* out := verdict ck ts ms in Ok (x ++ out)
  | _ :: _, None :: _ => Err (InvalidInput SpansBoundary)
  | _, _ => Ok []
  end.

(** What can be told of a decoded window: its length and, with a checksum, its
    checksum. *)
Definition resembles (ck : bool) (t chunk : bytes) : Prop :=
  lenZ chunk = lenZ t /\ (ck = true -> compute_adler32 chunk = compute_adler32 t).

(** Meanings of the length of their pieces. *)
Definition fills (t : bytes) (m : option bytes) : Prop := forall x, m = Some x -> lenZ x = lenZ t.

Lemma verdict_cases ck ts ms :
  Forall2 fills ts ms ->
  match verdict ck ts ms with
  | Ok out => exists chunks, ms = map Some chunks /\ out = concat chunks /\ Forall2 (resembles ck) ts chunks
  | Err _ => True
  | Panic | Diverge => False
  end.
Proof.
  induction 1 as [|t [x|] ts ms Hx _ IH]; cbn [verdict]; [by exists []; split_and!| |done].
  destruct (ck && _) eqn:Hck; [done|].
  destruct (verdict ck ts ms) as [out| | |]; cbn [bind]; try done. destruct IH as (chunks & -> & -> & Hall).
  exists (x :: chunks). split_and!; [done|done|]. constructor; [|done]. split; [by apply Hx|].
  intros ->. simpl in Hck. by apply negb_false_iff, Z.eqb_eq in Hck.
Qed.

Lemma verdict_self ck ts : verdict ck ts (map Some ts) = Ok (concat ts).
Proof.
  induction ts as [|t ts IH]; [done|]. cbn [map verdict]. by rewrite Z.eqb_refl, andb_false_r, IH.
Qed.

Lemma resembles_length ck ts chunks : Forall2 (resembles ck) ts chunks -> lenZ (concat chunks) = lenZ (concat ts).
Proof. induction 1 as [|t ch ts chunks [Hl _] _ IH]; [done|]. cbn [concat]. rewrite !lenZ_app. lia. Qed.

(** Chunks of the right lengths are told apart by what they concatenate to. *)
Lemma resembles_inj ck ts chunks : Forall2 (resembles ck) ts chunks -> concat chunks = concat ts -> chunks = ts.
Proof.
  induction 1 as [|t ch ts chunks [Hl _] _ IH]; [done|]. cbn [concat]. intros Heq.
  apply app_inj_1 in Heq as [-> Hrest]; [|unfold lenZ in *; lia]. by rewrite IH.
Qed.

Lemma verdict_target ck ts ms :
  Forall2 fills ts ms -> verdict ck ts ms = Ok (concat ts) <-> ms = map Some ts.
Proof.
  intros Hf. split; [|intros ->; apply verdict_self]. intros Hv.
  pose proof (verdict_cases ck ts ms Hf) as Hc. rewrite Hv in Hc. destruct Hc as (chunks & -> & Heq & Hall).
  by rewrite (resembles_inj ck ts chunks Hall).
Qed.
End Verdict.

(** ** The decoder *)

Section Stream.
Context {B : Build} `{Adler32Laws} `{CodecLaws}.
Context (source : bytes) (opts : CompressOptions) (Hoo : options_ok opts).

Lemma windows_verdict ws ts ms :
  carried source opts ws ts ms -> forall fuel d out,
  (length ws < fuel)%nat -> ready d (header_of opts) true (concat ws) ->
  lenZ out + lenZ (concat ts) < 2 ^ 63 ->
  match verdict (checksum opts) ts ms with
  | Ok x => exists d', StreamDecoder.decode_windows fuel d source out = Ok (d', source, out ++ x)
  | Err e => StreamDecoder.decode_windows fuel d source out = Err e
  | _ => False
  end.
Proof.
  induction 1 as [|w t m ws ts ms (sw & ops & Hc & Hok & Hlen & Hm & _ & <-) Hws IH];
    intros [|fuel] d out Hf Hd Hl; try (simpl in Hf; lia).
  - destruct (decode_windows_ok (contents:=fun x : bytes => x) (header_of opts) true source [] []
      (Forall2_nil_2 _ _ _) (S fuel) d source out) as (d' & s' & Hdw & _ & ->);
      [simpl; lia|done|done|done|]. exists d'. exact Hdw.
  - cbn [concat] in *. rewrite lenZ_app in Hl. pose proof (lenZ_nonneg (concat ts)). pose proof (lenZ_nonneg t).
    pose proof (carries_fit _ _ _ _ _ _ Hc) as Hfit.
    pose proof (carries_outcome (contents:=fun x : bytes => x) (header_of opts) true source sw (checksum opts)
      ops t w d source out (concat ws) Hc Hok ltac:(lia) Hd eq_refl ltac:(lia)) as Hout.
    cbn [verdict StreamDecoder.decode_windows].
    destruct (exec_ops (selected sw source) [] ops) as [x|] eqn:Hex; [|by rewrite Hout].
    rewrite andb_true_r in Hout. destruct (checksum opts && _); [by rewrite Hout|].
    destruct Hout as (d1 & s1 & -> & Hd1 & ->). cbn [bind].
    pose proof (meaning_length source sw ops x Hok Hfit Hex) as Hxl.
    specialize (IH fuel d1 (out ++ x) ltac:(simpl in Hf; lia) Hd1 ltac:(rewrite lenZ_app; lia)).
    destruct (verdict (checksum opts) ts ms) as [y| | |]; cbn [bind]; try done.
    destruct IH as (d2 & ->). exists d2. by rewrite <- app_assoc.
Qed.

Lemma window_nonempty m w t : window_if source opts m w t -> w <> [].
Proof. intros (sw & ops & (wh & d & i & a & sd & si & sa & l & c & -> & _) & _). done. Qed.

Lemma carried_count ws ts ms : carried source opts ws ts ms -> (length ws <= length (concat ws))%nat.
Proof.
  induction 1 as [|w t m ws ts ms Hw _ IH]; simpl; [done|].
  apply window_nonempty in Hw. rewrite length_app. destruct w; [done|]. simpl. lia.
Qed.

Lemma carried_fills ws ts ms : carried source opts ws ts ms -> Forall2 fills ts ms.
Proof.
  induction 1 as [|w t m ws ts ms (sw & ops & Hc & Hok & Hlen & _ & _ & <-) _ IH]; constructor; [|done].
  intros x Hx. rewrite <- Hlen.
  apply carries_fit in Hc as Hfit.
  by apply (meaning_length source sw ops x Hok Hfit).
Qed.

Lemma delta_verdict ts ms delta n :
  delta_if source opts ts ms delta n -> lenZ (concat ts) < 2 ^ 62 ->
  decode_all source delta = verdict (checksum opts) ts ms /\ Forall2 fills ts ms.
Proof.
  intros (ws & -> & Hws & Hlen & _) Hl. pose proof (carried_count _ _ _ Hws) as Hcount.
  pose proof (carried_fills _ _ _ Hws) as Hf.
  assert (Forall2 fills ts ms /\
    verdict (checksum opts) (or_empty ts []) (or_empty ms (Some [])) = verdict (checksum opts) ts ms) as [Hf' Hv].
  { destruct ts, ms; try done.
    split; [constructor|]. cbn [or_empty verdict]. by rewrite Z.eqb_refl, andb_false_r. }
  split; [|done]. rewrite <- Hv. unfold decode_all, decode_memory, StreamDecoder.decode_all.
  set (fuel := S (length (StreamDecoder.reader _))).
  pose proof (windows_verdict ws _ _ Hws fuel (after_header (header_of opts) true (concat ws)) []) as Hs.
  assert (StreamDecoder.decode_windows fuel (StreamDecoder.new (file_header_bytes (header_of opts) ++ concat ws) true)
    source [] = StreamDecoder.decode_windows fuel (after_header (header_of opts) true (concat ws)) source []) as ->.
  { unfold fuel. cbn [StreamDecoder.decode_windows]. by rewrite decode_window_fresh by (by apply header_of_wf). }
  destruct (or_empty_pieces ts) as [Hcat _].
  destruct (verdict _ (or_empty ts []) _) as [x|e| |]; lapply Hs; clear Hs;
    try (unfold fuel; simpl; rewrite length_app; lia); intros Hs;
    specialize (Hs (ready_after_header _ _ _) ltac:(change (lenZ (@nil Z)) with 0; rewrite Hcat; lia)); try done.
  - by destruct Hs as (d' & ->).
  - by rewrite Hs.
Qed.
End Stream.

(** ** Theorems *)

Section Theorems.
Context {B : Build} `{Adler32Laws} `{CodecLaws} (c : cpu).
Context (source : bytes) (opts : CompressOptions) (pieces : list bytes).
Context (Hsw : wf_bytes source) (Hsl : lenZ source < 2 ^ 62) (Hpw : Forall wf_bytes pieces).
Context (Htl : lenZ (concat pieces) < 2 ^ 62) (Hoo : options_ok opts).

(** Encoding succeeds, and decoding gives the verdict. *)
Lemma encode_then_decode :
  exists delta n, encode_pieces c source opts pieces = Ok (delta, n) /\
    decode_all source delta
    = verdict (checksum opts) (windows opts (concat pieces)) (meant c source opts (concat pieces)) /\
    Forall2 fills (windows opts (concat pieces)) (meant c source opts (concat pieces)).
Proof using All.
  destruct (encode_pieces_if c source opts pieces) as (delta & n & Henc & Hd); [done..|].
  exists delta, n. split; [done|].
  apply (delta_verdict source opts Hoo _ _ delta n Hd). by rewrite windows_concat.
Qed.

(** C6: no delta of the encoder is silently cut or, with checksums, silently
    wrong.  For any source, any target fed in any pieces, and options the
    decoder accepts, encoding returns a delta; decoding it neither panics nor
    loops.  It fails only where the optimizer's merges are not safe, and what
    it returns has, window by window, the length of the target's window and,
    when checksums are on, its Adler-32. *)
Theorem wrong_deltas_detected :
  exists delta n, encode_pieces c source opts pieces = Ok (delta, n) /\
    match decode_all source delta with
    | Ok out => lenZ out = lenZ (concat pieces) /\
        concat (windows opts (concat pieces)) = concat pieces /\
        exists chunks, out = concat chunks /\
          Forall2 (resembles (checksum opts)) (windows opts (concat pieces)) chunks
    | Err _ => merges_safe c source opts (concat pieces) = false
    | Panic | Diverge => False
    end.
Proof using All.
  destruct encode_then_decode as (delta & n & Henc & Hdec & Hf). exists delta, n. split; [done|]. rewrite Hdec.
  pose proof (verdict_cases (checksum opts) _ _ Hf) as Hc.
  pose proof (windows_concat opts (concat pieces) Hoo) as Hcat.
  destruct (verdict _ _ _) as [out|e| |] eqn:Hv; try done.
  - destruct Hc as (chunks & _ & -> & Hall). split_and!; [|done|eauto].
    by rewrite (resembles_length _ _ _ Hall), Hcat.
  - apply not_true_is_false. intros Hsafe.
    apply merges_safe_meant in Hsafe; [|done|done|by apply Forall_concat|done].
    by rewrite Hsafe, verdict_self in Hv.
Qed.

(** C7: the condition of the round trips is exact.  For any source, any target
    fed in any pieces, and options the decoder accepts, encoding returns a
    delta, and [decode_all] restores the target from it if and only if the
    optimizer's merges are safe ([merges_safe]); otherwise it returns an error
    or other bytes. *)
Theorem merges_exact :
  exists delta n, encode_pieces c source opts pieces = Ok (delta, n) /\
    (decode_all source delta = Ok (concat pieces) <-> merges_safe c source opts (concat pieces) = true).
Proof using All.
  destruct encode_then_decode as (delta & n & Henc & Hdec & Hf). exists delta, n. split; [done|]. rewrite Hdec.
  rewrite <- (windows_concat opts (concat pieces) Hoo) at 3.
  rewrite verdict_target, merges_safe_meant by (done || by apply Forall_concat). done.
Qed.

(** What the search finds in the first window of [target]. *)
Definition first_search (target : bytes) : option (list Instruction) :=
  match DeltaEncoder.new c [] source opts with
  | Ok d =>
      match DeltaEncoder.find_matches d (take (Z.to_nat (window_size opts)) target) with
      | Ok (_, raw) => Some raw
      | _ => None
      end
  | _ => None
  end.

(** A COPY of the source's end and a COPY of the window's start, found next to
    each other, leave the window without a meaning. *)
Lemma boundary_meaning target pre l1 a1 l2 m post :
  wf_bytes target -> level opts <> 0 ->
  first_search target = Some (pre ++ Copy l1 a1 m :: Copy l2 (lenZ source) m :: post) ->
  a1 + l1 = lenZ source ->
  exists t ts ms, windows opts target = t :: ts /\ meant c source opts target = None :: ms.
Proof using Hsw Hsl Hoo H0 H2.
  intros Htw Hlv Hfs Ha. unfold first_search, meant in *. pose proof (oo_window _ Hoo) as Hn.
  unfold HARD_MAX_WINSIZE in Hn.
  destruct (new_ok c source opts Hsw Hsl Hoo) as (d & Hd & [Ho Hs He _ _ _] & _). rewrite Hd in *.
  destruct (He Hlv) as (e & Hde & Hew). set (t := take _ target) in *.
  assert (wf_bytes t) as Ht by (by apply Forall_take).
  assert (lenZ t <= window_size opts) as Htl' by (unfold t, lenZ; rewrite length_take; lia).
  destruct (search_valid (E:=EncodeError * bytes) e source t) as (e' & raw & Hse & He' & Hv & _);
    [done|done|done|lia|lia|].
  assert (raw = pre ++ Copy l1 a1 m :: Copy l2 (lenZ source) m :: post) as ->.
  { unfold DeltaEncoder.find_matches, search in *. rewrite Hde, Hs in Hfs.
    destruct source; rewrite Hse in Hfs; by injection Hfs. }
  unfold windows, meanings. rewrite Ho, Hde, Hs, (proj2 (Z.eqb_neq _ _)) by done.
  destruct target as [|b0 tg] eqn:Htg.
  { exfalso. apply valid_covers, covers_app_inv in Hv as [Hpre [(Hl1 & Hl2 & _) _]].
    apply covers_range in Hpre. unfold t in *. rewrite take_nil in *. cbn [inst_len] in *.
    change (lenZ (@nil Z)) with 0 in *. lia. }
  cbn [chunks]. fold t. cbn [window_meanings]. rewrite Hse. eexists _, _, _. split; [done|]. f_equal.
  destruct (optimize_ok (E:=EncodeError * bytes) c source t _ Ht ltac:(lia) ltac:(lia) Hv)
    as (insts & Hopt & _ & Hfit & _). rewrite Hopt.
  destruct (optimize_spans (E:=EncodeError * bytes) c source t pre l1 a1 l2 m post insts)
    as (x & Hx & Hspan); try done; try lia. destruct x as [|len a mode|]; try done. simpl in Hspan.
  destruct (fits_copy _ _ _ _ Hfit _ _ _ Hx) as [Ha0 Hin].
  apply (exec_ops_spans source [] _ len a); (done || lia).
Qed.

(** C37: a COPY of the source's last bytes followed by a COPY of the window's
    first bytes is merged into one COPY across the source's end, which the
    decoder rejects.  Whatever the source, the target, the level, the CPU and
    the rest of the search: when the search of the first window finds the two
    next to each other, encoding returns a delta without an error, and decoding
    it fails with [SpansBoundary]. *)
Theorem boundary_copies_rejected pre l1 a1 l2 m post :
  level opts <> 0 ->
  first_search (concat pieces) = Some (pre ++ Copy l1 a1 m :: Copy l2 (lenZ source) m :: post) ->
  a1 + l1 = lenZ source ->
  exists delta n, encode_pieces c source opts pieces = Ok (delta, n) /\
    decode_all source delta = Err (InvalidInput SpansBoundary).
Proof using All.
  intros Hlv Hfs Ha. destruct encode_then_decode as (delta & n & Henc & Hdec & _). exists delta, n. split; [done|]. rewrite Hdec.
  destruct (boundary_meaning (concat pieces) pre l1 a1 l2 m post) as (t & ts & ms & -> & ->); try done.
  by apply Forall_concat.
Qed.
End Theorems.

(** ** The fuzz target that runs both ([encoder_decoder_fuzz.rs]) *)

(** The guard keeps [data.len() - 2], which the split is reduced by, positive. *)
Definition encoder_decoder_fuzz {B : Build} `{Adler32} `{Codecs} {E} (c : cpu) (data : bytes)
    : result E unit :=
  if lenZ data <? 4 then Ok tt
  else
    let* b0 := index data 0 in
    let level := b0 mod 10 in
    let* b1 := index data 1 in
    let* m := sub_w 64 (lenZ data) 2 in
    let* split := add_w 64 2 (b1 mod m) in
    let* source := slice data 2 split in
    let* target := slice_from data split in
    let opts := compress_options level (window_size default_options) (checksum default_options) NoSecondary in
    match encode_all c [] source target opts with
    | Ok delta | Err (_, delta) => ignore (decode_all source delta)
    | Panic => Panic
    | Diverge => Diverge
    end.

(** The fuzz target of the encoder and the decoder passes on every input of
    less than 2 EiB: no call panics or loops, whatever level and split the
    first two bytes select. *)
Theorem encoder_decoder_fuzz_passes {B : Build} `{Adler32Laws} `{CodecLaws} {E} (c : cpu) (data : bytes) :
  wf_bytes data -> lenZ data < 2 ^ 61 -> encoder_decoder_fuzz (E:=E) c data = Ok tt.
Proof.
  intros Hd Hl. unfold encoder_decoder_fuzz. destruct (Z.ltb_spec (lenZ data) 4) as [|Hge]; [done|].
  destruct (index_ok (E:=E) data 0) as (b0 & _ & ->); [lia|]. cbn [bind].
  destruct (index_ok (E:=E) data 1) as (b1 & _ & ->); [lia|]. cbn [bind].
  rewrite sub_w_ok by (unfold in_range; lia). cbn [bind].
  pose proof (Z.mod_pos_bound b1 (lenZ data - 2) ltac:(lia)).
  rewrite add_w_ok by (unfold in_range; lia). cbn [bind].
  rewrite slice_ok, slice_from_ok by lia. cbn [bind].
  set (split := 2 + b1 mod (lenZ data - 2)) in *. set (source := sub data 2 (split - 2)).
  set (target := drop (Z.to_nat split) data). set (opts := compress_options _ _ _ _).
  assert (lenZ source = split - 2) as Hsl by (apply sub_length; lia).
  assert (lenZ target = lenZ data - split) as Htl by (apply lenZ_drop; lia).
  assert (options_ok (cap_window opts target)) as Hoo.
  { apply cap_window_ok, no_secondary_ok; [|done]. pose proof (Z.mod_pos_bound b0 10). lia. }
  assert (concat [target] = target) as Hcat by apply app_nil_r.
  destruct (encode_then_decode c source (cap_window opts target) [target]) as (delta & n & Henc & Hdec & Hf);
    rewrite ?Hcat; try done; [by apply sub_wf|lia|by repeat constructor; apply Forall_drop|lia|].
  rewrite (encode_all_pieces c source target opts delta n Henc).
  rewrite Hdec. pose proof (verdict_cases (checksum (cap_window opts target)) _ _ Hf) as Hc.
  by destruct (verdict _ _ _).
Qed.

#[local] Instance checked_build : Build := {| debug_build := true |}.
#[local] Instance fallback : Adler32 := adler32_fallback.
#[local] Instance fallback_laws : Adler32Laws := adler32_fallback_laws.
#[local] Instance codecs : Codecs := zeros_codecs.
#[local] Instance codec_laws : CodecLaws := zeros_codec_laws.

(** The two runs that the optimizer merges. *)
Lemma wrong_deltas_detected_witness :
  merges_safe X86_avx2 [] (sample_options 6) two_runs = false /\
  exists delta n, encode_pieces X86_avx2 [] (sample_options 6) [two_runs] = Ok (delta, n) /\
    match decode_all [] delta with
    | Ok out => lenZ out = lenZ (concat [two_runs]) /\
        concat (windows (sample_options 6) (concat [two_runs])) = concat [two_runs] /\
        exists chunks, out = concat chunks /\
          Forall2 (resembles (checksum (sample_options 6))) (windows (sample_options 6) (concat [two_runs])) chunks
    | Err _ => merges_safe X86_avx2 [] (sample_options 6) (concat [two_runs]) = false
    | Panic | Diverge => False
    end.
Proof.
  split; [vm_compute; reflexivity|].
  apply (wrong_deltas_detected X86_avx2 [] (sample_options 6) [two_runs]);
    [constructor|reflexivity|repeat constructor; done|reflexivity|by apply sample_options_ok].
Defined.

(** They do not round-trip, also without checksums. *)
Lemma merges_exact_witness :
  let opts := compress_options 6 64 false NoSecondary in
  merges_safe X86_avx2 [] opts (concat [two_runs]) = false /\
  exists delta n, encode_pieces X86_avx2 [] opts [two_runs] = Ok (delta, n) /\
    (decode_all [] delta = Ok (concat [two_runs]) <-> merges_safe X86_avx2 [] opts (concat [two_runs]) = true).
Proof.
  split; [vm_compute; reflexivity|].
  apply (merges_exact X86_avx2 [] (compress_options 6 64 false NoSecondary) [two_runs]);
    [constructor|reflexivity|repeat constructor; done|reflexivity|by apply no_secondary_ok].
Defined.

(** The last twelve bytes of the source, then the first ten of the window. *)
Definition boundary_source : bytes := seqZ 1 20.
Definition boundary_target : bytes := seqZ 100 10 ++ seqZ 9 12 ++ seqZ 100 10.

Lemma boundary_copies_rejected_witness :
  let opts := compress_options 6 64 true NoSecondary in
  first_search X86_sse2 boundary_source opts (concat [boundary_target])
    = Some ([Add 10] ++ Copy 12 8 0 :: Copy 10 (lenZ boundary_source) 0 :: []) /\
  exists delta n, encode_pieces X86_sse2 boundary_source opts [boundary_target] = Ok (delta, n) /\
    decode_all boundary_source delta = Err (InvalidInput SpansBoundary).
Proof.
  assert (options_ok (compress_options 6 64 true NoSecondary)) as Hoo by (by apply no_secondary_ok).
  assert (wf_bytes boundary_source /\ wf_bytes boundary_target) as [Hs Ht] by (split; by apply in_range_list).
  assert (first_search X86_sse2 boundary_source (compress_options 6 64 true NoSecondary) (concat [boundary_target])
    = Some ([Add 10] ++ Copy 12 8 0 :: Copy 10 (lenZ boundary_source) 0 :: [])) as Hfs by (vm_compute; reflexivity).
  split; [exact Hfs|].
  apply (boundary_copies_rejected X86_sse2 boundary_source (compress_options 6 64 true NoSecondary) [boundary_target])
    with (pre := [Add 10]) (l1 := 12) (a1 := 8) (l2 := 10) (m := 0) (post := []);
    [exact Hs|reflexivity|exact (Forall_cons_2 _ _ _ Ht (Forall_nil_2 _))|reflexivity|exact Hoo|
     discriminate|exact Hfs|reflexivity].
Defined.
