(* ===== verification/Examples.v ===== *)
(** * The example programs ([src/examples])

    Each [main] is a computation whose value is what it prints.  These four run
    the library's interfaces on fixed inputs, or on the files of a [World]; the
    benchmark and the tracing tools are in [Bench]. *)

From stdpp Require Import base numbers list option strings gmap.
From Stdlib Require Import ZArith Lia.
From S2P Require Import Prelude Header WindowEncoder Source Secondary WindowDecoder StreamRoundtrip.
From S2P Require Import Kernels Delta DeltaCorrect Files FileIo Print Fuzz Total Pieces.

Local Open Scope Z_scope.
Local Open Scope rust_scope.

(** [assert_eq!] *)
Definition assert_eq {E} (a b : bytes) : result E unit :=
  if bool_decide (a = b) then Ok tt else Panic.

(** [Box<dyn Error>] *)
Inductive any_error :=
  | AnEncodeError (e : EncodeError)
  | ADecodeError (e : DecodeError)
  | AnIoError (e : IoError).

Definition encode_failed (e : EncodeError * bytes) : any_error := AnEncodeError e.1.

(** ** basic_encode_decode.rs *)

Module Basic.
Definition main {B : Build} `{Adler32} `{Codecs} (c : cpu) : result any_error (Z * Z * Z) :=
  let source := text "Hello from source" in
  let target := text "Hello from updated target" in
  let* delta := map_err encode_failed (encode_all c [] source target default_options) in
  let* restored := map_err ADecodeError (decode_all source delta) in
  let* _ := assert_eq restored target in
  Ok (lenZ target, lenZ delta, lenZ restored).
End Basic.

(** ** library_usage.rs *)

Module LibraryUsage.
Definition main {B : Build} `{Adler32} `{Codecs} (c : cpu) : result any_error Z :=
  let source := text "ABCD-ABCD-ABCD-ABCD" in
  let target := text "ABCD-XXXX-ABCD-YYYY" in
  let opts := compress_options 6 1024 (checksum default_options) (secondary default_options) in
  let* enc := map_err encode_failed (DeltaEncoder.new c [] source opts) in
  let* enc := map_err encode_failed (DeltaEncoder.write_target c enc target) in
  let* (delta, _) := map_err encode_failed (DeltaEncoder.finish c enc) in
  let dec := DeltaDecoder.new delta in
  let* (_, dec, _, out) := map_err (fun e => ADecodeError e.1) (DeltaDecoder.decode_to dec source []) in
  let* _ := assert_eq out target in
  Ok (DeltaDecoder.windows_decoded dec).
End LibraryUsage.

(** ** integration_pipeline.rs *)

Module IntegrationPipeline.
(** The statistics printed, and the files afterwards. *)
Definition main {B : Build} `{Adler32} `{Codecs} `{Sha256} `{Os} (c : cpu) (w : World)
    : result any_error (EncodeStats * DecodeStats * World) :=
  let source := "source.bin"%string in
  let target := "target.bin"%string in
  let delta := "patch.vcdiff"%string in
  let output := "restored.bin"%string in
  let* (enc, w) := map_err (fun e => AnIoError e.1) (encode_file c w source target delta default_options) in
  let* (dec, w) := map_err (fun e => AnIoError e.1) (decode_file w source delta output) in
  Ok (enc, dec, w).
End IntegrationPipeline.

(** ** custom_backend.rs *)

Module CustomBackend.
Definition XorBackend (key : Z) : CompressBackend := {|
  be_id := 200;
  be_compress data := Ok (map (fun b => Z.lxor b key) data);
  be_decompress data := Ok (map (fun b => Z.lxor b key) data);
  be_should_compress := default_should_compress
|}.

Definition xor_options (key : Z) : CompressOptions :=
  compress_options (level default_options) (window_size default_options) (checksum default_options)
    (Custom (XorBackend key)).

Definition main {B : Build} `{Adler32} `{Codecs} (c : cpu) : result any_error Z :=
  let source := text "same source" in
  let target := text "same target with edits" in
  let* delta := map_err encode_failed (encode_all c [] source target (xor_options 0x5A)) in
  Ok (lenZ delta).
End CustomBackend.

(** ** Theorems *)

Lemma assert_eq_refl {E} (l : bytes) : assert_eq (E:=E) l l = Ok tt.
Proof. unfold assert_eq. by rewrite bool_decide_eq_true_2. Qed.

Lemma text_wf s : wf_bytes (text s).
Proof.
  unfold text. induction (String.list_ascii_of_string s) as [|a l IH]; simpl; constructor; [|done].
  unfold in_range. pose proof (Ascii.N_ascii_bounded a). lia.
Qed.

Section Mains.
Context {B : Build} `{Adler32Laws} `{CodecLaws} (c : cpu).

Lemma basic_runs : exists n, Basic.main c = Ok (25, n, 25).
Proof.
  destruct (encode_all_ok c (text "Hello from source") (text "Hello from updated target") default_options)
    as (delta & Henc & Hdec); [apply text_wf|done|apply text_wf|done|by apply cap_window_ok, no_secondary_ok| |].
  { destruct B as [[]], c as [| | | |[]]; vm_compute; reflexivity. }
  exists (lenZ delta). unfold Basic.main. rewrite Henc. cbn [map_err bind]. rewrite Hdec. cbn [map_err bind].
  by rewrite assert_eq_refl.
Qed.

Lemma library_usage_runs : LibraryUsage.main c = Ok 1.
Proof.
  set (opts := compress_options 6 1024 true NoSecondary).
  set (source := text "ABCD-ABCD-ABCD-ABCD"). set (target := text "ABCD-XXXX-ABCD-YYYY").
  assert (merges_safe c source opts target = true) as Hsafe
    by (destruct B as [[]], c as [| | | |[]]; vm_compute; reflexivity).
  destruct (encode_pieces_ok c source opts [target]) as (delta & n & Henc & Hd);
    [apply text_wf|done|constructor; [apply text_wf|constructor]|done|by apply no_secondary_ok|exact Hsafe|].
  destruct (delta_decodes source opts delta target n) as (_ & Hdec);
    [by apply no_secondary_ok|done|exact Hd|].
  destruct (Hdec true) as (d' & Hd' & Hk).
  assert (n = 1) as ->.
  { by apply (windows_counted c source opts [target] delta n) in Henc. }
  unfold encode_pieces in Henc. apply bind_ok_inv in Henc as (d0 & Hd0 & Henc).
  cbn [for_in] in Henc. apply bind_ok_inv in Henc as (d1 & Hd1 & Hfin).
  apply bind_ok_inv in Hd1 as (d2 & Hd1 & [= ->]).
  unfold LibraryUsage.main. cbn [checksum secondary default_options]. fold opts source target.
  rewrite Hd0. cbn [map_err bind]. rewrite Hd1. cbn [map_err bind]. rewrite Hfin. cbn [map_err bind].
  unfold DeltaDecoder.new. rewrite Hd'. cbn [map_err bind]. rewrite assert_eq_refl. cbn [bind]. by rewrite Hk.
Qed.

(** The backend of the example neither shortens nor lengthens. *)
Lemma xor_never_shrinks key : never_shrinks (CustomBackend.XorBackend key).
Proof. intros d x [= <-]. unfold lenZ. rewrite length_map. lia. Qed.

Lemma xor_options_ok key : options_ok (CustomBackend.xor_options key).
Proof.
  constructor; try done; [split; [done|]; right; apply xor_never_shrinks|].
  intros be [= <-] d. eexists. reflexivity.
Qed.

Lemma custom_backend_runs : exists n, CustomBackend.main c = Ok n.
Proof.
  destruct (encode_all_ok c (text "same source") (text "same target with edits")
    (CustomBackend.xor_options 0x5A)) as (delta & Henc & _);
    [apply text_wf|done|apply text_wf|done|apply cap_window_ok, xor_options_ok| |].
  { destruct B as [[]], c as [| | | |[]]; vm_compute; reflexivity. }
  exists (lenZ delta). unfold CustomBackend.main. by rewrite Henc.
Qed.
End Mains.

(** The three self-contained examples run to their end on every processor
    and in both build profiles: no error, no failed assertion; [library_usage]
    decodes one window. *)
Theorem examples_run {B : Build} `{Adler32Laws} `{CodecLaws} (c : cpu) :
  (exists n, Basic.main c = Ok (25, n, 25)) /\ LibraryUsage.main c = Ok 1 /\
  (exists n, CustomBackend.main c = Ok n).
Proof. split_and!; [apply basic_runs|apply library_usage_runs|apply custom_backend_runs]. Qed.

(** [integration_pipeline] restores the target.  If both input files can be
    read, the program ends without an error, [restored.bin] holds the bytes of
    [target.bin], the inputs are unchanged, and the sizes it prints agree. *)
Theorem pipeline_restores {B : Build} `{Adler32Laws} `{CodecLaws} `{Sha256} `{OsLaws} `{!OsWorks} (c : cpu)
    (w : World) (s t : bytes) :
  files w !! "source.bin"%string = Some s -> files w !! "target.bin"%string = Some t ->
  wf_bytes s -> lenZ s < 2 ^ 62 -> wf_bytes t -> lenZ t < 2 ^ 62 ->
  merges_safe c s default_options t = true ->
  exists enc dec w', IntegrationPipeline.main c w = Ok (enc, dec, w') /\
    files w' !! "restored.bin"%string = Some t /\
    files w' !! "source.bin"%string = Some s /\ files w' !! "target.bin"%string = Some t /\
    source_size enc = d_source_size dec /\ target_size enc = output_size dec /\
    delta_size enc = d_delta_size dec /\ target_sha256 enc = output_sha256 dec.
Proof.
  intros Hs Ht Hsw Hsl Htw Htl Hsafe.
  destruct (encode_file_ok c w "source.bin" "target.bin" "patch.vcdiff" default_options s t)
    as (delta & n & Henc & Hd); rewrite ?file_bytes_set_ne, ?(file_bytes_lookup _ _ _ Ht) by done;
    try done.
  rewrite file_bytes_set_ne, (file_bytes_lookup _ _ _ Ht) in Henc, Hd by done.
  unfold IntegrationPipeline.main. rewrite Henc. cbn [map_err bind].
  rewrite (decode_file_ok (set_file w "patch.vcdiff" delta) "source.bin" "patch.vcdiff" "restored.bin"
    default_options s delta t n); autorewrite with files; try done; try by apply no_secondary_ok.
  cbn [map_err bind]. eexists _, _, _. split; [done|]. by autorewrite with files.
Qed.

(** The note [custom_backend] prints, that its delta can only be decoded
    with the backend registered, does not hold of it.  The backend makes no
    section shorter, so [encode_all] uses it for none, and the library's own
    decoder, which has no such backend, restores every target. *)
Theorem xor_backend_unused {B : Build} `{Adler32Laws} `{CodecLaws} (c : cpu) (key : Z) (source target : bytes) :
  (forall data inst addr,
    compress_sections (CustomBackend.XorBackend key) data inst addr = Ok (data, inst, addr, 0)) /\
  (wf_bytes source -> lenZ source < 2 ^ 62 -> wf_bytes target -> lenZ target < 2 ^ 62 ->
   merges_safe c source (cap_window (CustomBackend.xor_options key) target) target = true ->
   exists delta, encode_all c [] source target (CustomBackend.xor_options key) = Ok delta /\
     backend_for_id (Some (be_id (CustomBackend.XorBackend key))) = Err UnsupportedFeature /\
     decode_all source delta = Ok target).
Proof.
  split.
  - intros data inst addr.
    destruct (compress_sections_total (CustomBackend.XorBackend key) data inst addr) as (p & q & r & del & Hc);
      [eauto|]. rewrite Hc. by apply (never_compressed _ _ _ _ _ (xor_never_shrinks key)) in Hc as ->.
  - intros. destruct (encode_all_ok c source target (CustomBackend.xor_options key)) as (delta & ? & ?);
      [done..|apply cap_window_ok, xor_options_ok|done|]. by exists delta.
Qed.

(** ** Witnesses *)

#[local] Instance checked_build : Build := {| debug_build := true |}.
#[local] Instance sample_adler : Adler32 := adler32_fallback.
#[local] Instance sample_adler_laws : Adler32Laws := adler32_fallback_laws.
#[local] Instance sample_codecs : Codecs := zeros_codecs.
#[local] Instance sample_codec_laws : CodecLaws := zeros_codec_laws.
#[local] Instance sample_sha : Sha256 := {| file_io := true; sha256 l := l |}.
#[local] Instance sample_os : Os := one_byte_os.
#[local] Instance sample_os_laws : OsLaws := one_byte_os_laws.
#[local] Instance sample_os_works : OsWorks := one_byte_os_works.

Lemma examples_run_witness :
  (exists n, Basic.main Aarch64 = Ok (25, n, 25)) /\ LibraryUsage.main Aarch64 = Ok 1 /\
  (exists n, CustomBackend.main Aarch64 = Ok n).
Proof. exact (examples_run Aarch64). Defined.

Definition pipeline_world : World :=
  world (<["source.bin"%string := text "old"]> (<["target.bin"%string := []]> ∅)) [] [].

Lemma pipeline_restores_witness :
  exists enc dec w', IntegrationPipeline.main X86_sse2 pipeline_world = Ok (enc, dec, w') /\
    files w' !! "restored.bin"%string = Some [] /\
    files w' !! "source.bin"%string = Some (text "old") /\ files w' !! "target.bin"%string = Some [] /\
    source_size enc = d_source_size dec /\ target_size enc = output_size dec /\
    delta_size enc = d_delta_size dec /\ target_sha256 enc = output_sha256 dec.
Proof.
  apply (pipeline_restores X86_sse2 pipeline_world (text "old") []);
    [reflexivity|reflexivity|apply text_wf|reflexivity|constructor|reflexivity|].
  apply merges_safe_nil; [apply text_wf|reflexivity|by apply no_secondary_ok].
Defined.

Lemma xor_backend_unused_witness :
  (forall data inst addr,
    compress_sections (CustomBackend.XorBackend 7) data inst addr = Ok (data, inst, addr, 0)) /\
  exists delta, encode_all X86_avx2 [] (text "same source") (text "same target with edits")
      (CustomBackend.xor_options 7) = Ok delta /\
    backend_for_id (Some (be_id (CustomBackend.XorBackend 7))) = Err UnsupportedFeature /\
    decode_all (text "same source") delta = Ok (text "same target with edits").
Proof.
  destruct (xor_backend_unused X86_avx2 7 (text "same source") (text "same target with edits")) as [Hall Hd].
  split; [exact Hall|].
  apply Hd; [apply text_wf|reflexivity|apply text_wf|reflexivity|vm_compute; reflexivity].
Defined.
