(* ===== verification/Bench.v ===== *)
(** * The benchmark and the tracing tools ([src/examples])

    The data generators the tools share, the benchmark's runner and median
    ([bench.rs]), the listing of a delta's first window ([ratio_debug.rs]) and
    the reconstruction of the large hash table ([trace_hash.rs],
    [trace_hash2.rs], [trace_match.rs]).  The clock is a parameter; an [f64] is a
    [spec_float] of the 64-bit format. *)

From stdpp Require Import base numbers list option sorting.
From Stdlib Require Import ZArith Lia SpecFloat.
From S2P Require Import Prelude Varint AddrCache CodeTable Semantics Header WindowEncoder Source.
From S2P Require Import Secondary WindowDecoder WindowRoundtrip StreamRoundtrip Kernels HashTables Matching.
From S2P Require Import MatchingCorrect Pipeline Delta DeltaCorrect ByteSize Iterator Listing Fuzz Total Pieces.
From S2P Require Import Examples.

Local Open Scope Z_scope.
Local Open Scope rust_scope.

(** ** Data *)

(** The step of the generator, with [wrapping_mul] and [wrapping_add]. *)
Definition lcg (state : Z) : Z := wrap 64 (wrap 64 (state * 6364136223846793005) + 1442695040888963407).

Definition lcg_byte (state : Z) : Z := wrap 8 (Z.shiftr state 33).

Fixpoint generate_data (size : nat) (state : Z) : bytes :=
  match size with
  | O => []
  | S size => let state := lcg state in lcg_byte state :: generate_data size state
  end.

(** [f64] *)
Abbreviation f64 := spec_float.

Definition f64_sub : f64 -> f64 -> f64 := SFsub 53 1024.
Definition f64_mul : f64 -> f64 -> f64 := SFmul 53 1024.
Definition f64_one : f64 := S754_finite false (2 ^ 52) (-52).

(** [n as f64] *)
Definition f64_of_usize (n : Z) : f64 := binary_normalize 53 1024 n 0 false.

(** [x as usize]: towards zero, saturating, and 0 for a NaN. *)
Definition usize_of_f64 (x : f64) : Z :=
  match x with
  | S754_zero _ | S754_nan => 0
  | S754_infinity s => if s then 0 else 2 ^ 64 - 1
  | S754_finite s m e => if s then 0 else Z.min (2 ^ 64 - 1) (Z.shiftl (Zpos m) e)
  end.

Definition change_count (similarity : f64) (len : Z) : Z :=
  usize_of_f64 (f64_mul (f64_sub f64_one similarity) (f64_of_usize len)).

(** [for _ in 0..change_count]; a remainder by zero panics. *)
Fixpoint mutate_loop {E} (n : nat) (state : Z) (target : bytes) : result E bytes :=
  match n with
  | O => Ok target
  | S n =>
      let state := lcg state in
      if lenZ target =? 0 then Panic
      else
        let pos := Z.shiftr state 33 mod lenZ target in
        let state := lcg state in
        let* target := store target pos (lcg_byte state) in
        mutate_loop n state target
  end.

Definition mutate_data {E} (source : bytes) (similarity : f64) (seed : Z) : result E bytes :=
  mutate_loop (Z.to_nat (change_count similarity (lenZ source))) seed source.

(** ** bench.rs *)

Module Bench.
Record BenchResult := {
  encode_median : Z;
  decode_median : Z;
  delta_size : Z;
  data_size : Z
}.

(** [Duration]s are compared as numbers. *)
Definition median {E} (times : list Z) : result E Z :=
  let times := merge_sort Z.le times in
  index times (lenZ times / 2).

(** [v.parse().ok()], with [usize::from_str] the same as [u64::from_str]. *)
Definition parse_arg (args : list str) (name : str) : option Z :=
  match list_find (fun a => a = name) args with
  | Some (i, _) =>
      match args !! S i with
      | Some v => match parse_u64 v with Ok n => Some n | _ => None end
      | None => None
      end
  | None => None
  end.

Section Runner.
Context {B : Build} `{Adler32} `{Codecs} {E : Type} (c : cpu).
(** The durations measured around the calls of an iteration. *)
Context (encode_time decode_time : nat -> Z).

Definition bench_options (level : Z) : CompressOptions :=
  compress_options level (window_size default_options) false NoSecondary.

(** [for _ in 0..iterations]: encode into a cleared vector, and keep the time. *)
Fixpoint encode_times (source target : bytes) (opts : CompressOptions) (i n : nat) (delta : bytes)
    : result E (list Z * bytes) :=
  match n with
  | O => Ok ([], delta)
  | S n =>
      let* delta := unwrap (encode_all c [] source target opts) in
      let* (times, delta) := encode_times source target opts (S i) n delta in
      Ok (encode_time i :: times, delta)
  end.

Fixpoint decode_times (source delta : bytes) (i n : nat) : result E (list Z) :=
  match n with
  | O => Ok []
  | S n =>
      let* _ := unwrap (decode_all source delta) in
      let* times := decode_times source delta (S i) n in
      Ok (decode_time i :: times)
  end.

Definition bench_rust (source target : bytes) (level : Z) (iterations : nat) : result E BenchResult :=
  let opts := bench_options level in
  let* delta := unwrap (encode_all c [] source target opts) in
  let* decoded := unwrap (decode_all source delta) in
  let* _ := assert_eq decoded target in
  let* (encode_times, delta) := encode_times source target opts 0 iterations delta in
  let* decode_times := decode_times source delta 0 iterations in
  let* encode_median := median encode_times in
  let* decode_median := median decode_times in
  Ok {| encode_median := encode_median; decode_median := decode_median;
        delta_size := lenZ delta; data_size := lenZ target |}.
End Runner.

(** The counters of part 5. *)
Record counts := {
  n_add : Z; n_copy : Z; n_run : Z;
  add_bytes : Z; copy_bytes : Z; run_bytes : Z
}.

Definition count_inst {B : Build} {E} (k : counts) (i : Instruction) : result E counts :=
  match i with
  | Add len =>
      let* n := add_w 32 (n_add k) 1 in
      let* b := add_w 64 (add_bytes k) len in
      Ok {| n_add := n; n_copy := n_copy k; n_run := n_run k;
            add_bytes := b; copy_bytes := copy_bytes k; run_bytes := run_bytes k |}
  | Copy len _ _ =>
      let* n := add_w 32 (n_copy k) 1 in
      let* b := add_w 64 (copy_bytes k) len in
      Ok {| n_add := n_add k; n_copy := n; n_run := n_run k;
            add_bytes := add_bytes k; copy_bytes := b; run_bytes := run_bytes k |}
  | Run len =>
      let* n := add_w 32 (n_run k) 1 in
      let* b := add_w 64 (run_bytes k) len in
      Ok {| n_add := n_add k; n_copy := n_copy k; n_run := n;
            add_bytes := add_bytes k; copy_bytes := copy_bytes k; run_bytes := b |}
  end.

(** [for inst in iter { match inst.unwrap() { .. } }] *)
Fixpoint count_loop {B : Build} {E} (fuel : nat) (it : InstructionIterator.t) (k : counts)
    : result E counts :=
  match fuel with
  | O => Diverge
  | S fuel =>
      let* o := unwrap (InstructionIterator.next (S (S (2 * length (InstructionIterator.inst_data it)))) it) in
      match o with
      | None => Ok k
      | Some (inst, it) => let* k := count_inst k inst in count_loop fuel it k
      end
  end.
End Bench.

(** ** ratio_debug.rs *)

Module RatioDebug.
Inductive kind := ADD | CPY | RUN.

#[global] Instance kind_eq_dec : EqDecision kind.
Proof. solve_decision. Defined.

Abbreviation entry := (Z * kind * Z * option Z)%type.

(** A turn of the comparison's loop: the indices it looked at, and whether the
    entries were the same. *)
Abbreviation turn := (nat * nat * bool)%type.

Section Listing.
Context {B : Build} {E : Type}.

(** [let mut v = vec![0u8; n as usize]; cursor.read_exact(&mut v).unwrap()] *)
Definition read_vec (n : Z) (r : bytes) : result E (bytes * bytes) :=
  let* _ := alloc n in
  unwrap (read_exact n r).

(** The headers and the sections of the first window. *)
Definition first_window (delta : bytes) : result E (WindowHeader.t * bytes * bytes * bytes) :=
  let* (_, r) := unwrap (FileHeader.decode delta) in
  let* (wh, r) := unwrap (WindowHeader.decode r) in
  match wh with
  | None => Panic
  | Some wh =>
      let* (d, r) := read_vec (WindowHeader.data_len wh) r in
      let* (i, r) := read_vec (WindowHeader.inst_len wh) r in
      let* (a, r) := read_vec (WindowHeader.addr_len wh) r in
      Ok (wh, d, i, a)
  end.

Definition decode_instructions (delta : bytes) : result E (list Instruction) :=
  let* (wh, d, i, a) := first_window delta in
  unwrap (drain (S (2 * length i)) (InstructionIterator.new i a (WindowHeader.copy_window_len wh))).

(** [for inst in insts], with [pos] the start of [inst] in the target. *)
Fixpoint inst_pos_len (pos : Z) (insts : list Instruction) : result E (list entry) :=
  match insts with
  | [] => Ok []
  | i :: insts =>
      let e :=
        match i with
        | Add len => (pos, ADD, len, None)
        | Copy len addr _ => (pos, CPY, len, Some addr)
        | Run len => (pos, RUN, len, None)
        end in
      let* pos := add_w 64 pos (inst_len i) in
      let* l := inst_pos_len pos insts in
      Ok (e :: l)
  end.

(** [while ri < r_pos.len() || ci < c_pos.len()]: advance the list that is
    behind, or both; after a difference stop twenty entries later. *)
Fixpoint compare_loop (fuel : nat) (r_pos c_pos : list entry) (ri ci : nat) (diverged : bool)
    : result E (list turn) :=
  match fuel with
  | O => Diverge
  | S fuel =>
      if (ri <? length r_pos)%nat || (ci <? length c_pos)%nat then
        let r := r_pos !! ri in
        let c := c_pos !! ci in
        let same :=
          match r, c with
          | Some (p1, k1, l1, a1), Some (p2, k2, l2, a2) =>
              (p1 =? p2) && bool_decide (k1 = k2) && (l1 =? l2) && bool_decide (a1 = a2)
          | _, _ => false
          end in
        let diverged := diverged || negb same in
        let seen := (ri, ci, same) in
        let go ri' ci' :=
          if diverged && (Nat.min (length r_pos) (ci' + 20) <? ri')%nat then Ok [seen]
          else let* l := compare_loop fuel r_pos c_pos ri' ci' diverged in Ok (seen :: l) in
        match r, c with
        | Some (p1, _, _, _), Some (p2, _, _, _) =>
            if p1 =? p2 then go (S ri) (S ci)
            else if p1 <? p2 then go (S ri) ci
            else go ri (S ci)
        | Some _, None => go (S ri) ci
        | None, Some _ => go ri (S ci)
        | None, None => Ok [seen]
        end
      else Ok []
  end.
End Listing.
End RatioDebug.

(** The analysis of part 5 of the benchmark, which reads the window as
    [ratio_debug] does. *)
Definition analyze {B : Build} {E} (delta : bytes) : result E Bench.counts :=
  let* (wh, _, inst_sec, addr_sec) := RatioDebug.first_window delta in
  let iter := InstructionIterator.new inst_sec addr_sec (WindowHeader.copy_window_len wh) in
  Bench.count_loop (S (2 * length inst_sec)) iter (Bench.Build_counts 0 0 0 0 0 0).

(** ** The tracing tools *)

Module Trace.
Section Tools.
Context {B : Build} {E : Type} (lh : LargeHash) (hcfg : HashCfg.t) (step : Z).

(** [trace_hash]: the indexed positions whose checksum falls in [bucket], in the
    order the index visits them. *)
Fixpoint collisions (fuel : nat) (bucket : Z) (source : bytes) (pos : Z) (found : list Z)
    : result E (list Z) :=
  match fuel with
  | O => Diverge
  | S fuel =>
      let* s := slice_from source pos in
      let* h := HashTables.checksum lh s in
      let b := HashCfg.bucket hcfg h in
      let found := if b =? bucket then found ++ [pos] else found in
      if pos <? step then Ok found
      else
        let* pos := sub_w 64 pos step in
        collisions fuel bucket source pos found
  end.

(** [trace_hash2]: the table, rebuilt as a vector. *)
Fixpoint build_table (fuel : nat) (source : bytes) (pos : Z) (table : list Z) : result E (list Z) :=
  match fuel with
  | O => Diverge
  | S fuel =>
      let* s := slice_from source pos in
      let* hash := HashTables.checksum lh s in
      let bucket := HashCfg.bucket hcfg hash in
      let* v := add_w 64 pos 1 in
      let* table := store table bucket v in
      if pos <? step then Ok table
      else
        let* pos := sub_w 64 pos step in
        build_table fuel source pos table
  end.

(** What it looks up for a target position, and whether the bytes match. *)
Definition lookup_target (source target table : bytes) (tp look : Z) : result E (Z * option Z * bool) :=
  let* s := slice_from target tp in
  let* hash := HashTables.checksum lh s in
  let bucket := HashCfg.bucket hcfg hash in
  let* stored := index table bucket in
  let* src_pos := if 0 <? stored then let* p := sub_w 64 stored 1 in Ok (Some p) else Ok None in
  let* actual_match :=
    match src_pos with
    | Some sp =>
        let* e := add_w 64 sp look in
        let* a := slice source sp e in
        let* b := slice target tp (tp + look) in
        Ok (bool_decide (a = b))
    | None => Ok false
    end in
  Ok (bucket, src_pos, actual_match).

(** [trace_match]: the positions the index visits. *)
Fixpoint indexed (fuel : nat) (pos : Z) : result E (list Z) :=
  match fuel with
  | O => Diverge
  | S fuel =>
      if pos <? step then Ok [pos]
      else
        let* pos' := sub_w 64 pos step in
        let* l := indexed fuel pos' in
        Ok (pos :: l)
  end.
End Tools.

Section Mains.
Context {B : Build} {E : Type}.

(** 0.95, rounded to the nearest [f64]. *)
Definition similarity : f64 := S754_finite false 8556839292003942 (-53).

Definition cfg : MatcherConfig := config_for_level 6.
Definition lh : LargeHash := LargeHash_new (large_look cfg).

(** The table the tools build has a slot for each step of the source. *)
Definition traced_cfg (source : bytes) : HashCfg.t :=
  HashCfg.new (Z.max (lenZ source / large_step cfg) 8).

(** What [trace_hash] prints: the checksums at 217, their bucket, the size of
    the table, the positions of the bucket and the last of them; for another
    winner than 217 also its bytes and those of the target. *)
Definition trace_hash (source target : bytes)
    : result E (Z * Z * Z * Z * list Z * option (Z * option (bytes * bytes))) :=
  let* s := slice_from source 217 in
  let* src_hash := HashTables.checksum lh s in
  let* t := slice_from target 217 in
  let* tgt_hash := HashTables.checksum lh t in
  let look := large_look cfg in
  let step := large_step cfg in
  let* pos := sub_w 64 (lenZ source) look in
  let* hash_217 := HashTables.checksum lh s in
  let hcfg := traced_cfg source in
  let bucket_217 := HashCfg.bucket hcfg hash_217 in
  let* found := collisions lh hcfg step (S (Z.to_nat pos)) bucket_217 source pos [] in
  let* winner :=
    match list.last found with
    | Some winner =>
        if negb (winner =? 217) then
          let* e := add_w 64 winner look in
          let* a := slice source winner e in
          let* b := slice target 217 226 in
          Ok (Some (winner, Some (a, b)))
        else Ok (Some (winner, None))
    | None => Ok None
    end in
  Ok (src_hash, tgt_hash, bucket_217, HashCfg.size hcfg, found, winner).

(** [for tp in 215..226]: what [trace_hash2] prints for each target position. *)
Fixpoint lookups (n : nat) (tp : Z) (source target table : bytes)
    : result E (list (Z * option Z * bool)) :=
  match n with
  | O => Ok []
  | S n =>
      if lenZ target <? tp + large_look cfg then Ok []
      else
        let* x := lookup_target lh (traced_cfg source) source target table tp (large_look cfg) in
        let* l := lookups n (tp + 1) source target table in
        Ok (x :: l)
  end.

Definition trace_hash2 (source target : bytes) : result E (Z * list (Z * option Z * bool)) :=
  let hcfg := traced_cfg source in
  let* pos := sub_w 64 (lenZ source) (large_look cfg) in
  let* table := build_table lh hcfg (large_step cfg) (S (Z.to_nat pos)) source pos
    (replicate (Z.to_nat (HashCfg.size hcfg)) 0) in
  let* l := lookups 11 215 source target table in
  Ok (HashCfg.size hcfg, l).

(** The data the tools run on. *)
Definition traced {A} (f : bytes -> bytes -> result E A) : result E A :=
  let source := generate_data 4096 42 in
  let* target := mutate_data source similarity 123 in
  f source target.
End Mains.
End Trace.

(** ** Lemmas *)

Lemma lcg_byte_u8 s : is_u8 (lcg_byte s).
Proof. unfold lcg_byte, wrap, in_range. apply Z.mod_pos_bound. lia. Qed.

Lemma generate_data_ok size seed :
  wf_bytes (generate_data size seed) /\ lenZ (generate_data size seed) = Z.of_nat size.
Proof.
  revert seed. induction size as [|size IH]; intros seed; [by split; [constructor|]|].
  cbn [generate_data]. destruct (IH (lcg seed)). rewrite lenZ_cons.
  split; [|lia]. constructor; [apply lcg_byte_u8|done].
Qed.

(** Nothing is to be changed in nothing, whatever the similarity. *)
Lemma change_count_nil x : change_count x 0 = 0.
Proof. unfold change_count. change (f64_of_usize 0) with (S754_zero false). by destruct (f64_sub f64_one x). Qed.

Lemma mutate_loop_ok {E} n : forall state l,
  (n = 0%nat \/ 0 < lenZ l) -> wf_bytes l ->
  exists l', mutate_loop (E:=E) n state l = Ok l' /\ wf_bytes l' /\ lenZ l' = lenZ l.
Proof.
  induction n as [|n IH]; intros state l Hn Hl; cbn [mutate_loop]; [eauto|].
  destruct (Z.eqb_spec (lenZ l) 0); [lia|]. pose proof (lenZ_nonneg l).
  pose proof (Z.mod_pos_bound (Z.shiftr (lcg state) 33) (lenZ l) ltac:(lia)).
  rewrite store_ok by lia. cbn [bind].
  destruct (IH (lcg (lcg state)) (<[Z.to_nat (Z.shiftr (lcg state) 33 mod lenZ l):=lcg_byte (lcg (lcg state))]> l))
    as (l' & -> & Hw & Hl').
  - right. rewrite lenZ_insert. lia.
  - apply Forall_insert; [done|apply lcg_byte_u8].
  - exists l'. by rewrite lenZ_insert in Hl'.
Qed.

Lemma mutate_data_ok {E} l x seed :
  wf_bytes l -> exists l', mutate_data (E:=E) l x seed = Ok l' /\ wf_bytes l' /\ lenZ l' = lenZ l.
Proof.
  intros Hl. apply mutate_loop_ok; [|done]. destruct (Z.eq_dec (lenZ l) 0) as [->|].
  - left. by rewrite change_count_nil.
  - right. pose proof (lenZ_nonneg l). lia.
Qed.

(** *** The median *)

(** Before and after an entry of a sorted list. *)
Lemma sorted_around (l : list Z) i m :
  StronglySorted Z.le l -> l !! i = Some m ->
  Forall (fun x => x <= m) (take (S i) l) /\ Forall (fun x => m <= x) (drop i l).
Proof.
  intros Hs. revert i. induction Hs as [|x l _ IH Hx]; intros i Hi; [done|]. destruct i as [|i]; simpl in Hi.
  - injection Hi as ->. rewrite drop_0. split; [|by constructor; [lia|]].
    constructor; [lia|constructor].
  - destruct (IH i Hi) as [Ht Hd]. split; [|done]. cbn [take]. constructor; [|done].
    rewrite Forall_forall in Hx. apply Hx. by eapply list_elem_of_lookup_2.
Qed.

Lemma median_ok {E} (times : list Z) :
  times <> [] ->
  exists m lo hi, Bench.median (E:=E) times = Ok m /\ times ≡ₚ lo ++ m :: hi /\
    Forall (fun x => x <= m) lo /\ Forall (fun x => m <= x) hi /\
    length lo = (length times / 2)%nat.
Proof.
  intros Hne. unfold Bench.median. set (s := merge_sort Z.le times).
  assert (s ≡ₚ times) as Hp by apply merge_sort_Permutation.
  assert (StronglySorted Z.le s) as Hs.
  { apply Sorted_StronglySorted; [intros x y z; lia|]. apply Sorted_merge_sort. intros x y. lia. }
  pose proof (Permutation_length Hp) as Hl.
  assert (0 < length times)%nat by (destruct times; simpl; [done|lia]).
  destruct (index_ok (E:=E) s (lenZ s / 2)) as (m & Hm & ->).
  { unfold lenZ. split; [apply Z.div_pos; lia|apply Z.div_lt_upper_bound; lia]. }
  assert (Z.to_nat (lenZ s / 2) = (length times / 2)%nat) as Hi.
  { unfold lenZ. rewrite Hl. change 2 with (Z.of_nat 2). by rewrite <- Nat2Z.inj_div, Nat2Z.id. }
  rewrite Hi in Hm. destruct (sorted_around s _ m Hs Hm) as [Hlo Hhi].
  rewrite (take_S_r _ _ _ Hm) in Hlo. rewrite (drop_S _ _ _ Hm) in Hhi.
  apply Forall_app in Hlo as [Hlo _]. inversion Hhi as [|? ? _ Hhi']; subst.
  eexists m, _, _. split; [done|]. split; [|split; [exact Hlo|split; [exact Hhi'|]]].
  - rewrite <- Hp, <- (take_drop (length times / 2) s) at 1. by rewrite (drop_S _ _ _ Hm).
  - rewrite length_take, Hl. apply Nat.min_l, Nat.lt_le_incl, Nat.div_lt; lia.
Qed.

(** *** The runner *)

Section Runner.
Context {B : Build} `{Adler32Laws} `{CodecLaws} {E : Type} (c : cpu) (encode_time decode_time : nat -> Z).

Lemma encode_times_ok source target opts delta :
  encode_all c [] source target opts = Ok delta -> forall n i,
  Bench.encode_times (E:=E) c encode_time source target opts i n delta
  = Ok (encode_time <$> seq i n, delta).
Proof.
  intros Henc. induction n as [|n IH]; intros i; cbn [Bench.encode_times]; [done|].
  rewrite Henc. cbn [unwrap bind]. by rewrite IH.
Qed.

Lemma decode_times_ok source delta t :
  decode_all source delta = Ok t -> forall n i,
  Bench.decode_times (E:=E) decode_time source delta i n = Ok (decode_time <$> seq i n).
Proof.
  intros Hdec. induction n as [|n IH]; intros i; cbn [Bench.decode_times]; [done|].
  rewrite Hdec. cbn [unwrap bind]. by rewrite IH.
Qed.

Lemma bench_options_ok lvl target :
  0 <= lvl -> options_ok (cap_window (Bench.bench_options lvl) target).
Proof. intros Hl. by apply cap_window_ok, no_secondary_ok. Qed.
End Runner.

(** *** The first window *)

Section FirstWindow.
Context {B : Build} `{Adler32Laws} `{CodecLaws} {E : Type}.

Lemma read_vec_app l r : lenZ l < 2 ^ 63 -> RatioDebug.read_vec (E:=E) (lenZ l) (l ++ r) = Ok (l, r).
Proof.
  intros Hl. unfold RatioDebug.read_vec, alloc. rewrite (proj2 (Z.leb_le _ _)) by lia. cbn [bind].
  by rewrite read_exact_app.
Qed.

(** A file header and a window of a job are read as what they list. *)
Lemma first_window_ok fh j t w wh rest :
  file_header_wf fh -> lists j t w wh ->
  exists d i a insts, RatioDebug.first_window (E:=E) (file_header_bytes fh ++ w ++ rest) = Ok (wh, d, i, a) /\
    WindowHeader.copy_window_len wh = win_len (j_source j) /\
    drain (S (2 * length i)) (InstructionIterator.new i a (win_len (j_source j))) = Ok insts /\
    Forall2 shows insts (j_ops j).
Proof.
  intros Hfh [[Hds _] (d & i & a & insts & -> & Hd & Hi & Ha & Hl & Hdr & Hsh)].
  pose proof (lenZ_nonneg d). pose proof (lenZ_nonneg i). pose proof (lenZ_nonneg a).
  exists d, i, a, insts. split; [|split; [apply Hds|done]]. unfold RatioDebug.first_window.
  rewrite file_header_decode_ok by done. cbn [unwrap bind].
  rewrite <- !app_assoc, window_header_decode_ok by apply Hds. cbn [unwrap bind]. rewrite Hd, Hi, Ha.
  do 3 (rewrite read_vec_app by lia; cbn [bind]). done.
Qed.

Lemma ops_fit_positive srclen pos ops : ops_fit srclen pos ops -> Forall (fun o => 1 <= op_len o) ops.
Proof.
  revert pos. induction ops as [|o ops IH]; intros pos; [constructor|]. intros [[? _] ?].
  constructor; [lia|eauto].
Qed.

(** What [encode_all] makes of a target of one window, without secondary
    compression. *)
Lemma one_window_listed (c : cpu) source target opts :
  wf_bytes source -> lenZ source < 2 ^ 62 -> wf_bytes target -> 1 <= lenZ target <= window_size opts ->
  options_ok opts -> secondary opts = NoSecondary ->
  exists delta wh d i a insts ops,
    encode_all c [] source target opts = Ok delta /\
    RatioDebug.first_window (E:=E) delta = Ok (wh, d, i, a) /\
    drain (S (2 * length i)) (InstructionIterator.new i a (WindowHeader.copy_window_len wh)) = Ok insts /\
    Forall2 shows insts ops /\ ops_len ops = lenZ target /\ lenZ target <= HARD_MAX_WINSIZE /\
    Forall (fun o => 1 <= op_len o) ops /\
    (merges_safe c source (cap_window opts target) target = true ->
      exec_ops (copy_window wh source) [] ops = Some target).
Proof.
  intros Hsw Hsl Htw Htl Hoo Hsec. pose proof (cap_window_ok opts target Hoo) as Hoo'.
  set (opts' := cap_window opts target) in *.
  assert (secondary opts' = NoSecondary /\ lenZ target <= window_size opts') as [Hsec' Hwin].
  { unfold opts', cap_window. destruct (Z.ltb_spec (lenZ target) (window_size opts)); simpl; split; (done || lia). }
  pose proof (oo_window _ Hoo') as Hw. unfold HARD_MAX_WINSIZE in Hw.
  assert (concat [target] = target) as Hcat by apply app_nil_r.
  destruct (encode_pieces_if c source opts' [target])
    as (delta & n & Henc & Hd); rewrite ?Hcat; try done; [by constructor|lia|].
  rewrite Hcat in *. pose proof (one_window opts' target ltac:(lia)) as Hone.
  pose proof (merges_safe_meant c source opts' target Hsw Hsl Htw Hoo') as Hsafe. rewrite Hone in Hsafe, Hd.
  destruct Hd as (ws & -> & Hws & Hlen & -> & _). destruct (meant c source opts' target) as [|m [|]]; try done.
  inversion Hws as [|w ? ? ? ? ? Hwt Hnil]; subst. inversion Hnil; subst.
  destruct Hwt as (sw & ops & Hc & [Hs1 Hs2] & Hol & Hm & _ & Hex).
  assert (header_of opts' = FileHeader.default) as Hfh by (unfold header_of; by rewrite Hsec').
  rewrite Hfh in *. pose proof (lenZ_nonneg source).
  destruct (carries_lists FileHeader.default sw (Delta.checksum opts') ops target w) as (wh & Hls); [done|done| |lia|].
  { destruct sw as [x|]; simpl; [destruct (Hs2 x eq_refl) as (? & ? & ?)|]; lia. }
  destruct (first_window_ok FileHeader.default _ _ _ _ [] default_header_wf Hls)
    as (d & i & a & insts & Hfw & Hcl & Hdr & Hsh). simpl in Hcl, Hdr, Hsh.
  eexists _, wh, d, i, a, insts, ops. split; [by apply (encode_all_pieces c source target opts _ 1)|].
  split; [exact Hfw|]. rewrite Hcl. split_and!; try done.
  { apply carries_fit in Hc as Hfit. by apply (ops_fit_positive (win_len sw) 0). }
  rewrite Hsafe. intros [= ->]. destruct (ls_describes _ _ _ _ Hls) as [Hds _]. simpl in Hds.
  by rewrite (copy_window_selected _ _ _ _ _ source Hds).
Qed.
End FirstWindow.

(** *** Counting *)

Definition total_bytes (k : Bench.counts) : Z := Bench.add_bytes k + Bench.copy_bytes k + Bench.run_bytes k.
Definition total_insts (k : Bench.counts) : Z := Bench.n_add k + Bench.n_copy k + Bench.n_run k.

Definition counts_ok (k : Bench.counts) : Prop :=
  0 <= Bench.n_add k /\ 0 <= Bench.n_copy k /\ 0 <= Bench.n_run k /\
  0 <= Bench.add_bytes k /\ 0 <= Bench.copy_bytes k /\ 0 <= Bench.run_bytes k.

(** An instruction's length is its operation's. *)
Lemma shows_len i o : shows i o -> inst_len i = op_len o.
Proof. by destruct i, o; simpl; try done; intros []. Qed.

Section Counting.
Context {B : Build} {E : Type}.

Lemma count_inst_ok k i :
  counts_ok k -> 0 <= inst_len i -> total_insts k < 2 ^ 31 -> total_bytes k + inst_len i < 2 ^ 63 ->
  exists k', Bench.count_inst (E:=E) k i = Ok k' /\ counts_ok k' /\
    total_insts k' = total_insts k + 1 /\ total_bytes k' = total_bytes k + inst_len i.
Proof.
  unfold total_insts, total_bytes. intros Hk Hi Hn Hb. pose proof Hk as (? & ? & ? & ? & ? & ?).
  destruct i; cbn [Bench.count_inst inst_len] in *; rewrite !add_w_ok by (unfold in_range; lia);
    cbn [bind]; eexists; (split; [done|]); unfold counts_ok; simpl; split_and!; lia.
Qed.

Lemma analysis_loop_ok fuel : forall it insts ops k,
  drain fuel it = Ok insts -> Forall2 shows insts ops -> Forall (fun o => 1 <= op_len o) ops -> counts_ok k ->
  total_insts k + ops_len ops < 2 ^ 31 -> total_bytes k + ops_len ops < 2 ^ 63 ->
  exists k', Bench.count_loop (E:=E) fuel it k = Ok k' /\ total_bytes k' = total_bytes k + ops_len ops /\
    total_insts k' = total_insts k + lenZ insts.
Proof.
  induction fuel as [|fuel IH]; intros it insts ops k Hd Hsh Hpos Hk Hn Hb; [done|].
  cbn [drain Bench.count_loop] in *.
  destruct (InstructionIterator.next _ it) as [[[x it1]|]| | |]; try done; cbn [bind unwrap] in *.
  - apply bind_ok_inv in Hd as (l & Hd & [= <-]).
    apply Forall2_cons_inv_l in Hsh as (o & ops' & Hx%shows_len & Hsh & ->).
    inversion Hpos as [|? ? Ho Hpos']; subst.
    change (ops_len (o :: ops')) with (op_len o + ops_len ops') in *.
    assert (0 <= ops_len ops') by (clear -Hpos'; unfold ops_len; induction Hpos'; simpl; lia).
    destruct (count_inst_ok k x Hk) as (k1 & -> & Hk1 & Hn1 & Hb1); [lia..|]. cbn [bind].
    destruct (IH it1 l ops' k1) as (k2 & -> & Hb2 & Hn2); auto; [lia|lia|].
    exists k2. rewrite lenZ_cons. split_and!; [done|lia|lia].
  - injection Hd as <-. apply Forall2_nil_inv_l in Hsh as ->. exists k.
    change (ops_len []) with 0. change (lenZ (@nil Instruction)) with 0. split_and!; [done|lia|lia].
Qed.

(** The entries follow each other from [pos] to [stop]. *)
Fixpoint contiguous (pos : Z) (l : list RatioDebug.entry) (stop : Z) : Prop :=
  match l with
  | [] => pos = stop
  | (p, _, len, _) :: l => p = pos /\ contiguous (pos + len) l stop
  end.

Lemma inst_pos_len_ok insts ops : Forall2 shows insts ops -> Forall (fun o => 1 <= op_len o) ops ->
  forall pos, 0 <= pos -> pos + ops_len ops < 2 ^ 64 ->
  exists l, RatioDebug.inst_pos_len (E:=E) pos insts = Ok l /\ contiguous pos l (pos + ops_len ops) /\
    length l = length insts.
Proof.
  induction 1 as [|i o insts ops Hi%shows_len _ IH]; intros Hpos pos Hp Hl; cbn [RatioDebug.inst_pos_len].
  - exists []. change (ops_len []) with 0. split_and!; [done|simpl; lia|done].
  - inversion Hpos as [|? ? Ho Hpos']; subst. change (ops_len (o :: ops)) with (op_len o + ops_len ops) in *.
    assert (0 <= ops_len ops) by (clear -Hpos'; unfold ops_len; induction Hpos'; simpl; lia).
    rewrite Hi, add_w_ok by (unfold in_range; lia). cbn [bind].
    destruct (IH Hpos' (pos + op_len o)) as (l & -> & Hc & Hk); [lia|lia|]. cbn [bind].
    eexists. split; [done|]. rewrite <- Hi, Z.add_assoc in *. split; [|simpl; lia]. by destruct i.
Qed.
End Counting.

(** *** The comparison *)

(** The turns of the outcome [H] start with a difference. *)
Ltac differs H :=
  repeat case_match; first [injection H as <-|apply bind_ok_inv in H as (? & _ & [= <-])];
  by intros [? _]%Forall_cons_1.

Section Comparison.
Context {E : Type} (r c : list RatioDebug.entry).
Implicit Types l : list RatioDebug.turn.

(** Every turn moves on in one of the lists. *)
Lemma compare_loop_ends fuel : forall ri ci div,
  (ri <= length r)%nat -> (ci <= length c)%nat -> (length r - ri + (length c - ci) < fuel)%nat ->
  exists l, RatioDebug.compare_loop (E:=E) fuel r c ri ci div = Ok l /\
    (length l <= length r - ri + (length c - ci))%nat.
Proof.
  induction fuel as [|fuel IH]; intros ri ci div Hr Hc Hf; [lia|]. cbn [RatioDebug.compare_loop].
  destruct ((ri <? length r)%nat || (ci <? length c)%nat) eqn:Hmore; [|exists []; split; [done|simpl; lia]].
  destruct (r !! ri) as [[[[p1 k1] l1] a1]|] eqn:Hri, (c !! ci) as [[[[p2 k2] l2] a2]|] eqn:Hci;
    repeat match goal with H : _ !! _ = Some _ |- _ => apply lookup_lt_Some in H end.
  4: { apply lookup_ge_None in Hri, Hci. rewrite orb_true_iff, !Nat.ltb_lt in Hmore. lia. }
  all: repeat match goal with |- context [if ?b then _ else _] =>
         match b with _ =? _ => destruct b | _ <? _ => destruct b end end.
  all: cbv zeta beta; case_match; [eexists; split; [done|simpl; lia]|].
  all: match goal with |- context [RatioDebug.compare_loop _ _ _ ?a ?b ?d] =>
         destruct (IH a b d) as (l & -> & Hl); [lia..|] end;
       eexists; (split; [done|]); simpl; lia.
Qed.

(** Without a difference so far, the two lists are walked in step, and the
    first difference shows. *)
Lemma compare_loop_exact fuel : forall k l,
  (k <= length r)%nat -> (k <= length c)%nat -> (length r - k + (length c - k) < fuel)%nat ->
  RatioDebug.compare_loop (E:=E) fuel r c k k false = Ok l ->
  (Forall (fun t => t.2 = true) l <-> drop k r = drop k c).
Proof.
  induction fuel as [|fuel IH]; intros k l Hr Hc Hf; [lia|]. cbn [RatioDebug.compare_loop].
  destruct ((k <? length r)%nat || (k <? length c)%nat) eqn:Hmore.
  2: { intros [= <-]. rewrite orb_false_iff, !Nat.ltb_ge in Hmore.
       rewrite !drop_ge by lia. by split; [|constructor]. }
  destruct (r !! k) as [[[[p1 k1] l1] a1]|] eqn:Hrk, (c !! k) as [[[[p2 k2] l2] a2]|] eqn:Hck.
  4: { apply lookup_ge_None in Hrk, Hck. rewrite orb_true_iff, !Nat.ltb_lt in Hmore. lia. }
  1: destruct (_ && _ && _ && _) eqn:Hsame.
  - rewrite !andb_true_iff, !bool_decide_eq_true, !Z.eqb_eq in Hsame. destruct Hsame as [[[-> ->] ->] ->].
    rewrite Z.eqb_refl. cbn [negb orb andb]. intros Hl. apply bind_ok_inv in Hl as (l' & Hl & [= <-]).
    pose proof (lookup_lt_Some _ _ _ Hrk). pose proof (lookup_lt_Some _ _ _ Hck).
    rewrite (drop_S _ _ _ Hrk), (drop_S _ _ _ Hck), Forall_cons, (IH (S k) l') by (done || lia). simpl.
    split; [by intros [_ ->]|by intros [= ->]].
  - intros Hl. rewrite (drop_S _ _ _ Hrk), (drop_S _ _ _ Hck).
    assert (~ Forall (fun t => t.2 = true) l) as Hnot.
    { differs Hl. }
    split; [done|]. intros [= -> -> -> -> _]. rewrite !Z.eqb_refl, !bool_decide_eq_true_2 in Hsame by done. done.
  - intros Hl. rewrite (drop_S _ _ _ Hrk), (drop_ge c) by (by apply lookup_ge_None). split; [|done].
    differs Hl.
  - intros Hl. rewrite (drop_S _ _ _ Hck), (drop_ge r) by (by apply lookup_ge_None). split; [|done].
    differs Hl.
Qed.
End Comparison.

(** *** The large table *)

Section LargeIndex.
Context {B : Build} {E : Type}.

(** The vector of [trace_hash2] is the table of the index. *)
Lemma build_table_index lh hcfg step source fuel : forall pos table,
  0 <= pos < 2 ^ 64 - 1 -> 1 <= step ->
  Trace.build_table (E:=E) lh hcfg step fuel source pos table
  = let* t := MatchEngine.index_down fuel lh step 0 source pos (LargeTable.mk table hcfg) in
    Ok (LargeTable.table t).
Proof.
  induction fuel as [|fuel IH]; intros pos table Hp Hs; [done|].
  cbn [Trace.build_table MatchEngine.index_down].
  destruct (slice_from source pos) as [x| | |]; try done. cbn [bind].
  destruct (HashTables.checksum lh x) as [h| | |]; try done. cbn [bind].
  rewrite (add_w_ok 64 0) by (unfold in_range; lia). cbn [bind]. rewrite Z.add_0_l.
  unfold LargeTable.insert, HASH_CKOFFSET. cbn [LargeTable.cfg LargeTable.table].
  destruct (add_w 64 pos 1) as [v| | |]; try done. cbn [bind].
  destruct (store table _ v) as [t| | |]; try done. cbn [bind].
  destruct (Z.ltb_spec pos step); [done|]. rewrite sub_w_ok by (unfold in_range; lia). cbn [bind].
  apply IH; lia.
Qed.

Lemma insert_cfg t h pos t' : LargeTable.insert (E:=E) t h pos = Ok t' -> LargeTable.cfg t' = LargeTable.cfg t.
Proof.
  unfold LargeTable.insert. intros Hi. apply bind_ok_inv in Hi as (v & _ & Hi).
  by apply bind_ok_inv in Hi as (tb & _ & [= <-]).
Qed.

(** The index and the search for the positions of a bucket, side by side. *)
Lemma index_collisions lh step source h fuel : forall pos t found,
  wf_bytes source -> lenZ source < 2 ^ 63 -> 1 <= step -> 1 <= look lh ->
  0 <= pos -> pos + look lh <= lenZ source -> pos < Z.of_nat fuel -> large_wf t ->
  exists t' l, MatchEngine.index_down (E:=E) fuel lh step 0 source pos t = Ok t' /\
    Trace.collisions (E:=E) lh (LargeTable.cfg t) step fuel (HashCfg.bucket (LargeTable.cfg t) h) source pos found
      = Ok (found ++ l) /\
    StronglySorted Z.gt l /\ Forall (fun p => 0 <= p <= pos) l /\
    LargeTable.lookup (E:=E) t' h
      = match list.last l with Some p => Ok (Some p) | None => LargeTable.lookup t h end.
Proof.
  induction fuel as [|fuel IH]; intros pos t found Hw Hl Hs Hlk Hp Hfit Hf Ht; [lia|].
  cbn [MatchEngine.index_down Trace.collisions]. rewrite slice_from_ok by lia. cbn [bind].
  rewrite checksum_ok; [|by apply Forall_drop|rewrite lenZ_drop; lia]. cbn [bind].
  set (ck := pack_cksum _ _). rewrite add_w_ok by (unfold in_range; lia). cbn [bind]. rewrite Z.add_0_l.
  destruct (large_table_correct (E:=E) t ck pos Ht ltac:(lia)) as (t1 & Hi & Ht1 & Heq & Hne).
  rewrite Hi. cbn [bind]. pose proof (insert_cfg _ _ _ _ Hi) as Hcfg.
  set (b := _ =? _). set (here := if b then [pos] else []).
  assert (LargeTable.lookup (E:=E) t1 h
    = match list.last here with Some p => Ok (Some p) | None => LargeTable.lookup t h end) as Hlook.
  { unfold here, b. destruct (Z.eqb_spec (HashCfg.bucket (LargeTable.cfg t) ck) (HashCfg.bucket (LargeTable.cfg t) h)) as [Hb|Hb];
      [by apply Heq|by apply Hne; congruence]. }
  assert ((if b then found ++ [pos] else found) = found ++ here) as ->
    by (unfold here; destruct b; [done|by rewrite app_nil_r]).
  assert (Forall (fun p => 0 <= p <= pos) here /\ StronglySorted Z.gt here) as [Hle Hsort]
    by (unfold here; destruct b; repeat constructor; lia).
  destruct (Z.ltb_spec pos step); [by exists t1, here|].
  rewrite sub_w_ok by (unfold in_range; lia). cbn [bind]. rewrite <- Hcfg.
  destruct (IH (pos - step) t1 (found ++ here)) as (t' & l & -> & -> & Hsl & Hll & Hlu); try done; try lia.
  exists t', (here ++ l). rewrite app_assoc. split_and!; try done.
  - apply StronglySorted_app_2; [|done|done]. intros x y Hx Hy.
    assert (x = pos) as -> by (unfold here in Hx; destruct b;
      [by apply list_elem_of_singleton in Hx|by apply not_elem_of_nil in Hx]).
    rewrite Forall_forall in Hll. specialize (Hll y Hy). simpl in Hll. lia.
  - apply Forall_app. split; [done|]. eapply Forall_impl; [exact Hll|]. simpl. lia.
  - rewrite Hlu, last_app. by destruct (list.last l).
Qed.
End LargeIndex.

(** ** Theorems *)

(** A benchmark run.  Where the merges are safe, [bench_rust] passes its own
    correctness check, and with at least one iteration reports the size of the
    delta and medians of the measured times: as many times before the median as
    half the iterations, none of them larger, and none after it smaller.  With
    no iterations ([--iters 0]) it panics. *)
Theorem bench_rust_reports {B : Build} `{Adler32Laws} `{CodecLaws} {E : Type} (c : cpu)
    (encode_time decode_time : nat -> Z) (source target : bytes) (lvl : Z) (n : nat) :
  wf_bytes source -> lenZ source < 2 ^ 62 -> wf_bytes target -> lenZ target < 2 ^ 62 -> 0 <= lvl ->
  merges_safe c source (cap_window (Bench.bench_options lvl) target) target = true ->
  match n with
  | O => Bench.bench_rust (E:=E) c encode_time decode_time source target lvl n = Panic
  | _ => exists r delta, Bench.bench_rust (E:=E) c encode_time decode_time source target lvl n = Ok r /\
      encode_all c [] source target (Bench.bench_options lvl) = Ok delta /\
      Bench.delta_size r = lenZ delta /\ Bench.data_size r = lenZ target /\
      exists lo hi, encode_time <$> seq 0 n ≡ₚ lo ++ Bench.encode_median r :: hi /\
        Forall (fun x => x <= Bench.encode_median r) lo /\ Forall (fun x => Bench.encode_median r <= x) hi /\
        length lo = (n / 2)%nat
  end.
Proof.
  intros Hsw Hsl Htw Htl Hlvl Hsafe.
  destruct (encode_all_ok c source target (Bench.bench_options lvl)) as (delta & Henc & Hdec);
    [done..|by apply bench_options_ok|done|].
  assert (Bench.bench_rust (E:=E) c encode_time decode_time source target lvl n
    = let* em := Bench.median (encode_time <$> seq 0 n) in
      let* dm := Bench.median (decode_time <$> seq 0 n) in
      Ok {| Bench.encode_median := em; Bench.decode_median := dm;
            Bench.delta_size := lenZ delta; Bench.data_size := lenZ target |}) as ->.
  { unfold Bench.bench_rust. rewrite Henc. cbn [unwrap bind]. rewrite Hdec. cbn [unwrap bind].
    rewrite assert_eq_refl. cbn [bind]. rewrite (encode_times_ok c encode_time _ _ _ _ Henc). cbn [bind].
    by rewrite (decode_times_ok decode_time _ _ _ Hdec). }
  destruct n as [|n]; [done|].
  destruct (median_ok (E:=E) (encode_time <$> seq 0 (S n))) as (em & lo & hi & -> & Hp & Hlo & Hhi & Hl); [done|].
  destruct (median_ok (E:=E) (decode_time <$> seq 0 (S n))) as (dm & _ & _ & -> & _); [done|].
  cbn [bind]. eexists _, delta. split; [done|]. split_and!; try done.
  exists lo, hi. split_and!; try done. by rewrite Hl, length_fmap, length_seq.
Qed.

(** Reading a delta back with the listing tools.  A target of at most one
    window, encoded without secondary compression, gives a delta whose first
    window [decode_instructions] lists without a panic.  The instructions, at
    the offsets [inst_pos_len] gives them, follow each other and cover the
    target; the byte counts of the benchmark's analysis add up to its length
    and the instruction counts to their number.  With safe merges, executing
    them over the copy window rebuilds the target. *)
Theorem delta_analyzed {B : Build} `{Adler32Laws} `{CodecLaws} {E : Type} (c : cpu) (source target : bytes)
    (opts : CompressOptions) :
  wf_bytes source -> lenZ source < 2 ^ 62 -> wf_bytes target -> 1 <= lenZ target <= window_size opts ->
  options_ok opts -> secondary opts = NoSecondary ->
  exists delta insts entries k ops wh d i a,
    encode_all c [] source target opts = Ok delta /\
    RatioDebug.first_window (E:=E) delta = Ok (wh, d, i, a) /\
    RatioDebug.decode_instructions (E:=E) delta = Ok insts /\
    RatioDebug.inst_pos_len (E:=E) 0 insts = Ok entries /\ contiguous 0 entries (lenZ target) /\
    analyze (E:=E) delta = Ok k /\ total_bytes k = lenZ target /\ total_insts k = lenZ insts /\
    Forall2 shows insts ops /\
    (merges_safe c source (cap_window opts target) target = true ->
     exec_ops (copy_window wh source) [] ops = Some target).
Proof.
  intros Hsw Hsl Htw Htl Hoo Hsec.
  destruct (one_window_listed (E:=E) c source target opts)
    as (delta & wh & d & i & a & insts & ops & Henc & Hfw & Hdr & Hsh & Hlen & Hmax & Hpos & Hex); try done.
  unfold HARD_MAX_WINSIZE in Hmax.
  destruct (inst_pos_len_ok (E:=E) insts ops Hsh Hpos 0) as (entries & Hent & Hcont & _); [lia|lia|].
  destruct (analysis_loop_ok (E:=E) (S (2 * length i)) (InstructionIterator.new i a (WindowHeader.copy_window_len wh))
    insts ops (Bench.Build_counts 0 0 0 0 0 0)) as (k & Hk & Hkb & Hkn);
    [done|done|done|by unfold counts_ok|unfold total_insts; simpl; lia|unfold total_bytes; simpl; lia|].
  exists delta, insts, entries, k, ops, wh, d, i, a. rewrite Z.add_0_l, Hlen in Hcont.
  unfold RatioDebug.decode_instructions, analyze. rewrite Hfw. cbn [bind]. rewrite Hdr. cbn [unwrap].
  split_and!; try done. rewrite Hkb, Hlen. done.
Qed.

(** The comparison of two listings ends, after at most as many turns as there
    are entries, and reports no difference exactly when the listings are the
    same. *)
Theorem comparison_exact {E : Type} (r c : list RatioDebug.entry) :
  exists l, RatioDebug.compare_loop (E:=E) (S (length r + length c)) r c 0 0 false = Ok l /\
    (length l <= length r + length c)%nat /\ (Forall (fun t => t.2 = true) l <-> r = c).
Proof.
  destruct (compare_loop_ends (E:=E) r c (S (length r + length c)) 0 0 false) as (l & Hl & Hlen); [lia..|].
  exists l. split; [done|]. split; [lia|].
  apply (compare_loop_exact (E:=E) r c (S (length r + length c)) 0 l); (done || lia).
Qed.

(** The earliest position wins.  Indexing a source from its end, as
    [index_source] does, leaves in each bucket of the table the smallest of the
    indexed positions whose checksum falls in it: the last of the positions
    [trace_hash] lists, which it calls the winner; [trace_hash2] rebuilds the
    same table. *)
Theorem earliest_position_wins {B : Build} {E : Type} (lh : LargeHash) (hcfg : HashCfg.t) (step : Z)
    (source : bytes) (h : Z) :
  cfg_wf hcfg -> wf_bytes source -> 1 <= step -> 1 <= look lh <= lenZ source -> lenZ source < 2 ^ 63 ->
  let pos := lenZ source - look lh in
  let fuel := S (Z.to_nat pos) in
  let empty := replicate (Z.to_nat (HashCfg.size hcfg)) 0 in
  exists table l,
    MatchEngine.index_down (E:=E) fuel lh step 0 source pos (LargeTable.mk empty hcfg) = Ok table /\
    Trace.build_table (E:=E) lh hcfg step fuel source pos empty = Ok (LargeTable.table table) /\
    Trace.collisions (E:=E) lh hcfg step fuel (HashCfg.bucket hcfg h) source pos [] = Ok l /\
    LargeTable.lookup (E:=E) table h = Ok (list.last l) /\
    forall w p, list.last l = Some w -> p ∈ l -> w <= p.
Proof.
  intros Hcfg Hw Hs Hlk Hl pos fuel empty.
  assert (large_wf (LargeTable.mk empty hcfg)) as Ht.
  { pose proof (size_nonneg _ Hcfg). constructor; simpl; [done| |].
    - unfold empty. rewrite lenZ_replicate. by apply Z2Nat.id.
    - apply Forall_replicate, zero_u64. }
  destruct (index_collisions (E:=E) lh step source h fuel pos (LargeTable.mk empty hcfg) [])
    as (table & l & Hix & Hcol & Hsort & _ & Hlu); try done; try lia.
  exists table, l. split; [done|]. split; [by rewrite build_table_index, Hix by lia|].
  split; [done|].
  assert (LargeTable.lookup (E:=E) (LargeTable.mk empty hcfg) h = Ok None) as Hempty.
  { unfold LargeTable.lookup. cbn [LargeTable.table LargeTable.cfg]. pose proof (bucket_range hcfg h Hcfg).
    destruct (index_ok (E:=E) empty (HashCfg.bucket hcfg h)) as (v & Hv & ->).
    { unfold empty. rewrite lenZ_replicate. lia. }
    apply lookup_replicate_1 in Hv as [-> _]. done. }
  rewrite Hlu, Hempty. split; [by destruct (list.last l)|]. intros w p Hlast Hp.
  apply last_Some in Hlast as [l' ->]. apply elem_of_app in Hp as [Hp|Hp].
  - pose proof (StronglySorted_app_1_elem_of _ _ _ p w Hsort Hp) as Hgt.
    specialize (Hgt ltac:(by apply list_elem_of_singleton)). lia.
  - apply list_elem_of_singleton in Hp as ->. lia.
Qed.

(** [trace_hash] runs to its end on its data: no checksum or slice is out of
    range. *)
Theorem trace_hash_returns {B : Build} {E : Type} :
  exists out, Trace.traced (E:=E) Trace.trace_hash = Ok out.
Proof.
  unfold Trace.traced. destruct (generate_data_ok 4096 42) as [Hsw Hsl].
  set (source := generate_data 4096 42) in *. clearbody source.
  destruct (mutate_data_ok (E:=E) source Trace.similarity 123 Hsw) as (target & -> & Htw & Htl).
  cbn [bind]. rewrite Hsl in Htl. unfold Trace.trace_hash.
  assert (large_look Trace.cfg = 9 /\ large_step Trace.cfg = 3) as [Hll Hls] by done.
  assert (look Trace.lh = 9) as Hlk by done. rewrite Hll, Hls.
  rewrite !slice_from_ok by lia. cbn [bind].
  rewrite !checksum_ok by (try (by apply Forall_drop); rewrite ?lenZ_drop; lia). cbn [bind].
  set (h := pack_cksum _ _). rewrite sub_w_ok by (unfold in_range; lia). cbn [bind].
  pose proof (HashCfg_new_wf (Z.max (lenZ source / large_step Trace.cfg) 8)) as Hcfg.
  destruct (index_collisions (E:=E) Trace.lh 3 source h (S (Z.to_nat (lenZ source - 9))) (lenZ source - 9)
    (LargeTable.new (Z.max (lenZ source / large_step Trace.cfg) 8)) [])
    as (_ & l & _ & Hcol & _ & Hle & _); try done; try lia; [apply large_new_wf|].
  assert (LargeTable.cfg (LargeTable.new (Z.max (lenZ source / large_step Trace.cfg) 8))
    = Trace.traced_cfg source) as Heq by (unfold Trace.traced_cfg; simpl; f_equal; lia).
  rewrite Heq in Hcol. rewrite Hcol. cbn [bind app].
  destruct (list.last l) as [w|] eqn:Hlast; cbn [bind]; [|eauto].
  destruct (Z.eqb_spec w 217); cbn [negb bind]; [eauto|].
  apply last_Some in Hlast as [l' ->]. apply Forall_app in Hle as [_ Hle]. apply Forall_cons_1 in Hle as [Hle _].
  rewrite add_w_ok by (unfold in_range; lia). cbn [bind]. rewrite !slice_ok by lia. cbn [bind]. eauto.
Qed.

(** ** Witnesses *)

#[local] Instance checked_build : Build := {| debug_build := true |}.
#[local] Instance sample_adler : Adler32 := adler32_fallback.
#[local] Instance sample_adler_laws : Adler32Laws := adler32_fallback_laws.
#[local] Instance sample_codecs : Codecs := zeros_codecs.
#[local] Instance sample_codec_laws : CodecLaws := zeros_codec_laws.

Lemma bench_rust_reports_witness :
  exists r delta, Bench.bench_rust (E:=unit) Aarch64 (fun i => 7 - Z.of_nat i) Z.of_nat (seqZ 1 40) (seqZ 5 30) 6 5 = Ok r /\
    encode_all Aarch64 [] (seqZ 1 40) (seqZ 5 30) (Bench.bench_options 6) = Ok delta /\
    Bench.delta_size r = lenZ delta /\ Bench.data_size r = lenZ (seqZ 5 30) /\
    exists lo hi, (fun i => 7 - Z.of_nat i) <$> seq 0 5 ≡ₚ lo ++ Bench.encode_median r :: hi /\
      Forall (fun x => x <= Bench.encode_median r) lo /\ Forall (fun x => Bench.encode_median r <= x) hi /\
      length lo = (5 / 2)%nat.
Proof.
  apply (bench_rust_reports (E:=unit) Aarch64 (fun i => 7 - Z.of_nat i) Z.of_nat (seqZ 1 40) (seqZ 5 30) 6 5);
    [by apply in_range_list|reflexivity|by apply in_range_list|reflexivity|lia|vm_compute; reflexivity].
Defined.

Lemma delta_analyzed_witness :
  exists delta insts entries k ops wh d i a,
    encode_all Aarch64 [] (seqZ 1 40) (seqZ 5 30) default_options = Ok delta /\
    RatioDebug.first_window (E:=unit) delta = Ok (wh, d, i, a) /\
    RatioDebug.decode_instructions (E:=unit) delta = Ok insts /\
    RatioDebug.inst_pos_len (E:=unit) 0 insts = Ok entries /\ contiguous 0 entries (lenZ (seqZ 5 30)) /\
    analyze (E:=unit) delta = Ok k /\ total_bytes k = lenZ (seqZ 5 30) /\ total_insts k = lenZ insts /\
    Forall2 shows insts ops /\
    (merges_safe Aarch64 (seqZ 1 40) (cap_window default_options (seqZ 5 30)) (seqZ 5 30) = true ->
     exec_ops (copy_window wh (seqZ 1 40)) [] ops = Some (seqZ 5 30)).
Proof.
  apply (delta_analyzed (E:=unit) Aarch64 (seqZ 1 40) (seqZ 5 30) default_options);
    [by apply in_range_list|reflexivity|by apply in_range_list|by split|by apply no_secondary_ok|reflexivity].
Defined.

Lemma earliest_position_wins_witness :
  let source := [1; 2; 3; 1; 2; 4] in
  let lh := LargeHash_new 2 in
  let hcfg := HashCfg.new 8 in
  exists table l,
    MatchEngine.index_down (E:=unit) 5 lh 1 0 source 4 (LargeTable.mk (replicate (Z.to_nat (HashCfg.size hcfg)) 0) hcfg)
      = Ok table /\
    Trace.build_table (E:=unit) lh hcfg 1 5 source 4 (replicate (Z.to_nat (HashCfg.size hcfg)) 0)
      = Ok (LargeTable.table table) /\
    Trace.collisions (E:=unit) lh hcfg 1 5 (HashCfg.bucket hcfg (pack_cksum (hash_sum [1; 2]) (prefix_sum [1; 2])))
      source 4 [] = Ok l /\
    LargeTable.lookup (E:=unit) table (pack_cksum (hash_sum [1; 2]) (prefix_sum [1; 2])) = Ok (list.last l) /\
    forall w p, list.last l = Some w -> p ∈ l -> w <= p.
Proof.
  apply (earliest_position_wins (E:=unit) (LargeHash_new 2) (HashCfg.new 8) 1 [1; 2; 3; 1; 2; 4]
    (pack_cksum (hash_sum [1; 2]) (prefix_sum [1; 2])));
    [apply HashCfg_new_wf|by apply in_range_list|lia|by split|reflexivity].
Defined.
