(* ===== verification/FormatTests.v ===== *)
(** * The unit tests of the format ([#[cfg(test)]] modules of [src/src/vcdiff])

    The tests the crate runs on its own code, run on the model: each is
    translated as it stands, [assert!] and [unwrap] being panics, and all of
    them pass in both build profiles.  They tie the definitions of this
    library to behaviour that was observed of the code. *)

From stdpp Require Import base numbers list option strings.
From Stdlib Require Import ZArith Lia.
From S2P Require Import Prelude Varint AddrCache CodeTable Semantics Header WindowEncoder Source.
From S2P Require Import Secondary WindowDecoder Iterator Emit Print Fuzz Examples.

Local Open Scope Z_scope.
Local Open Scope rust_scope.

(** A test panics or ends. *)
Abbreviation test := (result unit unit).

Definition assert (b : bool) : test := if b then Ok tt else Panic.

(** [assert_eq!] on numbers. *)
Definition assert_z (a b : Z) : test := assert (a =? b).

(** [for x in l { .. }] *)
Definition each {A} (l : list A) (f : A -> test) : test := for_in l (fun x _ => f x) tt.

(** [0..=n] *)
Definition upto (a b : Z) : list Z := seqZ a (b - a + 1).

Definition passes (t : test) : bool := match t with Ok _ => true | _ => false end.

(** [assert!(result.is_err())] *)
Definition assert_err {E A} (m : result E A) : test :=
  match m with Err _ => Ok tt | Ok _ => Panic | Panic => Panic | Diverge => Diverge end.

Section Tests.
Context {B : Build} `{Codecs}.
Local Instance test_adler : Adler32 := adler32_fallback.

(** ** varint.rs *)

Definition empty_buf : bytes := replicate 10 0.

(** The loops write every value into the same buffer. *)
Definition each_buf (l : list Z) (f : Z -> bytes -> result unit bytes) : test :=
  let* _ := for_in l f empty_buf in
  Ok tt.

Definition roundtrip_u64 : test :=
  each_buf [0; 1; 127; 128; 255; 256; 16383; 16384; 2 ^ 32 - 1; 2 ^ 64 - 1] (fun val buf =>
    let* (len, buf) := encode_u64 val buf in
    let* s := slice_from buf (MAX_VARINT_LEN - len) in
    let* (decoded, consumed) := unwrap (read_u64 s) in
    let* _ := assert_z decoded val in
    let* _ := assert_z consumed len in
    let* _ := assert_z (sizeof_u64 val) len in
    Ok buf).

Definition roundtrip_u32 : test :=
  each_buf [0; 1; 127; 128; 16383; 16384; 2 ^ 32 - 1] (fun val buf =>
    let* (len, buf) := encode_u32 val buf in
    let* s := slice_from buf (MAX_VARINT_LEN - len) in
    let* (decoded, consumed) := unwrap (read_u32 s) in
    let* _ := assert_z decoded val in
    let* _ := assert_z consumed len in
    let* _ := assert_z (sizeof_u32 val) len in
    Ok buf).

Definition encoding_is_big_endian : test :=
  let* (len, buf) := encode_u64 300 empty_buf in
  let* _ := assert_z len 2 in
  let* s := slice_from buf (MAX_VARINT_LEN - 2) in
  assert_eq s [0x82; 0x2C].

Definition single_byte_values : test :=
  each_buf (upto 0 127) (fun val buf =>
    let* (len, buf) := encode_u64 val buf in
    let* _ := assert_z len 1 in
    let* b := index buf (MAX_VARINT_LEN - 1) in
    let* _ := assert_z b (wrap 8 val) in
    Ok buf).

Definition overflow_detection_u32 : test :=
  let* (len, buf) := encode_u64 (2 ^ 64 - 1) empty_buf in
  let* s := slice_from buf (MAX_VARINT_LEN - len) in
  assert (match read_u32 s with Err Overflow => true | _ => false end).

Definition underflow_detection : test :=
  assert (match read_u64 [0x80; 0x80; 0x80] with Err Underflow => true | _ => false end).

Definition streaming_roundtrip : test :=
  let* (len, buf) := encode_u64 123456789 empty_buf in
  let* bs := slice buf (MAX_VARINT_LEN - len) MAX_VARINT_LEN in
  let* (val, _) := unwrap (stream_read_u64 bs) in
  assert_z val 123456789.

Definition write_read_roundtrip : test :=
  let* out := write_u64 [] 999999 in
  let* (val, len) := unwrap (read_u64 out) in
  let* _ := assert_z val 999999 in
  assert_z len (lenZ out).

(** ** address_cache.rs *)

Definition default_cache_params : test :=
  let c := AddressCache.new in
  let* _ := assert_z (AddressCache.s_near c) 4 in
  let* _ := assert_z (AddressCache.s_same c) 3 in
  assert_z (AddressCache.mode_count c) 9.

(** Encode with one cache and decode with the other. *)
Definition through (enc dec : AddressCache.t) (addr here : Z)
    : result unit (Z * EncodedAddr * Z * Z * AddressCache.t * AddressCache.t) :=
  let* (mode, encoded, enc) := AddressCache.encode enc addr here in
  let* bs := EncodedAddr.as_bytes encoded in
  let* (decoded, consumed, dec) := unwrap (AddressCache.decode dec mode bs here) in
  Ok (mode, encoded, decoded, consumed, enc, dec).

Definition encode_decode_self_mode : test :=
  let* (mode, encoded, decoded, consumed, _, _) := through AddressCache.new AddressCache.new 42 1000 in
  let* _ := assert_z mode VCD_SELF in
  let* _ := assert_z decoded 42 in
  assert_z consumed (EncodedAddr.len encoded).

Definition encode_decode_here_mode : test :=
  let* (mode, _, decoded, _, _, _) := through AddressCache.new AddressCache.new 990 1000 in
  let* _ := assert_z mode VCD_HERE in
  assert_z decoded 990.

Definition encode_decode_near_mode : test :=
  let base := 500000 in
  let* enc := AddressCache.update AddressCache.new base in
  let* dec := AddressCache.update AddressCache.new base in
  let* (mode, _, decoded, _, _, _) := through enc dec (base + 5) 1000000 in
  let* _ := assert ((2 <=? mode) && (mode <? 6)) in
  assert_z decoded (base + 5).

Definition encode_decode_same_mode : test :=
  let addr := 12345 in
  let prime c :=
    let* c := AddressCache.update c addr in
    for_in [1; 2; 3; 4] (fun i c => AddressCache.update c (i * 1000000)) c in
  let* enc := prime AddressCache.new in
  let* dec := prime AddressCache.new in
  let* (mode, encoded, decoded, consumed, enc, _) := through enc dec addr 10000000 in
  let* _ := assert (wrap 8 (AddressCache.same_start enc) <=? mode) in
  let* _ := assert_z (EncodedAddr.len encoded) 1 in
  let* _ := assert_z decoded addr in
  assert_z consumed 1.

Definition cache_init_resets : test :=
  let* c := AddressCache.update AddressCache.new 999 in
  let c := AddressCache.init c in
  let* _ := assert (forallb (Z.eqb 0) (AddressCache.near c)) in
  let* _ := assert (forallb (Z.eqb 0) (AddressCache.same c)) in
  assert_z (AddressCache.next_slot c) 0.

Definition near_cache_is_circular : test :=
  let* c := for_in (upto 0 4) (fun i c => AddressCache.update c (i * 100)) AddressCache.new in
  assert_eq (AddressCache.near c) [400; 100; 200; 300].

Definition roundtrip_many_addresses : test :=
  let* _ := for_in [0; 4; 100; 4; 100; 50000; 50004; 50000; 1; 99999] (fun addr '(enc, dec, here) =>
      let* (_, _, decoded, _, enc, dec) := through enc dec addr here in
      let* _ := assert_z decoded addr in
      Ok (enc, dec, here + 100))
    (AddressCache.new, AddressCache.new, 100000) in
  Ok tt.

(** ** code_table.rs *)

(** The entry [t[i]], against the fields a test names. *)
Definition entry_is (i type1_ size1_ : Z) (second : option Z) (size2_ : option Z) : test :=
  let* e := index default_code_table i in
  let* _ := assert_z (type1 e) type1_ in
  let* _ := assert_z (size1 e) size1_ in
  let* _ := match second with Some t => assert_z (type2 e) t | None => Ok tt end in
  match size2_ with Some s => assert_z (size2 e) s | None => Ok tt end.

Definition table_has_256_entries : test :=
  let* table := build_default_code_table in
  assert_z (lenZ table) 256.

Definition index_0_is_run : test := entry_is 0 XD3_RUN 0 (Some XD3_NOOP) None.

Definition index_1_is_add_size0 : test := entry_is 1 XD3_ADD 0 (Some XD3_NOOP) None.

Definition indices_2_to_18_are_add : test :=
  each (zip (upto 2 18) (upto 1 17)) (fun '(i, size) => entry_is i XD3_ADD size (Some XD3_NOOP) None).

Definition copy_mode_0_starts_at_19 : test :=
  let* _ := entry_is 19 XD3_CPY 0 None None in
  let* _ := entry_is 20 XD3_CPY 4 None None in
  entry_is 34 XD3_CPY 18 None None.

Definition copy_mode_1_starts_at_35 : test := entry_is 35 (XD3_CPY + 1) 0 None None.

Definition last_copy_mode_8 : test :=
  let* _ := entry_is 147 (XD3_CPY + 8) 0 None None in
  entry_is 162 (XD3_CPY + 8) 18 None None.

Definition add_copy_doubles_start_at_163 : test := entry_is 163 XD3_ADD 1 (Some XD3_CPY) (Some 4).

Definition copy_add_doubles_start_at_247 : test := entry_is 247 XD3_CPY 4 (Some XD3_ADD) (Some 1).

Definition index_255_is_last : test := entry_is 255 (XD3_CPY + 8) 4 (Some XD3_ADD) (Some 1).

Definition all_doubles_have_nonzero_sizes : test :=
  each default_code_table (fun e =>
    if type2 e =? XD3_NOOP then Ok tt
    else
      let* _ := assert (negb (size1 e =? 0)) in
      assert (negb (size2 e =? 0))).

Definition choose_run : test :=
  let* r := choose_instruction None (info XD3_RUN 10) in
  let* _ := assert_z (code1 r) 0 in
  assert (negb (is_some (code2 r))).

Definition choose_add_small : test :=
  each (upto 1 17) (fun size =>
    let* r := choose_instruction None (info XD3_ADD size) in
    assert_z (code1 r) (1 + size)).

Definition choose_add_large : test :=
  let* r := choose_instruction None (info XD3_ADD 18) in
  assert_z (code1 r) 1.

Definition choose_copy_mode0_size4 : test :=
  let* r := choose_instruction None (info XD3_CPY 4) in
  assert_z (code1 r) 20.

Definition code2_is (prev inst : InstructionInfo) (c : Z) : test :=
  let* r := choose_instruction (Some prev) inst in
  assert (bool_decide (code2 r = Some c)).

Definition choose_double_add_copy : test := code2_is (info XD3_ADD 1) (info XD3_CPY 4) 163.

Definition choose_double_copy_add : test := code2_is (info XD3_CPY 4) (info XD3_ADD 1) 247.

Definition choose_double_add_copy_mode6 : test := code2_is (info XD3_ADD 2) (info (XD3_CPY + 6) 4) 236.

Definition types_are (i type1_ type2_ : Z) : test :=
  let* e := index default_code_table i in
  let* _ := assert_z (type1 e) type1_ in
  assert_z (type2 e) type2_.

Definition code_table_matches_descriptor_offsets : test :=
  let* _ := types_are 163 XD3_ADD XD3_CPY in
  let* _ := types_are 174 XD3_ADD XD3_CPY in
  let* _ := types_are 175 XD3_ADD (XD3_CPY + 1) in
  let* _ := types_are 235 XD3_ADD (XD3_CPY + 6) in
  let* e := index default_code_table 235 in
  let* _ := assert_z (size2 e) 4 in
  types_are 247 XD3_CPY XD3_ADD.

(** ** header.rs *)

Definition file_header_roundtrip_minimal : test :=
  let* buf := FileHeader.encode (FileHeader.mk 0 None None) [] in
  let* m := slice buf 0 4 in
  let* _ := assert_eq m VCDIFF_MAGIC in
  let* b := index buf 4 in
  let* _ := assert_z b 0 in
  let* (decoded, _) := unwrap (FileHeader.decode buf) in
  let* _ := assert_z (FileHeader.hdr_ind decoded) 0 in
  let* _ := assert (negb (is_some (FileHeader.secondary_id decoded))) in
  assert (negb (is_some (FileHeader.app_header decoded))).

Definition file_header_roundtrip_with_appheader : test :=
  let* buf := FileHeader.encode (FileHeader.mk VCD_APPHEADER None (Some (text "xdelta test"))) [] in
  let* (decoded, _) := unwrap (FileHeader.decode buf) in
  let* _ := assert_z (FileHeader.hdr_ind decoded) VCD_APPHEADER in
  assert (bool_decide (FileHeader.app_header decoded = Some (text "xdelta test"))).

Definition file_header_roundtrip_with_secondary : test :=
  let* buf := FileHeader.encode (FileHeader.mk VCD_SECONDARY (Some VCD_LZMA_ID) None) [] in
  let* (decoded, _) := unwrap (FileHeader.decode buf) in
  assert (bool_decide (FileHeader.secondary_id decoded = Some VCD_LZMA_ID)).

Definition file_header_rejects_bad_magic : test := assert_err (FileHeader.decode [0; 0; 0; 0; 0]).

Definition file_header_rejects_invalid_bits : test := assert_err (FileHeader.decode (VCDIFF_MAGIC ++ [0xFF])).

(** [compute_enc_len], [encode], [decode]. *)
Definition written (wh : WindowHeader.t) : result unit (bytes * WindowHeader.t) :=
  let* enc_len := WindowHeader.compute_enc_len wh in
  let wh := WindowHeader.mk (WindowHeader.win_ind wh) (WindowHeader.copy_window_len wh)
    (WindowHeader.copy_window_offset wh) enc_len (WindowHeader.target_window_len wh) (WindowHeader.del_ind wh)
    (WindowHeader.data_len wh) (WindowHeader.inst_len wh) (WindowHeader.addr_len wh) (WindowHeader.adler32 wh) in
  let* buf := WindowHeader.encode wh [] in
  Ok (buf, wh).

Definition reread (wh : WindowHeader.t) : result unit WindowHeader.t :=
  let* (buf, _) := written wh in
  let* (decoded, _) := unwrap (WindowHeader.decode buf) in
  match decoded with Some d => Ok d | None => Panic end.

Definition window_header_roundtrip_no_source : test :=
  let* d := reread (WindowHeader.mk VCD_ADLER32 0 0 0 100 0 30 20 10 (Some 0xDEADBEEF)) in
  let* _ := assert_z (WindowHeader.win_ind d) VCD_ADLER32 in
  let* _ := assert_z (WindowHeader.target_window_len d) 100 in
  let* _ := assert_z (WindowHeader.data_len d) 30 in
  let* _ := assert_z (WindowHeader.inst_len d) 20 in
  let* _ := assert_z (WindowHeader.addr_len d) 10 in
  assert (bool_decide (WindowHeader.adler32 d = Some 0xDEADBEEF)).

Definition window_header_roundtrip_with_source : test :=
  let* d := reread (WindowHeader.mk (Z.lor VCD_SOURCE VCD_ADLER32) 65536 1024 0 4096 0 1000 500 200
    (Some 0x12345678)) in
  let* _ := assert_z (WindowHeader.copy_window_len d) 65536 in
  let* _ := assert_z (WindowHeader.copy_window_offset d) 1024 in
  assert_z (WindowHeader.target_window_len d) 4096.

Definition window_header_eof_returns_none : test :=
  let* (r, _) := unwrap (WindowHeader.decode []) in
  assert (negb (is_some r)).

Definition window_header_rejects_both_source_and_target : test :=
  assert_err (WindowHeader.decode [Z.lor VCD_SOURCE VCD_TARGET]).

Definition adler32_is_big_endian : test :=
  let* (buf, _) := written (WindowHeader.mk VCD_ADLER32 0 0 0 1 0 0 0 0 (Some 0xAABBCCDD)) in
  let* start := sub_w 64 (lenZ buf) 4 in
  let* tail := slice_from buf start in
  assert_eq tail [0xAA; 0xBB; 0xCC; 0xDD].

(** ** encoder.rs *)

Definition encode_single_add : test :=
  let* we := WindowEncoder.add (WindowEncoder.new None false) (text "hello") in
  let* bs := WindowEncoder.finish we None in
  assert (negb (lenZ bs =? 0)).

Definition encode_single_run : test :=
  let* we := WindowEncoder.run (WindowEncoder.new None false) 100 0xAA in
  let* bs := WindowEncoder.finish we None in
  assert (negb (lenZ bs =? 0)).

Definition encode_add_then_copy_packs_double : test :=
  let* we := WindowEncoder.add (WindowEncoder.new (Some (source_win 1024 0)) false) (text "X") in
  let* we := WindowEncoder.copy_with_auto_mode we 4 0 in
  let* bs := WindowEncoder.finish we None in
  assert (negb (lenZ bs =? 0)).

Definition stream_encoder_writes_header : test :=
  let* enc := StreamEncoder.write_window (StreamEncoder.new [] false) (WindowEncoder.new None false) None in
  let* out := StreamEncoder.finish enc in
  let* m := slice out 0 4 in
  assert_eq m VCDIFF_MAGIC.

Definition encode_with_checksum : test :=
  let target := text "hello world" in
  let* we := WindowEncoder.add (WindowEncoder.new None true) target in
  let* bs := WindowEncoder.finish we (Some target) in
  let* (wh, _) := unwrap (WindowHeader.decode bs) in
  match wh with
  | None => Panic
  | Some wh =>
      let* _ := assert (WindowHeader.has_checksum wh) in
      assert (is_some (WindowHeader.adler32 wh))
  end.

(** ** decoder.rs *)

(** The helper of the module: emit the instructions in a window over the whole
    source.  Its loop is the emission loop of the encoders. *)
Definition roundtrip_instructions (instructions : list Instruction) (source target : bytes)
    : result unit bytes :=
  let src_win := if lenZ source =? 0 then None else Some (source_win (lenZ source) 0) in
  let* we := emit_instructions (WindowEncoder.new src_win true) target instructions in
  let* enc := StreamEncoder.write_window (StreamEncoder.new [] true) we (Some target) in
  StreamEncoder.finish enc.

(** Encode, decode, compare. *)
Definition decodes (instructions : list Instruction) (source target : bytes) : test :=
  let* delta := roundtrip_instructions instructions source target in
  let* result := unwrap (decode_memory delta source) in
  assert_eq result target.

Definition decode_simple_add : test :=
  let target := text "Hello, world!" in decodes [Add (lenZ target)] [] target.

Definition decode_simple_run : test := decodes [Run 50] [] (replicate 50 0xAA).

Definition decode_source_copy : test :=
  let source := text "ABCDEFGHIJKLMNOP" in
  let* target := slice source 4 12 in
  decodes [Copy 8 4 0] source target.

Definition decode_mixed_instructions : test :=
  decodes [Add 5; Copy 5 4 0; Add 6] (text "The quick brown fox") (text "Helloquick world").

Definition decode_target_self_copy : test := decodes [Add 4; Copy 4 0 0] [] (text "ABCDABCD").

Definition decode_overlapping_self_copy : test := decodes [Add 1; Copy 5 0 0] [] (text "AAAAAA").

Definition checksum_verification : test :=
  let target := text "test data for checksum" in decodes [Add (lenZ target)] [] target.

Definition instruction_iterator_basic : test :=
  let target := text "Hello, world!" in
  let* delta := roundtrip_instructions [Add (lenZ target)] [] target in
  let* (_, r) := unwrap (FileHeader.decode delta) in
  let* (wh, r) := unwrap (WindowHeader.decode r) in
  match wh with
  | None => Panic
  | Some wh =>
      let* (data_sec, r) := unwrap (read_exact (WindowHeader.data_len wh) r) in
      let* (inst_sec, r) := unwrap (read_exact (WindowHeader.inst_len wh) r) in
      let* (addr_sec, r) := unwrap (read_exact (WindowHeader.addr_len wh) r) in
      let* decoded := unwrap (drain (S (2 * length inst_sec)) (InstructionIterator.new inst_sec addr_sec 0)) in
      let* _ := assert_z (lenZ decoded) 1 in
      match decoded with
      | [Add len] => assert_z len (lenZ target)
      | _ => Panic
      end
  end.

Definition source_slice_is (src : bytes) (offset len : Z) (expected : option bytes) : test :=
  let* s := unwrap (source_slice src offset len) in
  assert (bool_decide (s = expected)).

Definition zero_copy_source_slice : test :=
  let src := text "ABCDEFGHIJKLMNOP" in
  let* _ := source_slice_is src 4 8 (Some (text "EFGHIJKL")) in
  let* _ := source_slice_is src 0 16 (Some src) in
  let* _ := source_slice_is src 15 2 None in
  source_slice_is src 0 0 (Some []).

Definition reusable_buffers_in_stream_decoder : test :=
  let source := text "ABCDEFGHIJKLMNOPQRSTUVWXYZ" in
  let window target enc :=
    let* we := WindowEncoder.add (WindowEncoder.new (Some (source_win (lenZ source) 0)) true) target in
    StreamEncoder.write_window enc we (Some target) in
  let target1 := text "ABCDEFGH_changed" in
  let target2 := text "MNOPQRST_different" in
  let* enc := window target1 (StreamEncoder.new [] true) in
  let* enc := window target2 enc in
  let* delta := StreamEncoder.finish enc in
  let* (_, _, output) := unwrap (StreamDecoder.decode_all (StreamDecoder.new delta true) source []) in
  assert_eq output (target1 ++ target2).

Definition format_tests : list test :=
  [roundtrip_u64; roundtrip_u32; encoding_is_big_endian; single_byte_values; overflow_detection_u32;
   underflow_detection; streaming_roundtrip; write_read_roundtrip;
   default_cache_params; encode_decode_self_mode; encode_decode_here_mode; encode_decode_near_mode;
   encode_decode_same_mode; cache_init_resets; near_cache_is_circular; roundtrip_many_addresses;
   table_has_256_entries; index_0_is_run; index_1_is_add_size0; indices_2_to_18_are_add;
   copy_mode_0_starts_at_19; copy_mode_1_starts_at_35; last_copy_mode_8; add_copy_doubles_start_at_163;
   copy_add_doubles_start_at_247; index_255_is_last; all_doubles_have_nonzero_sizes; choose_run;
   choose_add_small; choose_add_large; choose_copy_mode0_size4; choose_double_add_copy;
   choose_double_copy_add; choose_double_add_copy_mode6; code_table_matches_descriptor_offsets;
   file_header_roundtrip_minimal; file_header_roundtrip_with_appheader; file_header_roundtrip_with_secondary;
   file_header_rejects_bad_magic; file_header_rejects_invalid_bits; window_header_roundtrip_no_source;
   window_header_roundtrip_with_source; window_header_eof_returns_none;
   window_header_rejects_both_source_and_target; adler32_is_big_endian;
   encode_single_add; encode_single_run; encode_add_then_copy_packs_double; stream_encoder_writes_header;
   encode_with_checksum;
   decode_simple_add; decode_simple_run; decode_source_copy; decode_mixed_instructions;
   decode_target_self_copy; decode_overlapping_self_copy; checksum_verification; instruction_iterator_basic;
   zero_copy_source_slice; reusable_buffers_in_stream_decoder].
End Tests.

(** The sixty tests of the format pass, whatever codecs are compiled in. *)
Theorem format_tests_pass {B : Build} `{Codecs} : forallb passes format_tests = true.
Proof. destruct B as [[]]; vm_compute; reflexivity. Qed.
