(* ===== verification/HashTests.v ===== *)
(** * The unit tests of the matcher's parts

    The [#[cfg(test)]] modules of [src/src/hash] (rolling.rs, table.rs,
    config.rs) and of [compress/pipeline.rs], translated and run on the model as
    those of the format are, on every CPU and in both build profiles.  The tests
    on buffers of a kilobyte and of a megabyte are settled by the kernels' lemmas
    instead of by running them.  The tests of matching.rs are in [FrontTests]. *)

From stdpp Require Import base numbers list option strings.
From Stdlib Require Import ZArith Lia.
From S2P Require Import Prelude Varint AddrCache CodeTable Semantics Kernels HashTables Matching Emit Pipeline Print FormatTests.

Local Open Scope Z_scope.
Local Open Scope rust_scope.

(** [vec![b; n]] *)
Definition filled (n b : Z) : bytes := replicate (Z.to_nat n) b.

(** The expected result of a call. *)
Definition gives (m : result unit Z) (expected : Z) : test :=
  let* r := m in assert_z r expected.

(** [assert_eq!] on the option a lookup returns. *)
Definition gives_opt (m : result unit (option Z)) (expected : option Z) : test :=
  let* r := m in assert (bool_decide (r = expected)).

Section Tests.
Context {B : Build} (c : cpu).

(** ** rolling.rs *)

Definition small_cksum_basic : test :=
  let little := little_endian c in
  let data := [0x01; 0x02; 0x03; 0x04; 0x05; 0x06] in
  let* ck1 := small_cksum little data in
  let* ck2 := small_cksum_update little data in
  let* s := slice_from data 1 in
  let* val := read_u32_ne little s in
  let* _ := assert_z ck2 (wrap 32 (val * HASH_MULT_32)) in
  assert (negb (ck1 =? ck2)).

Definition small_cksum_all_zeros : test :=
  let data := filled 8 0 in
  let* _ := gives (small_cksum (little_endian c) data) 0 in
  gives (small_cksum_update (little_endian c) data) 0.

Definition large_hash_full_and_rolling : test :=
  let lh := LargeHash_new 9 in
  let data := text "Hello, World! Extra bytes here." in
  let* full := checksum lh data in
  let* rolled := update lh full data in
  let* s := slice_from data 1 in
  let* full2 := checksum lh s in
  assert_z rolled full2.

Definition large_hash_rolling_chain : test :=
  let lh := LargeHash_new 9 in
  let data := text "ABCDEFGHIJKLMNOPQRSTUVWXYZ0123456789" in
  let* h := checksum lh data in
  let* n := sub_w 64 (lenZ data) (look lh) in
  let* _ := for_in (range 0 n) (fun i h =>
      let* s1 := slice_from data (i + 1) in
      let* expected := checksum lh s1 in
      let* s0 := slice_from data i in
      let* h := update lh h s0 in
      let* _ := assert_z h expected in
      Ok h) h in
  Ok tt.

Definition hash_cfg_power_of_two : test :=
  let cfg := HashCfg.new 1000 in
  let* _ := assert (SmallTable.is_power_of_two (HashCfg.size cfg)) in
  let* _ := assert (256 <=? HashCfg.size cfg) in
  assert_z (HashCfg.mask cfg) (HashCfg.size cfg - 1).

Definition hash_cfg_bucket_in_range : test :=
  let cfg := HashCfg.new 1024 in
  each [0; 1; 127; 128; 0xDEADBEEF; 2 ^ 64 - 1] (fun cksum =>
    assert (HashCfg.bucket cfg cksum <? HashCfg.size cfg)).

Definition hash_cfg_size_hashtable_bits : test :=
  each [(8, 3); (9, 3); (1000, 9); (1024, 10); (1025, 10)] (fun '(slots, bits) =>
    assert_z (HashCfg.size_hashtable_bits slots) bits).

Definition comprun_is (data : bytes) (n len_ byte_ : Z) : test :=
  let* (len, byte) := comprun data n in
  let* _ := assert_z len len_ in
  assert_z byte byte_.

Definition comprun_all_same : test := comprun_is (filled 10 0xAA) 10 10 0xAA.

Definition comprun_trailing_run : test := comprun_is [1; 2; 3; 3; 3; 3] 6 4 3.

Definition comprun_no_run : test := comprun_is [1; 2; 3; 4] 4 1 4.

Definition forward_match_identical : test :=
  gives (forward_match c (filled 1024 0x55) (filled 1024 0x55) 1024) 1024.

Definition forward_match_differ_at_start : test := gives (forward_match c [1; 2; 3; 4] [0; 2; 3; 4] 4) 0.

(** [a] and [b] filled with [x], [b[i]] set to [y]. *)
Definition forward_differ (n x i y expected : Z) : test :=
  let a := filled n x in
  let* b := store (filled n x) i y in
  gives (forward_match c a b n) expected.

Definition backward_differ (n x i y expected : Z) : test :=
  let a := filled n x in
  let* b := store (filled n x) i y in
  gives (backward_match c a b n) expected.

Definition forward_match_differ_in_middle : test := forward_differ 100 0xAA 50 0xBB 50.

Definition forward_match_empty : test := gives (forward_match c [] [] 0) 0.

Definition forward_match_simd_boundary : test :=
  each [8; 16; 32; 64; 128] (fun boundary =>
    forward_differ (boundary + 5) 0x42 boundary 0xFF boundary).

Definition forward_match_large : test :=
  let n := Z.shiftl 1 20 in forward_differ n 0x77 (n - 3) 0x99 (n - 3).

Definition backward_match_identical : test :=
  gives (backward_match c (filled 1024 0x55) (filled 1024 0x55) 1024) 1024.

Definition backward_match_differ_at_end : test := gives (backward_match c [1; 2; 3; 4] [1; 2; 3; 0] 4) 0.

Definition backward_match_differ_at_start : test := gives (backward_match c [0; 2; 3; 4] [1; 2; 3; 4] 4) 3.

Definition backward_match_differ_in_middle : test := backward_differ 100 0xAA 50 0xBB 49.

Definition backward_match_empty : test := gives (backward_match c [] [] 0) 0.

Definition backward_match_simd_boundary : test :=
  each [8; 16; 32; 64; 128] (fun boundary =>
    backward_differ (boundary + 5) 0x42 0 0xFF (boundary + 4)).

Definition backward_match_large : test :=
  let n := Z.shiftl 1 20 in backward_differ n 0x77 2 0x99 (n - 3).

Definition find_run_length_all_same : test :=
  gives (find_run_length c (filled 1024 0xAA) 0xAA 1024) 1024.

Definition find_run_length_no_match : test := gives (find_run_length c [1; 2; 3; 4] 0 4) 0.

Definition find_run_length_partial : test :=
  let* data := store (filled 100 0xBB) 50 0xCC in
  gives (find_run_length c data 0xBB 100) 50.

Definition find_run_length_simd_boundary : test :=
  each [8; 16; 32; 64; 128] (fun boundary =>
    let* data := store (filled (boundary + 5) 0x42) boundary 0xFF in
    gives (find_run_length c data 0x42 (boundary + 5)) boundary).

Definition find_run_length_empty : test := gives (find_run_length c [] 0 0) 0.

Definition find_run_length_max_limit : test :=
  gives (find_run_length c (filled 1024 0xAA) 0xAA 100) 100.

(** ** table.rs *)

Definition small_table_insert_lookup : test :=
  let* t := SmallTable.new 1024 0 in
  let* _ := gives_opt (SmallTable.lookup t 42) None in
  let* t := SmallTable.insert t 42 100 in
  gives_opt (SmallTable.lookup t 42) (Some 100).

Definition small_table_overwrite : test :=
  let* t := SmallTable.new 1024 0 in
  let* t := SmallTable.insert t 42 100 in
  let* t := SmallTable.insert t 42 200 in
  gives_opt (SmallTable.lookup t 42) (Some 200).

Definition small_table_reset : test :=
  let* t := SmallTable.new 1024 0 in
  let* t := SmallTable.insert t 42 100 in
  gives_opt (SmallTable.lookup (SmallTable.reset t) 42) None.

(** A table with two positions of one checksum. *)
Definition chained (sprevsz p q : Z) : result unit SmallTable.t :=
  let* t := SmallTable.new 1024 sprevsz in
  let* t := SmallTable.insert t 42 p in
  SmallTable.insert t 42 q.

Definition small_table_chaining : test :=
  let* t := chained 256 10 50 in
  let* _ := gives_opt (SmallTable.lookup t 42) (Some 50) in
  let* _ := gives_opt (SmallTable.chain_prev t 50 50) (Some 10) in
  gives_opt (SmallTable.chain_prev t 10 50) None.

Definition small_table_chain_stale_rejection : test :=
  let* t := chained 16 0 100 in
  gives_opt (SmallTable.chain_prev t 100 100) None.

Definition small_table_chain_boundary_is_stale : test :=
  let* t := chained 16 0 16 in
  gives_opt (SmallTable.chain_prev t 16 16) None.

Definition large_table_insert_lookup : test :=
  let t := LargeTable.new 1024 in
  let* _ := gives_opt (LargeTable.lookup t 99) None in
  let* t := LargeTable.insert t 99 5000 in
  gives_opt (LargeTable.lookup t 99) (Some 5000).

Definition large_table_overwrite : test :=
  let t := LargeTable.new 1024 in
  let* t := LargeTable.insert t 99 5000 in
  let* t := LargeTable.insert t 99 6000 in
  gives_opt (LargeTable.lookup t 99) (Some 6000).

(** ** config.rs *)

Definition profiles : list MatcherConfig := [FASTEST; FASTER; FAST; DEFAULT; SLOW].

Definition all_profiles_have_slook_4 : test := each profiles (fun p => assert_z (small_look p) MIN_MATCH).

Definition all_profiles_have_llook_9 : test := each profiles (fun p => assert_z (large_look p) 9).

Definition level_mapping : test :=
  each [(0, "fastest"); (1, "fastest"); (2, "faster"); (3, "fast"); (5, "fast"); (6, "default");
        (7, "slow"); (9, "slow")]%string
    (fun '(level, expected) => assert (bool_decide (name (config_for_level level) = expected))).

(** ** pipeline.rs *)

Definition total_len (insts : list Instruction) : Z := foldr (fun i n => inst_len i + n) 0 insts.

(** The number of instructions left. *)
Definition opt_len (opt : list Instruction) (n : Z) : test := assert_z (lenZ opt) n.

Definition coalesce_adjacent_adds : test :=
  let target := text "Hello, world!" in
  let* opt := optimize c [Add 5; Add 2; Add 6] target in
  let* _ := opt_len opt 1 in
  let* _ := assert (match opt with Add 13 :: _ => true | _ => false end) in
  assert_z (total_len opt) (lenZ target).

Definition coalesce_contiguous_copies : test :=
  let* opt := optimize c [Copy 10 0 0; Copy 10 10 0] (filled 20 0) in
  let* _ := opt_len opt 1 in
  match opt with
  | Copy len addr _ :: _ =>
      let* _ := assert_z len 20 in
      assert_z addr 0
  | _ => Panic
  end.

Definition no_coalesce_noncontiguous_copies : test :=
  let* opt := optimize c [Copy 10 0 0; Copy 10 100 0] (filled 20 0) in
  opt_len opt 2.

Definition detect_run_in_add : test :=
  let target := text "ABC" ++ filled 10 0xAA ++ text "XYZ" in
  let* opt := optimize c [Add (lenZ target)] target in
  let* _ := opt_len opt 3 in
  let* _ := assert (match opt with [Add 3; Run 10; Add 3] => true | _ => false end) in
  assert_z (total_len opt) (lenZ target).

Definition no_run_below_threshold : test :=
  let target := filled (MIN_RUN - 1) 0xAA in
  let* opt := optimize c [Add (lenZ target)] target in
  let* _ := opt_len opt 1 in
  assert (match opt with Add _ :: _ => true | _ => false end).

Definition remove_zero_length : test :=
  let* opt := optimize c [Add 0; Add 5; Copy 0 0 0] (text "Hello") in
  let* _ := opt_len opt 1 in
  assert (match opt with Add 5 :: _ => true | _ => false end).

Definition empty_instructions : test :=
  let* opt := optimize c [] [] in
  opt_len opt 0.

Definition coalesce_adjacent_runs : test :=
  let* opt := optimize c [Run 10; Run 10] (filled 20 0xBB) in
  let* _ := opt_len opt 1 in
  assert (match opt with Run 20 :: _ => true | _ => false end).

Definition mixed_instructions_preserve_order : test :=
  let target := text "ABCD" ++ text "EFGH" ++ filled 10 0xFF ++ text "IJ" in
  let* opt := optimize c [Add 4; Copy 4 100 0; Run 10; Add 2] target in
  let* _ := opt_len opt 4 in
  assert_z (total_len opt) (lenZ target).

Definition hash_tests : list test :=
  [small_cksum_basic; small_cksum_all_zeros; large_hash_full_and_rolling; large_hash_rolling_chain;
   hash_cfg_power_of_two; hash_cfg_bucket_in_range; hash_cfg_size_hashtable_bits; comprun_all_same;
   comprun_trailing_run; comprun_no_run; forward_match_differ_at_start; forward_match_differ_in_middle;
   forward_match_empty; forward_match_simd_boundary; backward_match_differ_at_end;
   backward_match_differ_at_start; backward_match_differ_in_middle; backward_match_empty;
   backward_match_simd_boundary; find_run_length_no_match; find_run_length_partial;
   find_run_length_simd_boundary; find_run_length_empty;
   small_table_insert_lookup; small_table_overwrite; small_table_reset; small_table_chaining;
   small_table_chain_stale_rejection; small_table_chain_boundary_is_stale; large_table_insert_lookup;
   large_table_overwrite; all_profiles_have_slook_4; all_profiles_have_llook_9; level_mapping;
   coalesce_adjacent_adds; coalesce_contiguous_copies; no_coalesce_noncontiguous_copies; detect_run_in_add;
   no_run_below_threshold; remove_zero_length; empty_instructions; coalesce_adjacent_runs;
   mixed_instructions_preserve_order].

(** The tests on large buffers. *)
Definition large_tests : list test :=
  [forward_match_identical; forward_match_large; backward_match_identical; backward_match_large;
   find_run_length_all_same; find_run_length_max_limit].
End Tests.

(** ** The tests on large buffers *)

Section Large.
Context (c : cpu).

Lemma filled_wf n b : is_u8 b -> wf_bytes (filled n b).
Proof. intros. by apply Forall_replicate. Qed.

Lemma lenZ_filled n b : 0 <= n -> lenZ (filled n b) = n.
Proof. intros. unfold filled. rewrite lenZ_replicate. lia. Qed.

Lemma filled_lookup n b k : 0 <= k < n -> filled n b !! Z.to_nat k = Some b.
Proof. intros. apply lookup_replicate. split; [done|lia]. Qed.

Lemma poked_wf n x i y : is_u8 x -> is_u8 y -> wf_bytes (<[i := y]> (filled n x)).
Proof. intros. apply Forall_insert; [by apply filled_wf|done]. Qed.

Lemma poked_lookup n x i y k :
  0 <= i < n -> 0 <= k < n ->
  <[Z.to_nat i := y]> (filled n x) !! Z.to_nat k = Some (if k =? i then y else x).
Proof.
  intros Hi Hk. destruct (Z.eqb_spec k i) as [->|Hne].
  - apply list_lookup_insert_eq. pose proof (lenZ_filled n x). unfold lenZ in *. lia.
  - rewrite list_lookup_insert_ne by lia. by apply filled_lookup.
Qed.

(** Where the common prefix of two such buffers ends. *)
Lemma forward_differ_ok n x i y :
  is_u8 x -> is_u8 y -> x <> y -> 0 <= i < n -> forward_differ c n x i y i = Ok tt.
Proof.
  intros Hx Hy Hne Hi. unfold forward_differ. rewrite store_ok by (rewrite lenZ_filled; lia).
  cbn [bind]. unfold gives, forward_match. rewrite lenZ_insert, lenZ_filled, !Z.min_id by lia.
  rewrite forward_kernels by (rewrite ?lenZ_insert, ?lenZ_filled; auto using filled_wf, poked_wf; lia).
  destruct (match_forward_spec (filled n x) (<[Z.to_nat i := y]> (filled n x)) n) as (Hr & Ht & Hf);
    [rewrite ?lenZ_insert, ?lenZ_filled; lia..|].
  set (r := match_forward _ _ _) in *. assert (r = i) as ->; [|cbn; unfold assert_z; by rewrite Z.eqb_refl].
  destruct (Z.lt_trichotomy r i) as [Hlt|[Heq|Hgt]]; [exfalso|done|exfalso].
  - apply Hf; [lia|]. rewrite filled_lookup, poked_lookup by lia. by rewrite (proj2 (Z.eqb_neq r i)) by lia.
  - specialize (Ht i ltac:(lia)). rewrite filled_lookup, poked_lookup, Z.eqb_refl in Ht by lia. congruence.
Qed.

Lemma backward_differ_ok n x i y :
  is_u8 x -> is_u8 y -> x <> y -> 0 <= i < n -> backward_differ c n x i y (n - 1 - i) = Ok tt.
Proof.
  intros Hx Hy Hne Hi. unfold backward_differ. rewrite store_ok by (rewrite lenZ_filled; lia).
  cbn [bind]. unfold gives, backward_match. rewrite lenZ_insert, lenZ_filled, !Z.min_id by lia.
  rewrite backward_kernels by (rewrite ?lenZ_insert, ?lenZ_filled; auto using filled_wf, poked_wf; lia).
  destruct (match_backward_spec (filled n x) (<[Z.to_nat i := y]> (filled n x)) n) as (Hr & Ht & Hf);
    [rewrite ?lenZ_insert, ?lenZ_filled; lia..|].
  set (r := match_backward _ _ _) in *.
  assert (r = n - 1 - i) as ->; [|cbn; unfold assert_z; by rewrite Z.eqb_refl].
  destruct (Z.lt_trichotomy r (n - 1 - i)) as [Hlt|[Heq|Hgt]]; [exfalso|done|exfalso].
  - apply Hf; [lia|]. rewrite filled_lookup, poked_lookup by lia.
    by rewrite (proj2 (Z.eqb_neq (n - 1 - r) i)) by lia.
  - specialize (Ht (n - 1 - i) ltac:(lia)). replace (n - 1 - (n - 1 - i)) with i in Ht by lia.
    rewrite filled_lookup, poked_lookup, Z.eqb_refl in Ht by lia. congruence.
Qed.

(** Equal buffers match to their end, and a filled buffer is a run. *)
Lemma forward_same n x : is_u8 x -> 0 <= n -> gives (forward_match c (filled n x) (filled n x) n) n = Ok tt.
Proof.
  intros Hx Hn. unfold gives, forward_match. rewrite lenZ_filled, !Z.min_id by lia.
  rewrite forward_kernels by (rewrite ?lenZ_filled; auto using filled_wf; lia).
  destruct (match_forward_spec (filled n x) (filled n x) n) as (Hr & _ & Hf); [rewrite ?lenZ_filled; lia..|].
  set (r := match_forward _ _ _) in *. cbn. unfold assert_z.
  destruct (Z.eqb_spec r n); [done|]. destruct Hf; [lia|done].
Qed.

Lemma backward_same n x : is_u8 x -> 0 <= n -> gives (backward_match c (filled n x) (filled n x) n) n = Ok tt.
Proof.
  intros Hx Hn. unfold gives, backward_match. rewrite lenZ_filled, !Z.min_id by lia.
  rewrite backward_kernels by (rewrite ?lenZ_filled; auto using filled_wf; lia).
  destruct (match_backward_spec (filled n x) (filled n x) n) as (Hr & _ & Hf); [rewrite ?lenZ_filled; lia..|].
  set (r := match_backward _ _ _) in *. cbn. unfold assert_z.
  destruct (Z.eqb_spec r n); [done|]. destruct Hf; [lia|done].
Qed.

Lemma run_filled n x m :
  is_u8 x -> 0 <= m <= n -> gives (find_run_length c (filled n x) x m) m = Ok tt.
Proof.
  intros Hx Hm. unfold gives, find_run_length. rewrite lenZ_filled, Z.min_l by lia.
  rewrite run_kernels by (rewrite ?lenZ_filled; auto using filled_wf; lia).
  destruct (run_of_spec (filled n x) x m) as (Hr & _ & Hf); [rewrite ?lenZ_filled; lia..|].
  set (r := run_of _ _ _) in *. cbn. unfold assert_z.
  destruct (Z.eqb_spec r m); [done|]. destruct Hf; [lia|]. apply filled_lookup. lia.
Qed.

Lemma large_tests_ok : Forall (fun t => t = Ok tt) (large_tests c).
Proof.
  assert (Z.shiftl 1 20 = 1048576) as Hn by reflexivity.
  constructor; [apply forward_same; unfold in_range; lia|].
  constructor; [unfold forward_match_large; cbv zeta; apply forward_differ_ok; unfold in_range; lia|].
  constructor; [apply backward_same; unfold in_range; lia|].
  constructor.
  { unfold backward_match_large. cbv zeta. replace (Z.shiftl 1 20 - 3) with (Z.shiftl 1 20 - 1 - 2) by lia.
    apply backward_differ_ok; unfold in_range; lia. }
  constructor; [apply run_filled; unfold in_range; lia|].
  constructor; [apply run_filled; unfold in_range; lia|]. constructor.
Qed.
End Large.

(** The small tests run. *)
Lemma small_tests_ok {B : Build} (c : cpu) : forallb passes (hash_tests c) = true.
Proof. destruct B as [[]], c as [| | | |[]]; vm_compute; reflexivity. Qed.

(** The forty-nine tests pass on every CPU. *)
Theorem hash_tests_pass {B : Build} (c : cpu) :
  Forall (fun t => passes t = true) (hash_tests c ++ large_tests c).
Proof.
  apply Forall_app. split.
  - apply Forall_forall. intros t Ht. apply (proj1 (forallb_forall _ _) (small_tests_ok c)).
    by apply list_elem_of_In.
  - eapply Forall_impl; [apply large_tests_ok|]. by intros t ->.
Qed.
