(* ===== verification/FrontTests.v ===== *)
(** * The unit tests of the search and of the front ends

    The [#[cfg(test)]] modules of matching.rs, engine.rs, [src/src/compress]
    (encoder.rs, decoder.rs, secondary.rs) and io.rs, and one test of cli.rs,
    translated as those of the format are.  They search, compress and decode;
    instead of running the search they are settled by the theorems of the
    library, those of the streaming encoder by the scan of [Seams], so they
    pass on every CPU, in both build profiles, with every checksum and every
    codec that keep their laws.  The four tests that look at what the search
    finds are run, on one machine. *)

From stdpp Require Import base numbers list option strings sets gmap.
From Stdlib Require Import ZArith Lia.
From S2P Require Import Prelude Varint AddrCache CodeTable Semantics Header WindowEncoder Source Secondary.
From S2P Require Import WindowDecoder StreamRoundtrip Kernels HashTables Matching MatchingCorrect Emit Engine Pipeline Delta.
From S2P Require Import DeltaCorrect Seams WindowRoundtrip Files FileIo ByteSize CliOptions Print Fuzz Examples FormatTests HashTests.

Local Open Scope Z_scope.
Local Open Scope rust_scope.

(** [l.iter().cycle().take(n)] *)
Definition cycled (l : bytes) (n : Z) : bytes :=
  take (Z.to_nat n) (concat (replicate (Z.to_nat n) l)).

(** [for chunk in target.chunks(n)] *)
Definition in_chunks (n : Z) (target : bytes) : list bytes := chunks (S (length target)) n target.

(** Of the options only the window size matters for the seams. *)
Lemma seamless_options source o o' target :
  window_size o = window_size o' ->
  windows_seamless source (cap_window o target) target = windows_seamless source (cap_window o' target) target.
Proof.
  intros Ho. unfold windows_seamless, windows, cap_window. rewrite Ho. by destruct (_ <? _); [|rewrite Ho].
Qed.

(** [assert_eq!(n, n as u32)] *)
Lemma assert_wrapped n : 0 <= n < 2 ^ 32 -> assert_z n (wrap 32 n) = Ok tt.
Proof. intros Hn. unfold assert_z, wrap. by rewrite Z.mod_small, Z.eqb_refl by lia. Qed.

Lemma each_passes {A} (l : list A) (f : A -> test) :
  Forall (fun x => f x = Ok tt) l -> each l f = Ok tt.
Proof. unfold each. induction 1 as [|x l Hx _ IH]; [done|]. cbn [for_in]. rewrite Hx. exact IH. Qed.

(** ** matching.rs *)

Module MatchingTests.
Section Tests.
Context {B : Build} (c : cpu).

(** [insts.iter().map(|i| match i { .. }).sum::<u32>()] *)
Definition total (insts : list Instruction) : result unit Z :=
  for_in insts (fun i n => add_w 32 n (inst_len i)) 0.

(** An engine that has indexed the source, and its search. *)
Definition search (profile : MatcherConfig) (source target : bytes) : result unit (list Instruction) :=
  let* engine := MatchEngine.new c profile (lenZ source) (lenZ target) in
  let* engine := MatchEngine.index_source engine source in
  let* (_, insts) := find_matches engine target (Some source) in
  Ok insts.

(** The search without a source, in windows of 64 KiB. *)
Definition search_alone (profile : MatcherConfig) (target : bytes) : result unit (list Instruction) :=
  let* engine := MatchEngine.new c profile 0 (Z.shiftl 1 16) in
  let* (_, insts) := find_matches engine target (None : option bytes) in
  Ok insts.

Definition is_copy (i : Instruction) : bool := match i with Copy _ _ _ => true | _ => false end.
Definition is_run (i : Instruction) : bool := match i with Run _ => true | _ => false end.

Definition no_source_add_only : test :=
  let target := text "Hello, world!" in
  let* instructions := search_alone FASTEST target in
  let* _ := assert (negb (match instructions with [] => true | _ => false end)) in
  let* i := index instructions 0 in
  match i with
  | Add len => assert_z len (wrap 32 (lenZ target))
  | _ => Panic
  end.

Definition source_copy_identical : test :=
  let source := text "ABCDEFGHIJKLMNOPQRSTUVWXYZ0123456789" in
  let* instructions := search DEFAULT source source in
  assert (existsb is_copy instructions).

Definition target_self_copy : test :=
  let target := text "ABCDABCDABCDABCDABCDABCDABCDABCD" in
  let* instructions := search_alone DEFAULT target in
  assert (existsb is_copy instructions).

Definition run_detection : test :=
  let* instructions := search_alone DEFAULT (filled 100 0xAA) in
  assert (existsb is_run instructions).

Definition instructions_cover_full_target : test :=
  let source := text "The quick brown fox jumps over the lazy dog." in
  let target := text "The quick brown cat sits on the lazy mat." in
  let* instructions := search DEFAULT source target in
  let* n := total instructions in
  assert_z n (wrap 32 (lenZ target)).

(** The body of the loop; one engine searches the four targets in turn. *)
Definition search_filled (len : Z) (engine : MatchEngine.t) : result unit MatchEngine.t :=
  let target := filled len 0x42 in
  let* (engine, insts) := find_matches engine target (None : option bytes) in
  let* n := total insts in
  let* _ := assert_z n (wrap 32 len) in
  Ok engine.

Definition small_target_no_panic : test :=
  let* engine := MatchEngine.new c FASTEST 0 (Z.shiftl 1 16) in
  let* _ := for_in (range 0 4) search_filled engine in
  Ok tt.

Definition empty_target : test :=
  let* insts := search_alone DEFAULT [] in
  assert (match insts with [] => true | _ => false end).

Definition all_profiles_produce_valid_output : test :=
  let source := text "AAAA BBBB CCCC DDDD EEEE FFFF GGGG HHHH" in
  let target := text "AAAA CCCC DDDD EEEE xxxx GGGG HHHH IIII" in
  each [FASTEST; FASTER; FAST; DEFAULT; SLOW] (fun profile =>
    let* instructions := search profile source target in
    let* n := total instructions in
    assert_z n (wrap 32 (lenZ target))).

Lemma total_covers src target l : forall pos,
  0 <= pos -> lenZ target < 2 ^ 32 -> valid_insts src target pos l ->
  for_in l (fun i n => add_w 32 n (inst_len i)) pos = Ok (E:=unit) (lenZ target).
Proof.
  induction l as [|i l IH]; intros pos Hp Ht Hv; [simpl in *; by subst|].
  destruct Hv as [Hi Hv]. pose proof (valid_insts_le _ _ _ _ Hv). destruct Hi as (Hi1 & _).
  cbn [for_in]. rewrite add_w_ok by (unfold in_range; lia). cbn [bind]. apply IH; (done || lia).
Qed.

(** An engine finds instructions that cover the target, and can be used again. *)
Lemma engine_covers e target source :
  let src := default [] source in
  engine_wf (lenZ src) e -> wf_bytes src -> wf_bytes target -> lenZ target < 2 ^ 32 ->
  lenZ src + lenZ target < 2 ^ 63 ->
  exists e' insts, find_matches (E:=unit) e target (source : option bytes) = Ok (e', insts) /\
    engine_wf (lenZ src) e' /\ valid_insts src target 0 insts /\ total insts = Ok (lenZ target).
Proof.
  intros src He Hs Ht Hl Hsum.
  destruct (find_matches_ok (E:=unit) (contents:=fun s : bytes => s) e target source)
    as (e' & insts & Hf & He' & Hv); [by destruct source..|].
  exists e', insts. assert (valid_insts src target 0 insts) as Hv' by (by destruct source).
  split_and!; [done|by destruct source|done|]. by apply (total_covers src).
Qed.

Lemma search_covers profile source target :
  config_wf profile -> wf_bytes source -> wf_bytes target -> lenZ target < 2 ^ 32 ->
  lenZ source + lenZ target < 2 ^ 63 ->
  exists insts, search profile source target = Ok insts /\ total insts = Ok (lenZ target).
Proof.
  intros Hp Hs Ht Hl Hsum. unfold search. pose proof (lenZ_nonneg source). pose proof (lenZ_nonneg target).
  destruct (engine_new_ok (E:=unit) c profile (lenZ source) (lenZ target) (lenZ source))
    as (e & -> & He & _); [done|lia|lia|]. cbn [bind].
  destruct (index_source_ok (E:=unit) (contents:=fun s : bytes => s) e source) as (e1 & -> & He1 & _);
    [done|done|lia|]. cbn [bind].
  destruct (engine_covers e1 target (Some source)) as (e2 & insts & -> & _ & _ & Htot); [done..|].
  cbn [bind]. eauto.
Qed.

(** The profiles of the levels. *)
Lemma profiles_wf : Forall config_wf [FASTEST; FASTER; FAST; DEFAULT; SLOW].
Proof.
  repeat apply Forall_cons_2; [apply (config_for_level_wf 1)|apply (config_for_level_wf 2)|
    apply (config_for_level_wf 3)|apply (config_for_level_wf 6)|apply (config_for_level_wf 9)|constructor].
Qed.

Lemma engine_ready profile :
  config_wf profile ->
  exists e, MatchEngine.new (E:=unit) c profile 0 (Z.shiftl 1 16) = Ok e /\ engine_wf 0 e.
Proof.
  intros Hp. destruct (engine_new_ok (E:=unit) c profile 0 (Z.shiftl 1 16) 0) as (e & He & Hw & _);
    [done|vm_compute; split; congruence|lia|eauto].
Qed.

Lemma search_passes profile source target :
  config_wf profile -> wf_bytes source -> wf_bytes target -> lenZ target < 2 ^ 32 ->
  lenZ source + lenZ target < 2 ^ 63 ->
  (let* instructions := search profile source target in
   let* n := total instructions in
   assert_z n (wrap 32 (lenZ target))) = Ok tt.
Proof.
  intros Hp Hs Ht Hl Hsum. pose proof (lenZ_nonneg target).
  destruct (search_covers profile source target) as (insts & -> & Htot); [done..|]. cbn [bind].
  rewrite Htot. cbn [bind]. by apply assert_wrapped.
Qed.

Lemma small_targets_pass n : forall from e,
  0 <= from -> from + Z.of_nat n < 2 ^ 16 -> engine_wf 0 e ->
  exists e', for_in (range from (from + Z.of_nat n)) search_filled e = Ok e'.
Proof.
  induction n as [|n IH]; intros from e Hf Hn He.
  { rewrite range_nil by lia. by eexists. }
  rewrite range_cons by lia. cbn [for_in]. unfold search_filled at 1.
  assert (lenZ (filled from 0x42) = from) as Hlen by (unfold filled; rewrite lenZ_replicate; lia).
  destruct (engine_covers e (filled from 0x42) None) as (e' & insts & -> & He' & _ & Htot); simpl;
    rewrite ?Hlen; try done; [constructor|by apply Forall_replicate|lia|change (lenZ (@nil Z)) with 0; lia|].
  cbn [bind]. rewrite Htot, Hlen. cbn [bind].
  rewrite assert_wrapped by lia. cbn [bind].
  replace (from + Z.of_nat (S n)) with (from + 1 + Z.of_nat n) by lia. apply IH; (done || lia).
Qed.

Lemma matching_tests_pass :
  instructions_cover_full_target = Ok tt /\ small_target_no_panic = Ok tt /\ empty_target = Ok tt /\
  all_profiles_produce_valid_output = Ok tt.
Proof.
  pose proof profiles_wf as Hp. split_and!.
  - apply search_passes; [apply (config_for_level_wf 6)|apply text_wf|apply text_wf|done|done].
  - unfold small_target_no_panic. destruct (engine_ready FASTEST) as (e & -> & He); [by inversion Hp|].
    cbn [bind]. destruct (small_targets_pass 4 0 e) as [e' Hs]; [done..|]. change (0 + Z.of_nat 4) with 4 in Hs.
    rewrite Hs. done.
  - unfold empty_target, search_alone. destruct (engine_ready DEFAULT) as (e & -> & He); [apply (config_for_level_wf 6)|].
    cbn [bind]. destruct (engine_covers e [] None) as (e' & insts & -> & _ & Hv & _); try done; [constructor..|].
    cbn [bind]. destruct insts as [|i insts]; [done|]. destruct Hv as [(? & Hi & _) _].
    change (lenZ (@nil Z)) with 0 in Hi. lia.
  - apply each_passes. eapply (Forall_impl _ _ _ Hp). intros profile Hw.
    by apply search_passes; [|apply text_wf|apply text_wf|..].
Qed.
End Tests.

(** The tests that look at what the search finds, run on one machine. *)
Lemma search_tests_pass :
  let B := {| debug_build := true |} in
  forallb (fun t => passes (t X86_avx2))
    [no_source_add_only; source_copy_identical; target_self_copy; run_detection] = true.
Proof. vm_compute. reflexivity. Qed.
End MatchingTests.

(** ** engine.rs *)

Module EngineTests.
Section Tests.
Context {B : Build} `{Adler32} `{Codecs} (c : cpu).

Definition roundtrip (source target : bytes) : test :=
  let* delta := unwrap (Engine.encode c source target []) in
  let* reconstructed := unwrap (Engine.decode source delta) in
  assert_eq reconstructed target.

Definition roundtrip_identical : test :=
  let data := text "The quick brown fox jumps over the lazy dog." in
  roundtrip data data.

Definition roundtrip_small_edit : test :=
  let source := text "Hello, world! This is a test of the delta engine." in
  let target := text "Hello, earth! This is a test of the delta engine." in
  roundtrip source target.

Definition roundtrip_no_source : test :=
  let target := text "ABCDEFGHIJKLMNOPQRSTUVWXYZ" in
  roundtrip [] target.

Definition roundtrip_empty_target : test := roundtrip (text "some source") [].

Definition roundtrip_repeating_data : test :=
  let source := text "AAAA BBBB CCCC DDDD EEEE FFFF GGGG HHHH" in
  let target := text "AAAA CCCC DDDD EEEE xxxx GGGG HHHH IIII" in
  roundtrip source target.

Definition roundtrip_binary_data : test :=
  let source := cycled (upto 0 255) 4096 in
  let* target := store source 100 0xFF in
  let* target := store target 200 0x00 in
  let* target := store target 1000 0x42 in
  roundtrip source target.

Definition roundtrip_large_insert : test :=
  let source := text "Start." in
  let target := text "Start. And now a much longer piece of text that was inserted." in
  roundtrip source target.

Definition roundtrip_all_levels : test :=
  let source := text "ABCDEFGHIJKLMNOPQRSTUVWXYZ0123456789abcdefghijklmnopqrstuvwxyz" in
  let target := text "ABCDEFGHIJKLMNOP--CHANGED--UVWXYZ0123456789abcdefghijklmnopqrstuvwxyz!!!" in
  each [1; 3; 6; 9] (fun level =>
    let opts := encode_options level (Engine.window_size Engine.default_options) true in
    let* delta := unwrap (Engine.encode_with_options c source target [] opts) in
    let* reconstructed := unwrap (Engine.decode source delta) in
    assert_eq reconstructed target).

Definition roundtrip_run_data : test := roundtrip [] (filled 200 0xAA).
End Tests.

Section Pass.
Context {B : Build} `{Adler32Laws} `{Codecs} (c : cpu).

Lemma engine_passes opts source target :
  wf_bytes source -> wf_bytes target -> lenZ source < 2 ^ 62 -> lenZ target < 2 ^ 62 ->
  1 <= Engine.window_size opts <= HARD_MAX_WINSIZE ->
  (let* delta := unwrap (Engine.encode_with_options c source target [] opts) in
   let* reconstructed := unwrap (Engine.decode source delta) in
   assert_eq reconstructed target) = Ok (E:=unit) tt.
Proof.
  intros Hs Ht Hsl Htl Hw. destruct (encode_decode_ok c opts source target) as (delta & -> & Hd); [done..|].
  cbn [unwrap bind]. rewrite Hd. cbn [unwrap bind]. unfold assert_eq. by rewrite bool_decide_eq_true_2.
Qed.

Lemma roundtrip_passes source target :
  wf_bytes source -> wf_bytes target -> lenZ source < 2 ^ 62 -> lenZ target < 2 ^ 62 ->
  roundtrip c source target = Ok tt.
Proof. intros. by apply engine_passes. Qed.

Lemma engine_tests_pass :
  Forall (fun t => t = Ok tt)
    [roundtrip_identical c; roundtrip_small_edit c; roundtrip_no_source c; roundtrip_empty_target c;
     roundtrip_repeating_data c; roundtrip_binary_data c; roundtrip_large_insert c; roundtrip_all_levels c;
     roundtrip_run_data c].
Proof.
  repeat apply Forall_cons_2; [..|constructor].
  all: try (apply roundtrip_passes; solve [apply text_wf|constructor|reflexivity|by apply in_range_list]).
  apply each_passes. repeat apply Forall_cons_2; [..|constructor].
  all: by apply engine_passes; [apply text_wf|apply text_wf|..].
Qed.
End Pass.
End EngineTests.

(** ** compress/encoder.rs *)

Module EncoderTests.
Section Tests.
Context {B : Build} `{Adler32} `{Codecs} (c : cpu).

(** Encode, decode and compare. *)
Definition encode_check (source target : bytes) (opts : CompressOptions) : result unit bytes :=
  let* output := unwrap (encode_all c [] source target opts) in
  let* decoded := unwrap (decode_memory output source) in
  let* _ := assert_eq decoded target in
  Ok output.

(** The options are those of an encoder that is dropped. *)
Definition roundtrip (source target : bytes) (opts : CompressOptions) : result unit bytes :=
  let* _ := unwrap (DeltaEncoder.new c [] source opts) in
  encode_check source target default_options.

Definition with_level (level : Z) : CompressOptions :=
  compress_options level (window_size default_options) (checksum default_options) (secondary default_options).

Definition encode_all_roundtrip : test :=
  let source := text "The quick brown fox jumps over the lazy dog." in
  let target := text "The quick brown cat sits on the lazy mat." in
  let* _ := roundtrip source target default_options in
  Ok tt.

Definition level_0_store_only : test :=
  let* _ := encode_check [] (text "Hello, world!") (with_level 0) in
  Ok tt.

Definition all_levels_roundtrip : test :=
  let source := text "ABCDEFGHIJKLMNOPQRSTUVWXYZ0123456789abcdefghijklmnopqrstuvwxyz" in
  let target := text "ABCDEFGHIJKLMNOP--CHANGED--UVWXYZ0123456789abcdefghijklmnopqrstuvwxyz!!!" in
  each (upto 0 9) (fun level =>
    let opts := compress_options level (window_size default_options) true (secondary default_options) in
    let* _ := encode_check source target opts in
    Ok tt).

Definition streaming_matches_bulk : test :=
  let source := text "AAAA BBBB CCCC DDDD EEEE FFFF GGGG HHHH" in
  let target := text "AAAA CCCC DDDD EEEE xxxx GGGG HHHH IIII" in
  let opts := compress_options 6 1024 (checksum default_options) (secondary default_options) in
  let* bulk_output := unwrap (encode_all c [] source target opts) in
  let* enc := unwrap (DeltaEncoder.new c [] source opts) in
  let* enc := for_in (in_chunks 4 target) (fun chunk enc => unwrap (DeltaEncoder.write_target c enc chunk)) enc in
  let* (stream_output, _) := unwrap (DeltaEncoder.finish c enc) in
  let* bulk_decoded := unwrap (decode_memory bulk_output source) in
  let* stream_decoded := unwrap (decode_memory stream_output source) in
  let* _ := assert_eq bulk_decoded target in
  assert_eq stream_decoded target.

Definition empty_target : test :=
  let source := text "source" in
  let* output := unwrap (encode_all c [] source [] default_options) in
  let* decoded := unwrap (decode_memory output source) in
  assert (match decoded with [] => true | _ => false end).

Definition no_source : test :=
  let* _ := encode_check [] (text "standalone data without any source reference") default_options in
  Ok tt.

Definition progress_tracking : test :=
  let* enc := unwrap (DeltaEncoder.new c [] [] default_options) in
  let* _ := assert_z (DeltaEncoder.bytes_in enc) 0 in
  let* _ := assert_z (DeltaEncoder.windows_written enc) 0 in
  let* enc := unwrap (DeltaEncoder.write_target c enc (filled 1000 0xAA)) in
  let* _ := assert_z (DeltaEncoder.bytes_in enc) 1000 in
  let* _ := unwrap (DeltaEncoder.finish c enc) in
  Ok tt.

(** The body the two tests of secondary compression share. *)
Definition secondary_check (s : SecondaryCompression) : test :=
  let source := cycled (text "ABCDEFGHIJ") 4096 in
  let* target := store source 100 88 in
  let* target := store target 500 89 in
  let opts := compress_options 6 (window_size default_options) (checksum default_options) s in
  let* _ := encode_check source target opts in
  Ok tt.

(** Compiled with the feature only. *)
Definition secondary_lzma_roundtrip : test := if lzma_secondary then secondary_check Lzma else Ok tt.
Definition secondary_zlib_roundtrip : test := if zlib_secondary then secondary_check (Zlib 6) else Ok tt.
End Tests.
End EncoderTests.

(** ** compress/decoder.rs *)

Module DecoderTests.
Section Tests.
Context {B : Build} `{Adler32} `{Codecs} (c : cpu).

Definition encode_test_data (source target : bytes) : result unit bytes :=
  unwrap (encode_all c [] source target default_options).

Definition decode_all_roundtrip : test :=
  let source := text "Hello, world!" in
  let target := text "Hello, earth!" in
  let* delta := encode_test_data source target in
  let* decoded := unwrap (decode_all source delta) in
  assert_eq decoded target.

Definition streaming_decode_to_writer : test :=
  let source := text "ABCDEFGHIJKLMNOPQRSTUVWXYZ0123456789" in
  let target := text "ABCDEFGHIJKLMNOP--CHANGED--0123456789!!!" in
  let* delta := encode_test_data source target in
  let* (total, decoder, _, output) :=
    unwrap (DeltaDecoder.decode_to (DeltaDecoder.new delta) source []) in
  let* _ := assert_eq output target in
  let* _ := assert_z total (lenZ target) in
  let* _ := assert_z (DeltaDecoder.bytes_decoded decoder) (lenZ target) in
  assert (1 <=? DeltaDecoder.windows_decoded decoder).

Definition empty_target : test :=
  let* delta := encode_test_data [] [] in
  let* decoded := unwrap (decode_all [] delta) in
  assert (match decoded with [] => true | _ => false end).

Definition no_checksum_verification : test :=
  let target := text "test data" in
  let* delta := encode_test_data [] target in
  let* (_, _, _, output) :=
    unwrap (DeltaDecoder.decode_to (DeltaDecoder.with_checksum delta false) ([] : bytes) []) in
  assert_eq output target.
End Tests.
End DecoderTests.

(** ** They pass *)

Section FrontEnds.
Context {B : Build} `{Adler32Laws} `{CodecLaws} (c : cpu).

(** One call of [encode_all] on a target without seams, and every way to decode it. *)
Lemma one_shot source target opts :
  wf_bytes source -> lenZ source < 2 ^ 62 -> wf_bytes target -> lenZ target < 2 ^ 62 -> options_ok opts ->
  windows_seamless source (cap_window opts target) target = true ->
  exists delta, encode_all c [] source target opts = Ok delta /\
    decode_memory delta source = Ok target /\
    forall verify, exists d', DeltaDecoder.decode_to (DeltaDecoder.with_checksum delta verify) source []
      = Ok (lenZ target, d', source, target) /\ 1 <= DeltaDecoder.windows_decoded d'.
Proof.
  intros Hs Hsl Ht Htl Hoo Hsf. pose proof (cap_window_ok opts target Hoo) as Hoo'.
  assert (concat [target] = target) as Hcat by apply app_nil_r.
  destruct (encode_pieces_ok c source (cap_window opts target) [target]) as (delta & n & Henc & Hd);
    rewrite ?Hcat; try done; [by constructor|by apply merges_safe_seamless|]. rewrite Hcat in Hd.
  destruct (delta_decodes source _ delta target n Hoo' Htl Hd) as (Hdec & Hto).
  exists delta. split; [by apply (encode_all_pieces c source target opts delta n)|]. split; [done|].
  intros verify. destruct (Hto verify) as (d' & Hd' & Hw). exists d'. split; [done|lia].
Qed.

Lemma default_ok : options_ok default_options.
Proof. by apply no_secondary_ok. Qed.

Lemma encode_check_passes source target opts :
  wf_bytes source -> lenZ source < 2 ^ 62 -> wf_bytes target -> lenZ target < 2 ^ 62 -> options_ok opts ->
  windows_seamless source (cap_window opts target) target = true ->
  exists output, EncoderTests.encode_check c source target opts = Ok output.
Proof.
  intros. destruct (one_shot source target opts) as (delta & Henc & Hdec & _); [done..|].
  unfold EncoderTests.encode_check. rewrite Henc. cbn [unwrap bind]. rewrite Hdec. cbn [unwrap bind].
  unfold assert_eq. rewrite bool_decide_eq_true_2 by done. by exists delta.
Qed.

(** [unwrap] in a loop is the loop unwrapped. *)
Lemma unwrap_loop {E F A C} (l : list A) (f : A -> C -> result E C) x y :
  for_in l f x = Ok y -> for_in l (fun a x => unwrap (F:=F) (f a x)) x = Ok y.
Proof.
  revert x. induction l as [|a l IH]; intros x Hl; [simpl in *; congruence|]. cbn [for_in] in *.
  destruct (f a x); [|done..]. by apply IH.
Qed.

(** An encoder fed in pieces that together have no seam. *)
Lemma fed_in_pieces source opts pieces :
  let target := concat pieces in
  wf_bytes source -> lenZ source < 2 ^ 62 -> Forall wf_bytes pieces -> lenZ target < 2 ^ 62 -> options_ok opts ->
  windows_seamless source opts target = true ->
  exists enc enc1 delta n, DeltaEncoder.new c [] source opts = Ok enc /\
    for_in pieces (fun chunk enc => unwrap (DeltaEncoder.write_target c enc chunk)) enc = Ok (E:=unit) enc1 /\
    DeltaEncoder.finish c enc1 = Ok (delta, n) /\ decode_memory delta source = Ok target.
Proof.
  intros target Hs Hsl Hp Htl Hoo Hsf.
  destruct (encode_pieces_ok c source opts pieces) as (delta & n & Henc & Hd); try done.
  { apply merges_safe_seamless; try done. by apply Forall_concat. }
  destruct (delta_decodes source _ delta target n Hoo Htl Hd) as (Hdec & _).
  unfold encode_pieces in Henc. apply bind_ok_inv in Henc as (enc & Hnew & Henc).
  apply bind_ok_inv in Henc as (enc1 & Hfeed & Hfin). exists enc, enc1, delta, n.
  split_and!; [done|by apply unwrap_loop|done|done].
Qed.

Lemma chunks_wf n target : 1 <= n -> wf_bytes target -> Forall wf_bytes (in_chunks n target).
Proof.
  intros Hn Ht. pose proof (chunks_ok n Hn (S (length target)) target ltac:(lia)) as Hch.
  eapply Forall_impl; [exact (chunked_windows n target _ Hn Ht Hch)|]. by intros w [? _].
Qed.

Lemma streaming_passes : EncoderTests.streaming_matches_bulk c = Ok tt.
Proof.
  unfold EncoderTests.streaming_matches_bulk. cbv zeta. set (source := text _). set (target := text _).
  set (opts := compress_options 6 1024 _ _).
  assert (options_ok opts) as Hoo by (by apply no_secondary_ok).
  assert (concat (in_chunks 4 target) = target) as Hcat by (vm_compute; reflexivity).
  destruct (one_shot source target opts) as (delta & -> & Hdec & _);
    [apply text_wf|done|apply text_wf|done|done|vm_compute; reflexivity|].
  destruct (fed_in_pieces source opts (in_chunks 4 target)) as (enc & enc1 & sdelta & n & -> & Hfeed & Hfin & Hsdec);
    rewrite ?Hcat in *; [apply text_wf|done|apply chunks_wf; [done|apply text_wf]|done|done|vm_compute; reflexivity|].
  cbn [unwrap bind]. rewrite Hfeed. cbn [bind]. rewrite Hfin. cbn [unwrap bind].
  rewrite Hdec, Hsdec. cbn [unwrap bind]. unfold assert_eq. by rewrite !bool_decide_eq_true_2.
Qed.

Lemma progress_passes : EncoderTests.progress_tracking c = Ok tt.
Proof.
  unfold EncoderTests.progress_tracking. set (target := filled 1000 0xAA).
  assert (wf_bytes target) as Ht by (by apply in_range_list).
  pose proof (Forall_nil_2 (in_range 8)) as Hs.
  destruct (new_fed c [] default_options target) as (enc & -> & Hfed & Hw); [done|done|apply default_ok|].
  cbn [unwrap bind]. rewrite (fi_bytes _ _ _ _ _ _ _ _ Hfed), Hw. cbn [bind].
  destruct (write_target_ok c [] default_options Hs eq_refl default_ok
    (windows default_options target) (meant c [] default_options target) enc [] target [])
    as (enc1 & -> & Hfed1); [by rewrite app_nil_r|done|done|].
  cbn [unwrap bind]. rewrite (fi_bytes _ _ _ _ _ _ _ _ Hfed1). cbn [app].
  destruct (finish_ok c [] default_options Hs eq_refl default_ok
    (windows default_options target) (meant c [] default_options target) enc1 target Hfed1 ltac:(done)) as (delta & n & -> & _).
  done.
Qed.

Lemma secondary_check_passes s :
  secondary_ok s -> secondary_total s -> EncoderTests.secondary_check c s = Ok tt.
Proof.
  intros Hs Htot. set (source := cycled (text "ABCDEFGHIJ") 4096).
  set (target := <[500%nat := 89]> (<[100%nat := 88]> source)).
  set (opts := compress_options 6 (window_size default_options) (checksum default_options) s).
  assert (EncoderTests.secondary_check c s
    = let* _ := EncoderTests.encode_check c source target opts in Ok tt) as -> by reflexivity.
  destruct (encode_check_passes source target opts) as (output & ->);
    [by apply in_range_list|done|by apply in_range_list|done|by constructor| |reflexivity].
  rewrite (seamless_options _ _ default_options) by reflexivity. vm_compute. reflexivity.
Qed.

(** The checks whose target is a text. *)
Lemma text_check_passes s s' lvl :
  0 <= lvl -> windows_seamless (text s) (cap_window (EncoderTests.with_level lvl) (text s')) (text s') = true ->
  lenZ (text s) < 2 ^ 62 -> lenZ (text s') < 2 ^ 62 ->
  (let* _ := EncoderTests.encode_check c (text s) (text s') (EncoderTests.with_level lvl) in Ok tt)
  = Ok (E:=unit) tt.
Proof.
  intros Hl Hsf Hs Ht.
  destruct (encode_check_passes (text s) (text s') (EncoderTests.with_level lvl)) as (output & ->);
    [apply text_wf|done|apply text_wf|done|by apply no_secondary_ok|done|done].
Qed.

Lemma encode_all_roundtrip_passes : EncoderTests.encode_all_roundtrip c = Ok tt.
Proof.
  unfold EncoderTests.encode_all_roundtrip, EncoderTests.roundtrip. cbv zeta.
  destruct (new_fed c (text "The quick brown fox jumps over the lazy dog.") default_options [])
    as (d & -> & _); [apply text_wf|done|apply default_ok|].
  cbn [unwrap bind]. by apply (text_check_passes _ _ 6).
Qed.

Lemma encoder_empty_passes : EncoderTests.empty_target c = Ok tt.
Proof.
  unfold EncoderTests.empty_target. cbv zeta.
  destruct (one_shot (text "source") [] default_options) as (delta & -> & Hdec & _);
    [apply text_wf|done|constructor|done|apply default_ok|vm_compute; reflexivity|].
  cbn [unwrap bind]. by rewrite Hdec.
Qed.

Context (Hlzma : secondary_total Lzma) (Hzlib : secondary_total (Zlib 6)).

(** Compression in memory does not fail; with that the tests of the encoder pass. *)
Theorem encoder_tests_pass :
  Forall (fun t => t = Ok tt)
    [EncoderTests.encode_all_roundtrip c; EncoderTests.level_0_store_only c; EncoderTests.all_levels_roundtrip c;
     EncoderTests.streaming_matches_bulk c; EncoderTests.empty_target c; EncoderTests.no_source c;
     EncoderTests.progress_tracking c; EncoderTests.secondary_lzma_roundtrip c; EncoderTests.secondary_zlib_roundtrip c].
Proof.
  repeat apply Forall_cons_2; [..|constructor].
  - apply encode_all_roundtrip_passes.
  - by apply (text_check_passes "" _ 0).
  - apply each_passes, Forall_forall. intros lvl Hlvl. unfold upto in Hlvl.
    apply elem_of_seqZ in Hlvl.
    apply text_check_passes; [lia| |done|done]. vm_compute. reflexivity.
  - apply streaming_passes.
  - apply encoder_empty_passes.
  - by apply (text_check_passes "" _ 6).
  - apply progress_passes.
  - unfold EncoderTests.secondary_lzma_roundtrip. destruct lzma_secondary eqn:Hf; [|done].
    by apply secondary_check_passes.
  - unfold EncoderTests.secondary_zlib_roundtrip. destruct zlib_secondary eqn:Hf; [|done].
    by apply secondary_check_passes.
Qed.

(** The count a decoder returns is the one it keeps. *)
Lemma decode_to_count (d d' : DeltaDecoder.t) (source source' out out' : bytes) n :
  DeltaDecoder.decode_to d source out = Ok (n, d', source', out') -> DeltaDecoder.bytes_decoded d' = n.
Proof.
  unfold DeltaDecoder.decode_to. intros Hd. apply bind_ok_inv in Hd as ([[d1 s1] w1] & _ & Hd). congruence.
Qed.

Theorem decoder_tests_pass :
  Forall (fun t => t = Ok tt)
    [DecoderTests.decode_all_roundtrip c; DecoderTests.streaming_decode_to_writer c; DecoderTests.empty_target c;
     DecoderTests.no_checksum_verification c].
Proof.
  assert (forall s s', windows_seamless (text s) (cap_window default_options (text s')) (text s') = true ->
    lenZ (text s) < 2 ^ 62 -> lenZ (text s') < 2 ^ 62 ->
    exists delta, DecoderTests.encode_test_data c (text s) (text s') = Ok delta /\
      decode_all (text s) delta = Ok (text s') /\
      forall verify, exists d', DeltaDecoder.decode_to (DeltaDecoder.with_checksum delta verify) (text s) []
        = Ok (lenZ (text s'), d', text s, text s') /\ 1 <= DeltaDecoder.windows_decoded d') as Henc.
  { intros s s' Hsf Hs Ht. destruct (one_shot (text s) (text s') default_options) as (delta & He & Hd);
      [apply text_wf|done|apply text_wf|done|apply default_ok|done|].
    exists delta. unfold DecoderTests.encode_test_data. by rewrite He. }
  repeat apply Forall_cons_2; [..|constructor].
  - unfold DecoderTests.decode_all_roundtrip. cbv zeta.
    destruct (Henc "Hello, world!"%string "Hello, earth!"%string) as (delta & -> & Hd & _);
      [vm_compute; reflexivity|done|done|]. cbn [bind]. rewrite Hd. done.
  - unfold DecoderTests.streaming_decode_to_writer. cbv zeta.
    destruct (Henc "ABCDEFGHIJKLMNOPQRSTUVWXYZ0123456789"%string "ABCDEFGHIJKLMNOP--CHANGED--0123456789!!!"%string)
      as (delta & -> & _ & Hto); [vm_compute; reflexivity|done|done|]. cbn [bind].
    destruct (Hto true) as (d' & Hd' & Hw). pose proof (decode_to_count _ _ _ _ _ _ _ Hd') as Hn.
    unfold DeltaDecoder.new. rewrite Hd'. cbn [unwrap bind]. rewrite Hn.
    unfold assert_eq, assert_z. rewrite bool_decide_eq_true_2 by done. rewrite Z.eqb_refl. cbn [assert bind].
    by rewrite (proj2 (Z.leb_le _ _)) by lia.
  - unfold DecoderTests.empty_target. destruct (Henc ""%string ""%string) as (delta & Hd0 & Hd & _);
      [vm_compute; reflexivity|done|done|]. change (text "") with (@nil Z) in *. rewrite Hd0. cbn [bind].
    by rewrite Hd.
  - unfold DecoderTests.no_checksum_verification. cbv zeta.
    destruct (Henc ""%string "test data"%string) as (delta & Hd0 & _ & Hto); [vm_compute; reflexivity|done|done|].
    change (text "") with (@nil Z) in *. rewrite Hd0. cbn [bind].
    destruct (Hto false) as (d' & Hd' & _). rewrite Hd'. cbn [unwrap bind]. unfold assert_eq.
    by rewrite bool_decide_eq_true_2.
Qed.
End FrontEnds.

(** ** compress/secondary.rs *)

Module SecondaryTests.
Section Tests.
Context `{Codecs}.

Definition no_compression_passthrough : test :=
  let data := text "test data" in
  let* _ := assert (negb (be_should_compress NoCompression data)) in
  let* compressed := unwrap (be_compress NoCompression data) in
  let* _ := assert_eq compressed data in
  let* decompressed := unwrap (be_decompress NoCompression data) in
  assert_eq decompressed data.

Definition small_data_not_compressed : test :=
  if lzma_secondary then
    let* _ := assert (negb (be_should_compress LzmaBackend (text "tiny"))) in
    assert (negb (be_should_compress LzmaBackend []))
  else Ok tt.

(** The body the two round trips of sections share. *)
Definition sections_check (backend : CompressBackend) (id : Z) : test :=
  let data := filled 200 0xAA in
  let inst := filled 100 0x42 in
  let addr := filled 80 0x00 in
  let* (c_data, c_inst, c_addr, del_ind) := unwrap (compress_sections backend data inst addr) in
  let* (d_data, d_inst, d_addr) := unwrap (decompress_sections c_data c_inst c_addr del_ind (Some id)) in
  let* _ := assert_eq d_data data in
  let* _ := assert_eq d_inst inst in
  assert_eq d_addr addr.

Definition compress_sections_roundtrip_lzma : test :=
  if lzma_secondary then sections_check LzmaBackend VCD_LZMA_ID else Ok tt.

Definition compress_sections_roundtrip_zlib : test :=
  if zlib_secondary then sections_check ZlibBackend_default VCD_ZLIB_ID else Ok tt.

Definition incompressible_data_preserved : test :=
  if lzma_secondary then
    let data := cycled (upto 0 255) 256 in
    let* compressed := unwrap (compress_section LzmaBackend data) in
    if lenZ compressed <? lenZ data then
      let* decompressed := unwrap (be_decompress LzmaBackend compressed) in
      assert_eq decompressed data
    else assert_eq compressed data
  else Ok tt.

Definition wrong_compressor_id_rejected : test :=
  assert_err (decompress_sections (text "data") (text "inst") (text "addr") VCD_DATACOMP (Some 99)).

Definition missing_compressor_id_rejected : test :=
  assert_err (decompress_sections (text "data") (text "inst") (text "addr") VCD_DATACOMP None).

Definition backend_for_id_dispatch : test :=
  let* _ := if lzma_secondary then
      let* b := unwrap (backend_for_id (Some VCD_LZMA_ID)) in assert_z (be_id b) VCD_LZMA_ID
    else Ok tt in
  let* _ := if zlib_secondary then
      let* b := unwrap (backend_for_id (Some VCD_ZLIB_ID)) in assert_z (be_id b) VCD_ZLIB_ID
    else Ok tt in
  let* _ := assert_err (backend_for_id (Some 99)) in
  assert_err (backend_for_id None).

(** [s.backend().unwrap()] *)
Definition backend_of (s : SecondaryCompression) : result unit CompressBackend :=
  match backend s with Some b => Ok b | None => Panic end.

Definition secondary_compression_enum : test :=
  let* _ := assert (negb (is_enabled NoSecondary)) in
  let* _ := assert (match backend NoSecondary with None => true | Some _ => false end) in
  let* _ := if lzma_secondary then
      let* _ := assert (is_enabled Lzma) in
      let* b := backend_of Lzma in assert_z (be_id b) VCD_LZMA_ID
    else Ok tt in
  if zlib_secondary then
    let zlib := Zlib 6 in
    let* _ := assert (is_enabled zlib) in
    let* b := backend_of zlib in assert_z (be_id b) VCD_ZLIB_ID
  else Ok tt.

(** It reverses the bytes; [should_compress] is the trait's. *)
Definition TestBackend : CompressBackend := {|
  be_id := 42;
  be_compress data := Ok (reverse data);
  be_decompress data := Ok (reverse data);
  be_should_compress := default_should_compress
|}.

Definition custom_backend : test :=
  let data := text "hello world" in
  let* compressed := unwrap (be_compress TestBackend data) in
  let* decompressed := unwrap (be_decompress TestBackend compressed) in
  let* _ := assert_eq decompressed data in
  assert_z (be_id TestBackend) 42.
End Tests.

Section Pass.
Context `{CodecLaws} (Hlzma : secondary_total Lzma) (Hzlib : secondary_total (Zlib 6)).

Lemma sections_check_passes s be :
  secondary_ok s -> secondary_total s -> backend s = Some be -> sections_check be (be_id be) = Ok tt.
Proof.
  intros Hs Ht Hb. destruct (secondary_decodable s be Hs Hb) as [_ Hdec]. unfold sections_check. cbv zeta.
  destruct (compress_sections_total be (filled 200 0xAA) (filled 100 0x42) (filled 80 0) (Ht be Hb))
    as (d & i & a & del & Hc).
  rewrite Hc. cbn [unwrap bind]. rewrite (decompress_compress be _ _ _ _ _ _ _ Hdec Hc). done.
Qed.

Lemma incompressible_passes : incompressible_data_preserved = Ok tt.
Proof.
  unfold incompressible_data_preserved. destruct lzma_secondary; [|done]. cbv zeta.
  set (data := cycled _ _).
  destruct (compress_section_total LzmaBackend data (Hlzma LzmaBackend eq_refl)) as [x Hx]. rewrite Hx.
  cbn [unwrap bind]. apply compress_section_ok in Hx as [[Hlt Hx]| ->].
  - rewrite (proj2 (Z.ltb_lt _ _)) by done. simpl in Hx. simpl. rewrite (lzma_inverts _ _ Hx).
    cbn [ok_or_failed unwrap bind]. unfold assert_eq. by rewrite bool_decide_eq_true_2.
  - rewrite Z.ltb_irrefl. unfold assert_eq. by rewrite bool_decide_eq_true_2.
Qed.

Theorem secondary_tests_pass :
  Forall (fun t => t = Ok tt)
    [no_compression_passthrough; small_data_not_compressed; compress_sections_roundtrip_lzma;
     compress_sections_roundtrip_zlib; incompressible_data_preserved; wrong_compressor_id_rejected;
     missing_compressor_id_rejected; backend_for_id_dispatch; secondary_compression_enum; custom_backend].
Proof.
  repeat apply Forall_cons_2; [..|constructor]; try done.
  - unfold small_data_not_compressed. by destruct lzma_secondary.
  - unfold compress_sections_roundtrip_lzma. destruct lzma_secondary eqn:Hf; [|done].
    by apply (sections_check_passes Lzma LzmaBackend).
  - unfold compress_sections_roundtrip_zlib. destruct zlib_secondary eqn:Hf; [|done].
    by apply (sections_check_passes (Zlib 6) ZlibBackend_default).
  - apply incompressible_passes.
  - unfold backend_for_id_dispatch. simpl. by destruct lzma_secondary, zlib_secondary.
  - unfold secondary_compression_enum. by destruct lzma_secondary, zlib_secondary.
Qed.
End Pass.
End SecondaryTests.

(** ** cli.rs *)

Definition parse_byte_size_suffixes : test :=
  let check (s : str) (v : Z) : test := let* n := unwrap (parse_byte_size s) in assert_z n v in
  let* _ := check (text "1") 1 in
  let* _ := check (text "2K") (2 * 1024) in
  let* _ := check (text "3m") (3 * 1024 * 1024) in
  let* _ := check (text "4G") (4 * 1024 * 1024 * 1024) in
  assert_err (parse_byte_size []).

Theorem parse_byte_size_suffixes_pass : parse_byte_size_suffixes = Ok tt.
Proof. vm_compute. reflexivity. Qed.

(** ** io.rs *)

Module IoTests.
Section Tests.
Context {B : Build} `{Adler32} `{Codecs} `{Sha256} `{Os} (c : cpu) (temp_dir : string).

(** Directories are not modelled: a path is its name. *)
Definition temp_path (name : string) : path := (temp_dir +:+ "/xdelta_io_test/" +:+ name)%string.

Definition write_temp_file (w : World) (name : string) (data : bytes) : result unit (path * World) :=
  let path := temp_path name in
  let* w := unwrap (file_create w path) in
  Ok (path, set_file w path data).

(** [let _ = std::fs::remove_file(p)] *)
Definition cleanup_temp_files (w : World) (paths : list path) : World :=
  world (foldr delete (files w) paths) (stdin w) (stdout w).

Definition encode_decode_file_roundtrip (w : World) : test :=
  let source_data := text "The quick brown fox jumps over the lazy dog. 1234567890" in
  let target_data := text "The quick brown cat sits on the lazy mat. 1234567890!!!" in
  let* (source_path, w) := write_temp_file w "source.bin" source_data in
  let* (target_path, w) := write_temp_file w "target.bin" target_data in
  let* (delta_path, w) := write_temp_file w "delta.vcdiff" [] in
  let* (output_path, w) := write_temp_file w "output.bin" [] in
  let* (enc_stats, w) := unwrap (encode_file c w source_path target_path delta_path default_options) in
  let* _ := assert_z (source_size enc_stats) (lenZ source_data) in
  let* _ := assert_z (target_size enc_stats) (lenZ target_data) in
  let* _ := assert (0 <? delta_size enc_stats) in
  let* _ := assert (1 <=? windows_encoded enc_stats) in
  let* (dec_stats, w) := unwrap (decode_file w source_path delta_path output_path) in
  let* _ := assert_z (output_size dec_stats) (lenZ target_data) in
  let* _ := assert (1 <=? windows_decoded dec_stats) in
  let* output_data := unwrap (fs_read w output_path) in
  let* _ := assert_eq output_data target_data in
  let w := cleanup_temp_files w [source_path; target_path; delta_path; output_path] in
  Ok tt.

Definition encode_decode_no_source (w : World) : test :=
  let target_data := text "standalone data without any source" in
  let* (source_path, w) := write_temp_file w "nosrc_source.bin" [] in
  let* (target_path, w) := write_temp_file w "nosrc_target.bin" target_data in
  let* (delta_path, w) := write_temp_file w "nosrc_delta.vcdiff" [] in
  let* (output_path, w) := write_temp_file w "nosrc_output.bin" [] in
  let* (_, w) := unwrap (encode_file c w source_path target_path delta_path default_options) in
  let* (_, w) := unwrap (decode_file w source_path delta_path output_path) in
  let* output_data := unwrap (fs_read w output_path) in
  let* _ := assert_eq output_data target_data in
  let w := cleanup_temp_files w [source_path; target_path; delta_path; output_path] in
  Ok tt.

(** Compiled with the feature only. *)
Definition sha256_checksums_computed (w : World) : test :=
  if file_io then
    let source_data := text "source for checksum test" in
    let target_data := text "target for checksum test" in
    let* (source_path, w) := write_temp_file w "sha_source.bin" source_data in
    let* (target_path, w) := write_temp_file w "sha_target.bin" target_data in
    let* (delta_path, w) := write_temp_file w "sha_delta.vcdiff" [] in
    let* (output_path, w) := write_temp_file w "sha_output.bin" [] in
    let* (enc_stats, w) := unwrap (encode_file c w source_path target_path delta_path default_options) in
    let* _ := assert (is_some (source_sha256 enc_stats)) in
    let* _ := assert (is_some (target_sha256 enc_stats)) in
    let* (dec_stats, w) := unwrap (decode_file w source_path delta_path output_path) in
    let* _ := assert (is_some (output_sha256 dec_stats)) in
    let* _ := assert (bool_decide (output_sha256 dec_stats = target_sha256 enc_stats)) in
    let w := cleanup_temp_files w [source_path; target_path; delta_path; output_path] in
    Ok tt
  else Ok tt.
End Tests.

Section Pass.
Context {B : Build} `{Adler32Laws} `{CodecLaws} `{Sha256} `{OsLaws} `{!OsWorks} (c : cpu) (temp_dir : string).

Lemma write_temp_file_ok w name data :
  write_temp_file temp_dir w name data = Ok (temp_path temp_dir name, set_file w (temp_path temp_dir name) data).
Proof.
  unfold write_temp_file. rewrite file_create_ok. cbn [unwrap bind]. by rewrite set_file_twice.
Qed.

Lemma temp_path_ne a b : a <> b -> temp_path temp_dir a <> temp_path temp_dir b.
Proof. intros Hne Heq. apply Hne. by do 2 apply (inj (String.append _)) in Heq. Qed.

Ltac write_files := repeat (rewrite write_temp_file_ok; cbn [bind]).

(** What the four files hold after the two calls, and what is reported. *)
Lemma file_calls w sn tn dn on s t :
  let sp := temp_path temp_dir sn in let tp := temp_path temp_dir tn in
  let dp := temp_path temp_dir dn in let op := temp_path temp_dir on in
  let w4 := set_file (set_file (set_file (set_file w sp s) tp t) dp []) op [] in
  sn <> tn /\ sn <> dn /\ sn <> on /\ tn <> dn /\ tn <> on /\ dn <> on -> wf_bytes s -> lenZ s < 2 ^ 62 -> wf_bytes t -> 1 <= lenZ t <= 2 ^ 23 ->
  seam_free s t = true ->
  exists (delta : bytes) n w5 w6, 1 <= n /\ 0 < lenZ delta /\
    encode_file c w4 sp tp dp default_options
    = Ok (encode_stats (lenZ s) (lenZ t) (lenZ delta) n (digest s) (digest t), w5) /\
    decode_file w5 sp dp op = Ok (decode_stats (lenZ s) (lenZ delta) (lenZ t) n (digest t), w6) /\
    fs_read w6 op = Ok t.
Proof.
  intros sp tp dp op w4 (N12 & N13 & N14 & N23 & N24 & N34) Hsw Hsl Htw [Ht1 Htl] Hsf.
  assert (sp <> tp /\ sp <> dp /\ sp <> op /\ tp <> dp /\ tp <> op /\ dp <> op) as (H12 & H13 & H14 & H23 & H24 & H34)
    by (split_and!; by apply temp_path_ne).
  assert (files w4 !! sp = Some s /\ files w4 !! tp = Some t /\ file_bytes (set_file w4 dp []) tp = t) as (Hs & Ht & Hrd).
  { unfold w4. by autorewrite with files. }
  pose proof default_ok as Hoo.
  destruct (encode_file_ok c w4 sp tp dp default_options s t) as (delta & n & Henc & Hd);
    rewrite ?Hrd; try done; [lia|..].
  { apply merges_safe_seamless; try done. unfold windows_seamless. rewrite one_window by (split; [done|exact Htl]).
    cbn [forallb]. by rewrite Hsf. }
  rewrite Hrd in *. assert (1 <= n /\ 0 < lenZ delta) as [Hn Hdl].
  { destruct Hd as (ts & (ws & -> & _ & _ & -> & _) & <-).
    destruct ts as [|t0 ts]; [change (lenZ (concat (@nil bytes))) with 0 in *; lia|].
    rewrite lenZ_cons, lenZ_app. pose proof (lenZ_nonneg ts). pose proof (lenZ_nonneg (concat ws)).
    split; [lia|]. enough (0 < lenZ (file_header_bytes (header_of default_options))) by lia. done. }
  exists delta, n, (set_file w4 dp delta), (set_file (set_file w4 dp delta) op t).
  split; [done|]. split; [done|]. split; [exact Henc|].
  rewrite (decode_file_ok (set_file w4 dp delta) sp dp op default_options s delta t n);
    [|by autorewrite with files..|done|done|lia|done].
  rewrite Z.max_r by lia. split; [done|]. apply fs_read_ok. by autorewrite with files.
Qed.
(** The tests of files pass in every world whose system works. *)
Theorem io_tests_pass w :
  Forall (fun t => t = Ok tt)
    [encode_decode_file_roundtrip c temp_dir w; encode_decode_no_source c temp_dir w;
     sha256_checksums_computed c temp_dir w].
Proof.
  repeat apply Forall_cons_2; [..|constructor].
  - unfold encode_decode_file_roundtrip. cbv zeta. write_files.
    destruct (file_calls w "source.bin" "target.bin" "delta.vcdiff" "output.bin"
      (text "The quick brown fox jumps over the lazy dog. 1234567890")
      (text "The quick brown cat sits on the lazy mat. 1234567890!!!"))
      as (delta & n & w5 & w6 & Hn & Hd & -> & Hdec & Hread);
      [by split_and!|apply text_wf|done|apply text_wf|done|vm_compute; reflexivity|].
    cbn [unwrap bind]. rewrite Hdec. cbn [unwrap bind]. rewrite Hread.
    cbn [unwrap source_size target_size delta_size windows_encoded output_size windows_decoded].
    apply Z.ltb_lt in Hd. apply Z.leb_le in Hn. by rewrite Hd, Hn.
  - unfold encode_decode_no_source. cbv zeta. write_files.
    destruct (file_calls w "nosrc_source.bin" "nosrc_target.bin" "nosrc_delta.vcdiff" "nosrc_output.bin" []
      (text "standalone data without any source"))
      as (delta & n & w5 & w6 & _ & _ & -> & Hdec & Hread);
      [by split_and!|constructor|done|apply text_wf|done|vm_compute; reflexivity|].
    cbn [unwrap bind]. rewrite Hdec. cbn [unwrap bind]. by rewrite Hread.
  - unfold sha256_checksums_computed. destruct file_io eqn:Hf; [|done]. cbv zeta. write_files.
    destruct (file_calls w "sha_source.bin" "sha_target.bin" "sha_delta.vcdiff" "sha_output.bin"
      (text "source for checksum test") (text "target for checksum test"))
      as (delta & n & w5 & w6 & _ & _ & -> & Hdec & _);
      [by split_and!|apply text_wf|done|apply text_wf|done|vm_compute; reflexivity|].
    cbn [unwrap bind source_sha256 target_sha256]. unfold digest. rewrite Hf. cbn [is_some assert bind].
    rewrite Hdec. cbn [unwrap bind output_sha256]. unfold digest. rewrite Hf. cbn [is_some assert bind].
    by rewrite bool_decide_eq_true_2.
Qed.
End Pass.
End IoTests.
