(* ===== verification/PropTests.v ===== *)
(** * The property of the random tests ([src/tests/proptest_properties.rs])

    The test that states the round trip for random bytes, as a function of what
    its generators produce.  It passes at level 0 and for bytes without seams,
    and fails for sixteen bytes the generators can produce. *)

From stdpp Require Import base numbers list option.
From Stdlib Require Import ZArith Lia.
From S2P Require Import Prelude Header WindowEncoder Source Secondary WindowDecoder Kernels Matching Delta.
From S2P Require Import DeltaCorrect Seams Fuzz Examples FormatTests FrontTests.

Local Open Scope Z_scope.
Local Open Scope rust_scope.

Module Proptest.
Section Tests.
Context {B : Build} `{Adler32} `{Codecs} (c : cpu).

Definition encode (source target : bytes) (level : Z) : result unit bytes :=
  unwrap (encode_all c [] source target
    (compress_options level (window_size default_options) (checksum default_options) NoSecondary)).

(** What the generators can produce. *)
Definition generated (source target : bytes) (level : Z) : Prop :=
  wf_bytes source /\ lenZ source < 4096 /\ wf_bytes target /\ lenZ target < 4096 /\ 0 <= level <= 9.

Definition prop_encode_decode_roundtrip (source target : bytes) (level : Z) : test :=
  let* delta := encode source target level in
  let* decoded := unwrap (decode_all source delta) in
  assert_eq decoded target.
End Tests.
End Proptest.

(** The round trip the random tests state holds at level 0, whatever the bytes,
    and at every level for bytes without seams. *)
Theorem prop_roundtrip_holds {B : Build} `{Adler32Laws} `{CodecLaws} (c : cpu) source target level :
  Proptest.generated source target level -> level = 0 \/ seam_free source target = true ->
  Proptest.prop_encode_decode_roundtrip c source target level = Ok tt.
Proof.
  intros (Hs & Hsl & Ht & Htl & Hlv) Hcase.
  set (opts := compress_options level (window_size default_options) (checksum default_options) NoSecondary).
  assert (options_ok opts) as Hoo by (apply no_secondary_ok; [lia|done]).
  pose proof (cap_window_ok opts target Hoo) as Hoo'.
  assert (merges_safe c source (cap_window opts target) target = true) as Hsafe.
  { destruct Hcase as [Hz|Hsf].
    - apply merges_safe_store; [done|lia|done|]. unfold cap_window, opts. by destruct (_ <? _).
    - destruct (decide (target = [])) as [->|Hne]; [apply merges_safe_nil; (done || lia)|].
      apply merges_safe_seamless; [done|lia|done|done|]. unfold windows_seamless.
      rewrite one_window; [cbn [forallb]; by rewrite Hsf|]. destruct target as [|b target]; [done|].
      rewrite lenZ_cons in *. pose proof (lenZ_nonneg target). split; [lia|].
      unfold cap_window. change (window_size opts) with (2 ^ 23).
      destruct (Z.ltb_spec (lenZ (b :: target)) (2 ^ 23)); cbn [window_size]; rewrite lenZ_cons in *; lia. }
  destruct (encode_all_ok c source target opts) as (delta & Henc & Hdec); [done|lia|done|lia|done|done|].
  unfold Proptest.prop_encode_decode_roundtrip, Proptest.encode. fold opts. rewrite Henc. cbn [unwrap bind].
  rewrite Hdec. cbn [unwrap bind]. unfold assert_eq. by rewrite bool_decide_eq_true_2.
Qed.

(** For one target the tests may generate it does not hold, at any searching
    level: the delta is rejected and the test panics. *)
Theorem prop_roundtrip_fails (level : Z) :
  1 <= level <= 9 ->
  Proptest.generated [] two_runs level /\
  Proptest.prop_encode_decode_roundtrip (B:={| debug_build := true |}) (H:=adler32_fallback) (H0:=zeros_codecs)
    X86_sse2 [] two_runs level = Panic.
Proof.
  intros Hl. split.
  - split_and!; [apply wf_bytes_nil|done|by apply in_range_list|done|lia|lia].
  - destruct (recode_some _ _ _ _ (two_runs_merged level true Hl)) as (delta & Henc & Hdec).
    unfold DeltaCorrect.checked_build, DeltaCorrect.fallback, DeltaCorrect.sample_codecs in *.
    unfold Proptest.prop_encode_decode_roundtrip, Proptest.encode.
    change (compress_options level (window_size default_options) (checksum default_options) NoSecondary)
      with (compress_options level (Z.shiftl 1 23) true NoSecondary).
    rewrite Henc. cbn [unwrap bind]. by rewrite Hdec.
Qed.
